(* ===== verification/_CoqProject ===== *)
-Q . S2P
Prelude.v
Riscv.v
CString.v
Kalloc.v
Vm.v
VmInv.v
AddrSpace.v
UserCopy.v
Spinlock.v
Cache.v
Bio.v
BioInv.v
Log.v
LogInv.v
Crash.v
Fs.v
FsBlock.v
FsDemo.v
Kern.v
KernInv.v
Pipe.v
PipeInv.v
Console.v
ConsoleInv.v
File.v
Proc.v
Args.v
Exec.v
Sysfile.v
Virtio.v
Syscall.v
Trap.v
Printf.v
PrintfInv.v
VirtioSys.v
VirtioInv.v
VirtioStep.v
VirtioRefine.v
VirtioLive.v
Keeps.v
FileInv.v
FileRefs.v
FileSys.v
ProcInv.v
KillInv.v
Grep.v
Umalloc.v
UmallocInv.v
Sh.v
ShInv.v
ShGrammar.v
UPrintf.v
User.v
Primes.v
PrimesInv.v
PrimesStep.v
PrimesRun.v
PrimesLive.v
PrimesLimit.v
Pingpong.v
Asm.v
AsmInv.v
Swtch.v
Initcode.v
FsFile.v
FsWrite.v
FsRw.v
FsDir.v
Split.v
FsPath.v
FsName.v
FsFileDemo.v
Ulib.v
Xargs.v
Find.v
UserProgs.v
