(* ===== verification/Prelude.v ===== *)
(** * Verification of the xv6-riscv kernel of this repository

    The repository is the xv6 operating system for RISC-V with the programs of
    the first lab (LAB=util).  This library translates the kernel (src/kernel)
    and the user programs (src/user) into executable functions and proves what
    they do.

    ** The program and its model

    The kernel is in layers, and so is the model: every layer has a state of
    its own, a record that contains the state of the layer below, and every C
    function is a function of the same name in the monad [M S A] of this file,
    whose outcomes are a result with a new state, a panic, or a sleep.  A call
    that sleeps and goes on is split into its runs between two sleeps
    (names ending in [_run]).  Integers are [Z] with the wrap-around of their
    width written out ([u64], [u32], [s32] ...); memory is a finite map from
    addresses to bytes, and structures that the code keeps in memory (page
    tables, the free list, pipes, trap frames, blocks) are kept there.
    Pointers to entries of the fixed tables (buffers, inodes, files,
    processes) are their indices.  Addresses that the linker chooses are a
    parameter, the class [Linker] of Kalloc.

    - Prelude: the monad, total-correctness rules [wp], the memory, lists and
      integers.  Riscv: param.h, memlayout.h, riscv.h, fcntl.h.
    - CString: string.c.  Kalloc: kalloc.c.  Vm, VmInv, AddrSpace, UserCopy:
      vm.c, with the invariant of page tables, uvmalloc and uvmdealloc, and
      copyin, copyout and copyinstr.
    - Spinlock: spinlock.c, also as interleaved steps of several harts.
    - Cache: the class [BlockCache], what the buffer cache promises to log.c
      and fs.c.  Bio is bio.c, and BioInv shows that it is an instance.
    - Log, LogInv, Crash: log.c, written against [BlockCache], and crashes
      between any two writes of the disk.
    - Fs: all of fs.c over the log.  FsBlock: bitmaps.  FsFile, FsWrite, FsRw:
      bmap, readi, writei, iupdate.  FsDir: iget, dirlookup, dirlink.  Split,
      FsPath, FsName: skipelem and namex.  FsDemo, FsFileDemo: a small disk on
      which the theorems are instantiated.
    - Kern, KernInv: the state of the kernel (processes, files, console,
      clock) and its frames.  Pipe, PipeInv: pipe.c.  Console, ConsoleInv:
      console.c and uart.c.  File: file.c.  Proc: proc.c.  Args, Syscall:
      syscall.c and sysproc.c.  Exec: exec.c.  Sysfile: sysfile.c.  Trap:
      trap.c and plic.c.  Printf, PrintfInv: printf.c.
    - Keeps, FileInv, FileRefs, FileSys, ProcInv, KillInv: invariants of the
      file table and the process table through every system call.
    - Virtio: virtio_disk.c.  VirtioSys: the driver, its callers and a device
      as one event system.  VirtioInv, VirtioStep, VirtioRefine, VirtioLive:
      its invariant, refinement and progress.
    - Asm, AsmInv, Swtch, Initcode: trampoline.S, swtch.S, kernelvec.S, entry.S
      and initcode, instruction by instruction on a model of a hart.
    - Ulib, UPrintf, Umalloc, UmallocInv: ulib.c, printf.c and umalloc.c of
      src/user.  Sh, ShInv, ShGrammar: the parser of sh.c.  Grep: grep.c.
    - User: programs as processes that interleave at system calls.  Primes,
      PrimesInv, PrimesStep, PrimesRun, PrimesLive, PrimesLimit: primes.c.
      Pingpong: pingpong.c.  Xargs: xargs.c.  Find: find.c.  UserProgs: cat.c,
      wc.c, echo.c, sleep.c and kill.c.

    ** What the theorems show

    - Storage.  bio.c implements the abstract block cache; a transaction of
      log.c is atomic under a crash at any point of commit, and recovery may be
      repeated after a crash in it.  The disk driver refines a disk that reads
      and writes blocks atomically, with any number of callers and any order of
      completion, and under every fair schedule every call returns, woken by
      nothing but the driver itself.
    - Files.  What writei writes readi reads back; dirlookup and dirlink search
      and extend a directory; namex finds the inode that a path denotes.  All of
      them are total: they return, without a panic, in the states described.
    - Memory.  uvmalloc allocates everything or nothing, and every page it took
      is mapped or a page table in the tree;
      copyout and copyinstr agree with definitions that go byte by byte, and
      copyin reads back what copyout wrote.
    - Processes.  Every system call keeps the reference counts of open files
      equal to the number of descriptors, and the process table consistent,
      also where it sleeps.  Spin locks exclude each other.  Pipes are bounded
      queues; the console is a line editor.
    - Assembly.  A trap saves and restores all registers of the user; swtch
      resumes the context it is given; kernelvec is transparent; initcode
      executes exec("/init").
    - Programs.  The parser of the shell accepts exactly its grammar and
      terminates; the allocator keeps blocks apart, and every byte of the heap is
      in an allocated block or in the free list; grep prints the lines that match; primes and pingpong print what they should under every
      interleaving; xargs runs one command for each line, find prints the paths
      with the name, wc counts.
    - Flaws.  Some theorems show what the code does wrong: the reservation of
      log space, %u of the kernel's printf, kill(0), xargs on an input that
      ends with a newline, and primes with a full file table.

    ** Bounds and fuel

    A loop with a bound known at its entry runs with that bound as fuel: the
    number of entries of a table, of pages, of bytes, or of blocks.  The panic
    ["loop bound"] marks the end of such fuel, and the theorems that say that
    an operation returns exclude it.  Loops that run to a NUL byte take a bound
    as an argument, and their theorems hold for every bound larger than the
    string.  xargs and the processes of [User] are run for any number of steps;
    their theorems say how many are enough or that no number is.  find takes
    the depth of the directories as fuel, and its theorem asks for enough.

    ** Assumptions

    Outside Spinlock and VirtioSys a critical section is atomic: the kernel
    functions run on one hart between two sleeps.  The device of VirtioSys
    follows the virtio specification.  [User] takes the contracts of the system
    calls, not their code.  In UmallocInv sbrk extends the heap, to less than
    2^36, or refuses.  The theorems on xargs are for commands that end and do not
    read the standard input, and say what they assume of its uninitialised
    variable.  The fair runs of VirtioLive are those in which a process that can
    run runs, the device goes on with its requests and interrupts for them.

    ** Abstractions

    Messages are left out where nothing depends on them: the printf of syscall
    for an unknown number, of usertrap for an unexpected trap, and of fs.c.  The
    checks of sched, that it is called with one lock held and interrupts off, are
    left out with the locks outside Spinlock.  The acknowledgement of an interrupt
    to the disk is not a state of the device of VirtioSys, which may interrupt at
    any time.  Block numbers of a transfer are below 2^31.  The nesting count of
    push_off and the reference counts of files do not wrap around.  malloc does not
    fail in the parser of the shell.  In find, fstat and read of an open file do
    not fail, and the stack is deep enough.  A read of primes from a pipe returns
    what is there, up to four bytes.

    ** Not modelled

    start.c, main.c, kernel.ld, kvminit, kvminithart, plicinit, plicinithart,
    uartinit and consoleinit: sequences of writes to registers of the hart and
    of devices.  fileinit, trapinit, printfinit and initsleeplock: they name
    locks.  cpuid, mycpu and procdump.  runcmd and main of sh.c, main of
    grep.c, find.c and wc.c.  init.c, ls.c, ln.c, mkdir.c, rm.c and zombie.c:
    a few system calls each.  usertests.c, grind.c, forktest.c and stressfs.c:
    tests.  mkfs.c: a program of the host; the theorems on the file system
    state what they assume of the image.  defs.h, types.h, user.h, usys.pl:
    declarations and stubs. *)
From stdpp Require Export ssreflect base gmap list strings numbers sets.
From Stdlib Require Export Lia.
#[export] Set Warnings "-rewrite-rw,-clear-no-such-hyp,-level-tolerance".
(** [lia] reasons about [/] and [mod] by constants. *)
Ltac Zify.zify_post_hook ::= Z.div_mod_to_equations.

(** The closing tactic: stdpp's, except that [discriminate] is only tried on
    equations between constructors, so that it never evaluates programs. *)
Ltac head_of t := match t with ?f _ => head_of f | _ => t end.
Ltac quick_discriminate :=
  match goal with
  | H : ?a = ?b |- _ =>
      let ha := head_of a in let hb := head_of b in
      is_constructor ha; is_constructor hb; discriminate H
  | |- not (?a = ?b) =>
      let ha := head_of a in let hb := head_of b in
      is_constructor ha; is_constructor hb; discriminate
  | |- Z.le ?a ?b =>
      let ha := head_of a in let hb := head_of b in
      is_constructor ha; is_constructor hb; discriminate
  end.
Ltac done :=
  solve
  [ repeat first
    [ fast_done
    | solve [trivial]
    | progress intros
    | solve [symmetry; trivial]
    | solve [apply not_symmetry; trivial]
    | quick_discriminate
    | contradiction
    | split
    | match goal with H : ¬ _ |- _ => case H; clear H; fast_done end ] ].
Tactic Notation "by" tactic(tac) := tac; done.

#[global] Open Scope general_if_scope.
#[global] Open Scope Z_scope.

(** ** Machine integers

    C integers are [Z] with the wrap-around of their width written out. *)

Definition u8 (x : Z) : Z := x mod 2 ^ 8.
Definition u16 (x : Z) : Z := x mod 2 ^ 16.
Definition u32 (x : Z) : Z := x mod 2 ^ 32.
Definition u64 (x : Z) : Z := x mod 2 ^ 64.
Definition s8 (x : Z) : Z := (x + 2 ^ 7) mod 2 ^ 8 - 2 ^ 7.
Definition s16 (x : Z) : Z := (x + 2 ^ 15) mod 2 ^ 16 - 2 ^ 15.
Definition s32 (x : Z) : Z := (x + 2 ^ 31) mod 2 ^ 32 - 2 ^ 31.
Definition s64 (x : Z) : Z := (x + 2 ^ 63) mod 2 ^ 64 - 2 ^ 63.

(** ** The kernel monad

    A kernel function is run by one thread of control on the state [S] it
    can reach.  It returns, or it calls [panic] (printf.c:162, which never
    returns), or it calls [sleep] (proc.c:546) on a channel and gives up the
    processor. *)

Definition chan : Type := string * Z.

Inductive outcome (S A : Type) : Type :=
| Ret (a : A) (s : S)
| Panic (msg : string)
| Sleep (c : chan) (s : S).
Arguments Ret {S A} a s.
Arguments Panic {S A} msg.
Arguments Sleep {S A} c s.

Definition M (S A : Type) : Type := S → outcome S A.

#[global] Instance M_ret {S} : MRet (M S) := λ A a s, Ret a s.
#[global] Instance M_bind {S} : MBind (M S) := λ A B f m s,
  match m s with
  | Ret a s' => f a s'
  | Panic e => Panic e
  | Sleep c s' => Sleep c s'
  end.

Definition panic {S A} (msg : string) : M S A := λ _, Panic msg.
Definition sleep {S A} (c : chan) : M S A := λ s, Sleep c s.
Definition get {S} : M S S := λ s, Ret s s.
Definition put {S} (s : S) : M S unit := λ _, Ret tt s.
Definition gets {S A} (f : S → A) : M S A := λ s, Ret (f s) s.
Definition modify {S} (f : S → S) : M S unit := λ s, Ret tt (f s).

(** The value a numeric function returned. *)
Definition ret_val {S} (o : outcome S Z) : Z := match o with Ret a _ => a | _ => -2 end.
(** The state a function returned in, from [s] if it did not return. *)
Definition ret_state {S A} (o : outcome S A) (s : S) : S := match o with Ret _ s' => s' | _ => s end.

Lemma Ret_inj {S A} (a b : A) (s t : S) : Ret a s = Ret b t → a = b ∧ s = t.
Proof. by intros [= -> ->]. Qed.
Lemma ret_state_eq {S} (o : outcome S Z) s z :
  0 ≤ z → ret_val o = z → o = Ret z (ret_state o s).
Proof. destruct o; cbn; [by intros _ ->|lia..]. Qed.

(** Running a component's function inside the state of its client. *)
Definition lift {S C A} (g : S → C) (p : C → S → S) (m : M C A) : M S A :=
  λ s, match m (g s) with
       | Ret a c => Ret a (p c s)
       | Panic e => Panic e
       | Sleep ch c => Sleep ch (p c s)
       end.

Section monad_laws.
Context {S : Type}.
Implicit Types s : S.

Lemma bind_ret_inv {A B} (m : M S A) (f : A → M S B) s b s' :
  (m ≫= f) s = Ret b s' →
  ∃ a s1, m s = Ret a s1 ∧ f a s1 = Ret b s'.
Proof. rewrite /mbind /M_bind. destruct (m s); naive_solver. Qed.

Lemma bind_ret {A B} (m : M S A) (f : A → M S B) s a s1 :
  m s = Ret a s1 → (m ≫= f) s = f a s1.
Proof. rewrite /mbind /M_bind. by intros ->. Qed.

Lemma bind_panic {A B} (m : M S A) (f : A → M S B) s e :
  m s = Panic e → (m ≫= f) s = Panic e.
Proof. rewrite /mbind /M_bind. by intros ->. Qed.
Lemma bind_gets {A B} (g : S → A) (f : A → M S B) s : (gets g ≫= f) s = f (g s) s.
Proof. done. Qed.

Lemma bind_get {B} (f : S → M S B) s : (get ≫= f) s = f s s.
Proof. done. Qed.

Lemma bind_modify {B} (g : S → S) (f : unit → M S B) s : (modify g ≫= f) s = f tt (g s).
Proof. done. Qed.

Lemma bind_assoc {A B C} (m : M S A) (f : A → M S B) (g : B → M S C) s :
  ((m ≫= f) ≫= g) s = (m ≫= λ a, f a ≫= g) s.
Proof. rewrite /mbind /M_bind. by destruct (m s). Qed.

Lemma bind_mret {A B} (a : A) (f : A → M S B) s : (mret a ≫= f) s = f a s.
Proof. done. Qed.
End monad_laws.

(** ** Total correctness

    [wp m s Q]: [m] run in [s] returns, in a result and a state that satisfy
    [Q]. *)
Definition wp {S A} (m : M S A) (s : S) (Q : A → S → Prop) : Prop :=
  ∃ a s', m s = Ret a s' ∧ Q a s'.

Section wp.
Context {S : Type}.
Implicit Types s : S.

Lemma wp_ret {A} (m : M S A) s a s' (Q : A → S → Prop) : m s = Ret a s' → Q a s' → wp m s Q.
Proof. by exists a, s'. Qed.
Lemma wp_bind {A B} (m : M S A) (f : A → M S B) s (Q : B → S → Prop) :
  wp m s (λ a s', wp (f a) s' Q) → wp (m ≫= f) s Q.
Proof. intros (a & s1 & E & b & s2 & E2 & HQ). exists b, s2. by rewrite (bind_ret _ _ _ _ _ E). Qed.
Lemma wp_bind_panic {A B} (m : M S A) (f : A → M S B) s e :
  wp m s (λ a s', f a s' = Panic e) → (m ≫= f) s = Panic e.
Proof. intros (a & s1 & E & HP). by rewrite (bind_ret _ _ _ _ _ E). Qed.
Lemma wp_mono {A} (m : M S A) s (Q Q' : A → S → Prop) :
  wp m s Q → (∀ a s', Q a s' → Q' a s') → wp m s Q'.
Proof. intros (a & s' & E & HQ) HQ'. exists a, s'. auto. Qed.
Lemma wp_mret {A} (a : A) s (Q : A → S → Prop) : Q a s → wp (mret a) s Q.
Proof. by exists a, s. Qed.
Lemma wp_get s (Q : S → S → Prop) : Q s s → wp get s Q.
Proof. by exists s, s. Qed.
Lemma wp_gets {A} (f : S → A) s (Q : A → S → Prop) : Q (f s) s → wp (gets f) s Q.
Proof. by exists (f s), s. Qed.
Lemma wp_put s t (Q : unit → S → Prop) : Q tt t → wp (put t) s Q.
Proof. by exists tt, t. Qed.
Lemma wp_modify f s (Q : unit → S → Prop) : Q tt (f s) → wp (modify f) s Q.
Proof. by exists tt, (f s). Qed.
Lemma wp_if {A} (b : bool) (m1 m2 : M S A) s (Q : A → S → Prop) :
  (b = true → wp m1 s Q) → (b = false → wp m2 s Q) → wp (if b then m1 else m2) s Q.
Proof. destruct b; auto. Qed.
Lemma wp_lift {C A} (g : S → C) (p : C → S → S) (m : M C A) s (Q : A → S → Prop) :
  wp m (g s) (λ a c, Q a (p c s)) → wp (lift g p m) s Q.
Proof. intros (a & c & E & HQ). exists a, (p c s). by rewrite /lift E. Qed.
End wp.

(** [wp_pure] goes through the monad's own operations. *)
Ltac wp_pure1 :=
  match goal with
  | |- wp (_ ≫= _) _ _ => apply wp_bind
  | |- wp (mret _) _ _ => apply wp_mret
  | |- wp get _ _ => apply wp_get
  | |- wp (gets _) _ _ => apply wp_gets
  | |- wp (put _) _ _ => apply wp_put
  | |- wp (modify _) _ _ => apply wp_modify
  end.
Ltac wp_pure := repeat (wp_pure1; cbv beta).

(** [minv] takes apart an equation [m s = Ret _ _] of a monadic program. *)
Ltac minv_step :=
  match goal with
  | H : Ret _ _ = Ret _ _ |- _ => injection H as ??; subst
  | H : Panic _ = Ret _ _ |- _ => discriminate H
  | H : Sleep _ _ = Ret _ _ |- _ => discriminate H
  | H : (_ ≫= _) _ = Ret _ _ |- _ =>
      let a := fresh "a" in let s := fresh "st" in
      let H1 := fresh "Hm" in let H2 := fresh "Hk" in
      apply bind_ret_inv in H as (a & s & H1 & H2)
  | H : mret _ _ = Ret _ _ |- _ => rewrite /mret /M_ret in H
  | H : panic _ _ = Ret _ _ |- _ => discriminate H
  | H : sleep _ _ = Ret _ _ |- _ => discriminate H
  | H : get _ = Ret _ _ |- _ => rewrite /get in H
  | H : put _ _ = Ret _ _ |- _ => rewrite /put in H
  | H : gets _ _ = Ret _ _ |- _ => rewrite /gets in H
  | H : modify _ _ = Ret _ _ |- _ => rewrite /modify in H
  end.
Ltac minv := repeat (minv_step; cbn beta iota in * ).

(** [mrun] computes the monad's plumbing in the goal. *)
Ltac mrun :=
  rewrite /mbind /M_bind /mret /M_ret /get /put /gets /modify /panic /sleep /=.

(** ** Arithmetic shared by the components *)

Create HintDb xv6 discriminated.

Lemma u8_range x : 0 ≤ u8 x < 256.
Proof. apply (Z.mod_pos_bound x (2 ^ 8)). lia. Qed.
Lemma u32_range x : 0 ≤ u32 x < 2 ^ 32.
Proof. apply Z.mod_pos_bound. lia. Qed.
Lemma u64_range x : 0 ≤ u64 x < 2 ^ 64.
Proof. apply Z.mod_pos_bound. lia. Qed.
Lemma u8_small x : 0 ≤ x < 256 → u8 x = x.
Proof. intros. apply Z.mod_small. lia. Qed.
Lemma u16_small x : 0 ≤ x < 2 ^ 16 → u16 x = x.
Proof. intros. apply Z.mod_small. lia. Qed.
Lemma u32_small x : 0 ≤ x < 2 ^ 32 → u32 x = x.
Proof. intros. apply Z.mod_small. lia. Qed.
Lemma u64_small x : 0 ≤ x < 2 ^ 64 → u64 x = x.
Proof. intros. apply Z.mod_small. lia. Qed.
Lemma s32_small x : - 2 ^ 31 ≤ x < 2 ^ 31 → s32 x = x.
Proof. intros. rewrite /s32 Z.mod_small; lia. Qed.
Lemma s16_small x : - 2 ^ 15 ≤ x < 2 ^ 15 → s16 x = x.
Proof. intros. rewrite /s16 Z.mod_small; lia. Qed.
Lemma s32_range x : - 2 ^ 31 ≤ s32 x < 2 ^ 31.
Proof. rewrite /s32. lia. Qed.
Lemma u32_s32 x : u32 (s32 x) = u32 x.
Proof. rewrite /u32 /s32 Zminus_mod_idemp_l. f_equal. lia. Qed.
Lemma u8_u8 x : u8 (u8 x) = u8 x.
Proof. rewrite /u8 Z.mod_mod; lia. Qed.
#[export] Hint Resolve u8_range u32_range u64_range : xv6.

(** ** Byte-addressed memory

    Physical memory, and the contents of a disk block, are finite maps from
    byte addresses (offsets) to bytes; an absent byte reads as 0. *)

Abbreviation mem := (gmap Z Z).

Definition ld8 (m : mem) (a : Z) : Z := u8 (default 0 (m !! a)).
Definition st8 (m : mem) (a v : Z) : mem := <[a := u8 v]> m.

(** Little-endian words of [n] bytes. *)
Fixpoint ld_le (n : nat) (m : mem) (a : Z) : Z :=
  match n with
  | O => 0
  | S n' => ld8 m a + 256 * ld_le n' m (a + 1)
  end.
Fixpoint st_le (n : nat) (m : mem) (a v : Z) : mem :=
  match n with
  | O => m
  | S n' => st8 (st_le n' m (a + 1) (v / 256)) a v
  end.

Definition ld16 := ld_le 2.
Definition ld32 := ld_le 4.
Definition ld64 := ld_le 8.
Definition st16 := st_le 2.
Definition st32 := st_le 4.
Definition st64 := st_le 8.

#[global] Arguments ld16 : simpl never.
#[global] Arguments ld32 : simpl never.
#[global] Arguments ld64 : simpl never.
#[global] Arguments st16 : simpl never.
#[global] Arguments st32 : simpl never.
#[global] Arguments st64 : simpl never.

(** The bytes [m[a .. a+n)] as a list, and the store of such a list. *)
Fixpoint ld_bytes (n : nat) (m : mem) (a : Z) : list Z :=
  match n with
  | O => []
  | S n' => ld8 m a :: ld_bytes n' m (a + 1)
  end.
Fixpoint st_bytes (m : mem) (a : Z) (l : list Z) : mem :=
  match l with
  | [] => m
  | b :: l' => st_bytes (st8 m a b) (a + 1) l'
  end.

Lemma ld8_range m a : 0 ≤ ld8 m a < 256.
Proof. apply u8_range. Qed.
#[export] Hint Resolve ld8_range : xv6.

Lemma ld8_st8 m a v b : ld8 (st8 m a v) b = if decide (b = a) then u8 v else ld8 m b.
Proof.
  rewrite /ld8 /st8. case_decide as Hd.
  - subst. by rewrite lookup_insert_eq /= u8_u8.
  - by rewrite lookup_insert_ne.
Qed.

Lemma ld8_st8_eq m a v : ld8 (st8 m a v) a = u8 v.
Proof. rewrite ld8_st8. by case_decide. Qed.
Lemma ld8_st8_ne m a v b : b ≠ a → ld8 (st8 m a v) b = ld8 m b.
Proof. rewrite ld8_st8. by case_decide. Qed.

Lemma ld8_st_le_ne n m a v b :
  (b < a ∨ a + Z.of_nat n ≤ b) → ld8 (st_le n m a v) b = ld8 m b.
Proof.
  revert a v. induction n as [|n IH]; intros a v Hb; [done|].
  cbn [st_le]. rewrite ld8_st8_ne; [|lia]. apply IH. lia.
Qed.

Lemma ld_le_range n m a : 0 ≤ ld_le n m a < 256 ^ Z.of_nat n.
Proof.
  revert a. induction n as [|n IH]; intros a; [cbn; lia|].
  cbn [ld_le]. rewrite Nat2Z.inj_succ Z.pow_succ_r; [|lia].
  pose proof (ld8_range m a). specialize (IH (a + 1)). lia.
Qed.

Lemma ld_le_ext n m1 m2 a :
  (∀ b, a ≤ b < a + Z.of_nat n → ld8 m1 b = ld8 m2 b) → ld_le n m1 a = ld_le n m2 a.
Proof.
  revert a. induction n as [|n IH]; intros a Hb; [done|].
  cbn [ld_le]. rewrite (Hb a); [|lia]. rewrite (IH (a + 1)); [done|]. intros; apply Hb; lia.
Qed.

Lemma ld_st_le_eq n m a v : ld_le n (st_le n m a v) a = v mod 256 ^ Z.of_nat n.
Proof.
  revert a v. induction n as [|n IH]; intros a v.
  { cbn. by rewrite Z.mod_1_r. }
  cbn [ld_le st_le]. rewrite ld8_st8_eq.
  rewrite (ld_le_ext n _ (st_le n m (a + 1) (v / 256))).
  2:{ intros b Hb. apply ld8_st8_ne. lia. }
  rewrite IH Nat2Z.inj_succ Z.pow_succ_r; [|lia].
  rewrite Z.rem_mul_r; [reflexivity|lia..].
Qed.

Lemma ld_st_le_ne n n' m a v b :
  b + Z.of_nat n ≤ a ∨ a + Z.of_nat n' ≤ b →
  ld_le n (st_le n' m a v) b = ld_le n m b.
Proof. intros H. apply ld_le_ext. intros c Hc. apply ld8_st_le_ne. lia. Qed.

Lemma ld64_range m a : 0 ≤ ld64 m a < 2 ^ 64.
Proof. apply (ld_le_range 8). Qed.
Lemma ld32_range m a : 0 ≤ ld32 m a < 2 ^ 32.
Proof. apply (ld_le_range 4). Qed.
Lemma ld16_range m a : 0 ≤ ld16 m a < 2 ^ 16.
Proof. apply (ld_le_range 2). Qed.
Lemma ld64_st64_eq m a v : ld64 (st64 m a v) a = u64 v.
Proof. apply (ld_st_le_eq 8). Qed.
Lemma ld64_st64_ne m a v b : b + 8 ≤ a ∨ a + 8 ≤ b → ld64 (st64 m a v) b = ld64 m b.
Proof. intros. apply (ld_st_le_ne 8 8). lia. Qed.
Lemma ld8_st64_ne m a v b : b < a ∨ a + 8 ≤ b → ld8 (st64 m a v) b = ld8 m b.
Proof. intros. apply (ld8_st_le_ne 8). lia. Qed.
Lemma ld64_ext m1 m2 a :
  (∀ b, a ≤ b < a + 8 → ld8 m1 b = ld8 m2 b) → ld64 m1 a = ld64 m2 a.
Proof. intros. by apply (ld_le_ext 8). Qed.
#[export] Hint Resolve ld64_range ld32_range ld16_range : xv6.

Lemma length_ld_bytes n m a : length (ld_bytes n m a) = n.
Proof. revert a. induction n as [|n IH]; intros a; [done|]. cbn. by rewrite IH. Qed.

Lemma lookup_ld_bytes n m a (i : nat) :
  (i < n)%nat → ld_bytes n m a !! i = Some (ld8 m (a + Z.of_nat i)).
Proof.
  revert a i. induction n as [|n IH]; intros a i Hi; [lia|].
  destruct i as [|i]; cbn [ld_bytes].
  - cbn. do 2 f_equal. lia.
  - rewrite -/(ld_bytes n m (a + 1)) lookup_cons IH; [|lia]. do 2 f_equal. lia.
Qed.

Lemma ld8_st_bytes m a l b :
  ld8 (st_bytes m a l) b =
  if decide (a ≤ b < a + Z.of_nat (length l)) then u8 (nth (Z.to_nat (b - a)) l 0) else ld8 m b.
Proof.
  revert m a. induction l as [|x l IH]; intros m a; cbn [st_bytes length].
  - case_decide; [lia|done].
  - rewrite IH ld8_st8. repeat case_decide; try lia; try done.
    + replace (Z.to_nat (b - a)) with (S (Z.to_nat (b - (a + 1)))) by lia. done.
    + subst. by rewrite Z.sub_diag.
Qed.

Lemma ld_bytes_ext n m1 m2 a :
  (∀ b, a ≤ b < a + Z.of_nat n → ld8 m1 b = ld8 m2 b) → ld_bytes n m1 a = ld_bytes n m2 a.
Proof.
  revert a. induction n as [|n IH]; intros a Hb; [done|].
  cbn [ld_bytes]. rewrite (Hb a); [|lia]. rewrite (IH (a + 1)); [done|]. intros; apply Hb; lia.
Qed.

Lemma ld_st_bytes_eq m a l :
  Forall (λ b, 0 ≤ b < 256) l → ld_bytes (length l) (st_bytes m a l) a = l.
Proof.
  revert m a. induction l as [|x l IH]; intros m a Hl; [done|].
  apply Forall_cons in Hl as [Hx Hl]. cbn [length st_bytes ld_bytes]. f_equal.
  - rewrite ld8_st_bytes. case_decide; [lia|]. by rewrite ld8_st8_eq u8_small.
  - by apply IH.
Qed.

Lemma ld_bytes_range n m a : Forall (λ b, 0 ≤ b < 256) (ld_bytes n m a).
Proof. revert a. induction n as [|n IH]; intros a; constructor; auto using ld8_range. Qed.

Lemma ld_bytes_app n1 n2 m a :
  ld_bytes (n1 + n2) m a = ld_bytes n1 m a ++ ld_bytes n2 m (a + Z.of_nat n1).
Proof.
  revert a. induction n1 as [|n IH]; intros a; cbn [Nat.add ld_bytes app].
  - f_equal. cbn. lia.
  - rewrite IH. do 3 f_equal. lia.
Qed.

#[global] Opaque ld16 ld32 ld64 st16 st32 st64.
