(* ===== verification/Riscv.v ===== *)
(** * Constants and address arithmetic

    kernel/param.h, kernel/fcntl.h, kernel/memlayout.h, kernel/fs.h (sizes) and the Sv39
    macros of kernel/riscv.h.  The repository builds with LAB=util
    (conf/lab.mk), so the [LAB_UTIL] branches of param.h are the ones taken. *)
From S2P Require Import Prelude.

(** ** kernel/param.h *)
Definition NPROC : Z := 64.
Definition NCPU : Z := 8.
Definition NOFILE : Z := 16.
Definition NFILE : Z := 100.
Definition NINODE : Z := 50.
Definition NDEV : Z := 10.
Definition ROOTDEV : Z := 1.
Definition MAXARG : Z := 32.
Definition MAXOPBLOCKS : Z := 10.
Definition LOGSIZE : Z := MAXOPBLOCKS * 3.
Definition NBUF : Z := MAXOPBLOCKS * 3.
Definition FSSIZE : Z := 2000.
Definition MAXPATH : Z := 128.
Definition USERSTACK : Z := 2.

(** ** kernel/fcntl.h *)
Definition O_RDONLY : Z := 0x000.
Definition O_WRONLY : Z := 0x001.
Definition O_RDWR : Z := 0x002.
Definition O_CREATE : Z := 0x200.
Definition O_TRUNC : Z := 0x400.

(** ** kernel/riscv.h *)
Definition PGSIZE : Z := 4096.
Definition PGSHIFT : Z := 12.

Definition PTE_V : Z := 1.
Definition PTE_R : Z := 2.
Definition PTE_W : Z := 4.
Definition PTE_X : Z := 8.
Definition PTE_U : Z := 16.

Definition PGROUNDUP (sz : Z) : Z := Z.land (u64 (sz + PGSIZE - 1)) (u64 (Z.lnot (PGSIZE - 1))).
Definition PGROUNDDOWN (a : Z) : Z := Z.land a (u64 (Z.lnot (PGSIZE - 1))).

Definition PA2PTE (pa : Z) : Z := u64 (Z.shiftl (Z.shiftr pa 12) 10).
Definition PTE2PA (pte : Z) : Z := u64 (Z.shiftl (Z.shiftr pte 10) 12).
Definition PTE_FLAGS (pte : Z) : Z := Z.land pte 1023.

Definition PXMASK : Z := 511.
Definition PXSHIFT (level : Z) : Z := PGSHIFT + 9 * level.
Definition PX (level va : Z) : Z := Z.land (Z.shiftr va (PXSHIFT level)) PXMASK.

Definition MAXVA : Z := 2 ^ (9 + 9 + 9 + 12 - 1).

Definition SATP_SV39 : Z := Z.shiftl 8 60.
Definition MAKE_SATP (pagetable : Z) : Z := Z.lor SATP_SV39 (Z.shiftr pagetable 12).

Definition SSTATUS_SPP : Z := Z.shiftl 1 8.
Definition SSTATUS_SPIE : Z := Z.shiftl 1 5.
Definition SSTATUS_SIE : Z := Z.shiftl 1 1.

(** ** kernel/memlayout.h *)
Definition KERNBASE : Z := 0x80000000.
Definition PHYSTOP : Z := KERNBASE + 128 * 1024 * 1024.
Definition UART0 : Z := 0x10000000.
Definition UART0_IRQ : Z := 10.
Definition VIRTIO0 : Z := 0x10001000.
Definition VIRTIO0_IRQ : Z := 1.
Definition PLIC : Z := 0x0c000000.
Definition TRAMPOLINE : Z := MAXVA - PGSIZE.
Definition KSTACK (p : Z) : Z := TRAMPOLINE - (p + 1) * 2 * PGSIZE.
Definition TRAPFRAME : Z := TRAMPOLINE - PGSIZE.

(** [klia] is [lia] with the constants above unfolded. *)
Ltac consts :=
  unfold NPROC, NCPU, NOFILE, NFILE, NINODE, NDEV, ROOTDEV, MAXARG, LOGSIZE, NBUF,
    MAXOPBLOCKS, FSSIZE, MAXPATH, USERSTACK, PGSIZE, PGSHIFT, PTE_V, PTE_R, PTE_W, PTE_X,
    PTE_U, PXMASK, TRAPFRAME, TRAMPOLINE, MAXVA, PHYSTOP, KERNBASE in *.
Ltac klia := consts; lia.

(** A bit test [x & (1 << i)] as a boolean. *)
Definition has (x flag : Z) : bool := negb (Z.land x flag =? 0).

(** ** Masks as division and remainder *)

Lemma land_ones_mod x k : 0 ≤ k → Z.land x (2 ^ k - 1) = x mod 2 ^ k.
Proof. intros. rewrite -Z.land_ones // Z.ones_equiv Z.sub_1_r //. Qed.

Lemma land_pgmask x : 0 ≤ x < 2 ^ 64 → Z.land x (u64 (Z.lnot (PGSIZE - 1))) = x / 4096 * 4096.
Proof.
  intros Hx. change (u64 (Z.lnot (PGSIZE - 1))) with (Z.shiftl (Z.ones 52) 12).
  apply Z.bits_inj'. intros n Hn. rewrite Z.land_spec Z.shiftl_spec //.
  change 4096 with (2 ^ 12). rewrite -(Z.shiftr_div_pow2 x 12) // -Z.shiftl_mul_pow2 //.
  rewrite Z.shiftl_spec //. destruct (decide (n < 12)).
  - rewrite !(Z.testbit_neg_r _ (n - 12)); [|lia..]. by rewrite andb_false_r.
  - rewrite Z.shiftr_spec; [|lia]. replace (n - 12 + 12) with n by lia.
    destruct (decide (n < 64)).
    + rewrite Z.ones_spec_low; [|lia]. by rewrite andb_true_r.
    + rewrite Z.ones_spec_high; [|lia]. rewrite andb_false_r.
      destruct (decide (x = 0)) as [->|]; [by rewrite Z.bits_0|].
      rewrite Z.bits_above_log2 //; [lia|].
      apply Z.log2_lt_pow2; [lia|]. apply Z.lt_le_trans with (2 ^ 64); [lia|].
      apply Z.pow_le_mono_r; lia.
Qed.

Lemma PGROUNDUP_eq x : 0 ≤ x < 2 ^ 64 - 4096 → PGROUNDUP x = (x + 4095) / 4096 * 4096.
Proof.
  intros. rewrite /PGROUNDUP land_pgmask; [|apply u64_range].
  rewrite u64_small /PGSIZE; [|lia]. do 2 f_equal. lia.
Qed.

Lemma PGROUNDDOWN_eq x : 0 ≤ x < 2 ^ 64 → PGROUNDDOWN x = x / 4096 * 4096.
Proof. apply land_pgmask. Qed.

Lemma PGROUNDUP_aligned x : PGROUNDUP x mod PGSIZE = 0.
Proof.
  rewrite /PGROUNDUP land_pgmask; [|apply u64_range]. apply Z.mod_mul. klia.
Qed.

(** The virtual page number, and the three page-table indices as its digits. *)
Definition vpn (va : Z) : Z := va / 4096.

Lemma PX_eq (level va : Z) : 0 ≤ level → PX level va = vpn va / 512 ^ level mod 512.
Proof.
  intros Hl. rewrite /PX /PXMASK (land_ones_mod _ 9) // /PXSHIFT /PGSHIFT.
  rewrite Z.shiftr_div_pow2; [|lia]. rewrite Z.pow_add_r; [|lia..].
  rewrite -Z.div_div; [|lia..]. by rewrite (Z.pow_mul_r 2 9).
Qed.

Lemma PX_range level va : 0 ≤ PX level va < 512.
Proof. rewrite /PX /PXMASK (land_ones_mod _ 9) //. apply Z.mod_pos_bound. lia. Qed.
#[export] Hint Resolve PX_range : xv6.

(** ** Page-table entries *)

Lemma PTE2PA_eq pte : 0 ≤ pte < 2 ^ 62 → PTE2PA pte = pte / 1024 * 4096.
Proof.
  intros. rewrite /PTE2PA Z.shiftr_div_pow2 // Z.shiftl_mul_pow2 //.
  apply u64_small. lia.
Qed.

Lemma PA2PTE_eq pa : 0 ≤ pa < 2 ^ 56 → PA2PTE pa = pa / 4096 * 1024.
Proof.
  intros. rewrite /PA2PTE Z.shiftr_div_pow2 // Z.shiftl_mul_pow2 //.
  apply u64_small. lia.
Qed.

Lemma lor_low_add a b k : 0 ≤ k → 0 ≤ b < 2 ^ k → Z.lor (a * 2 ^ k) b = a * 2 ^ k + b.
Proof.
  intros Hk Hb. rewrite -Z.add_lor_land.
  enough (Z.land (a * 2 ^ k) b = 0) as -> by lia.
  apply Z.bits_inj'. intros n Hn. rewrite Z.land_spec Z.bits_0.
  destruct (decide (n < k)).
  - rewrite Z.mul_pow2_bits_low //.
  - destruct (decide (b = 0)) as [->|]; [by rewrite Z.bits_0 andb_false_r|].
    rewrite (Z.bits_above_log2 b) ?andb_false_r //; [lia|].
    apply Z.log2_lt_pow2; [lia|]. apply Z.lt_le_trans with (2 ^ k); [lia|].
    apply Z.pow_le_mono_r; lia.
Qed.

Lemma lor_range a b k : 0 ≤ k → 0 ≤ a < 2 ^ k → 0 ≤ b < 2 ^ k → 0 ≤ Z.lor a b < 2 ^ k.
Proof.
  intros Hk Ha Hb. assert (0 ≤ Z.lor a b) by (apply Z.lor_nonneg; lia). split; [done|].
  rewrite -(Z.mod_small a (2 ^ k)) // -(Z.mod_small b (2 ^ k)) //.
  rewrite -!Z.land_ones // -Z.land_lor_distr_l Z.land_ones //.
  apply Z.mod_pos_bound. lia.
Qed.

(** The entry [mappages] writes: [PA2PTE(pa) | perm | PTE_V]. *)
Lemma pte_encode pa perm :
  0 ≤ pa < 2 ^ 56 → 0 ≤ perm < 1024 →
  Z.lor (Z.lor (PA2PTE pa) perm) PTE_V = pa / 4096 * 1024 + Z.lor perm PTE_V.
Proof.
  intros Hpa Hp. rewrite PA2PTE_eq // -Z.lor_assoc. apply (lor_low_add _ _ 10); [lia|].
  apply lor_range; rewrite /PTE_V; lia.
Qed.

Lemma PTE2PA_encode pa perm :
  0 ≤ pa < 2 ^ 56 → pa mod 4096 = 0 → 0 ≤ perm < 1024 →
  PTE2PA (Z.lor (Z.lor (PA2PTE pa) perm) PTE_V) = pa.
Proof.
  intros Hpa Hal Hp. rewrite pte_encode //.
  assert (0 ≤ Z.lor perm PTE_V < 2 ^ 10) by (apply lor_range; rewrite /PTE_V; lia).
  rewrite PTE2PA_eq; lia.
Qed.

Lemma PTE_FLAGS_encode pa perm :
  0 ≤ pa < 2 ^ 56 → 0 ≤ perm < 1024 →
  PTE_FLAGS (Z.lor (Z.lor (PA2PTE pa) perm) PTE_V) = Z.lor perm PTE_V.
Proof.
  intros Hpa Hp. rewrite pte_encode // /PTE_FLAGS (land_ones_mod _ 10) //.
  assert (0 ≤ Z.lor perm PTE_V < 2 ^ 10) by (apply lor_range; rewrite /PTE_V; lia).
  rewrite Z.add_comm Z.mod_add; [|lia]. apply Z.mod_small. lia.
Qed.

Lemma has_lor_V x : has (Z.lor x PTE_V) PTE_V = true.
Proof.
  rewrite /has Z.land_lor_distr_l Z.land_diag. apply negb_true_iff, Z.eqb_neq.
  rewrite Z.lor_eq_0_iff. rewrite /PTE_V. naive_solver.
Qed.

Lemma has_0 f : has 0 f = false.
Proof. done. Qed.
