(* ===== verification/CString.v ===== *)
(** * kernel/string.c

    The byte-string routines of the kernel on byte-addressed memory.  Each C
    loop is a structural [Fixpoint] on its remaining count; [strlen], whose
    loop has no bound, takes fuel and says when it ran out.  (On RISC-V [char]
    is unsigned, so a loaded [char] is the byte itself.) *)
From S2P Require Import Prelude.

(** ** Definitions *)

(** [for(i = 0; i < n; i++) cdst[i] = c;] *)
Fixpoint memset_loop (n : nat) (m : mem) (cdst c : Z) : mem :=
  match n with
  | O => m
  | S n' => memset_loop n' (st8 m cdst c) (cdst + 1) c
  end.
Definition memset (m : mem) (dst c n : Z) : mem := memset_loop (Z.to_nat n) m dst c.

Fixpoint memcmp_loop (n : nat) (m : mem) (s1 s2 : Z) : Z :=
  match n with
  | O => 0
  | S n' =>
      if negb (ld8 m s1 =? ld8 m s2) then ld8 m s1 - ld8 m s2
      else memcmp_loop n' m (s1 + 1) (s2 + 1)
  end.
Definition memcmp (m : mem) (v1 v2 n : Z) : Z := memcmp_loop (Z.to_nat n) m v1 v2.

(** [while(n-- > 0) *d++ = *s++;] *)
Fixpoint memmove_fwd (n : nat) (m : mem) (d s : Z) : mem :=
  match n with
  | O => m
  | S n' => memmove_fwd n' (st8 m d (ld8 m s)) (d + 1) (s + 1)
  end.
(** [while(n-- > 0) *--d = *--s;] *)
Fixpoint memmove_bwd (n : nat) (m : mem) (d s : Z) : mem :=
  match n with
  | O => m
  | S n' => memmove_bwd n' (st8 m (d - 1) (ld8 m (s - 1))) (d - 1) (s - 1)
  end.
Definition memmove (m : mem) (dst src n : Z) : mem :=
  if n =? 0 then m
  else if (src <? dst) && (src + n >? dst)
       then memmove_bwd (Z.to_nat n) m (dst + n) (src + n)
       else memmove_fwd (Z.to_nat n) m dst src.
Definition memcpy (m : mem) (dst src n : Z) : mem := memmove m dst src n.

(** [while(n > 0 && *p && *p == *q) n--, p++, q++;] and what follows it. *)
Fixpoint strncmp_loop (n : nat) (m : mem) (p q : Z) : Z :=
  match n with
  | O => 0
  | S n' =>
      if negb (ld8 m p =? 0) && (ld8 m p =? ld8 m q)
      then strncmp_loop n' m (p + 1) (q + 1)
      else ld8 m p - ld8 m q
  end.
Definition strncmp (m : mem) (p q n : Z) : Z := strncmp_loop (Z.to_nat n) m p q.

(** The two loops of [strncpy]: the second fills with NULs what the first,
    stopped by a NUL, left. *)
Fixpoint strncpy_fill (n : nat) (m : mem) (s : Z) : mem :=
  match n with
  | O => m
  | S n' => strncpy_fill n' (st8 m s 0) (s + 1)
  end.
Fixpoint strncpy_loop (n : nat) (m : mem) (s t : Z) : mem :=
  match n with
  | O => m
  | S n' =>
      let c := ld8 m t in
      let m1 := st8 m s c in
      if negb (c =? 0) then strncpy_loop n' m1 (s + 1) (t + 1)
      else strncpy_fill n' m1 (s + 1)
  end.
Definition strncpy (m : mem) (s t n : Z) : mem := strncpy_loop (Z.to_nat n) m s t.

(** [while(--n > 0 && ( *s++ = *t++) != 0) ; *s = 0;] with [k] = n - 1 left. *)
Fixpoint safestrcpy_loop (k : nat) (m : mem) (s t : Z) : mem :=
  match k with
  | O => st8 m s 0
  | S k' =>
      let c := ld8 m t in
      let m1 := st8 m s c in
      if negb (c =? 0) then safestrcpy_loop k' m1 (s + 1) (t + 1)
      else st8 m1 (s + 1) 0
  end.
Definition safestrcpy (m : mem) (s t n : Z) : mem :=
  if n <=? 0 then m else safestrcpy_loop (Z.to_nat (n - 1)) m s t.

(** [for(n = 0; s[n]; n++) ;] *)
Fixpoint strlen_loop (fuel : nat) (m : mem) (s n : Z) : option Z :=
  match fuel with
  | O => None
  | S fuel' => if ld8 m (s + n) =? 0 then Some n else strlen_loop fuel' m s (n + 1)
  end.
Definition strlen (fuel : nat) (m : mem) (s : Z) : option Z := strlen_loop fuel m s 0.

#[global] Arguments memset : simpl never.
#[global] Arguments memmove : simpl never.

(** ** Specifications *)

(** The C string of at most [n] bytes at [p], without its NUL. *)
Fixpoint cstrn (n : nat) (m : mem) (p : Z) : list Z :=
  match n with
  | O => []
  | S n' => if ld8 m p =? 0 then [] else ld8 m p :: cstrn n' m (p + 1)
  end.

Lemma ld8_memset_loop n m d c a :
  ld8 (memset_loop n m d c) a =
  if decide (d ≤ a < d + Z.of_nat n) then u8 c else ld8 m a.
Proof.
  revert m d. induction n as [|n IH]; intros m d; cbn [memset_loop].
  - case_decide; [lia|done].
  - rewrite IH ld8_st8. repeat case_decide; done || lia.
Qed.

Lemma ld8_memset m d c n a :
  0 ≤ n →
  ld8 (memset m d c n) a = if decide (d ≤ a < d + n) then u8 c else ld8 m a.
Proof. intros. rewrite /memset ld8_memset_loop. repeat case_decide; done || lia. Qed.

Lemma ld8_memset_in m d c n a :
  d ≤ a < d + n → ld8 (memset m d c n) a = u8 c.
Proof. intros. rewrite ld8_memset; [|lia]. by case_decide. Qed.

Lemma ld8_memset_out m d c n a :
  0 ≤ n → a < d ∨ d + n ≤ a → ld8 (memset m d c n) a = ld8 m a.
Proof. intros. rewrite ld8_memset; [|lia]. case_decide; [lia|done]. Qed.

Lemma ld64_memset_out m d c n a :
  0 ≤ n → a + 8 ≤ d ∨ d + n ≤ a → ld64 (memset m d c n) a = ld64 m a.
Proof. intros. apply ld64_ext. intros. apply ld8_memset_out; lia. Qed.

Lemma ld64_memset_0 m d n a : d ≤ a → a + 8 ≤ d + n → ld64 (memset m d 0 n) a = 0.
Proof.
  intros. rewrite (ld64_ext _ ∅); [done|]. intros.
  by rewrite ld8_memset_in; [|lia].
Qed.

Lemma ld8_memmove_fwd n m d s a :
  d ≤ s ∨ s + Z.of_nat n ≤ d →
  ld8 (memmove_fwd n m d s) a =
  if decide (d ≤ a < d + Z.of_nat n) then ld8 m (s + (a - d)) else ld8 m a.
Proof.
  revert m d s. induction n as [|n IH]; intros m d s Hds; cbn [memmove_fwd].
  - case_decide; [lia|done].
  - rewrite IH; [|lia]. rewrite !ld8_st8.
    repeat case_decide; try lia; try done.
    + f_equal. lia.
    + rewrite u8_small; [|apply ld8_range]. f_equal. lia.
Qed.

Lemma ld8_memmove_bwd n m d s a :
  s ≤ d →
  ld8 (memmove_bwd n m d s) a =
  if decide (d - Z.of_nat n ≤ a < d) then ld8 m (s + (a - d)) else ld8 m a.
Proof.
  revert m d s. induction n as [|n IH]; intros m d s Hds; cbn [memmove_bwd].
  - case_decide; [lia|done].
  - rewrite IH; [|lia]. rewrite !ld8_st8.
    repeat case_decide; try lia; try done.
    + f_equal. lia.
    + rewrite u8_small; [|apply ld8_range]. f_equal. lia.
Qed.

(** [memmove] copies as if through a buffer: whatever the overlap, the
    destination holds the bytes the source had before, and no other byte
    changes. *)
Lemma ld8_memmove m dst src n a :
  0 ≤ n →
  ld8 (memmove m dst src n) a =
  if decide (dst ≤ a < dst + n) then ld8 m (src + (a - dst)) else ld8 m a.
Proof.
  intros Hn. rewrite /memmove. destruct (Z.eqb_spec n 0) as [->|Hn0].
  { case_decide; [lia|done]. }
  destruct (Z.ltb_spec src dst), (Z.gtb_spec (src + n) dst); cbn [andb].
  - rewrite ld8_memmove_bwd; [|lia].
    repeat case_decide; try lia; try done. f_equal. lia.
  - rewrite ld8_memmove_fwd; [|lia]. repeat case_decide; done || lia.
  - rewrite ld8_memmove_fwd; [|lia]. repeat case_decide; done || lia.
  - rewrite ld8_memmove_fwd; [|lia]. repeat case_decide; done || lia.
Qed.

(** [memcmp] is 0 exactly on equal buffers. *)
Lemma memcmp_loop_0 n m s1 s2 :
  memcmp_loop n m s1 s2 = 0 ↔ ld_bytes n m s1 = ld_bytes n m s2.
Proof.
  revert s1 s2. induction n as [|n IH]; intros s1 s2; [done|].
  cbn [memcmp_loop ld_bytes]. destruct (Z.eqb_spec (ld8 m s1) (ld8 m s2)) as [E|E]; cbn [negb].
  - rewrite IH E. split; [by intros ->|]. by intros [= ->].
  - split; [lia|]. intros [= ??]. lia.
Qed.

(** [strncmp] is 0 exactly when the two strings agree up to [n] bytes. *)
Lemma strncmp_loop_0 n m p q :
  strncmp_loop n m p q = 0 ↔ cstrn n m p = cstrn n m q.
Proof.
  revert p q. induction n as [|n IH]; intros p q; [done|].
  cbn [strncmp_loop cstrn].
  destruct (Z.eqb_spec (ld8 m p) 0) as [E|E], (Z.eqb_spec (ld8 m p) (ld8 m q)) as [F|F];
    cbn [negb andb].
  - rewrite -F E /= Z.sub_diag. done.
  - destruct (Z.eqb_spec (ld8 m q) 0); [lia|]. split; [lia|done].
  - destruct (Z.eqb_spec (ld8 m q) 0); [lia|]. rewrite IH F. split; [by intros ->|]. by intros [= ->].
  - destruct (Z.eqb_spec (ld8 m q) 0); split; try lia; try done. intros [= ??]. lia.
Qed.

Lemma cstrn_S n m p :
  cstrn (S n) m p = if ld8 m p =? 0 then [] else ld8 m p :: cstrn n m (p + 1).
Proof. done. Qed.

Lemma cstrn_ext n m1 m2 p :
  (∀ a, p ≤ a < p + Z.of_nat n → ld8 m1 a = ld8 m2 a) → cstrn n m1 p = cstrn n m2 p.
Proof.
  revert p. induction n as [|n IH]; intros p Ha; [done|].
  cbn [cstrn]. rewrite (Ha p); [|lia]. rewrite (IH (p + 1)); [done|]. intros; apply Ha; lia.
Qed.

Lemma length_cstrn n m p : (length (cstrn n m p) ≤ n)%nat.
Proof.
  revert p. induction n as [|n IH]; intros p; cbn [cstrn]; [done|].
  case_match; cbn; [lia|]. specialize (IH (p + 1)). lia.
Qed.

Lemma ld8_strncpy_fill n m s a :
  ld8 (strncpy_fill n m s) a = if decide (s ≤ a < s + Z.of_nat n) then 0 else ld8 m a.
Proof.
  revert m s. induction n as [|n IH]; intros m s; cbn [strncpy_fill].
  - case_decide; [lia|done].
  - rewrite IH ld8_st8. repeat case_decide; done || lia.
Qed.

Lemma ld_bytes_strncpy_fill n m s : ld_bytes n (strncpy_fill n m s) s = replicate n 0.
Proof.
  apply list_eq. intros i. destruct (decide (i < n)%nat).
  - rewrite lookup_ld_bytes // lookup_replicate_2 // ld8_strncpy_fill. case_decide; done || lia.
  - rewrite !lookup_ge_None_2 //; rewrite ?length_ld_bytes ?length_replicate; lia.
Qed.

Lemma ld8_strncpy_out n m s t a :
  a < s ∨ s + Z.of_nat n ≤ a → ld8 (strncpy_loop n m s t) a = ld8 m a.
Proof.
  revert m s t. induction n as [|n IH]; intros m s t Ha; cbn [strncpy_loop]; [done|].
  case_match.
  - rewrite IH; [|lia]. apply ld8_st8_ne. lia.
  - rewrite ld8_strncpy_fill. case_decide; [lia|]. apply ld8_st8_ne. lia.
Qed.

(** Between disjoint buffers [strncpy] writes the string, padded with NULs to
    exactly [n] bytes. *)
Lemma ld_bytes_strncpy n m s t :
  s + Z.of_nat n ≤ t ∨ t + Z.of_nat n ≤ s →
  ld_bytes n (strncpy_loop n m s t) s =
  cstrn n m t ++ replicate (n - length (cstrn n m t)) 0.
Proof.
  revert m s t. induction n as [|n IH]; intros m s t Hd; [done|].
  cbn [strncpy_loop cstrn]. set (m1 := st8 m s (ld8 m t)).
  assert (ld8 m1 s = ld8 m t) as Hs.
  { rewrite /m1 ld8_st8_eq u8_small //. apply ld8_range. }
  destruct (Z.eqb_spec (ld8 m t) 0) as [E|E]; cbn [negb].
  - cbn [app length]. rewrite Nat.sub_0_r. cbn [replicate ld_bytes]. f_equal.
    + rewrite ld8_strncpy_fill. case_decide; [lia|]. by rewrite Hs.
    + apply ld_bytes_strncpy_fill.
  - cbn [app length Nat.sub ld_bytes]. f_equal.
    + rewrite ld8_strncpy_out; [|lia]. done.
    + rewrite IH; [|lia]. rewrite (cstrn_ext n m1 m (t + 1)); [done|].
      intros. apply ld8_st8_ne. lia.
Qed.

(** The bytes [l], none of them 0, and a NUL are at [p]. *)
Fixpoint cstr_at (m : mem) (p : Z) (l : list Z) : Prop :=
  match l with
  | [] => ld8 m p = 0
  | b :: l' => ld8 m p = b ∧ b ≠ 0 ∧ cstr_at m (p + 1) l'
  end.
Lemma cstr_at_ext m m' p l : (∀ a, p ≤ a ≤ p + Z.of_nat (length l) → ld8 m' a = ld8 m a) → cstr_at m p l → cstr_at m' p l.
Proof.
  revert p. induction l as [|b l IH]; intros p Hm; cbn [cstr_at length]; [rewrite Hm //; lia|]. intros (Hb & Hb0 & Hl). split; [rewrite Hm //; cbn [length] in *; lia|]. split; [done|]. apply IH; [|done]. intros a Ha. apply Hm. cbn [length]. lia.
Qed.
Lemma cstr_at_app m p l1 l2 : cstr_at m p (l1 ++ l2) → cstr_at m (p + Z.of_nat (length l1)) l2.
Proof.
  revert p. induction l1 as [|b l1 IH]; intros p; cbn [app cstr_at length]; [by rewrite Z.add_0_r|]. intros (_ & _ & Hl). apply IH in Hl. by replace (p + Z.of_nat (S (length l1))) with (p + 1 + Z.of_nat (length l1)) by lia.
Qed.
Lemma cstrn_at n m p l : cstr_at m p l → cstrn n m p = take n l.
Proof.
  revert p l. induction n as [|n IH]; intros p l Hl; [done|]. cbn [cstrn]. destruct l as [|b l]; cbn [cstr_at] in Hl; [by rewrite Hl|]. destruct Hl as (-> & Hb & Hl). by rewrite (proj2 (Z.eqb_neq _ _) Hb) (IH _ _ Hl).
Qed.

Lemma cstr_at_lookup m p l (i : nat) b : cstr_at m p l → l !! i = Some b → ld8 m (p + Z.of_nat i) = b ∧ b ≠ 0.
Proof.
  revert p i. induction l as [|c l IH]; intros p i Hl Hi; [by rewrite lookup_nil in Hi|]. cbn [cstr_at] in Hl. destruct Hl as (Hc & Hc0 & Hl). destruct i as [|i]; [injection Hi as <-; by rewrite Z.add_0_r|].
  replace (p + Z.of_nat (S i)) with (p + 1 + Z.of_nat i) by lia. by apply IH.
Qed.
Lemma cstrn_bytes n m p e : (∀ (i : nat) b, (i < n)%nat → e !! i = Some b → ld8 m (p + Z.of_nat i) = b ∧ b ≠ 0) → ((length e < n)%nat → ld8 m (p + Z.of_nat (length e)) = 0) → cstrn n m p = take n e.
Proof.
  revert p e. induction n as [|n IH]; intros p e Hb He; [done|]. cbn [cstrn]. destruct e as [|b e]; [cbn in He; rewrite Z.add_0_r in He; rewrite He //; lia|].
  destruct (Hb 0%nat b ltac:(lia) eq_refl) as [E Hb0]. rewrite Z.add_0_r in E. rewrite E (proj2 (Z.eqb_neq _ _) Hb0). cbn [take]. f_equal. apply IH.
  - intros i c Hi Hc. replace (p + 1 + Z.of_nat i) with (p + Z.of_nat (S i)) by lia. apply Hb; [lia|done].
  - intros Hlen. replace (p + 1 + Z.of_nat (length e)) with (p + Z.of_nat (length (b :: e))) by (cbn; lia). apply He. cbn. lia.
Qed.

Lemma ld8_safestrcpy_out k m s t a :
  a < s ∨ s + Z.of_nat k < a → ld8 (safestrcpy_loop k m s t) a = ld8 m a.
Proof.
  revert m s t. induction k as [|k IH]; intros m s t Ha; cbn [safestrcpy_loop].
  - apply ld8_st8_ne. lia.
  - case_match; rewrite ?IH ?ld8_st8_ne //; lia.
Qed.

(** [safestrcpy] always leaves a NUL-terminated prefix of the source. *)
Lemma cstrn_safestrcpy k m s t :
  s + Z.of_nat k < t ∨ t + Z.of_nat k ≤ s →
  cstrn (S k) (safestrcpy_loop k m s t) s = cstrn k m t.
Proof.
  revert m s t. induction k as [|k IH]; intros m s t Hd.
  { cbn [cstrn safestrcpy_loop]. by rewrite ld8_st8_eq. }
  cbn [safestrcpy_loop]. set (m1 := st8 m s (ld8 m t)).
  assert (ld8 m1 s = ld8 m t) as Hs.
  { rewrite /m1 ld8_st8_eq u8_small //. apply ld8_range. }
  rewrite (cstrn_S (S k)) (cstrn_S k m t).
  destruct (Z.eqb_spec (ld8 m t) 0) as [E|E]; cbn [negb].
  - rewrite ld8_st8_ne; [|lia]. by rewrite Hs E.
  - rewrite ld8_safestrcpy_out; [|lia]. rewrite Hs.
    destruct (Z.eqb_spec (ld8 m t) 0); [done|]. f_equal.
    rewrite IH; [|lia]. apply cstrn_ext. intros. apply ld8_st8_ne. lia.
Qed.

(** [strlen] stops at the first NUL, given fuel past it. *)
Lemma strlen_loop_spec fuel m s n k :
  0 ≤ n ≤ k → ld8 m (s + k) = 0 → (∀ j, n ≤ j < k → ld8 m (s + j) ≠ 0) →
  (Z.to_nat (k - n) < fuel)%nat → strlen_loop fuel m s n = Some k.
Proof.
  revert n. induction fuel as [|fuel IH]; intros n Hn Hk Hj Hf; [lia|].
  cbn [strlen_loop]. destruct (Z.eqb_spec (ld8 m (s + n)) 0) as [E|E].
  - destruct (decide (n = k)) as [->|]; [done|]. by destruct (Hj n); [lia|].
  - destruct (decide (n = k)) as [->|]; [done|]. apply IH; try lia; try done.
    intros. apply Hj. lia.
Qed.

(** ** The contract of the copying functions *)

(** [memmove] copies as if through a temporary buffer: each of the [n]
    destination bytes gets what its source byte held before the call, for
    any overlap of the two ranges, and no other byte changes. *)
Theorem memmove_correct m dst src n :
  0 ≤ n →
  ∀ a, ld8 (memmove m dst src n) a =
       if decide (dst ≤ a < dst + n) then ld8 m (src + (a - dst)) else ld8 m a.
Proof. intros Hn a. by apply ld8_memmove. Qed.

Lemma memmove_correct_witness :
  ld_bytes 4 (memmove (st_bytes ∅ 10 [1; 2; 3; 4]) 12 10 4) 12 = [1; 2; 3; 4].
Proof.
  cbn [ld_bytes]. rewrite !(memmove_correct _ 12 10 4) //.
Defined.

(** [safestrcpy] with a buffer of [n] > 0 bytes always leaves a
    NUL-terminated string: the source string cut to [n]-1 bytes.  It never
    writes outside the [n] bytes of the buffer. *)
Theorem safestrcpy_correct m s t n :
  0 < n → s + n ≤ t ∨ t + n ≤ s →
  cstrn (Z.to_nat n) (safestrcpy m s t n) s = cstrn (Z.to_nat (n - 1)) m t ∧
  (length (cstrn (Z.to_nat n) (safestrcpy m s t n) s) < Z.to_nat n)%nat ∧
  (∀ a, a < s ∨ s + n ≤ a → ld8 (safestrcpy m s t n) a = ld8 m a).
Proof.
  intros Hn Hd. rewrite /safestrcpy. destruct (Z.leb_spec n 0); [lia|].
  assert (cstrn (Z.to_nat n) (safestrcpy_loop (Z.to_nat (n - 1)) m s t) s =
    cstrn (Z.to_nat (n - 1)) m t) as E.
  { replace (Z.to_nat n) with (S (Z.to_nat (n - 1))) by lia. apply cstrn_safestrcpy. lia. }
  rewrite E. split_and!; [done| |].
  - pose proof (length_cstrn (Z.to_nat (n - 1)) m t). lia.
  - intros a Ha. apply ld8_safestrcpy_out. lia.
Qed.

Lemma safestrcpy_correct_witness :
  cstrn 3 (safestrcpy (st_bytes ∅ 100 [97; 98; 99; 0]) 10 100 3) 10 = [97; 98].
Proof.
  change 3%nat with (Z.to_nat 3).
  etrans; [apply (safestrcpy_correct (st_bytes ∅ 100 [97; 98; 99; 0]) 10 100 3); lia|].
  vm_compute. reflexivity.
Defined.

#[global] Opaque memset memmove strncpy safestrcpy.
