(* ===== verification/Kalloc.v ===== *)
(** * kernel/kalloc.c: the physical page allocator

    The free list is threaded through the free pages themselves, as in the
    code: the first eight bytes of a free page hold the address of the next
    one.  Each function is one critical section of [kmem.lock]; the locks
    themselves are modelled in Spinlock. *)
From S2P Require Import Prelude Riscv CString.

(** ** Linker symbols

    [end], [etext] and [trampoline] are addresses the linker script
    (kernel/kernel.ld) chooses; the kernel relies only on their order. *)
Class Linker := {
  kend : Z;
  etext : Z;
  trampoline : Z;
  linker_etext : KERNBASE < etext ∧ etext mod PGSIZE = 0;
  linker_end : etext ≤ kend ≤ PHYSTOP;
  linker_tramp : KERNBASE ≤ trampoline < etext ∧ trampoline mod PGSIZE = 0;
}.

(** ** State and operations *)

(** Physical memory and [kmem.freelist] (0 is the null pointer). *)
Record kmem := mk_kmem { km : mem; freelist : Z }.

Definition load64 (a : Z) : M kmem Z := gets (λ s, ld64 (km s) a).
Definition upd_mem (f : mem → mem) : M kmem unit :=
  modify (λ s, mk_kmem (f (km s)) (freelist s)).
Definition store64 (a v : Z) : M kmem unit := upd_mem (λ m, st64 m a v).
Definition kmemset (dst c n : Z) : M kmem unit := upd_mem (λ m, memset m dst c n).

Section kalloc.
Context {LK : Linker}.

Definition kfree_bad (pa : Z) : bool :=
  negb (pa mod PGSIZE =? 0) || (pa <? kend) || (pa >=? PHYSTOP).

Definition kfree (pa : Z) : M kmem unit :=
  if kfree_bad pa then panic "kfree"
  else
    kmemset pa 1 PGSIZE;;
    s ← get;
    store64 pa (freelist s);;
    modify (λ s, mk_kmem (km s) pa).

Definition kalloc : M kmem Z :=
  r ← gets freelist;
  (if negb (r =? 0) then
     next ← load64 r;
     modify (λ s, mk_kmem (km s) next)
   else mret tt);;
  (if negb (r =? 0) then kmemset r 5 PGSIZE else mret tt);;
  mret r.

(** [for(; p + PGSIZE <= pa_end; p += PGSIZE) kfree(p);] *)
Fixpoint freerange_loop (fuel : nat) (p pa_end : Z) : M kmem unit :=
  match fuel with
  | O => mret tt
  | S fuel' =>
      if p + PGSIZE <=? pa_end then kfree p;; freerange_loop fuel' (p + PGSIZE) pa_end
      else mret tt
  end.
Definition freerange (pa_start pa_end : Z) : M kmem unit :=
  freerange_loop (Z.to_nat (pa_end / PGSIZE)) (PGROUNDUP pa_start) pa_end.

Definition kinit : M kmem unit := freerange kend PHYSTOP.

(** ** Invariant *)

Definition page_ok (p : Z) : Prop := p mod PGSIZE = 0 ∧ kend ≤ p < PHYSTOP.

Fixpoint freelist_rep (m : mem) (head : Z) (pages : list Z) : Prop :=
  match pages with
  | [] => head = 0
  | p :: ps => head = p ∧ freelist_rep m (ld64 m p) ps
  end.

(** The allocator's free list represents the list [pages]. *)
Definition kmem_inv (s : kmem) (pages : list Z) : Prop :=
  NoDup pages ∧ Forall page_ok pages ∧ freelist_rep (km s) (freelist s) pages.

(** [m2] agrees with [m1] on every byte outside page [p]. *)
Definition same_outside (p : Z) (m1 m2 : mem) : Prop :=
  ∀ a, ¬ (p ≤ a < p + PGSIZE) → ld8 m2 a = ld8 m1 a.

(** ** Lemmas *)

Lemma page_ok_pos p : page_ok p → 0 < p < 2 ^ 56.
Proof. destruct linker_etext, linker_end. intros [??]. klia. Qed.

Lemma page_ok_sep p q : page_ok p → page_ok q → p ≠ q → p + PGSIZE ≤ q ∨ q + PGSIZE ≤ p.
Proof. intros [??] [??]. klia. Qed.

Lemma same_outside_refl p m : same_outside p m m.
Proof. done. Qed.
Lemma same_outside_trans p m1 m2 m3 :
  same_outside p m1 m2 → same_outside p m2 m3 → same_outside p m1 m3.
Proof. intros H1 H2 a Ha. by rewrite H2 // H1. Qed.

Lemma same_outside_ld64 p m1 m2 a :
  same_outside p m1 m2 → a + 8 ≤ p ∨ p + PGSIZE ≤ a → ld64 m2 a = ld64 m1 a.
Proof. intros Hs Ha. apply ld64_ext. intros. apply Hs. lia. Qed.

Lemma same_outside_memset p c m : same_outside p m (memset m p c PGSIZE).
Proof. intros a Ha. apply ld8_memset_out; klia. Qed.

Lemma same_outside_st64 p a v m :
  p ≤ a → a + 8 ≤ p + PGSIZE → same_outside p m (st64 m a v).
Proof. intros ?? b Hb. apply ld8_st64_ne. klia. Qed.

Lemma freelist_rep_ext m1 m2 head pages :
  (∀ p, p ∈ pages → ld64 m2 p = ld64 m1 p) →
  freelist_rep m1 head pages → freelist_rep m2 head pages.
Proof.
  revert head. induction pages as [|p ps IH]; intros head Hext; [done|].
  cbn [freelist_rep]. intros [-> Hr]. split; [done|].
  rewrite Hext; [|by left]. apply IH; [|done]. intros q Hq. apply Hext. by right.
Qed.

Lemma same_outside_rep p m1 m2 head pages :
  page_ok p → Forall page_ok pages → p ∉ pages → same_outside p m1 m2 →
  freelist_rep m1 head pages → freelist_rep m2 head pages.
Proof.
  intros Hp Hps Hnin Hs. apply freelist_rep_ext. intros q Hq.
  apply (same_outside_ld64 p); [done|].
  rewrite Forall_forall in Hps.
  destruct (page_ok_sep p q); [by auto..|set_solver|klia|klia].
Qed.

Lemma kfree_bad_false p : page_ok p → kfree_bad p = false.
Proof.
  intros [Hm Hr]. rewrite /kfree_bad Hm /=.
  apply orb_false_intro; [apply Z.ltb_ge|rewrite Z.geb_leb; apply Z.leb_gt]; lia.
Qed.

Lemma kfree_bad_true p : ¬ page_ok p → kfree_bad p = true.
Proof.
  intros Hn. rewrite /kfree_bad Z.geb_leb.
  destruct (Z.eqb_spec (p mod PGSIZE) 0); [|done].
  destruct (Z.ltb_spec p kend); [done|]. destruct (Z.leb_spec PHYSTOP p); [done|].
  by destruct Hn.
Qed.

Lemma kfree_run p s :
  page_ok p →
  kfree p s = Ret tt (mk_kmem (st64 (memset (km s) p 1 PGSIZE) p (freelist s)) p).
Proof. intros Hp. rewrite /kfree kfree_bad_false //. Qed.

Lemma kfree_spec p s pages :
  page_ok p → p ∉ pages → kmem_inv s pages →
  ∃ s', kfree p s = Ret tt s' ∧ kmem_inv s' (p :: pages) ∧ same_outside p (km s) (km s').
Proof.
  intros Hp Hnin (Hnd & Hok & Hrep). eexists; split; [by apply kfree_run|].
  set (m2 := st64 _ _ _). assert (same_outside p (km s) m2) as Hs.
  { eapply same_outside_trans; [apply same_outside_memset|].
    apply same_outside_st64; klia. }
  split; [|done]. split; [by constructor|]. split; [by constructor|].
  split; [done|]. cbn. rewrite /m2 ld64_st64_eq u64_small.
  - by eapply same_outside_rep.
  - destruct pages as [|q qs]; cbn in Hrep; [lia|]. destruct Hrep as [-> _].
    apply Forall_cons in Hok as [Hq _]. apply page_ok_pos in Hq. lia.
Qed.

Lemma kalloc_empty s : kmem_inv s [] → kalloc s = Ret 0 s.
Proof. intros (_ & _ & Hr). cbn in Hr. rewrite /kalloc. mrun. by rewrite Hr. Qed.

Lemma kalloc_cons s p pages :
  kmem_inv s (p :: pages) →
  ∃ s', kalloc s = Ret p s' ∧ kmem_inv s' pages ∧ same_outside p (km s) (km s') ∧
        (∀ a, p ≤ a < p + PGSIZE → ld8 (km s') a = 5).
Proof.
  intros (Hnd & Hok & [Hh Hrep]). apply NoDup_cons in Hnd as [Hnin Hnd].
  apply Forall_cons in Hok as [Hp Hok]. pose proof (page_ok_pos _ Hp).
  rewrite /kalloc. mrun. rewrite Hh. destruct (Z.eqb_spec p 0); [lia|]. cbn.
  eexists; split; [done|]. cbn. split_and!.
  - split; [done|]. split; [done|]. cbn.
    eapply same_outside_rep; [done..| |done]. apply same_outside_memset.
  - apply same_outside_memset.
  - intros a Ha. by rewrite ld8_memset_in.
Qed.

(** The pages [freerange] frees from [p] on, most recent first. *)
Fixpoint range_pages (n : nat) (p : Z) : list Z :=
  match n with
  | O => []
  | S n' => range_pages n' (p + PGSIZE) ++ [p]
  end.

Lemma elem_of_range_pages n p q :
  q ∈ range_pages n p ↔ ∃ k, 0 ≤ k < Z.of_nat n ∧ q = p + k * PGSIZE.
Proof.
  revert p. induction n as [|n IH]; intros p; cbn [range_pages].
  - rewrite elem_of_nil. split; [done|]. intros (? & ? & ?). lia.
  - rewrite elem_of_app IH list_elem_of_singleton. split.
    + intros [(k & ? & ->)| ->]; [exists (k + 1)|exists 0]; lia.
    + intros (k & ? & ->). destruct (decide (k = 0)); [right; lia|].
      left. exists (k - 1). lia.
Qed.

Lemma length_range_pages n p : length (range_pages n p) = n.
Proof.
  revert p. induction n as [|n IH]; intros p; cbn; [done|].
  rewrite length_app IH /=. lia.
Qed.

Lemma freerange_loop_spec fuel p e s pages :
  p mod PGSIZE = 0 → kend ≤ p → e ≤ PHYSTOP → kmem_inv s pages →
  (∀ q, q ∈ pages → q < p) →
  (Z.to_nat ((e - p) / PGSIZE) ≤ fuel)%nat →
  ∃ s', freerange_loop fuel p e s = Ret tt s' ∧
    kmem_inv s' (range_pages (Z.to_nat ((e - p) / PGSIZE)) p ++ pages) ∧
    (∀ a, a < p ∨ e ≤ a → ld8 (km s') a = ld8 (km s) a).
Proof.
  revert p s pages. induction fuel as [|fuel IH]; intros p s pages Hal Hp He Hinv Hlt Hf.
  { cbn [freerange_loop]. replace (Z.to_nat _) with O by lia. by exists s. }
  cbn [freerange_loop]. destruct (Z.leb_spec (p + PGSIZE) e) as [Hle|Hgt].
  2:{ replace (Z.to_nat _) with O by klia. by exists s. }
  assert (page_ok p) as Hok by (split; [done|klia]).
  destruct (kfree_spec p s pages Hok) as (s1 & E1 & Hinv1 & Hout1); [|done|].
  { intros Hin%Hlt. lia. }
  rewrite (bind_ret _ _ _ _ _ E1).
  destruct (IH (p + PGSIZE) s1 (p :: pages)) as (s2 & E2 & Hinv2 & Hout2); try done.
  - klia.
  - klia.
  - intros q [->|Hq%Hlt]%elem_of_cons; klia.
  - klia.
  - exists s2. split; [done|].
    replace (Z.to_nat ((e - p) / PGSIZE)) with (S (Z.to_nat ((e - (p + PGSIZE)) / PGSIZE))) by klia.
    cbn [range_pages]. rewrite -app_assoc. split; [done|].
    intros a Ha. rewrite Hout2; [|klia]. apply Hout1. klia.
Qed.

(** The pages [kinit] frees: every whole page of [kend, PHYSTOP). *)
Definition boot_pages : list Z :=
  range_pages (Z.to_nat ((PHYSTOP - PGROUNDUP kend) / PGSIZE)) (PGROUNDUP kend).

Lemma PGROUNDUP_kend : PGROUNDUP kend = (kend + 4095) / 4096 * 4096.
Proof. destruct linker_etext, linker_end. apply PGROUNDUP_eq. klia. Qed.

Lemma elem_of_boot_pages p : p ∈ boot_pages ↔ page_ok p.
Proof.
  destruct linker_etext, linker_end. rewrite elem_of_range_pages PGROUNDUP_kend. split.
  - intros (k & Hk & ->). split; klia.
  - intros [Hal Hr]. exists ((p - (kend + 4095) / 4096 * 4096) / PGSIZE). klia.
Qed.

Lemma kinit_run s :
  freelist s = 0 →
  ∃ s', kinit s = Ret tt s' ∧ kmem_inv s' boot_pages ∧
    (∀ a, a < kend ∨ PHYSTOP ≤ a → ld8 (km s') a = ld8 (km s) a).
Proof.
  intros Hf. destruct linker_etext, linker_end. pose proof PGROUNDUP_kend as E.
  destruct (freerange_loop_spec (Z.to_nat (PHYSTOP / PGSIZE)) (PGROUNDUP kend) PHYSTOP s [])
    as (s' & Hr & Hinv & Hout).
  - apply PGROUNDUP_aligned.
  - klia.
  - done.
  - split_and!; [constructor|done|done].
  - by intros q Hq%elem_of_nil.
  - klia.
  - exists s'. split; [done|]. rewrite app_nil_r in Hinv. split; [done|].
    intros a Ha. apply Hout. klia.
Qed.

(** ** The allocator's contract *)

(** [kalloc] implements a pop of the abstract free list: with no free
    page it returns the null pointer and changes nothing; otherwise it
    returns the head of the list, which leaves the list, fills that page
    with junk and writes nothing outside it. *)
Theorem kalloc_refines s pages :
  kmem_inv s pages →
  match pages with
  | [] => kalloc s = Ret 0 s
  | p :: ps =>
      ∃ s', kalloc s = Ret p s' ∧ p ≠ 0 ∧ kmem_inv s' ps ∧ p ∉ ps ∧
        same_outside p (km s) (km s') ∧ (∀ a, p ≤ a < p + PGSIZE → ld8 (km s') a = 5)
  end.
Proof.
  intros Hinv. destruct pages as [|p ps]; [by apply kalloc_empty|].
  destruct (kalloc_cons s p ps Hinv) as (s' & E & Hinv' & Hs & H5). exists s'.
  destruct Hinv as ([Hnin _]%NoDup_cons & [Hok _]%Forall_cons & _).
  pose proof (page_ok_pos _ Hok). split_and!; try done. lia.
Qed.

(** [kfree] implements a push: a page-aligned address of allocatable
    memory that is not already free joins the free list, and only its own
    page is overwritten; any other address is a panic. *)
Theorem kfree_refines s pages p :
  kmem_inv s pages → p ∉ pages →
  (page_ok p → ∃ s', kfree p s = Ret tt s' ∧ kmem_inv s' (p :: pages) ∧
     same_outside p (km s) (km s')) ∧
  (¬ page_ok p → kfree p s = Panic "kfree").
Proof.
  intros Hinv Hnin. split; [intros; by apply kfree_spec|].
  intros Hn. by rewrite /kfree kfree_bad_true.
Qed.

(** [kinit], run on an empty free list, returns with exactly the
    page-aligned pages of [end, PHYSTOP) free, each once, and writes nothing
    outside that range (the kernel image is intact). *)
Theorem kinit_spec s :
  freelist s = 0 →
  ∃ s' pages, kinit s = Ret tt s' ∧ kmem_inv s' pages ∧ (∀ p, p ∈ pages ↔ page_ok p) ∧
    (∀ a, a < kend ∨ PHYSTOP ≤ a → ld8 (km s') a = ld8 (km s) a).
Proof.
  intros Hf. destruct (kinit_run s Hf) as (s' & E & Hinv & Hout).
  exists s', boot_pages. split_and!; try done; apply elem_of_boot_pages.
Qed.
End kalloc.
#[export] Hint Resolve page_ok_pos same_outside_refl : xv6.

(** ** A small machine for the examples: eight allocatable pages *)

Lemma demo_etext : KERNBASE < PHYSTOP - 16 * PGSIZE ∧ (PHYSTOP - 16 * PGSIZE) mod PGSIZE = 0.
Proof. klia. Qed.
Lemma demo_kend : PHYSTOP - 16 * PGSIZE ≤ PHYSTOP - 8 * PGSIZE ≤ PHYSTOP.
Proof. klia. Qed.
Lemma demo_tramp : KERNBASE ≤ KERNBASE < PHYSTOP - 16 * PGSIZE ∧ KERNBASE mod PGSIZE = 0.
Proof. klia. Qed.
Definition demo_linker : Linker :=
  {| kend := PHYSTOP - 8 * PGSIZE; etext := PHYSTOP - 16 * PGSIZE; trampoline := KERNBASE;
     linker_etext := demo_etext; linker_end := demo_kend; linker_tramp := demo_tramp |}.
#[local] Existing Instance demo_linker.

(** The state after [kinit], and the last page, which heads the free list. *)
Definition demo_boot : kmem :=
  ret_state (kinit (mk_kmem ∅ 0)) (mk_kmem ∅ 0).
Definition demo_top : Z := PHYSTOP - PGSIZE.

Lemma demo_boot_inv : kmem_inv demo_boot (boot_pages).
Proof.
  destruct (kinit_run (mk_kmem ∅ 0) eq_refl) as (s' & E & Hinv & _).
  by rewrite /demo_boot E.
Qed.

Lemma kalloc_refines_witness :
  ∃ s', kalloc demo_boot = Ret demo_top s' ∧
    kmem_inv s' (tail (boot_pages)).
Proof.
  destruct (kalloc_refines demo_boot _ demo_boot_inv)
    as (s' & E & _ & Hinv & _).
  by exists s'.
Defined.

Lemma kfree_refines_witness :
  kfree 17 demo_boot = Panic "kfree" ∧
  ∃ s', kfree demo_top (mk_kmem ∅ 0) = Ret tt s' ∧ freelist s' = demo_top.
Proof.
  split.
  - apply (kfree_refines _ _ 17 demo_boot_inv).
    + rewrite elem_of_boot_pages. intros [Hal _]. vm_compute in Hal. discriminate Hal.
    + intros [Hal _]. vm_compute in Hal. discriminate Hal.
  - destruct (kfree_refines (mk_kmem ∅ 0) [] demo_top) as [Hk _].
    + split_and!; [constructor|done|done].
    + apply not_elem_of_nil.
    + destruct Hk as (s' & E & (_ & _ & Hf & _) & _); [split; vm_compute; intuition congruence|].
      by exists s'.
Defined.

Lemma kinit_spec_witness :
  ∃ s' pages, kinit (mk_kmem ∅ 0) = Ret tt s' ∧
    kmem_inv s' pages.
Proof.
  destruct (kinit_spec (mk_kmem ∅ 0) eq_refl) as (s' & pages & E & Hinv & _).
  by exists s', pages.
Defined.
