(* ===== verification/Vm.v ===== *)
(** * kernel/vm.c: Sv39 page tables

    Page tables are kept where the code keeps them, as 512 little-endian
    64-bit entries in pages of physical memory.  An out-parameter that points
    to a kernel buffer ([copyin]'s and [copyinstr]'s dst) is returned as the
    list of bytes stored through it, and a kernel source buffer ([copyout]'s
    src) is the list of its bytes.  A loop over a count known at its entry
    runs with that count as fuel; the panic ["loop bound"] marks the points
    no execution reaches. *)
From S2P Require Import Prelude Riscv CString Kalloc.

Section vm.
Context {LK : Linker}.

(** ** Definitions *)

(** The body of [walk] from [level] down. *)
Fixpoint walk_loop (level : nat) (pagetable va : Z) (alloc : bool) : M kmem Z :=
  match level with
  | O => mret (pagetable + 8 * PX 0 va)
  | S level' =>
      let pte := pagetable + 8 * PX (Z.of_nat level) va in
      v ← load64 pte;
      if has v PTE_V then walk_loop level' (PTE2PA v) va alloc
      else if negb alloc then mret 0
      else
        p ← kalloc;
        if p =? 0 then mret 0
        else
          kmemset p 0 PGSIZE;;
          store64 pte (Z.lor (PA2PTE p) PTE_V);;
          walk_loop level' p va alloc
  end.
Definition walk (pagetable va : Z) (alloc : bool) : M kmem Z :=
  if va >=? MAXVA then panic "walk" else walk_loop 2 pagetable va alloc.

Definition walkaddr (pagetable va : Z) : M kmem Z :=
  if va >=? MAXVA then mret 0
  else
    pte ← walk pagetable va false;
    if pte =? 0 then mret 0
    else
      v ← load64 pte;
      if negb (has v PTE_V) then mret 0
      else if negb (has v PTE_U) then mret 0
      else mret (PTE2PA v).

Fixpoint mappages_loop (fuel : nat) (pagetable a last pa perm : Z) : M kmem Z :=
  match fuel with
  | O => panic "loop bound"
  | S fuel' =>
      pte ← walk pagetable a true;
      if pte =? 0 then mret (-1)
      else
        v ← load64 pte;
        if has v PTE_V then panic "mappages: remap"
        else
          store64 pte (Z.lor (Z.lor (PA2PTE pa) perm) PTE_V);;
          if a =? last then mret 0
          else mappages_loop fuel' pagetable (u64 (a + PGSIZE)) last (u64 (pa + PGSIZE)) perm
  end.
Definition mappages (pagetable va size pa perm : Z) : M kmem Z :=
  if negb (va mod PGSIZE =? 0) then panic "mappages: va not aligned"
  else if negb (size mod PGSIZE =? 0) then panic "mappages: size not aligned"
  else if size =? 0 then panic "mappages: size"
  else mappages_loop (Z.to_nat (size / PGSIZE)) pagetable va (u64 (va + size - PGSIZE)) pa perm.

Definition kvmmap (kpgtbl va pa sz perm : Z) : M kmem unit :=
  r ← mappages kpgtbl va sz pa perm;
  if negb (r =? 0) then panic "kvmmap" else mret tt.

Fixpoint uvmunmap_loop (fuel : nat) (pagetable a lim : Z) (do_free : bool) : M kmem unit :=
  match fuel with
  | O => mret tt
  | S fuel' =>
      if negb (a <? lim) then mret tt
      else
        pte ← walk pagetable a false;
        if pte =? 0 then panic "uvmunmap: walk"
        else
          v ← load64 pte;
          if negb (has v PTE_V) then panic "uvmunmap: not mapped"
          else if PTE_FLAGS v =? PTE_V then panic "uvmunmap: not a leaf"
          else
            (if do_free then kfree (PTE2PA v) else mret tt);;
            store64 pte 0;;
            uvmunmap_loop fuel' pagetable (u64 (a + PGSIZE)) lim do_free
  end.
Definition uvmunmap (pagetable va npages : Z) (do_free : bool) : M kmem unit :=
  if negb (va mod PGSIZE =? 0) then panic "uvmunmap: not aligned"
  else uvmunmap_loop (Z.to_nat npages) pagetable va (u64 (va + npages * PGSIZE)) do_free.

Definition uvmcreate : M kmem Z :=
  pagetable ← kalloc;
  if pagetable =? 0 then mret 0
  else kmemset pagetable 0 PGSIZE;; mret pagetable.

Definition uvmfirst (pagetable : Z) (src : list Z) : M kmem unit :=
  if Z.of_nat (length src) >=? PGSIZE then panic "uvmfirst: more than a page"
  else
    mem ← kalloc;
    kmemset mem 0 PGSIZE;;
    mappages pagetable 0 PGSIZE mem (Z.lor (Z.lor PTE_W PTE_R) (Z.lor PTE_X PTE_U));;
    upd_mem (λ m, st_bytes m mem src).

Definition uvmdealloc (pagetable oldsz newsz : Z) : M kmem Z :=
  if newsz >=? oldsz then mret oldsz
  else
    (if PGROUNDUP newsz <? PGROUNDUP oldsz then
       let npages := s32 ((PGROUNDUP oldsz - PGROUNDUP newsz) / PGSIZE) in
       uvmunmap pagetable (PGROUNDUP newsz) npages true
     else mret tt);;
    mret newsz.

Fixpoint uvmalloc_loop (fuel : nat) (pagetable a oldsz newsz xperm : Z) : M kmem Z :=
  match fuel with
  | O => mret newsz
  | S fuel' =>
      if negb (a <? newsz) then mret newsz
      else
        mem ← kalloc;
        if mem =? 0 then uvmdealloc pagetable a oldsz;; mret 0
        else
          kmemset mem 0 PGSIZE;;
          r ← mappages pagetable a PGSIZE mem (Z.lor (Z.lor PTE_R PTE_U) xperm);
          if negb (r =? 0) then
            kfree mem;;
            uvmdealloc pagetable a oldsz;;
            mret 0
          else uvmalloc_loop fuel' pagetable (u64 (a + PGSIZE)) oldsz newsz xperm
  end.
Definition uvmalloc (pagetable oldsz newsz xperm : Z) : M kmem Z :=
  if newsz <? oldsz then mret oldsz
  else
    let oldsz := PGROUNDUP oldsz in
    uvmalloc_loop (Z.to_nat ((newsz - oldsz + PGSIZE - 1) / PGSIZE)) pagetable oldsz oldsz newsz xperm.

(** [freewalk] recurses to the depth of the page-table tree, at most three. *)
Fixpoint freewalk (depth : nat) (pagetable : Z) : M kmem unit :=
  match depth with
  | O => panic "loop bound"
  | S depth' =>
      (fix entries (n : nat) : M kmem unit :=
         match n with
         | O => kfree pagetable
         | S n' =>
             let i := 512 - Z.of_nat n in
             pte ← load64 (pagetable + 8 * i);
             if has pte PTE_V && (Z.land pte (Z.lor PTE_R (Z.lor PTE_W PTE_X)) =? 0) then
               freewalk depth' (PTE2PA pte);;
               store64 (pagetable + 8 * i) 0;;
               entries n'
             else if has pte PTE_V then panic "freewalk: leaf"
             else entries n'
         end) 512%nat
  end.

Definition uvmfree (pagetable sz : Z) : M kmem unit :=
  (if sz >? 0 then uvmunmap pagetable 0 (PGROUNDUP sz / PGSIZE) true else mret tt);;
  freewalk 3 pagetable.

Fixpoint uvmcopy_loop (fuel : nat) (old new i sz : Z) : M kmem Z :=
  match fuel with
  | O => mret 0
  | S fuel' =>
      if negb (i <? sz) then mret 0
      else
        pte ← walk old i false;
        if pte =? 0 then panic "uvmcopy: pte should exist"
        else
          v ← load64 pte;
          if negb (has v PTE_V) then panic "uvmcopy: page not present"
          else
            let pa := PTE2PA v in
            let flags := PTE_FLAGS v in
            mem ← kalloc;
            if mem =? 0 then uvmunmap new 0 (i / PGSIZE) true;; mret (-1)
            else
              upd_mem (λ m, memmove m mem pa PGSIZE);;
              r ← mappages new i PGSIZE mem flags;
              if negb (r =? 0) then
                kfree mem;;
                uvmunmap new 0 (i / PGSIZE) true;;
                mret (-1)
              else uvmcopy_loop fuel' old new (u64 (i + PGSIZE)) sz
  end.
Definition uvmcopy (old new sz : Z) : M kmem Z :=
  uvmcopy_loop (Z.to_nat ((sz + PGSIZE - 1) / PGSIZE)) old new 0 sz.

Definition uvmclear (pagetable va : Z) : M kmem unit :=
  pte ← walk pagetable va false;
  if pte =? 0 then panic "uvmclear"
  else
    v ← load64 pte;
    store64 pte (Z.land v (u64 (Z.lnot PTE_U))).

Fixpoint copyout_loop (fuel : nat) (pagetable dstva : Z) (src : list Z) : M kmem Z :=
  match fuel with
  | O => mret 0
  | S fuel' =>
      let len := Z.of_nat (length src) in
      if negb (len >? 0) then mret 0
      else
        let va0 := PGROUNDDOWN dstva in
        if va0 >=? MAXVA then mret (-1)
        else
          pte ← walk pagetable va0 false;
          v ← load64 pte;
          if (pte =? 0) || negb (has v PTE_V) || negb (has v PTE_U) || negb (has v PTE_W)
          then mret (-1)
          else
            let pa0 := PTE2PA v in
            let n := PGSIZE - (dstva - va0) in
            let n := if n >? len then len else n in
            upd_mem (λ m, st_bytes m (pa0 + (dstva - va0)) (take (Z.to_nat n) src));;
            copyout_loop fuel' pagetable (u64 (va0 + PGSIZE)) (drop (Z.to_nat n) src)
  end.
Definition copyout (pagetable dstva : Z) (src : list Z) : M kmem Z :=
  copyout_loop (length src) pagetable dstva src.

Fixpoint copyin_loop (fuel : nat) (pagetable srcva len : Z) (dst : list Z) : M kmem (Z * list Z) :=
  match fuel with
  | O => mret (0, dst)
  | S fuel' =>
      if negb (len >? 0) then mret (0, dst)
      else
        let va0 := PGROUNDDOWN srcva in
        pa0 ← walkaddr pagetable va0;
        if pa0 =? 0 then mret (-1, dst)
        else
          let n := PGSIZE - (srcva - va0) in
          let n := if n >? len then len else n in
          bs ← gets (λ s, ld_bytes (Z.to_nat n) (km s) (pa0 + (srcva - va0)));
          copyin_loop fuel' pagetable (u64 (va0 + PGSIZE)) (len - n) (dst ++ bs)
  end.
Definition copyin (pagetable srcva len : Z) : M kmem (Z * list Z) :=
  copyin_loop (Z.to_nat len) pagetable srcva len [].

(** The inner [while(n > 0)] of [copyinstr]: the bytes copied from [p], and
    whether a NUL was among them. *)
Fixpoint copyinstr_page (n : nat) (m : mem) (p : Z) : list Z * bool :=
  match n with
  | O => ([], false)
  | S n' =>
      if ld8 m p =? 0 then ([0], true)
      else let '(bs, got_null) := copyinstr_page n' m (p + 1) in (ld8 m p :: bs, got_null)
  end.
Fixpoint copyinstr_loop (fuel : nat) (pagetable srcva max : Z) (dst : list Z) : M kmem (Z * list Z) :=
  match fuel with
  | O => mret (-1, dst)
  | S fuel' =>
      if negb (max >? 0) then mret (-1, dst)
      else
        let va0 := PGROUNDDOWN srcva in
        pa0 ← walkaddr pagetable va0;
        if pa0 =? 0 then mret (-1, dst)
        else
          let n := PGSIZE - (srcva - va0) in
          let n := if n >? max then max else n in
          r ← gets (λ s, copyinstr_page (Z.to_nat n) (km s) (pa0 + (srcva - va0)));
          if r.2 : bool then mret (0, dst ++ r.1)
          else copyinstr_loop fuel' pagetable (u64 (va0 + PGSIZE)) (max - n) (dst ++ r.1)
  end.
Definition copyinstr (pagetable srcva max : Z) : M kmem (Z * list Z) :=
  copyinstr_loop (Z.to_nat max) pagetable srcva max [].

(** proc.c: a kernel stack for each process, then the kernel page table. *)
Fixpoint proc_mapstacks_loop (n : nat) (p kpgtbl : Z) : M kmem unit :=
  match n with
  | O => mret tt
  | S n' =>
      pa ← kalloc;
      if pa =? 0 then panic "kalloc"
      else
        kvmmap kpgtbl (KSTACK p) pa PGSIZE (Z.lor PTE_R PTE_W);;
        proc_mapstacks_loop n' (p + 1) kpgtbl
  end.
Definition proc_mapstacks (kpgtbl : Z) : M kmem unit :=
  proc_mapstacks_loop (Z.to_nat NPROC) 0 kpgtbl.

Definition kvmmake : M kmem Z :=
  kpgtbl ← kalloc;
  kmemset kpgtbl 0 PGSIZE;;
  kvmmap kpgtbl UART0 UART0 PGSIZE (Z.lor PTE_R PTE_W);;
  kvmmap kpgtbl VIRTIO0 VIRTIO0 PGSIZE (Z.lor PTE_R PTE_W);;
  kvmmap kpgtbl PLIC PLIC 0x4000000 (Z.lor PTE_R PTE_W);;
  kvmmap kpgtbl KERNBASE KERNBASE (etext - KERNBASE) (Z.lor PTE_R PTE_X);;
  kvmmap kpgtbl etext etext (PHYSTOP - etext) (Z.lor PTE_R PTE_W);;
  kvmmap kpgtbl TRAMPOLINE trampoline PGSIZE (Z.lor PTE_R PTE_X);;
  proc_mapstacks kpgtbl;;
  mret kpgtbl.

End vm.
