(* ===== verification/VmInv.v ===== *)
(** * The page-table invariant and what [walk] and [mappages] do

    A page-table tree is described by a map [G] that gives each page-table
    page its level and the prefix of virtual page numbers it translates.
    Because [G] is a function, two different slots never share a child. *)
From S2P Require Import Prelude Riscv CString Kalloc Vm.

Section vminv.
Context {LK : Linker}.

(** ** The abstract page table *)

(** The address of the leaf entry for [va], if every upper entry is valid. *)
Fixpoint walk_pure (level : nat) (m : mem) (pt va : Z) : option Z :=
  match level with
  | O => Some (pt + 8 * PX 0 va)
  | S level' =>
      let v := ld64 m (pt + 8 * PX (Z.of_nat level) va) in
      if has v PTE_V then walk_pure level' m (PTE2PA v) va else None
  end.

(** The leaf entry for [va]: 0 (not valid) when there is none. *)
Definition pte_of (level : nat) (m : mem) (pt va : Z) : Z :=
  match walk_pure level m pt va with
  | Some a => ld64 m a
  | None => 0
  end.
Definition pte_at (m : mem) (root va : Z) : Z := pte_of 2 m root va.

(** The page-table pages on the path of [va], from [pt] down *)
Fixpoint tables (level : nat) (m : mem) (pt va : Z) : list Z :=
  pt :: match level with
        | O => []
        | S level' =>
            let v := ld64 m (pt + 8 * PX (Z.of_nat level) va) in
            if has v PTE_V then tables level' m (PTE2PA v) va else []
        end.
(** [q] is a page of the page table that starts at [root]. *)
Definition in_tree (m : mem) (root q : Z) : Prop := ∃ va, 0 ≤ va < MAXVA ∧ q ∈ tables 2 m root va.

Definition shape : Type := gmap Z (nat * Z).

Definition pt_inv (G : gmap Z (nat * Z)) (m : mem) (root : Z) : Prop :=
  G !! root = Some (2%nat, 0) ∧
  ∀ p l x, G !! p = Some (l, x) →
    page_ok p ∧
    ∀ l' i, l = S l' → 0 ≤ i < 512 → has (ld64 m (p + 8 * i)) PTE_V = true →
      G !! PTE2PA (ld64 m (p + 8 * i)) = Some (l', x * 512 + i).

(** A page table in a machine state: the allocator's invariant with the
    free pages [pages], none of which belongs to the tree. *)
Definition vm_inv (G : gmap Z (nat * Z)) (s : kmem) (root : Z) (pages : list Z) : Prop :=
  kmem_inv s pages ∧ pt_inv G (km s) root ∧ (∀ p, p ∈ pages → G !! p = None).

(** [m2] agrees with [m1] outside the pages of [G]. *)
Definition same_outside_pt (G : gmap Z (nat * Z)) (m1 m2 : mem) : Prop :=
  ∀ a, (∀ p, is_Some (G !! p) → ¬ (p ≤ a < p + PGSIZE)) → ld8 m2 a = ld8 m1 a.

(** The typing of the page that holds level [l] of the path of [va]. *)
Definition on_path (G : gmap Z (nat * Z)) (l : nat) (p va : Z) : Prop :=
  G !! p = Some (l, vpn va / 512 ^ (Z.of_nat l + 1)).

(** ** Paths *)

Lemma PX_digit l va :
  0 ≤ va → vpn va / 512 ^ (Z.of_nat (S l) + 1) * 512 + PX (Z.of_nat (S l)) va =
  vpn va / 512 ^ (Z.of_nat l + 1).
Proof.
  intros Hva. rewrite PX_eq; [|lia].
  replace (Z.of_nat (S l)) with (Z.of_nat l + 1) by lia.
  set (q := 512 ^ (Z.of_nat l + 1)). assert (0 < q) by (apply Z.pow_pos_nonneg; lia).
  rewrite Z.pow_add_r; [|lia..]. rewrite -/q Z.pow_1_r -Z.div_div; [|lia..]. lia.
Qed.

Lemma on_path_root G m root va : pt_inv G m root → 0 ≤ va < MAXVA → on_path G 2 root va.
Proof.
  intros [Hr _] Hva. rewrite /on_path Hr. do 2 f_equal. change (512 ^ (Z.of_nat 2 + 1)) with (2 ^ 27).
  rewrite /vpn. symmetry. apply Z.div_small. klia.
Qed.

Lemma on_path_child G m root l p va :
  pt_inv G m root → 0 ≤ va → on_path G (S l) p va →
  has (ld64 m (p + 8 * PX (Z.of_nat (S l)) va)) PTE_V = true →
  on_path G l (PTE2PA (ld64 m (p + 8 * PX (Z.of_nat (S l)) va))) va.
Proof.
  intros [_ Hpt] Hva Hp Hv. rewrite /on_path -PX_digit //.
  destruct (Hpt _ _ _ Hp) as [_ Hc]. apply Hc; [done| |done]. apply PX_range.
Qed.

Lemma on_path_ok G m root l p va : pt_inv G m root → on_path G l p va → page_ok p.
Proof. intros [_ Hpt] Hp. by apply (Hpt _ _ _ Hp). Qed.

(** The slot of a valid path lies in a level-0 page typed for [va]. *)
Lemma walk_pure_leaf G m root l p va a :
  pt_inv G m root → 0 ≤ va → on_path G l p va → walk_pure l m p va = Some a →
  ∃ q, a = q + 8 * PX 0 va ∧ on_path G 0 q va.
Proof.
  intros Hpt Hva. revert p. induction l as [|l IH]; intros p Hp; cbn [walk_pure].
  - intros [= <-]. by exists p.
  - destruct (has _ PTE_V) eqn:Hv; [|done]. apply IH. by eapply on_path_child.
Qed.

(** Two slots of page-table pages coincide or do not overlap. *)
Lemma slot_sep p i q j :
  page_ok p → page_ok q → 0 ≤ i < 512 → 0 ≤ j < 512 → p ≠ q ∨ i ≠ j →
  p + 8 * i + 8 ≤ q + 8 * j ∨ q + 8 * j + 8 ≤ p + 8 * i.
Proof.
  intros Hp Hq Hi Hj Hne. destruct (decide (p = q)) as [->|]; [lia|].
  destruct (page_ok_sep p q); [done..|klia|klia].
Qed.

Lemma ld64_st64_slot m p i q j v :
  page_ok p → page_ok q → 0 ≤ i < 512 → 0 ≤ j < 512 → p ≠ q ∨ i ≠ j →
  ld64 (st64 m (p + 8 * i) v) (q + 8 * j) = ld64 m (q + 8 * j).
Proof. intros. apply ld64_st64_ne. destruct (slot_sep p i q j); auto. Qed.

(** ** Framing *)

Lemma pte_of_ext G m m' root l p va :
  pt_inv G m root → 0 ≤ va → on_path G l p va →
  (∀ q i, is_Some (G !! q) → 0 ≤ i < 512 → ld64 m' (q + 8 * i) = ld64 m (q + 8 * i)) →
  walk_pure l m' p va = walk_pure l m p va ∧ pte_of l m' p va = pte_of l m p va.
Proof.
  intros Hpt Hva Hp Hext. revert p Hp. induction l as [|l IH]; intros p Hp.
  - split; [done|]. rewrite /pte_of /=. apply Hext; [by eexists|apply PX_range].
  - rewrite /pte_of. cbn [walk_pure]. rewrite Hext; [|by eexists|apply PX_range].
    destruct (has _ PTE_V) eqn:Hv; [|done]. apply IH. by eapply on_path_child.
Qed.

Lemma pt_inv_ext G m m' root :
  pt_inv G m root →
  (∀ q i, is_Some (G !! q) → 0 ≤ i < 512 → ld64 m' (q + 8 * i) = ld64 m (q + 8 * i)) →
  pt_inv G m' root.
Proof.
  intros [Hr Hpt] Hext. split; [done|]. intros p l x Hp. destruct (Hpt _ _ _ Hp) as [Hok Hc].
  split; [done|]. intros l' i Hl Hi. rewrite Hext //. by apply Hc.
Qed.

(** The valid entries above the leaves are kept: no page leaves the tree. *)
Definition upper_kept (G : gmap Z (nat * Z)) (m m' : mem) : Prop :=
  ∀ p l x j, G !! p = Some (S l, x) → 0 ≤ j < 512 → has (ld64 m (p + 8 * j)) PTE_V = true →
    ld64 m' (p + 8 * j) = ld64 m (p + 8 * j).
Lemma upper_kept_trans G G' m1 m2 m3 : G ⊆ G' → upper_kept G m1 m2 → upper_kept G' m2 m3 → upper_kept G m1 m3.
Proof.
  intros HG H1 H2 p l x j Hp Hj Hv. rewrite -(H1 p l x j) //. apply (H2 p l x); [by eapply lookup_weaken|done|]. by rewrite (H1 p l x j).
Qed.
Lemma upper_kept_ext G m m' : (∀ q i, is_Some (G !! q) → 0 ≤ i < 512 → ld64 m' (q + 8 * i) = ld64 m (q + 8 * i)) → upper_kept G m m'.
Proof. intros H p l x j Hp Hj _. apply H; [by eexists|done]. Qed.
Lemma tables_kept G m m' root l p va q :
  pt_inv G m root → 0 ≤ va → on_path G l p va → upper_kept G m m' → q ∈ tables l m p va → q ∈ tables l m' p va.
Proof.
  intros Hpt Hva Hp Hk. revert p Hp. induction l as [|l IH]; intros p Hp; cbn [tables]; [done|].
  destruct (has (ld64 m _) PTE_V) eqn:Hv; [|set_solver]. rewrite (Hk _ _ _ _ Hp); [|apply PX_range|done]. rewrite Hv.
  intros [->|Hq]%elem_of_cons; [by left|right]. apply IH; [by eapply on_path_child|done].
Qed.
Lemma in_tree_kept G m m' root q : pt_inv G m root → upper_kept G m m' → in_tree m root q → in_tree m' root q.
Proof.
  intros Hpt Hk (va & Hva & Hq). exists va. split; [done|]. eapply tables_kept; [done|lia| |done|done]. by eapply on_path_root.
Qed.

(** Writing outside the page-table pages does not change the translation. *)
Lemma slot_frame G m m' root b q i :
  pt_inv G m root → page_ok b → G !! b = None → same_outside b m m' →
  is_Some (G !! q) → 0 ≤ i < 512 → ld64 m' (q + 8 * i) = ld64 m (q + 8 * i).
Proof.
  intros [_ Hpt] Hb Hnb Hs [[l x] Hq] Hi. apply (same_outside_ld64 b); [done|].
  destruct (Hpt _ _ _ Hq) as [Hok _].
  destruct (page_ok_sep b q); [done..| |klia|klia]. intros ->. congruence.
Qed.

Lemma same_outside_pt_refl G m : same_outside_pt G m m.
Proof. done. Qed.
Lemma same_outside_pt_trans G G' m1 m2 m3 :
  G ⊆ G' → same_outside_pt G m1 m2 → same_outside_pt G' m2 m3 → same_outside_pt G' m1 m3.
Proof.
  intros HG H1 H2 a Ha. rewrite H2 // H1 //. intros p [x Hp]. apply Ha. exists x.
  by eapply lookup_weaken.
Qed.
Lemma same_outside_pt_page G p m1 m2 :
  is_Some (G !! p) → same_outside p m1 m2 → same_outside_pt G m1 m2.
Proof. intros Hp Hs a Ha. by apply Hs, Ha. Qed.

(** ** Hooking a fresh zeroed page into the tree *)

Lemma pte_of_zero l m q va :
  (∀ i, 0 ≤ i < 512 → ld64 m (q + 8 * i) = 0) → pte_of l m q va = 0.
Proof.
  intros Hz. rewrite /pte_of. destruct l as [|l]; cbn [walk_pure].
  - rewrite Hz //. apply PX_range.
  - rewrite Hz; [|apply PX_range]. done.
Qed.

Section hook.
Context (G : gmap Z (nat * Z)) (m m' : mem) (root pt q i : Z) (l : nat) (x : Z).
Hypothesis (Hpt : pt_inv G m root) (Hp : G !! pt = Some (S l, x)) (Hi : 0 ≤ i < 512).
Hypothesis (Hq : page_ok q) (Hfresh : G !! q = None).
Hypothesis (Hold : has (ld64 m (pt + 8 * i)) PTE_V = false).
Hypothesis (Hzero : ∀ j, 0 ≤ j < 512 → ld64 m' (q + 8 * j) = 0).
Hypothesis (Hnew : ld64 m' (pt + 8 * i) = Z.lor (Z.lor (PA2PTE q) 0) PTE_V).
Hypothesis (Hsame : ∀ p j, is_Some (G !! p) → 0 ≤ j < 512 → p ≠ pt ∨ j ≠ i →
  ld64 m' (p + 8 * j) = ld64 m (p + 8 * j)).

Lemma hook_child : has (ld64 m' (pt + 8 * i)) PTE_V = true ∧ PTE2PA (ld64 m' (pt + 8 * i)) = q.
Proof using All.
  rewrite Hnew. split; [apply has_lor_V|].
  pose proof (page_ok_pos _ Hq). apply PTE2PA_encode; [lia| |lia]. by destruct Hq.
Qed.

Lemma hook_pt_inv : pt_inv (<[q := (l, x * 512 + i)]> G) m' root.
Proof using All.
  destruct Hpt as [Hr Hall]. split.
  { rewrite lookup_insert_ne //. intros ->. congruence. }
  intros p l0 x0. destruct (decide (p = q)) as [->|Hne].
  { rewrite lookup_insert_eq. intros [= <- <-]. split; [done|].
    intros l' j _ Hj. by rewrite Hzero // has_0. }
  rewrite lookup_insert_ne // => Hp0. destruct (Hall _ _ _ Hp0) as [Hok Hc]. split; [done|].
  intros l' j -> Hj. destruct (decide (p = pt ∧ j = i)) as [[-> ->]|Hd].
  - destruct hook_child as [_ ->]. intros _. rewrite lookup_insert_eq. congruence.
  - rewrite Hsame //; [|by apply not_and_l]. intros Hv. rewrite lookup_insert_ne; [by apply Hc|].
    intros E. specialize (Hc l' j eq_refl Hj Hv). congruence.
Qed.

Lemma hook_pte_of l0 p va :
  0 ≤ va → on_path G l0 p va → pte_of l0 m' p va = pte_of l0 m p va.
Proof using All.
  intros Hva. revert p. induction l0 as [|l0 IH]; intros p Hon.
  - rewrite /pte_of /=. apply Hsame; [by eexists|apply PX_range|]. left. intros ->.
    rewrite /on_path in Hon. congruence.
  - rewrite /pte_of. cbn [walk_pure].
    destruct (decide (p = pt ∧ PX (Z.of_nat (S l0)) va = i)) as [[-> Hpi]|Hd].
    + rewrite Hpi Hold. destruct hook_child as [-> ->]. by apply (pte_of_zero l0).
    + rewrite Hsame; [|by eexists|apply PX_range|by apply not_and_l].
      destruct (has (ld64 m (p + _)) PTE_V) eqn:Hv; [|done]. apply IH. by eapply on_path_child.
Qed.
End hook.

(** ** [walk] *)

(** What [walk] promises: it extends the tree with pages it took from the
    allocator, leaves every translation as it was, and returns the slot of
    [va], or 0 when a table is missing and cannot be made. *)
Record walk_post (G : gmap Z (nat * Z)) (s : kmem) (root : Z) (pages : list Z)
    (l : nat) (pt va : Z) (alloc : bool) (r : Z) (s' : kmem)
    (G' : gmap Z (nat * Z)) (used pages' : list Z) : Prop := {
  wp_pages : pages = used ++ pages';
  wp_inv : vm_inv G' s' root pages';
  wp_sub : G ⊆ G';
  wp_new : ∀ p, is_Some (G' !! p) → is_Some (G !! p) ∨ p ∈ used;
  wp_out : same_outside_pt G' (km s) (km s');
  wp_slot : ∀ p lv x j, G !! p = Some (lv, x) → 0 ≤ j < 512 →
    lv = 0%nat ∨ has (ld64 (km s) (p + 8 * j)) PTE_V = true →
    ld64 (km s') (p + 8 * j) = ld64 (km s) (p + 8 * j);
  wp_pte : ∀ va', 0 ≤ va' < MAXVA → pte_at (km s') root va' = pte_at (km s) root va';
  wp_noalloc : alloc = false → s' = s ∧ G' = G;
  wp_fail : r = 0 → walk_pure l (km s') pt va = None ∧ (alloc = true → pages' = []);
  wp_ok : r ≠ 0 → walk_pure l (km s') pt va = Some r;
  wp_used : (length used ≤ l)%nat;
  wp_tree : ∀ q, q ∈ used → q ∈ tables l (km s') pt va;
}.

Lemma walk_post_refl G s root pages l pt va alloc r :
  vm_inv G s root pages →
  (r = 0 → walk_pure l (km s) pt va = None ∧ (alloc = true → pages = [])) →
  (r ≠ 0 → walk_pure l (km s) pt va = Some r) →
  walk_post G s root pages l pt va alloc r s G [] pages.
Proof. intros. split; try done; [by left|cbn; lia|by intros q ?%elem_of_nil]. Qed.

Lemma walk_post_up G s root pages l pt va alloc r s' G' used pages' :
  on_path G (S l) pt va →
  has (ld64 (km s) (pt + 8 * PX (Z.of_nat (S l)) va)) PTE_V = true →
  walk_post G s root pages l (PTE2PA (ld64 (km s) (pt + 8 * PX (Z.of_nat (S l)) va))) va alloc
    r s' G' used pages' →
  walk_post G s root pages (S l) pt va alloc r s' G' used pages'.
Proof.
  intros Hon Hv []. assert (walk_pure (S l) (km s') pt va =
    walk_pure l (km s') (PTE2PA (ld64 (km s) (pt + 8 * PX (Z.of_nat (S l)) va))) va) as E.
  { cbn [walk_pure]. rewrite (wp_slot0 _ _ _ _ Hon); [|apply PX_range|by right]. by rewrite Hv. }
  split; rewrite ?E; try done; [lia|]. intros q Hq. cbn [tables]. rewrite (wp_slot0 _ _ _ _ Hon); [|apply PX_range|by right].
  rewrite Hv. right. by apply wp_tree0.
Qed.

Lemma walk_post_trans G s root pages l pt va r s1 s' G1 G' used1 used2 pages1 pages' :
  vm_inv G1 s1 root pages1 → pages = used1 ++ pages1 → G ⊆ G1 →
  (∀ p, is_Some (G1 !! p) → is_Some (G !! p) ∨ p ∈ used1) →
  same_outside_pt G1 (km s) (km s1) →
  (∀ p lv x j, G !! p = Some (lv, x) → 0 ≤ j < 512 →
    lv = 0%nat ∨ has (ld64 (km s) (p + 8 * j)) PTE_V = true →
    ld64 (km s1) (p + 8 * j) = ld64 (km s) (p + 8 * j)) →
  (∀ va', 0 ≤ va' < MAXVA → pte_at (km s1) root va' = pte_at (km s) root va') →
  (length used1 + length used2 ≤ l)%nat → (∀ q, q ∈ used1 → q ∈ tables l (km s') pt va) →
  walk_post G1 s1 root pages1 l pt va true r s' G' used2 pages' →
  walk_post G s root pages l pt va true r s' G' (used1 ++ used2) pages'.
Proof.
  intros Hinv -> HG Hnew Hout Hslot Hpte Hlen Htree []. split; try done.
  - by rewrite wp_pages0 -app_assoc.
  - by etrans.
  - intros p [Hp|Hp]%wp_new0; [|set_solver]. apply Hnew in Hp as [?|?]; set_solver.
  - by eapply same_outside_pt_trans.
  - intros p lv x j Hp Hj Hv. rewrite -(Hslot p lv x j) //.
    apply (wp_slot0 p lv x); [by eapply lookup_weaken|done|].
    destruct Hv as [?|Hv]; [by left|right]. rewrite (Hslot p lv x j); auto.
  - intros va' Hva'. by rewrite wp_pte0 // Hpte.
  - rewrite length_app. lia.
  - intros q [?|?]%elem_of_app; auto.
Qed.

(** One step of table allocation: the state after [kalloc], [memset] and the
    store of the new entry. *)
Lemma walk_alloc_step G s root p pages l pt va :
  vm_inv G s root (p :: pages) → 0 ≤ va < MAXVA → on_path G (S l) pt va →
  has (ld64 (km s) (pt + 8 * PX (Z.of_nat (S l)) va)) PTE_V = false →
  ∃ s0 s1 G1,
    kalloc s = Ret p s0 ∧ p ≠ 0 ∧
    s1 = mk_kmem (st64 (memset (km s0) p 0 PGSIZE) (pt + 8 * PX (Z.of_nat (S l)) va)
                    (Z.lor (PA2PTE p) PTE_V)) (freelist s0) ∧
    G1 = <[p := (l, vpn va / 512 ^ (Z.of_nat l + 1))]> G ∧
    vm_inv G1 s1 root pages ∧ G ⊆ G1 ∧
    (∀ q, is_Some (G1 !! q) → is_Some (G !! q) ∨ q ∈ [p]) ∧
    same_outside_pt G1 (km s) (km s1) ∧
    (∀ q lv x j, G !! q = Some (lv, x) → 0 ≤ j < 512 →
      lv = 0%nat ∨ has (ld64 (km s) (q + 8 * j)) PTE_V = true →
      ld64 (km s1) (q + 8 * j) = ld64 (km s) (q + 8 * j)) ∧
    (∀ va', 0 ≤ va' < MAXVA → pte_at (km s1) root va' = pte_at (km s) root va') ∧
    ld64 (km s1) (pt + 8 * PX (Z.of_nat (S l)) va) = Z.lor (PA2PTE p) PTE_V.
Proof.
  intros (Hk & Hpt & Hdis) Hva Hon Hinv.
  destruct (kalloc_cons _ _ _ Hk) as (s0 & Hka & Hk0 & Hout0 & _).
  pose proof Hk as (Hnd & Hok & _). apply Forall_cons in Hok as [Hp Hoks].
  apply NoDup_cons in Hnd as [Hnin _].
  assert (G !! p = None) as Hfresh by (apply Hdis; by left).
  set (i := PX (Z.of_nat (S l)) va) in *. assert (0 ≤ i < 512) as Hi by apply PX_range.
  pose proof (page_ok_pos _ Hp) as Hpp. pose proof (on_path_ok _ _ _ _ _ _ Hpt Hon) as Hptok.
  assert (pt ≠ p) as Hne by (intros ->; rewrite /on_path in Hon; congruence).
  set (e := Z.lor (PA2PTE p) PTE_V).
  set (m1 := st64 (memset (km s0) p 0 PGSIZE) (pt + 8 * i) e).
  assert (same_outside p (km s) (memset (km s0) p 0 PGSIZE)) as Hout1.
  { eapply same_outside_trans; [done|]. apply same_outside_memset. }
  assert (∀ q j, is_Some (G !! q) → 0 ≤ j < 512 → q ≠ pt ∨ j ≠ i →
            ld64 m1 (q + 8 * j) = ld64 (km s) (q + 8 * j)) as Hsame.
  { intros q j Hq Hj Hd. rewrite /m1 ld64_st64_slot //; [| |by destruct Hd; [left|right]; auto].
    - by eapply (slot_frame G _ _ root p).
    - destruct Hq as [[??] Hq]. by apply Hpt in Hq as [??]. }
  assert (ld64 m1 (pt + 8 * i) = e) as Hnew.
  { rewrite /m1 ld64_st64_eq u64_small // /e -(Z.lor_0_r (PA2PTE p)) pte_encode; [|lia..].
    change (Z.lor 0 PTE_V) with 1. lia. }
  assert (∀ j, 0 ≤ j < 512 → ld64 m1 (p + 8 * j) = 0) as Hzero.
  { intros j Hj. rewrite /m1. rewrite ld64_st64_slot. 2: exact Hptok. 2: exact Hp. 2: exact Hi. 2: exact Hj. 2: by left. apply ld64_memset_0; klia. }
  assert (pt_inv (<[p := (l, vpn va / 512 ^ (Z.of_nat l + 1))]> G) m1 root) as Hpt1.
  { rewrite -PX_digit; [|lia]. eapply (hook_pt_inv G (km s) m1 root pt p i l); eauto.
    by rewrite Hnew Z.lor_0_r. }
  eexists s0, _, _. split; [exact Hka|]. split; [lia|]. split; [reflexivity|].
  split; [reflexivity|].
  refine (conj _ (conj _ (conj _ (conj _ (conj _ (conj _ Hnew)))))).
  - split; [|split; [exact Hpt1|]]; cbn.
    + destruct Hk0 as (? & ? & Hrep). split_and!; [done..|]. cbn.
      eapply same_outside_rep; [exact Hptok|done| | |].
      2:{ eapply (same_outside_st64 pt); klia. }
      * intros Hin. rewrite /on_path Hdis in Hon; [done|]. by right.
      * eapply same_outside_rep; [exact Hp|done|done| |done]. apply same_outside_memset.
    + intros q Hq. rewrite lookup_insert_ne; [apply Hdis; by right|]. by intros ->.
  - by apply insert_subseteq.
  - intros q. destruct (decide (q = p)) as [->|]; [right; by left|].
    rewrite lookup_insert_ne //. by left.
  - cbn. eapply (same_outside_pt_trans _ _ _ (memset (km s0) p 0 PGSIZE)); [reflexivity| |].
    + apply (same_outside_pt_page _ p); [|done]. rewrite lookup_insert_eq. by eexists.
    + apply (same_outside_pt_page _ pt); [|apply same_outside_st64; klia].
      rewrite lookup_insert_ne //.
  - intros q lv x j Hq Hj Hv. cbn. apply Hsame; [by eexists|done|].
    destruct (decide (q = pt)) as [->|]; [|by left]. right. intros ->.
    rewrite /on_path Hq in Hon. destruct Hv as [->|Hv]; [|congruence]. congruence.
  - intros va' Hva'. cbn. eapply (hook_pte_of G (km s) m1 root pt p i l); eauto.
    + by rewrite Hnew Z.lor_0_r.
    + lia.
    + by eapply on_path_root.
Qed.

Lemma walk_loop_spec G s root pages l pt va alloc :
  vm_inv G s root pages → 0 ≤ va < MAXVA → on_path G l pt va →
  ∃ r s' G' used pages', walk_loop l pt va alloc s = Ret r s' ∧
    walk_post G s root pages l pt va alloc r s' G' used pages'.
Proof.
  revert G s pages pt. induction l as [|l IH]; intros G s pages pt Hinv Hva Hon.
  { pose proof Hinv as (Hk & Hpt & Hdis). cbn [walk_loop].
    exists (pt + 8 * PX 0 va), s, G, [], pages. split; [done|]. apply walk_post_refl; [done| |done].
    pose proof (on_path_ok _ _ _ _ _ _ Hpt Hon) as Hok%page_ok_pos.
    pose proof (PX_range 0 va). lia. }
  pose proof Hinv as (Hk & Hpt & Hdis). cbn [walk_loop].
  rewrite (bind_ret _ _ _ _ _ (eq_refl : load64 _ s = Ret _ s)).
  destruct (has _ PTE_V) eqn:Hv.
  { destruct (IH G s pages (PTE2PA (ld64 (km s) (pt + 8 * PX (Z.of_nat (S l)) va))))
      as (r & s' & G' & used & pages' & Hw & Hpost); [done..|by eapply on_path_child; [|lia|..]|].
    exists r, s', G', used, pages'. split; [done|]. by apply walk_post_up. }
  assert (walk_pure (S l) (km s) pt va = None) as Hnone by (cbn [walk_pure]; by rewrite Hv).
  destruct alloc; cbn [negb].
  2:{ exists 0, s, G, [], pages. split; [done|]. by apply walk_post_refl. }
  destruct pages as [|p pages].
  { rewrite (bind_ret _ _ _ _ _ (kalloc_empty _ Hk)) /=.
    exists 0, s, G, [], []. split; [done|]. by apply walk_post_refl. }
  destruct (walk_alloc_step G s root p pages l pt va)
    as (s0 & s1 & G1 & Hka & Hp0 & Hs1 & HG1 & Hinv1 & Hsub & Hnew & Hout & Hslot & Hpte & He);
    [done..|].
  rewrite (bind_ret _ _ _ _ _ Hka). destruct (Z.eqb_spec p 0); [done|].
  assert (on_path G1 l p va) as Hon1 by (by rewrite /on_path HG1 lookup_insert_eq).
  destruct (IH G1 s1 pages p) as (r & s' & G' & used & pages' & Hw & Hpost); [done..|].
  exists r, s', G', ([p] ++ used), pages'. split.
  { rewrite -Hw Hs1. reflexivity. }
  assert (PTE2PA (Z.lor (PA2PTE p) PTE_V) = p ∧ has (Z.lor (PA2PTE p) PTE_V) PTE_V = true) as [Hpa HpV].
  { split; [|apply has_lor_V]. rewrite -{1}(Z.lor_0_r (PA2PTE p)).
    pose proof Hk as (_ & Hok & _). apply Forall_cons in Hok as [Hp _].
    pose proof (page_ok_pos _ Hp). apply PTE2PA_encode; [lia| |lia]. by destruct Hp. }
  assert (on_path G1 (S l) pt va) as HonS by (by eapply lookup_weaken).
  eapply walk_post_trans; [done..| | |].
  { apply wp_used in Hpost. cbn. lia. }
  { intros q ->%list_elem_of_singleton. cbn [tables].
    rewrite (wp_slot _ _ _ _ _ _ _ _ _ _ _ _ _ Hpost _ _ _ _ HonS); [|apply PX_range|right; by rewrite He]. rewrite He HpV Hpa. right. destruct l; by left. }
  eapply walk_post_up; [exact HonS| |by rewrite He Hpa]. by rewrite He.
Qed.

Lemma walk_run root va alloc s : va < MAXVA → walk root va alloc s = walk_loop 2 root va alloc s.
Proof. intros. rewrite /walk Z.geb_leb. destruct (Z.leb_spec MAXVA va); [lia|done]. Qed.

Lemma walk_spec G s root pages va alloc :
  vm_inv G s root pages → 0 ≤ va < MAXVA →
  ∃ r s' G' used pages', walk root va alloc s = Ret r s' ∧
    walk_post G s root pages 2 root va alloc r s' G' used pages'.
Proof.
  intros Hinv Hva. rewrite walk_run; [|lia]. apply walk_loop_spec; [done..|].
  destruct Hinv as (_ & Hpt & _). by eapply on_path_root.
Qed.

(** Without [alloc], [walk] is the pure walk: no side effect. *)
Lemma walk_noalloc G s root pages va :
  vm_inv G s root pages → 0 ≤ va < MAXVA →
  walk root va false s = Ret (default 0 (walk_pure 2 (km s) root va)) s.
Proof.
  intros Hinv Hva.
  destruct (walk_spec G s root pages va false Hinv Hva) as (r & s' & G' & used & pages' & Hw & Hp).
  destruct (wp_noalloc _ _ _ _ _ _ _ _ _ _ _ _ _ Hp) as [-> ->]; [done|].
  rewrite Hw. f_equal. destruct (decide (r = 0)) as [->|Hr].
  - by destruct (wp_fail _ _ _ _ _ _ _ _ _ _ _ _ _ Hp eq_refl) as [-> _].
  - by rewrite (wp_ok _ _ _ _ _ _ _ _ _ _ _ _ _ Hp Hr).
Qed.

(** ** Writing a leaf entry *)

Lemma same_leaf G q va va' :
  0 ≤ va → 0 ≤ va' → on_path G 0 q va → on_path G 0 q va' → PX 0 va = PX 0 va' → vpn va = vpn va'.
Proof.
  intros ?? H1 H2. rewrite /on_path H1 in H2. injection H2 as E.
  rewrite !PX_eq // !Z.pow_0_r !Z.div_1_r. change (512 ^ (Z.of_nat 0 + 1)) with 512 in E. lia.
Qed.

Lemma PX_vpn l va va' : 0 ≤ l → vpn va = vpn va' → PX l va = PX l va'.
Proof. intros Hl E. by rewrite !PX_eq // E. Qed.

Lemma walk_pure_vpn l m p va va' : vpn va = vpn va' → walk_pure l m p va = walk_pure l m p va'.
Proof.
  intros E. revert p. induction l as [|l IH]; intros p; cbn [walk_pure].
  - by rewrite (PX_vpn 0 va va').
  - rewrite (PX_vpn (Z.of_nat (S l)) va va' ltac:(lia) E). case_match; [apply IH|done].
Qed.

Lemma pte_at_vpn m root va va' : vpn va = vpn va' → pte_at m root va = pte_at m root va'.
Proof. intros E. by rewrite /pte_at /pte_of (walk_pure_vpn _ _ _ _ _ E). Qed.

(** A store to the leaf slot of [va] leaves every upper entry alone. *)
Lemma store_leaf_walk G m root va a v l p va' :
  pt_inv G m root → 0 ≤ va < MAXVA → walk_pure 2 m root va = Some a →
  0 ≤ va' → on_path G l p va' →
  walk_pure l (st64 m a v) p va' = walk_pure l m p va'.
Proof.
  intros Hpt Hva Hw Hva'. pose proof (on_path_root _ _ _ _ Hpt Hva) as Hroot.
  destruct (walk_pure_leaf _ _ _ _ _ _ _ Hpt (proj1 Hva) Hroot Hw) as (q & -> & Hq).
  revert p. induction l as [|l IH]; intros p Hon; cbn [walk_pure]; [done|].
  rewrite ld64_st64_slot; eauto using PX_range, on_path_ok.
  - destruct (has _ PTE_V) eqn:Hv; [|done]. apply IH. by eapply on_path_child.
  - left. intros ->. rewrite /on_path Hq in Hon. congruence.
Qed.

Lemma store_leaf_spec G m root va a v va' :
  pt_inv G m root → 0 ≤ va < MAXVA → walk_pure 2 m root va = Some a → 0 ≤ va' < MAXVA →
  pte_at (st64 m a v) root va' = if decide (vpn va' = vpn va) then u64 v else pte_at m root va'.
Proof.
  intros Hpt Hva Hw Hva'. pose proof (on_path_root _ _ _ _ Hpt Hva) as Hroot.
  pose proof (on_path_root _ _ _ _ Hpt Hva') as Hroot'.
  rewrite /pte_at /pte_of (store_leaf_walk G m root va) //; [|lia].
  case_decide as Hd.
  - rewrite (walk_pure_vpn 2 m root va' va Hd) Hw. apply ld64_st64_eq.
  - destruct (walk_pure 2 m root va') as [a'|] eqn:Hw'; [|done].
    destruct (walk_pure_leaf _ _ _ _ _ _ _ Hpt (proj1 Hva) Hroot Hw) as (q & -> & Hq).
    destruct (walk_pure_leaf _ _ _ _ _ _ _ Hpt (proj1 Hva') Hroot' Hw') as (q' & -> & Hq').
    apply ld64_st64_slot; eauto using PX_range, on_path_ok.
    destruct (decide (q = q')) as [->|]; [right|by left]. intros E. apply Hd.
    symmetry. eapply same_leaf; eauto; lia.
Qed.

Lemma store_leaf_pt_inv G m root va a v :
  pt_inv G m root → 0 ≤ va < MAXVA → walk_pure 2 m root va = Some a → pt_inv G (st64 m a v) root.
Proof.
  intros Hpt Hva Hw. pose proof (on_path_root _ _ _ _ Hpt Hva) as Hroot.
  destruct (walk_pure_leaf _ _ _ _ _ _ _ Hpt (proj1 Hva) Hroot Hw) as (q & -> & Hq).
  pose proof Hpt as [Hr Hall]. split; [done|]. intros p l x Hp.
  destruct (Hall _ _ _ Hp) as [Hok Hc]. split; [done|]. intros l' i -> Hi.
  rewrite ld64_st64_slot; eauto using PX_range, on_path_ok.
  left. intros ->. rewrite /on_path Hp in Hq. congruence.
Qed.

Lemma store_leaf_upper G m root va a v :
  pt_inv G m root → 0 ≤ va < MAXVA → walk_pure 2 m root va = Some a → upper_kept G m (st64 m a v).
Proof.
  intros Hpt Hva Hw. pose proof (on_path_root _ _ _ _ Hpt Hva) as Hroot.
  destruct (walk_pure_leaf _ _ _ _ _ _ _ Hpt (proj1 Hva) Hroot Hw) as (q & -> & Hq).
  intros p l x j Hp Hj _. apply ld64_st64_slot; eauto using PX_range, on_path_ok.
  - by apply (proj2 Hpt _ _ _ Hp).
  - left. intros ->. rewrite /on_path Hp in Hq. congruence.
Qed.

Lemma store_leaf_vm_inv G s root pages va a v :
  vm_inv G s root pages → 0 ≤ va < MAXVA → walk_pure 2 (km s) root va = Some a →
  vm_inv G (mk_kmem (st64 (km s) a v) (freelist s)) root pages ∧
  same_outside_pt G (km s) (st64 (km s) a v).
Proof.
  intros (Hk & Hpt & Hdis) Hva Hw. pose proof (on_path_root _ _ _ _ Hpt Hva) as Hroot.
  destruct (walk_pure_leaf _ _ _ _ _ _ _ Hpt (proj1 Hva) Hroot Hw) as (q & Ha & Hq).
  pose proof (on_path_ok _ _ _ _ _ _ Hpt Hq) as Hqok. pose proof (PX_range 0 va).
  assert (same_outside q (km s) (st64 (km s) a v)) as Hs.
  { subst a. apply same_outside_st64; klia. }
  split; [split_and!|].
  - destruct Hk as (? & Hok & Hrep). split_and!; [done..|]. cbn.
    eapply same_outside_rep; [exact Hqok|done| |done|done].
    intros Hin. rewrite /on_path Hdis in Hq; done.
  - cbn. by eapply store_leaf_pt_inv.
  - done.
  - apply (same_outside_pt_page _ q); [by eexists|done].
Qed.

(** ** [mappages] *)

(** The translation after [k] pages from [a] have been mapped to [pa] on. *)
Definition mapped_to (m : mem) (root a k pa perm va : Z) : Z :=
  if decide (vpn a ≤ vpn va < vpn a + k)
  then Z.lor (Z.lor (PA2PTE (pa + (vpn va - vpn a) * PGSIZE)) perm) PTE_V
  else pte_at m root va.

Record map_post (G : gmap Z (nat * Z)) (s : kmem) (root : Z) (pages : list Z) (n : Z)
    (r : Z) (s' : kmem) (f : Z → Z → Z)
    (G' : gmap Z (nat * Z)) (used pages' : list Z) (k : Z) : Prop := {
  mp_pages : pages = used ++ pages';
  mp_inv : vm_inv G' s' root pages';
  mp_sub : G ⊆ G';
  mp_new : ∀ p, is_Some (G' !! p) → is_Some (G !! p) ∨ p ∈ used;
  mp_out : same_outside_pt G' (km s) (km s');
  mp_ret : (r = 0 ∧ k = n) ∨ (r = -1 ∧ 0 ≤ k < n ∧ pages' = []);
  mp_pte : ∀ va, 0 ≤ va < MAXVA → pte_at (km s') root va = f k va;
  mp_upper : upper_kept G (km s) (km s');
  mp_tree : ∀ q, q ∈ used → in_tree (km s') root q;
}.

Lemma pte_encode_u64 pa perm :
  0 ≤ pa < 2 ^ 56 → 0 ≤ perm < 1024 →
  u64 (Z.lor (Z.lor (PA2PTE pa) perm) PTE_V) = Z.lor (Z.lor (PA2PTE pa) perm) PTE_V.
Proof.
  intros Hpa Hp. apply u64_small. rewrite pte_encode //.
  assert (0 ≤ Z.lor perm PTE_V < 2 ^ 10) by (apply lor_range; klia). lia.
Qed.

Lemma mappages_loop_S fuel pt a last pa perm :
  mappages_loop (S fuel) pt a last pa perm =
  (pte ← walk pt a true;
   if pte =? 0 then mret (-1)
   else
     v ← load64 pte;
     if has v PTE_V then panic "mappages: remap"
     else
       store64 pte (Z.lor (Z.lor (PA2PTE pa) perm) PTE_V);;
       if a =? last then mret 0
       else mappages_loop fuel pt (u64 (a + PGSIZE)) last (u64 (pa + PGSIZE)) perm).
Proof. reflexivity. Qed.

Lemma mappages_loop_spec n G s root pages a pa perm :
  vm_inv G s root pages → a mod PGSIZE = 0 → 0 ≤ a → a + Z.of_nat (S n) * PGSIZE ≤ MAXVA →
  0 ≤ pa → pa + Z.of_nat (S n) * PGSIZE ≤ 2 ^ 56 → 0 ≤ perm < 1024 →
  (∀ va, vpn a ≤ vpn va < vpn a + Z.of_nat (S n) → has (pte_at (km s) root va) PTE_V = false) →
  ∃ r s' G' used pages' k,
    mappages_loop (S n) root a (a + Z.of_nat n * PGSIZE) pa perm s = Ret r s' ∧
    map_post G s root pages (Z.of_nat (S n)) r s'
      (λ k va, mapped_to (km s) root a k pa perm va) G' used pages' k.
Proof.
  revert G s pages a pa. induction n as [|n IH];
    intros G s pages a pa Hinv Hal Ha0 Ha Hpa0 Hpa Hperm Hfree.
  all: assert (0 ≤ a < MAXVA) as Hva by klia.
  all: destruct (walk_spec G s root pages a true Hinv Hva) as (r & s1 & G1 & used & pages1 & Hw & Hp).
  all: destruct Hp as [Hpg Hinv1 Hsub Hnew Hout Hslot Hpte _ Hf Hok Hused Htree].
  all: assert (upper_kept G (km s) (km s1)) as Hup1 by (intros p lv x j Hp Hj Hv; apply (Hslot p (S lv) x); auto).
  all: assert (∀ q, q ∈ used → in_tree (km s1) root q) as Htree1 by (intros q Hq; exists a; split; [exact Hva|by apply Htree]).
  all: rewrite mappages_loop_S (bind_ret _ _ _ _ _ Hw).
  all: destruct (Z.eqb_spec r 0) as [->|Hr];
    [exists (-1), s1, G1, used, pages1, 0; split; [done|]; split; try done;
     [right; destruct Hf as [_ Hf]; [done|]; split_and!; [done|lia|lia|by apply Hf]
     |intros va Hv; rewrite Hpte // /mapped_to; case_decide; [lia|done]]|].
  all: specialize (Hok Hr).
  all: rewrite (bind_ret _ _ _ _ _ (eq_refl : load64 _ s1 = Ret _ s1)).
  all: assert (ld64 (km s1) r = pte_at (km s) root a) as Hold
    by (rewrite -Hpte // /pte_at /pte_of Hok //).
  all: rewrite Hold Hfree; [|rewrite /vpn; klia].
  all: set (e := Z.lor (Z.lor (PA2PTE pa) perm) PTE_V).
  all: destruct (store_leaf_vm_inv G1 s1 root pages1 a r e Hinv1 Hva Hok) as [Hinv2 Hout2].
  all: rewrite (bind_ret _ _ _ _ _ (eq_refl : store64 r e s1 = Ret _ _)).
  all: set (s2 := mk_kmem _ _) in *.
  all: assert (upper_kept G1 (km s1) (km s2)) as Hup2 by (destruct Hinv1 as (_ & Hpt1 & _); by eapply store_leaf_upper).
  all: assert (upper_kept G (km s) (km s2)) as Hup by (by eapply upper_kept_trans).
  all: assert (∀ q, q ∈ used → in_tree (km s2) root q) as Htree2
    by (intros q Hq; destruct Hinv1 as (_ & Hpt1 & _); eapply in_tree_kept; eauto).
  all: assert (∀ va, 0 ≤ va < MAXVA → pte_at (km s2) root va =
         if decide (vpn va = vpn a) then e else pte_at (km s) root va) as Hpte2
    by (intros va Hv; destruct Hinv1 as (_ & Hpt1 & _);
        rewrite /= (store_leaf_spec G1 _ root a r) // Hpte // /e pte_encode_u64 //; klia).
  - rewrite Z.mul_0_l Z.add_0_r Z.eqb_refl.
    exists 0, s2, G1, used, pages1, 1. split; [done|]. split; try done.
    + by eapply (same_outside_pt_trans G1 G1).
    + left. split; [done|lia].
    + intros va Hv. rewrite Hpte2 // /mapped_to. repeat case_decide; try lia; try done.
      rewrite /e. do 3 f_equal. lia.
  - destruct (Z.eqb_spec a (a + Z.of_nat (S n) * PGSIZE)) as [E|_]; [klia|].
    rewrite !u64_small; [|klia..].
    replace (a + Z.of_nat (S n) * PGSIZE) with (a + PGSIZE + Z.of_nat n * PGSIZE) by klia.
    assert (vpn (a + PGSIZE) = vpn a + 1) as Hvpn by (rewrite /vpn; klia).
    destruct (IH G1 s2 pages1 (a + PGSIZE) (pa + PGSIZE))
      as (r' & s' & G' & used' & pages' & k & Hm & []); try done; try klia.
    { intros va Hv. destruct (decide (0 ≤ va < MAXVA)); [|exfalso; rewrite /vpn in Hv; klia].
      rewrite Hpte2 //. case_decide; [lia|]. apply Hfree. lia. }
    exists r', s', G', (used ++ used'), pages', (k + 1). split; [exact Hm|]. split; try done.
    + by rewrite Hpg mp_pages0 -app_assoc.
    + by etrans.
    + intros p [Hp|Hp]%mp_new0; [|set_solver]. apply Hnew in Hp as [?|?]; set_solver.
    + eapply same_outside_pt_trans; [exact mp_sub0| |done].
      by eapply (same_outside_pt_trans G1 G1).
    + destruct mp_ret0 as [[-> ->]|(-> & ? & ->)]; [left|right]; split_and!; done || lia.
    + intros va Hv. rewrite mp_pte0 // /mapped_to Hvpn Hpte2 //.
      repeat case_decide; try lia; try done.
      * do 3 f_equal. klia.
      * rewrite /e. do 3 f_equal. klia.
    + by eapply upper_kept_trans.
    + intros q [Hq|Hq]%elem_of_app; [|by apply mp_tree0]. destruct Hinv2 as (_ & Hpt2 & _). eapply in_tree_kept; eauto.
Qed.

Lemma mappages_spec G s root pages a n pa perm :
  vm_inv G s root pages → a mod PGSIZE = 0 → 0 ≤ a → 0 < n → a + n * PGSIZE ≤ MAXVA →
  0 ≤ pa → pa + n * PGSIZE ≤ 2 ^ 56 → 0 ≤ perm < 1024 →
  (∀ va, vpn a ≤ vpn va < vpn a + n → has (pte_at (km s) root va) PTE_V = false) →
  ∃ r s' G' used pages' k,
    mappages root a (n * PGSIZE) pa perm s = Ret r s' ∧
    map_post G s root pages n r s' (λ k va, mapped_to (km s) root a k pa perm va) G' used pages' k.
Proof.
  intros Hinv Hal Ha0 Hn Ha Hpa0 Hpa Hperm Hfree. rewrite /mappages Hal /=.
  rewrite Z.mod_mul; [|klia]. rewrite Z.div_mul; [|klia]. cbn [negb Z.eqb].
  destruct (Z.eqb_spec (n * PGSIZE) 0); [klia|].
  destruct (Z.to_nat n) as [|n'] eqn:En; [lia|].
  destruct (mappages_loop_spec n' G s root pages a pa perm)
    as (r & s' & G' & used & pages' & k & Hm & Hp); try done; try klia.
  { intros va Hv. apply Hfree. lia. }
  exists r, s', G', used, pages', k. rewrite u64_small; [|klia].
  replace (a + n * PGSIZE - PGSIZE) with (a + Z.of_nat n' * PGSIZE) by klia.
  split; [done|]. by replace n with (Z.of_nat (S n')) by lia.
Qed.
(** Storing bytes inside a page that is neither free nor part of the tree keeps the page table, hence every
    translation. *)
Lemma frame_store G s root pages f m' :
  vm_inv G s root pages → page_ok f → f ∉ pages → G !! f = None →
  same_outside f (km s) m' →
  vm_inv G (mk_kmem m' (freelist s)) root pages ∧
  (∀ va, 0 ≤ va < MAXVA → pte_at m' root va = pte_at (km s) root va).
Proof.
  intros (Hk & Hpt & Hdis) Hf Hnin HG Hs.
  assert (∀ q i, is_Some (G !! q) → 0 ≤ i < 512 →
    ld64 m' (q + 8 * i) = ld64 (km s) (q + 8 * i)) as Hslot.
  { intros. by eapply (slot_frame G _ _ root f). }
  split; [split_and!|].
  - destruct Hk as (? & ? & Hrep). split_and!; [done..|]. cbn. by eapply same_outside_rep.
  - cbn. by eapply pt_inv_ext.
  - done.
  - intros va Hva. apply (pte_of_ext G (km s) m' root 2 root va); [done|lia| |done].
    by eapply on_path_root.
Qed.


(** ** The page-table contract *)

(** [walk] over a well-formed page table always returns.  Without
    [alloc] it changes nothing; with it, it may add page-table pages taken
    from the free list, but the tree stays well-formed, no translation
    changes, and nothing outside the tree is written.  A non-null result is
    the address of the leaf entry the translation of [va] reads, and a null
    one means a missing level: with [alloc], because memory ran out. *)
Theorem walk_correct G s root pages va alloc :
  vm_inv G s root pages → 0 ≤ va < MAXVA →
  ∃ r s' G' pages', walk root va alloc s = Ret r s' ∧
    vm_inv G' s' root pages' ∧ G ⊆ G' ∧ same_outside_pt G' (km s) (km s') ∧
    (∀ va', 0 ≤ va' < MAXVA → pte_at (km s') root va' = pte_at (km s) root va') ∧
    (alloc = false → s' = s) ∧
    (r ≠ 0 → ld64 (km s') r = pte_at (km s') root va) ∧
    (r = 0 → pte_at (km s') root va = 0 ∧ (alloc = true → pages' = [])).
Proof.
  intros Hinv Hva. destruct (walk_spec G s root pages va alloc Hinv Hva)
    as (r & s' & G' & used & pages' & E & []).
  exists r, s', G', pages'. split_and!; try done.
  - intros Hal. by destruct (wp_noalloc0 Hal).
  - intros Hr. by rewrite /pte_at /pte_of (wp_ok0 Hr).
  - intros Hr. destruct (wp_fail0 Hr) as [Hn ?]. by rewrite /pte_at /pte_of Hn.
Qed.

(** [mappages] of [n] pages that are not mapped yet returns 0 or -1.  On
    0, virtual page [i] of the range translates to physical page [i] with
    exactly the requested permissions; on -1 memory ran out.  Either way the
    tree stays well-formed, every virtual page outside the range keeps its
    translation, and memory outside the tree is untouched. *)
Theorem mappages_translates G s root pages va n pa perm :
  vm_inv G s root pages → va mod PGSIZE = 0 → 0 ≤ va → 0 < n → va + n * PGSIZE ≤ MAXVA →
  pa mod PGSIZE = 0 → 0 ≤ pa → pa + n * PGSIZE ≤ 2 ^ 56 → 0 ≤ perm < 1024 →
  (∀ va', vpn va ≤ vpn va' < vpn va + n → has (pte_at (km s) root va') PTE_V = false) →
  ∃ r s' G' pages', mappages root va (n * PGSIZE) pa perm s = Ret r s' ∧
    vm_inv G' s' root pages' ∧ same_outside_pt G' (km s) (km s') ∧
    (r = 0 ∨ r = -1 ∧ pages' = []) ∧
    (∀ va', 0 ≤ va' < MAXVA → ¬ (vpn va ≤ vpn va' < vpn va + n) →
       pte_at (km s') root va' = pte_at (km s) root va') ∧
    (r = 0 → ∀ va', 0 ≤ va' < MAXVA → vpn va ≤ vpn va' < vpn va + n →
       PTE2PA (pte_at (km s') root va') = pa + (vpn va' - vpn va) * PGSIZE ∧
       PTE_FLAGS (pte_at (km s') root va') = Z.lor perm PTE_V).
Proof.
  intros Hinv Hal Hva Hn Hlim Hpal Hpa Hplim Hperm Hfree.
  destruct (mappages_spec G s root pages va n pa perm) as (r & s' & G' & used & pages' & k & E & []); try done.
  exists r, s', G', pages'. split_and!; try done.
  - destruct mp_ret0 as [[-> _]|(-> & _ & ->)]; [by left|by right].
  - intros va' Hva' Hout. rewrite mp_pte0 // /mapped_to decide_False //. lia.
  - intros -> va' Hva' Hin. rewrite mp_pte0 // /mapped_to decide_True; [|lia].
    split; [apply PTE2PA_encode; [klia..|done]|apply PTE_FLAGS_encode; [klia|done]].
Qed.
End vminv.

(** ** Example: an empty page table on the small machine *)

#[local] Existing Instance demo_linker.

Definition demo_pages : list Z := tail boot_pages.
Definition demo_pt : shape := {[demo_top := (2%nat, 0)]}.
(** [uvmcreate] on the booted machine. *)
Definition demo_vm : kmem :=
  ret_state (uvmcreate demo_boot) demo_boot.

Lemma demo_vm_inv : vm_inv demo_pt demo_vm demo_top demo_pages.
Proof.
  destruct (kalloc_cons demo_boot demo_top demo_pages demo_boot_inv) as (s1 & E & Hinv & Hs & _).
  assert (demo_vm = mk_kmem (memset (km s1) demo_top 0 PGSIZE) (freelist s1)) as ->.
  { rewrite /demo_vm /uvmcreate (bind_ret _ _ _ _ _ E). reflexivity. }
  pose proof demo_boot_inv as ([Hnin _]%NoDup_cons & [Hok _]%Forall_cons & _).
  split_and!.
  - destruct Hinv as (Hnd & Hoks & Hrep). split_and!; [done..|]. cbn.
    eapply same_outside_rep; [exact Hok|done|exact Hnin|apply same_outside_memset|done].
  - split; [by rewrite lookup_singleton_eq|]. intros p l x. rewrite lookup_singleton_Some. intros [<- [= <- <-]].
    split; [done|]. intros l' i _ Hi. cbn. rewrite ld64_memset_0; [|klia..]. rewrite has_0. discriminate.
  - intros p Hp. apply lookup_singleton_ne. intros <-. by apply Hnin.
Qed.

Lemma demo_vm_pte va : pte_at (km demo_vm) demo_top va = 0.
Proof.
  destruct (kalloc_cons demo_boot demo_top demo_pages demo_boot_inv) as (s1 & E & Hinv & Hs & _).
  rewrite /demo_vm /uvmcreate (bind_ret _ _ _ _ _ E). apply pte_of_zero. intros i Hi. cbn.
  rewrite ld64_memset_0; [done|klia..].
Qed.

#[global] Opaque demo_boot demo_vm.

Lemma walk_correct_witness :
  ∃ r s', walk demo_top 0x3000 true demo_vm = Ret r s' ∧ ld64 (km s') r = 0 ∧ r ≠ 0.
Proof.
  destruct (walk_correct demo_pt demo_vm demo_top demo_pages 0x3000 true demo_vm_inv ltac:(klia))
    as (r & s' & G' & pages' & E & _ & _ & _ & Hp & _ & Hr & _).
  exists r, s'. assert (ret_val (walk demo_top 0x3000 true demo_vm) ≠ 0) as Hne
    by (vm_compute; discriminate).
  rewrite E in Hne.
  split; [exact E|]. split; [|exact Hne]. rewrite (Hr Hne) Hp; [apply demo_vm_pte|vm_compute; intuition congruence].
Defined.

Lemma mappages_translates_witness :
  ∃ s', mappages demo_top 0x3000 (2 * PGSIZE) KERNBASE (Z.lor PTE_R PTE_X) demo_vm = Ret 0 s' ∧
    PTE2PA (pte_at (km s') demo_top 0x4123) = KERNBASE + 1 * PGSIZE.
Proof.
  destruct (mappages_translates demo_pt demo_vm demo_top demo_pages 0x3000 2 KERNBASE (Z.lor PTE_R PTE_X))
    as (r & s' & G' & pages' & E & _ & _ & _ & _ & H0);
    [exact demo_vm_inv|reflexivity|klia|lia|klia|reflexivity|klia|klia|vm_compute; intuition congruence| |].
  - intros va' _. rewrite demo_vm_pte. apply has_0.
  - assert (ret_val (mappages demo_top 0x3000 (2 * PGSIZE) KERNBASE (Z.lor PTE_R PTE_X) demo_vm) = 0)
      as Hr by (vm_compute; reflexivity).
    rewrite E in Hr. cbn in Hr. subst r. exists s'. split; [done|]. apply (H0 eq_refl 0x4123); vm_compute; intuition congruence.
Defined.
