(* ===== verification/AddrSpace.v ===== *)
(** * Growing and shrinking a user address space

    [uvmunmap], [uvmdealloc] and [uvmalloc] of kernel/vm.c: which pages they
    hand out and take back, what the page table maps afterwards, and which
    memory they leave alone. *)
From S2P Require Import Prelude Riscv CString Kalloc Vm VmInv.

Section addrspace.
Context {LK : Linker}.

(** ** Ownership of a range of virtual pages *)

(** The entry of virtual page number [i]. *)
Definition vpte (m : mem) (root i : Z) : Z := pte_at m root (i * PGSIZE).

(** Virtual pages [a .. a+n) are leaf mappings of frames that belong to
    them alone: not free, not in the page-table tree, and distinct. *)
Definition own (G : gmap Z (nat * Z)) (m : mem) (root : Z) (pages : list Z) (a n : Z) : Prop :=
  ∀ i, a ≤ i < a + n →
    has (vpte m root i) PTE_V = true ∧ PTE_FLAGS (vpte m root i) ≠ PTE_V ∧
    page_ok (PTE2PA (vpte m root i)) ∧ PTE2PA (vpte m root i) ∉ pages ∧
    G !! PTE2PA (vpte m root i) = None ∧
    ∀ j, a ≤ j < a + n → PTE2PA (vpte m root j) = PTE2PA (vpte m root i) → j = i.

(** The frames of [a .. a+n), the last one first. *)
Fixpoint frames (n : nat) (m : mem) (root a : Z) : list Z :=
  match n with
  | O => []
  | S n' => frames n' m root (a + 1) ++ [PTE2PA (vpte m root a)]
  end.

(** Memory that is neither free nor part of the page table is unchanged. *)
Definition kept (G : gmap Z (nat * Z)) (pages : list Z) (m m' : mem) : Prop :=
  ∀ a, (∀ q, is_Some (G !! q) ∨ q ∈ pages → ¬ (q ≤ a < q + PGSIZE)) → ld8 m' a = ld8 m a.

Lemma kept_refl G pages m : kept G pages m m.
Proof. by intros a _. Qed.

Lemma kept_trans G G' pages pages' m1 m2 m3 :
  (∀ q, is_Some (G' !! q) ∨ q ∈ pages' → is_Some (G !! q) ∨ q ∈ pages) →
  kept G pages m1 m2 → kept G' pages' m2 m3 → kept G pages m1 m3.
Proof. intros Hs H1 H2 a Ha. rewrite H2; [by apply H1|]. intros q Hq. by apply Ha, Hs. Qed.

Lemma kept_page G pages p m m' :
  is_Some (G !! p) ∨ p ∈ pages → same_outside p m m' → kept G pages m m'.
Proof. intros Hp Hs a Ha. apply Hs. by apply Ha. Qed.

Lemma kept_weaken G G' pages pages' m m' :
  (∀ q, is_Some (G' !! q) ∨ q ∈ pages' → is_Some (G !! q) ∨ q ∈ pages) →
  kept G' pages' m m' → kept G pages m m'.
Proof. intros Hs Hk a Ha. apply Hk. intros q Hq. by apply Ha, Hs. Qed.

Lemma kept_step G pages m1 m2 m3 :
  kept G pages m1 m2 → kept G pages m2 m3 → kept G pages m1 m3.
Proof. by apply kept_trans. Qed.

Lemma same_outside_pt_kept G pages m m' : same_outside_pt G m m' → kept G pages m m'.
Proof. intros Hs a Ha. apply Hs. intros p Hp. apply Ha. by left. Qed.

Lemma vpn_page i : vpn (i * PGSIZE) = i.
Proof. rewrite /vpn Z.div_mul; [done|klia]. Qed.

Lemma pte_vpte m root va : pte_at m root va = vpte m root (vpn va).
Proof. apply pte_at_vpn. by rewrite vpn_page. Qed.

(** The number of virtual pages below [MAXVA]. *)
Definition NVPN : Z := 2 ^ 26.

Lemma page_lt_maxva i : 0 ≤ i < NVPN → 0 ≤ i * PGSIZE < MAXVA.
Proof. rewrite /NVPN. klia. Qed.
Lemma vpn_range va : 0 ≤ va < MAXVA → 0 ≤ vpn va < NVPN.
Proof. rewrite /vpn /NVPN. klia. Qed.

Lemma frames_ext n m m' root a :
  (∀ i, a ≤ i < a + Z.of_nat n → vpte m' root i = vpte m root i) →
  frames n m' root a = frames n m root a.
Proof.
  revert a. induction n as [|n IH]; intros a E; [done|]. cbn [frames].
  rewrite IH; [|intros; apply E; lia]. rewrite E //. lia.
Qed.

Lemma elem_of_frames n m root a p :
  p ∈ frames n m root a ↔ ∃ i, a ≤ i < a + Z.of_nat n ∧ p = PTE2PA (vpte m root i).
Proof.
  revert a. induction n as [|n IH]; intros a; cbn [frames].
  - rewrite elem_of_nil. split; [done|]. intros (i & ? & _). lia.
  - rewrite elem_of_app IH list_elem_of_singleton. split.
    + intros [(i & ? & ->)| ->]; [exists i|exists a]; split; lia || done.
    + intros (i & ? & ->). destruct (decide (i = a)) as [->|]; [by right|].
      left. exists i. split; [lia|done].
Qed.

Lemma frames_snoc n m root a :
  frames (S n) m root a = PTE2PA (vpte m root (a + Z.of_nat n)) :: frames n m root a.
Proof.
  revert a. induction n as [|n IH]; intros a.
  { cbn [frames app]. by rewrite Z.add_0_r. }
  change (frames (S (S n)) m root a) with (frames (S n) m root (a + 1) ++ [PTE2PA (vpte m root a)]).
  rewrite IH. cbn [frames app]. do 3 f_equal. lia.
Qed.

(** ** [uvmunmap] *)

Lemma uvmunmap_loop_S fuel pt a lim fr :
  uvmunmap_loop (S fuel) pt a lim fr =
  (if negb (a <? lim) then mret tt
   else
     pte ← walk pt a false;
     if pte =? 0 then panic "uvmunmap: walk"
     else
       v ← load64 pte;
       if negb (has v PTE_V) then panic "uvmunmap: not mapped"
       else if PTE_FLAGS v =? PTE_V then panic "uvmunmap: not a leaf"
       else
         (if fr then kfree (PTE2PA v) else mret tt);;
         store64 pte 0;;
         uvmunmap_loop fuel pt (u64 (a + PGSIZE)) lim fr).
Proof. reflexivity. Qed.

(** A mapped page's slot. *)
Lemma walk_mapped G s root pages va :
  vm_inv G s root pages → 0 ≤ va < MAXVA → has (pte_at (km s) root va) PTE_V = true →
  ∃ a, walk root va false s = Ret a s ∧ walk_pure 2 (km s) root va = Some a ∧ a ≠ 0 ∧
       ld64 (km s) a = pte_at (km s) root va.
Proof.
  intros Hinv Hva Hv. pose proof (walk_noalloc _ _ _ _ _ Hinv Hva) as Hw.
  rewrite /pte_at /pte_of in Hv |- *. destruct (walk_pure 2 (km s) root va) as [a|] eqn:E.
  2:{ rewrite has_0 in Hv. discriminate. }
  exists a. destruct Hinv as (_ & Hpt & _).
  destruct (walk_pure_leaf _ _ _ _ _ _ _ Hpt (proj1 Hva) (on_path_root _ _ _ _ Hpt Hva) E)
    as (q & Ea & Hq).
  pose proof (page_ok_pos _ (on_path_ok _ _ _ _ _ _ Hpt Hq)). pose proof (PX_range 0 va).
  split_and!; [done|done|lia|done].
Qed.

(** Clearing the entry of a mapped page. *)
Lemma clear_leaf G s root pages va a :
  vm_inv G s root pages → 0 ≤ va < MAXVA → walk_pure 2 (km s) root va = Some a →
  let s' := mk_kmem (st64 (km s) a 0) (freelist s) in
  vm_inv G s' root pages ∧ same_outside_pt G (km s) (km s') ∧ upper_kept G (km s) (km s') ∧
  ∀ va', 0 ≤ va' < MAXVA →
    pte_at (km s') root va' = if decide (vpn va' = vpn va) then 0 else pte_at (km s) root va'.
Proof.
  intros Hinv Hva Hw s'. destruct (store_leaf_vm_inv _ _ _ _ _ _ 0 Hinv Hva Hw) as [H1 H2].
  destruct Hinv as (_ & Hpt & _). split_and!; [done|done|by eapply store_leaf_upper|]. intros va' Hva'.
  by rewrite (store_leaf_spec _ _ _ _ _ _ _ Hpt Hva Hw Hva').
Qed.

(** Freeing a frame that nothing else uses. *)
Lemma kfree_frame G s root pages p :
  vm_inv G s root pages → page_ok p → p ∉ pages → G !! p = None →
  ∃ s', kfree p s = Ret tt s' ∧ vm_inv G s' root (p :: pages) ∧
    same_outside p (km s) (km s') ∧ upper_kept G (km s) (km s') ∧
    (∀ va, 0 ≤ va < MAXVA → walk_pure 2 (km s') root va = walk_pure 2 (km s) root va ∧
       pte_at (km s') root va = pte_at (km s) root va).
Proof.
  intros (Hk & Hpt & Hdis) Hok Hnin HG.
  destruct (kfree_spec p s pages Hok Hnin Hk) as (s' & E & Hk' & Hs). exists s'.
  assert (∀ q i, is_Some (G !! q) → 0 ≤ i < 512 →
    ld64 (km s') (q + 8 * i) = ld64 (km s) (q + 8 * i)) as Hslot.
  { intros. by eapply (slot_frame G _ _ root p). }
  split_and!; [done| |done|by apply upper_kept_ext|].
  - split_and!; [done|by eapply pt_inv_ext|].
    intros q [->|Hq]%elem_of_cons; [done|by apply Hdis].
  - intros va Hva. apply (pte_of_ext G (km s) (km s') root 2 root va); [done|lia| |done].
    by eapply on_path_root.
Qed.

Lemma own_sub G m root pages a n b k :
  own G m root pages a n → a ≤ b → b + k ≤ a + n → own G m root pages b k.
Proof.
  intros Ho ?? i Hi. destruct (Ho i) as (? & ? & ? & ? & ? & Hinj); [lia|].
  split_and!; try done. intros j Hj. apply Hinj. lia.
Qed.

Lemma own_ext G G' m m' root pages pages' a n :
  (∀ q, is_Some (G' !! q) ∨ q ∈ pages' → is_Some (G !! q) ∨ q ∈ pages) →
  (∀ i, a ≤ i < a + n → vpte m' root i = vpte m root i) →
  own G m root pages a n → own G' m' root pages' a n.
Proof.
  intros Hs E Ho i Hi. rewrite E //. destruct (Ho i Hi) as (? & ? & ? & Hnin & HG & Hinj).
  assert (¬ (is_Some (G' !! PTE2PA (vpte m root i)) ∨ PTE2PA (vpte m root i) ∈ pages')) as Hn.
  { intros [Hs'|?]%Hs; [|done]. rewrite HG in Hs'. by apply is_Some_None in Hs'. }
  split_and!; try done.
  - intros ?. apply Hn. by right.
  - apply eq_None_not_Some. intros ?. apply Hn. by left.
  - intros j Hj. rewrite E //. by apply Hinj.
Qed.

Lemma uvmunmap_loop_spec n G s root pages a :
  vm_inv G s root pages → 0 ≤ a → a + Z.of_nat n ≤ NVPN →
  own G (km s) root pages a (Z.of_nat n) →
  ∃ s', uvmunmap_loop n root (a * PGSIZE) ((a + Z.of_nat n) * PGSIZE) true s = Ret tt s' ∧
    vm_inv G s' root (frames n (km s) root a ++ pages) ∧
    kept G (frames n (km s) root a) (km s) (km s') ∧ upper_kept G (km s) (km s') ∧
    ∀ va, 0 ≤ va < MAXVA →
      pte_at (km s') root va =
      if decide (a ≤ vpn va < a + Z.of_nat n) then 0 else pte_at (km s) root va.
Proof.
  revert G s pages a. induction n as [|n IH]; intros G s pages a Hinv Ha Hlim Hown.
  { exists s. split_and!; [done|done|apply kept_refl|done|]. intros. rewrite decide_False //. lia. }
  rewrite uvmunmap_loop_S. destruct (Z.ltb_spec (a * PGSIZE) ((a + Z.of_nat (S n)) * PGSIZE)); [|klia].
  cbn [negb]. assert (0 ≤ a * PGSIZE < MAXVA) as Hva by (apply page_lt_maxva; lia).
  destruct (Hown a) as (HV & HF & Hok & Hnin & HG & Hinj); [lia|].
  destruct (walk_mapped _ _ _ _ _ Hinv Hva HV) as (slot & Hw & Hwp & Hne & Hld).
  rewrite (bind_ret _ _ _ _ _ Hw). destruct (Z.eqb_spec slot 0); [done|].
  rewrite (bind_ret _ _ _ _ _ (eq_refl : load64 _ s = Ret _ s)) Hld -/(vpte (km s) root a) HV.
  cbn [negb]. destruct (Z.eqb_spec (PTE_FLAGS (vpte (km s) root a)) PTE_V); [done|].
  set (p := PTE2PA (vpte (km s) root a)) in *.
  destruct (kfree_frame _ _ _ _ _ Hinv Hok Hnin HG) as (s1 & E1 & Hinv1 & Hs1 & Hu1 & Hp1).
  rewrite (bind_ret _ _ _ _ _ E1) bind_modify. destruct (Hp1 _ Hva) as [Hwp1 _]. rewrite Hwp in Hwp1.
  destruct (clear_leaf _ _ _ _ _ _ Hinv1 Hva Hwp1) as (Hinv2 & Hs2 & Hu2 & Hp2).
  set (s2 := mk_kmem _ _) in *.
  assert (∀ i, 0 ≤ i < NVPN → i ≠ a → vpte (km s2) root i = vpte (km s) root i) as Hv2.
  { intros i Hi Hne'. rewrite /vpte Hp2; [|by apply page_lt_maxva]. rewrite !vpn_page decide_False //.
    apply Hp1. by apply page_lt_maxva. }
  rewrite u64_small; [|rewrite /NVPN in Hlim; klia].
  replace (a * PGSIZE + PGSIZE) with ((a + 1) * PGSIZE) by klia.
  replace (a + Z.of_nat (S n)) with (a + 1 + Z.of_nat n) in * by lia.
  destruct (IH G s2 (p :: pages) (a + 1)) as (s' & E' & Hinv' & Hk' & Hu' & Hp'); try done; [lia| |].
  { intros i Hi. destruct (Hown i) as (? & ? & ? & ? & ? & Hinj'); [lia|].
    rewrite Hv2; [|lia..]. split_and!; try done.
    - intros [E|?]%elem_of_cons; [|done]. assert (a = i) by (apply Hinj'; [lia|done]). lia.
    - intros j Hj. rewrite Hv2; [|lia..]. apply Hinj'. lia. }
  assert (frames n (km s2) root (a + 1) = frames n (km s) root (a + 1)) as Ef.
  { apply frames_ext. intros. apply Hv2; lia. }
  rewrite Ef in Hinv' Hk'. exists s'. cbn [frames]. rewrite -/p. split_and!.
  - done.
  - by rewrite -app_assoc.
  - apply (kept_step _ _ _ (km s1)); [by apply (kept_page _ _ p); [right; set_solver|]|].
    apply (kept_step _ _ _ (km s2)); [by apply same_outside_pt_kept|].
    eapply kept_weaken; [|exact Hk']. intros q [?|?]; [by left|right; set_solver].
  - eapply upper_kept_trans; [done|exact Hu1|]. by eapply upper_kept_trans.
  - intros va Hv. rewrite Hp' // Hp2 // vpn_page. destruct (Hp1 va Hv) as [_ ->].
    repeat case_decide; try lia; done.
Qed.

Lemma uvmunmap_spec n G s root pages a :
  vm_inv G s root pages → 0 ≤ a → 0 ≤ n → a + n ≤ NVPN → own G (km s) root pages a n →
  ∃ s', uvmunmap root (a * PGSIZE) n true s = Ret tt s' ∧
    vm_inv G s' root (frames (Z.to_nat n) (km s) root a ++ pages) ∧
    kept G (frames (Z.to_nat n) (km s) root a) (km s) (km s') ∧ upper_kept G (km s) (km s') ∧
    ∀ va, 0 ≤ va < MAXVA →
      pte_at (km s') root va = if decide (a ≤ vpn va < a + n) then 0 else pte_at (km s) root va.
Proof.
  intros Hinv Ha Hn Hlim Hown. rewrite /uvmunmap Z.mod_mul; [|klia]. cbn [negb Z.eqb].
  rewrite u64_small; [|rewrite /NVPN in Hlim; klia].
  replace (a * PGSIZE + n * PGSIZE) with ((a + n) * PGSIZE) by lia.
  destruct (uvmunmap_loop_spec (Z.to_nat n) G s root pages a) as (s' & E & ? & ? & ? & Hp); try done.
  - lia.
  - by rewrite Z2Nat.id.
  - rewrite Z2Nat.id // in E Hp. by exists s'.
Qed.

(** The number of pages that hold [sz] bytes. *)
Definition npages (sz : Z) : Z := (sz + PGSIZE - 1) / PGSIZE.

Lemma PGROUNDUP_npages sz : 0 ≤ sz ≤ MAXVA → PGROUNDUP sz = npages sz * PGSIZE.
Proof. intros. rewrite PGROUNDUP_eq; [rewrite /npages; klia|klia]. Qed.

Lemma npages_page a : npages (a * PGSIZE) = a.
Proof. rewrite /npages. klia. Qed.

Lemma npages_range sz : 0 ≤ sz ≤ MAXVA → 0 ≤ npages sz ≤ NVPN.
Proof. rewrite /npages /NVPN. klia. Qed.

Lemma npages_mono x y : x ≤ y → npages x ≤ npages y.
Proof. rewrite /npages. klia. Qed.

Lemma uvmdealloc_spec G s root pages oldsz newsz :
  let a := npages newsz in let n := npages oldsz - npages newsz in
  vm_inv G s root pages → 0 ≤ newsz ≤ oldsz → oldsz ≤ MAXVA → own G (km s) root pages a n →
  ∃ s', uvmdealloc root oldsz newsz s = Ret newsz s' ∧
    vm_inv G s' root (frames (Z.to_nat n) (km s) root a ++ pages) ∧
    kept G (frames (Z.to_nat n) (km s) root a) (km s) (km s') ∧ upper_kept G (km s) (km s') ∧
    ∀ va, 0 ≤ va < MAXVA →
      pte_at (km s') root va = if decide (a ≤ vpn va < a + n) then 0 else pte_at (km s) root va.
Proof.
  intros a n Hinv Hnew Hold Hown. rewrite /uvmdealloc Z.geb_leb.
  pose proof (npages_mono newsz oldsz (proj2 Hnew)). pose proof (npages_range oldsz ltac:(lia)) as Hold'.
  pose proof (npages_range newsz ltac:(lia)) as Hnew'.
  assert (n = 0 → frames (Z.to_nat n) (km s) root a = []) as Hn0 by (intros ->; done).
  assert (∀ va, n = 0 → pte_at (km s) root va =
    if decide (a ≤ vpn va < a + n) then 0 else pte_at (km s) root va) as Hp0.
  { intros va E. rewrite decide_False //. lia. }
  destruct (Z.leb_spec oldsz newsz) as [Hle|Hlt].
  { assert (n = 0) as En by (assert (oldsz = newsz) as E by lia; rewrite /n E; lia).
    exists s. rewrite Hn0 //. replace oldsz with newsz by lia. split_and!; try done. auto. }
  rewrite !PGROUNDUP_npages; [|lia..].
  destruct (Z.ltb_spec (npages newsz * PGSIZE) (npages oldsz * PGSIZE)) as [Hlt'|Hge].
  2:{ assert (n = 0) as En by klia. exists s. rewrite Hn0 //. split_and!; try done. auto. }
  replace (_ / PGSIZE) with n by (rewrite -Z.mul_sub_distr_r Z.div_mul //; klia).
  rewrite s32_small; [|rewrite /NVPN in Hold', Hnew'; lia].
  destruct (uvmunmap_spec n G s root pages a) as (s' & E & Hrest); try done; [lia..|].
  rewrite (bind_ret _ _ _ _ _ E). by exists s'.
Qed.

(** ** [uvmalloc] *)

(** The entry [uvmalloc] installs for the frame [p]. *)
Definition user_pte (p xperm : Z) : Z :=
  Z.lor (Z.lor (PA2PTE p) (Z.lor (Z.lor PTE_R PTE_U) xperm)) PTE_V.

Lemma user_perm_range xperm : 0 ≤ xperm < 1024 → 0 ≤ Z.lor (Z.lor PTE_R PTE_U) xperm < 1024.
Proof. intros. apply (lor_range _ _ 10); [lia|split; vm_compute; congruence|lia]. Qed.

Lemma user_pte_spec p xperm :
  page_ok p → 0 ≤ xperm < 1024 →
  has (user_pte p xperm) PTE_V = true ∧ PTE2PA (user_pte p xperm) = p ∧
  PTE_FLAGS (user_pte p xperm) ≠ PTE_V.
Proof.
  intros Hp Hx. pose proof (user_perm_range _ Hx). pose proof (page_ok_pos _ Hp). destruct Hp as [Hal _].
  rewrite /user_pte. split_and!; [apply has_lor_V|apply PTE2PA_encode; [lia|klia|lia]|].
  rewrite PTE_FLAGS_encode; [|lia..]. intros E. apply (f_equal (λ z, Z.testbit z 1)) in E.
  rewrite !Z.lor_spec in E. discriminate E.
Qed.

Record step_post G s root p pages (i xperm r : Z) (s' : kmem) G' (used pages' : list Z) : Prop := {
  sp_pages : pages = used ++ pages';
  sp_inv : vm_inv G' s' root pages';
  sp_sub : G ⊆ G';
  sp_new : ∀ q, is_Some (G' !! q) → is_Some (G !! q) ∨ q ∈ used;
  sp_kept : kept G (p :: pages) (km s) (km s');
  sp_page : page_ok p ∧ G' !! p = None ∧ p ∉ pages';
  sp_zero : ∀ a, p ≤ a < p + PGSIZE → ld8 (km s') a = 0;
  sp_pte : ∀ va, 0 ≤ va < MAXVA → pte_at (km s') root va =
    if decide (r = 0 ∧ vpn va = i) then user_pte p xperm else pte_at (km s) root va;
  sp_upper : upper_kept G (km s) (km s');
  sp_tree : ∀ q, q ∈ used → in_tree (km s') root q;
}.

(** One iteration up to the test of [mappages]'s result. *)
Lemma uvmalloc_step G s root p pages i xperm :
  vm_inv G s root (p :: pages) → 0 ≤ i < NVPN → 0 ≤ xperm < 1024 →
  has (vpte (km s) root i) PTE_V = false →
  ∃ s1 r s' G' used pages',
    kalloc s = Ret p s1 ∧ p ≠ 0 ∧ (r = 0 ∨ r = -1) ∧
    mappages root (i * PGSIZE) PGSIZE p (Z.lor (Z.lor PTE_R PTE_U) xperm)
      (mk_kmem (memset (km s1) p 0 PGSIZE) (freelist s1)) = Ret r s' ∧
    step_post G s root p pages i xperm r s' G' used pages'.
Proof.
  intros (Hk & Hpt & Hdis) Hi Hx Hfree. pose proof Hk as (Hnd & Hoks & _).
  apply NoDup_cons in Hnd as [Hnin _]. apply Forall_cons in Hoks as [Hok Hoks].
  pose proof (page_ok_pos _ Hok) as Hpos. pose proof Hok as [Hal [_ Htop]].
  destruct (kalloc_cons _ _ _ Hk) as (s1 & E1 & Hk1 & Hs1 & _).
  set (s2 := mk_kmem (memset (km s1) p 0 PGSIZE) (freelist s1)).
  assert (same_outside p (km s) (km s2)) as Hs2.
  { eapply same_outside_trans; [exact Hs1|apply same_outside_memset]. }
  assert (G !! p = None) as HGp by (apply Hdis; by left).
  assert (vm_inv G (mk_kmem (km s) (freelist s1)) root pages) as Hinv1.
  { split_and!; [|done|intros; apply Hdis; by right]. destruct Hk1 as (? & ? & Hr1). split_and!; try done.
    cbn. eapply same_outside_rep; [done..| |exact Hr1]. intros a Ha. by rewrite Hs1. }
  destruct (frame_store G _ root pages p (km s2) Hinv1 Hok Hnin HGp Hs2) as [Hinv2 Hp2].
  cbn [freelist km] in Hinv2, Hp2. change (mk_kmem (km s2) (freelist s1)) with s2 in Hinv2.
  pose proof (page_lt_maxva _ Hi) as Hva.
  destruct (mappages_spec G s2 root pages (i * PGSIZE) 1 p (Z.lor (Z.lor PTE_R PTE_U) xperm))
    as (r & s' & G' & used & pages' & k & Em & []); try done; try (rewrite /NVPN in Hi; klia).
  { by apply user_perm_range. }
  { rewrite vpn_page. intros va Hv. assert (vpn va = i) as Ev by lia.
    rewrite pte_vpte Ev /vpte Hp2 //. }
  exists s1, r, s', G', used, pages'. rewrite Z.mul_1_l in Em. subst pages.
  assert (p ∉ used ∧ p ∉ pages') as [Hnu Hnp] by (rewrite elem_of_app in Hnin; tauto).
  assert (G' !! p = None) as HG'.
  { destruct (G' !! p) eqn:E; [|done]. destruct (mp_new p); [by eexists| |done].
    rewrite HGp in H. by apply is_Some_None in H. }
  split_and!; [done|lia|naive_solver|done|]. split; try done.
  - apply (kept_step _ _ _ (km s2)); [apply (kept_page _ _ p); [right; by left|done]|].
    eapply kept_weaken; [|by apply (same_outside_pt_kept G' [])].
    intros q [Hq%mp_new|Hq]; [|by apply elem_of_nil in Hq].
    destruct Hq; [by left|right]. right. apply elem_of_app. by left.
  - intros a Ha. rewrite mp_out; [|intros q Hq Hqa].
    + rewrite ld8_memset_in //.
    + destruct mp_inv as (_ & Hpt' & _). destruct Hq as [[lq xq] Hq].
      destruct (proj2 Hpt' _ _ _ Hq) as [Hqok _].
      destruct (page_ok_sep p q Hok Hqok); [congruence|lia..].
  - intros va Hv. rewrite mp_pte // /mapped_to vpn_page Hp2 //.
    destruct mp_ret as [[-> ->]|(-> & ? & _)]; repeat case_decide; try lia; try done.
    rewrite /user_pte. do 3 f_equal. klia.
  - eapply (upper_kept_trans G G); [done| |exact mp_upper]. apply upper_kept_ext. intros. by eapply (slot_frame G _ _ root p).
Qed.

Lemma kept_in G s root pages p m' a :
  vm_inv G s root pages → page_ok p → p ∉ pages → G !! p = None →
  kept G pages (km s) m' → p ≤ a < p + PGSIZE → ld8 m' a = ld8 (km s) a.
Proof.
  intros ((_ & Hoks & _) & [_ Hpt] & _) Hok Hnin HG Hk Ha. apply Hk. intros q Hq Hqa.
  assert (page_ok q ∧ q ≠ p) as [Hqok Hne].
  { destruct Hq as [[[l x] Hq]|Hq].
    - split; [by eapply Hpt|congruence].
    - rewrite Forall_forall in Hoks. split; [by apply Hoks|by intros ->]. }
  destruct (page_ok_sep p q Hok Hqok); [done|lia..].
Qed.

(** [n] pages were added after the [k] pages from [b] on. *)
Record grown G s root pages (b k : Z) (n : nat) (xperm : Z) s' G' (newpt pages' : list Z) : Prop := {
  gr_own : own G' (km s') root pages' b (k + Z.of_nat n);
  gr_pages : pages ≡ₚ newpt ++ frames n (km s') root (b + k) ++ pages';
  gr_kept : kept G pages (km s) (km s');
  gr_new : ∀ i, b + k ≤ i < b + k + Z.of_nat n →
    vpte (km s') root i = user_pte (PTE2PA (vpte (km s') root i)) xperm ∧
    ∀ a, PTE2PA (vpte (km s') root i) ≤ a < PTE2PA (vpte (km s') root i) + PGSIZE → ld8 (km s') a = 0;
  gr_old : ∀ va, 0 ≤ va < MAXVA → ¬ (b + k ≤ vpn va < b + k + Z.of_nat n) →
    pte_at (km s') root va = pte_at (km s) root va;
}.

(** The [k] pages from [b] on were taken back. *)
Record undone G s root pages (b k : Z) s' (newpt pages' : list Z) : Prop := {
  un_pages : frames (Z.to_nat k) (km s) root b ++ pages ≡ₚ newpt ++ pages';
  un_kept : kept G (frames (Z.to_nat k) (km s) root b ++ pages) (km s) (km s');
  un_pte : ∀ va, 0 ≤ va < MAXVA → pte_at (km s') root va =
    if decide (b ≤ vpn va < b + k) then 0 else pte_at (km s) root va;
}.

Lemma uvmalloc_loop_S fuel pt a oldsz newsz xperm :
  uvmalloc_loop (S fuel) pt a oldsz newsz xperm =
  (if negb (a <? newsz) then mret newsz
   else
     mem ← kalloc;
     if mem =? 0 then uvmdealloc pt a oldsz;; mret 0
     else
       kmemset mem 0 PGSIZE;;
       r ← mappages pt a PGSIZE mem (Z.lor (Z.lor PTE_R PTE_U) xperm);
       if negb (r =? 0) then
         kfree mem;;
         uvmdealloc pt a oldsz;;
         mret 0
       else uvmalloc_loop fuel pt (u64 (a + PGSIZE)) oldsz newsz xperm).
Proof. reflexivity. Qed.

(** The cleanup of a failing iteration. *)
Lemma uvmalloc_undo G s root pages b k :
  vm_inv G s root pages → 0 ≤ b → 0 ≤ k → b + k ≤ NVPN → own G (km s) root pages b k →
  ∃ s', (uvmdealloc root ((b + k) * PGSIZE) (b * PGSIZE);; mret 0) s = Ret 0 s' ∧
    vm_inv G s' root (frames (Z.to_nat k) (km s) root b ++ pages) ∧ upper_kept G (km s) (km s') ∧
    undone G s root pages b k s' [] (frames (Z.to_nat k) (km s) root b ++ pages).
Proof.
  intros Hinv Hb Hk Hlim Hown.
  destruct (uvmdealloc_spec G s root pages ((b + k) * PGSIZE) (b * PGSIZE))
    as (s' & E & Hinv' & Hkept & Hu & Hp); rewrite ?npages_page; try done.
  - klia.
  - rewrite /NVPN in Hlim. klia.
  - by replace (b + k - b) with k by lia.
  - rewrite !npages_page in Hinv', Hkept, Hp. replace (b + k - b) with k in * by lia.
    exists s'. rewrite (bind_ret _ _ _ _ _ E). split_and!; [done|done|done|].
    split; [done| |done]. eapply kept_weaken; [|exact Hkept].
    intros q [?|?]; [by left|right]. apply elem_of_app. by left.
Qed.

Lemma own_extend G s root p pages i xperm s' G' used pages' b k :
  own G (km s) root (p :: pages) b k → i = b + k → 0 ≤ b → 0 ≤ k → i < NVPN → 0 ≤ xperm < 1024 →
  step_post G s root p pages i xperm 0 s' G' used pages' →
  own G' (km s') root pages' b (k + 1).
Proof.
  intros Hown -> Hb Hk Hlim Hx [-> ? ? Hnew ? (Hok & HG & Hnin) ? Hpte _ _].
  assert (∀ j, b ≤ j < b + k → vpte (km s') root j = vpte (km s) root j) as Eold.
  { intros j Hj. rewrite /vpte Hpte; [|apply page_lt_maxva; lia]. rewrite vpn_page decide_False //. lia. }
  assert (vpte (km s') root (b + k) = user_pte p xperm) as Enew.
  { rewrite /vpte Hpte; [|apply page_lt_maxva; lia]. by rewrite vpn_page decide_True. }
  destruct (user_pte_spec p xperm Hok Hx) as (HV & HP & HF).
  assert (∀ j, b ≤ j < b + k → PTE2PA (vpte (km s) root j) ≠ p) as Hne.
  { intros j Hj E. destruct (Hown j Hj) as (_ & _ & _ & Hn & _). apply Hn. rewrite E. by left. }
  assert (own G' (km s') root pages' b k) as Ho'.
  { eapply own_ext; [|exact Eold|exact Hown]. intros q [[?|?]%Hnew|?]; [by left|right; right..];
      apply elem_of_app; auto. }
  intros j Hj. destruct (decide (j = b + k)) as [->|Hjne].
  - rewrite Enew HP. split_and!; try done. intros j' Hj' E. destruct (decide (j' = b + k)); [done|].
    rewrite Eold in E; [|lia]. exfalso. eapply Hne; [|exact E]. lia.
  - destruct (Ho' j) as (? & ? & ? & ? & ? & Hinj); [lia|]. split_and!; try done.
    intros j' Hj' E. destruct (decide (j' = b + k)) as [->|]; [|apply Hinj; [lia|done]].
    rewrite Enew HP Eold in E; [|lia]. exfalso. eapply (Hne j); [lia|done].
Qed.

Lemma step_pte G s root p pages i xperm r s' G' used pages' :
  step_post G s root p pages i xperm r s' G' used pages' → 0 ≤ i < NVPN →
  ∀ j, 0 ≤ j < NVPN → vpte (km s') root j =
    if decide (r = 0 ∧ j = i) then user_pte p xperm else vpte (km s) root j.
Proof.
  intros [] Hi j Hj. rewrite /vpte sp_pte0; [|by apply page_lt_maxva]. by rewrite vpn_page.
Qed.

Lemma step_sub G s root p pages i xperm r s' G' used pages' :
  step_post G s root p pages i xperm r s' G' used pages' →
  ∀ q, is_Some (G' !! q) ∨ q ∈ pages' → is_Some (G !! q) ∨ q ∈ p :: pages.
Proof.
  intros [-> ? ? Hnew ??????] q [[?|?]%Hnew|?]; [by left|right; right; apply elem_of_app..]; auto.
Qed.

Lemma grown_step G s root p pages b k n xperm s2 G2 used pages2 s' G' newpt pages' :
  step_post G s root p pages (b + k) xperm 0 s2 G2 used pages2 →
  0 ≤ b → 0 ≤ k → b + k + Z.of_nat (S n) ≤ NVPN → 0 ≤ xperm < 1024 →
  grown G2 s2 root pages2 b (k + 1) n xperm s' G' newpt pages' →
  grown G s root (p :: pages) b k (S n) xperm s' G' (used ++ newpt) pages'.
Proof.
  intros Hpost Hb Hk Hlim Hx Hg. pose proof Hpost as [-> Hinv2 ? ? Hkept2 (Hok & HG & Hnin) Hz Hpte _ _].
  pose proof (step_pte _ _ _ _ _ _ _ _ _ _ _ _ Hpost ltac:(lia)) as Hv2.
  destruct (user_pte_spec p xperm Hok Hx) as (_ & HP & _). destruct Hg.
  assert (vpte (km s') root (b + k) = user_pte p xperm) as Ep.
  { rewrite /vpte gr_old0; [|apply page_lt_maxva; lia|rewrite vpn_page; lia].
    rewrite -/(vpte _ _ _) Hv2; [|lia]. by rewrite decide_True. }
  split.
  - by replace (k + Z.of_nat (S n)) with (k + 1 + Z.of_nat n) by lia.
  - cbn [frames]. rewrite Ep HP gr_pages0 Z.add_assoc. solve_Permutation.
  - eapply kept_trans; [by eapply step_sub|exact Hkept2|exact gr_kept0].
  - intros i Hi. destruct (decide (i = b + k)) as [->|]; [|apply gr_new0; lia].
    rewrite Ep HP. split; [done|]. intros a Ha. rewrite (kept_in G2 s2 root pages2 p) //. by apply Hz.
  - intros va Hva Hout. rewrite gr_old0 //; [|lia]. rewrite Hpte // decide_False //. lia.
Qed.

Lemma frames_step G s root p pages b k xperm r s2 G2 used pages2 :
  step_post G s root p pages (b + k) xperm r s2 G2 used pages2 →
  0 ≤ b → 0 ≤ k → b + k < NVPN →
  frames (Z.to_nat k) (km s2) root b = frames (Z.to_nat k) (km s) root b.
Proof.
  intros Hpost Hb Hk Hlim. apply frames_ext. intros i Hi.
  rewrite (step_pte _ _ _ _ _ _ _ _ _ _ _ _ Hpost); [|lia..]. rewrite decide_False //. lia.
Qed.

Lemma undone_step G s root p pages b k xperm s2 G2 used pages2 s' newpt pages' :
  step_post G s root p pages (b + k) xperm 0 s2 G2 used pages2 →
  0 ≤ b → 0 ≤ k → b + k < NVPN → 0 ≤ xperm < 1024 → vpte (km s) root (b + k) = 0 →
  undone G2 s2 root pages2 b (k + 1) s' newpt pages' →
  undone G s root (p :: pages) b k s' (used ++ newpt) pages'.
Proof.
  intros Hpost Hb Hk Hlim Hx H0 [Hpg Hkept Hp].
  pose proof (frames_step _ _ _ _ _ _ _ _ _ _ _ _ _ Hpost Hb Hk Hlim) as Ef.
  pose proof (step_sub _ _ _ _ _ _ _ _ _ _ _ _ Hpost) as Hsub.
  pose proof (step_pte _ _ _ _ _ _ _ _ _ _ _ _ Hpost ltac:(lia)) as Hv2.
  destruct Hpost as [-> Hinv2 ? ? Hkept2 (Hok & HG & Hnin) Hz Hpte _ _].
  destruct (user_pte_spec p xperm Hok Hx) as (_ & HP & _).
  assert (frames (Z.to_nat (k + 1)) (km s2) root b = p :: frames (Z.to_nat k) (km s) root b) as E.
  { replace (Z.to_nat (k + 1)) with (S (Z.to_nat k)) by lia. rewrite frames_snoc Ef Z2Nat.id // Hv2; [|lia].
    by rewrite decide_True // HP. }
  rewrite E in Hpg, Hkept. split.
  - transitivity (used ++ (p :: frames (Z.to_nat k) (km s) root b) ++ pages2); [solve_Permutation|].
    rewrite Hpg. solve_Permutation.
  - eapply kept_trans; [|eapply kept_weaken; [|exact Hkept2]|exact Hkept].
    + intros q [Hq|Hq].
      { destruct (Hsub q (or_introl Hq)); [by left|right; apply elem_of_app; by right]. }
      right. revert Hq. cbn. rewrite !(elem_of_cons, elem_of_app). tauto.
    + intros q [?|?]; [by left|right; apply elem_of_app; by right].
  - intros va Hva. rewrite Hp // Hpte //. destruct (decide (vpn va = b + k)) as [E'|].
    + rewrite decide_True; [|lia]. rewrite decide_False; [|lia]. by rewrite pte_vpte E' H0.
    + rewrite (decide_False (P := 0 = 0 ∧ vpn va = b + k)); [|tauto]. repeat case_decide; done || lia.
Qed.

Lemma undone_fail G s root p pages b k xperm s2 G2 used pages2 s3 s' :
  step_post G s root p pages (b + k) xperm (-1) s2 G2 used pages2 →
  0 ≤ b → 0 ≤ k → b + k < NVPN →
  same_outside p (km s2) (km s3) →
  (∀ va, 0 ≤ va < MAXVA → pte_at (km s3) root va = pte_at (km s2) root va) →
  let pages' := frames (Z.to_nat k) (km s3) root b ++ p :: pages2 in
  undone G2 s3 root (p :: pages2) b k s' [] pages' →
  undone G s root (p :: pages) b k s' used pages'.
Proof.
  intros Hpost Hb Hk Hlim Hs3 Hp3 pages' [Hpg Hkept Hp].
  pose proof (frames_step _ _ _ _ _ _ _ _ _ _ _ _ _ Hpost Hb Hk Hlim) as Ef.
  pose proof (step_sub _ _ _ _ _ _ _ _ _ _ _ _ Hpost) as Hsub.
  assert (frames (Z.to_nat k) (km s3) root b = frames (Z.to_nat k) (km s) root b) as E.
  { rewrite -Ef. apply frames_ext. intros i Hi. apply Hp3, page_lt_maxva. lia. }
  destruct Hpost as [-> Hinv2 ? ? Hkept2 (Hok & HG & Hnin) Hz Hpte _ _].
  rewrite /pages' E. rewrite E in Hkept. split.
  - solve_Permutation.
  - eapply kept_trans; [|eapply kept_weaken; [|exact Hkept2]|].
    3:{ apply (kept_step G2 (frames (Z.to_nat k) (km s) root b ++ p :: pages2) _ (km s3)); [|exact Hkept].
        apply (kept_page _ _ p); [right; apply elem_of_app; right; by left|done]. }
    + intros q [Hq|Hq]; [destruct (Hsub q (or_introl Hq)); [by left|right; apply elem_of_app; by right]|].
      right. revert Hq. rewrite !(elem_of_cons, elem_of_app). tauto.
    + intros q [?|?]; [by left|right; apply elem_of_app; by right].
  - intros va Hva. by rewrite Hp // Hp3 // Hpte.
Qed.

Lemma uvmalloc_loop_spec n G s root pages b k newsz xperm :
  vm_inv G s root pages → 0 ≤ b → 0 ≤ k → b + k + Z.of_nat n ≤ NVPN → 0 ≤ xperm < 1024 →
  own G (km s) root pages b k →
  (∀ i, b + k ≤ i < b + k + Z.of_nat n → vpte (km s) root i = 0) →
  (b + k + Z.of_nat n - 1) * PGSIZE < newsz →
  ∃ r s' G' newpt pages',
    uvmalloc_loop n root ((b + k) * PGSIZE) (b * PGSIZE) newsz xperm s = Ret r s' ∧
    vm_inv G' s' root pages' ∧ G ⊆ G' ∧
    (∀ q, is_Some (G' !! q) → is_Some (G !! q) ∨ q ∈ newpt) ∧
    upper_kept G (km s) (km s') ∧ (∀ q, q ∈ newpt → in_tree (km s') root q) ∧
    (r = newsz ∧ grown G s root pages b k n xperm s' G' newpt pages' ∨
     r = 0 ∧ undone G s root pages b k s' newpt pages').
Proof.
  revert G s pages k. induction n as [|n IH]; intros G s pages k Hinv Hb Hk Hlim Hx Hown Hfree Hsz.
  { exists newsz, s, G, [], pages. split_and!; [done|done|done|by left|done|by intros q ?%elem_of_nil|]. left. split; [done|].
    split; [by rewrite Z.add_0_r|done|apply kept_refl|intros; lia|done]. }
  rewrite uvmalloc_loop_S.
  destruct (Z.ltb_spec ((b + k) * PGSIZE) newsz) as [_|?]; [cbn [negb]|klia].
  destruct pages as [|p pages].
  { (* out of memory *)
    rewrite (bind_ret _ _ _ _ _ (kalloc_empty _ (proj1 Hinv))).
    destruct (uvmalloc_undo G s root [] b k) as (s' & E & Hinv' & Hu & Hun); try done; [lia|].
    exists 0, s', G, [], (frames (Z.to_nat k) (km s) root b ++ []). split_and!; try done; [by left|by intros q ?%elem_of_nil|].
    by right. }
  destruct (uvmalloc_step G s root p pages (b + k) xperm)
    as (s1 & r & s2 & G2 & used & pages2 & E1 & Hp0 & Hr & Em & Hpost); try done; [lia|rewrite Hfree; [apply has_0|lia]|].
  rewrite (bind_ret _ _ _ _ _ E1). destruct (Z.eqb_spec p 0); [done|].
  rewrite bind_modify (bind_ret _ _ _ _ _ Em).
  pose proof Hpost as [Epg Hinv2 Hsub Hnew _ (Hok & HG & Hnin) _ _ Hup2 Htree2].
  destruct Hr as [-> | ->]; cbn [Z.eqb negb].
  - (* mapped: the rest of the loop *)
    pose proof (own_extend _ _ _ _ _ _ _ _ _ _ _ _ _ Hown eq_refl Hb Hk ltac:(lia) Hx Hpost) as Hown2.
    destruct (IH G2 s2 pages2 (k + 1)) as (r & s' & G' & newpt & pages' & E & Hinv' & Hsub' & Hnew' & Hup' & Htree' & Hres);
      try done; [lia|lia| |klia|].
    { intros i Hi. rewrite (step_pte _ _ _ _ _ _ _ _ _ _ _ _ Hpost); [|lia..].
      rewrite decide_False; [apply Hfree; lia|lia]. }
    rewrite u64_small; [|rewrite /NVPN in Hlim; klia].
    replace ((b + k) * PGSIZE + PGSIZE) with ((b + (k + 1)) * PGSIZE) by klia.
    exists r, s', G', (used ++ newpt), pages'. split_and!; [done|done|by etrans| |by eapply upper_kept_trans| |].
    + intros q [Hq%Hnew|Hq]%Hnew'; [destruct Hq; [by left|]|]; right; apply elem_of_app; auto.
    + intros q [Hq|Hq]%elem_of_app; [|by apply Htree']. eapply in_tree_kept; [apply Hinv2|exact Hup'|by apply Htree2].
    + destruct Hres as [[-> Hg]|[-> Hu]]; [left|right]; (split; [done|]).
      * by eapply grown_step.
      * eapply undone_step; try done; [lia|apply Hfree; lia].
  - (* no memory for a page-table page *)
    destruct (kfree_frame _ _ _ _ _ Hinv2 Hok Hnin HG) as (s3 & E3 & Hinv3 & Hs3 & Hu3 & Hp3).
    rewrite (bind_ret _ _ _ _ _ E3).
    destruct (uvmalloc_undo G2 s3 root (p :: pages2) b k) as (s' & E & Hinv' & Hu & Hun); try done; [lia| |].
    { eapply own_ext; [| |exact Hown].
      - intros q [Hq|[->|Hq]%elem_of_cons]; [by eapply step_sub; [|left]|right; by left|].
        eapply step_sub; [exact Hpost|by right].
      - intros i Hi. transitivity (vpte (km s2) root i); [apply Hp3, page_lt_maxva; lia|].
        rewrite (step_pte _ _ _ _ _ _ _ _ _ _ _ _ Hpost); [|lia..].
        case_decide; [lia|done]. }
    exists 0, s', G2, used, (frames (Z.to_nat k) (km s3) root b ++ p :: pages2).
    assert (upper_kept G2 (km s2) (km s')) as Hu23 by (by eapply upper_kept_trans).
    split_and!; try done; [by eapply upper_kept_trans| |].
    { intros q Hq. eapply in_tree_kept; [apply Hinv2|exact Hu23|by apply Htree2]. }
    right. split; [done|]. eapply undone_fail; try done; [lia|].
    intros va Hva. by apply Hp3.
Qed.

Lemma uvmalloc_spec G s root pages oldsz newsz xperm :
  let b := npages oldsz in let n := Z.to_nat (npages newsz - npages oldsz) in
  vm_inv G s root pages → 0 ≤ oldsz ≤ newsz → newsz ≤ MAXVA → 0 ≤ xperm < 1024 →
  (∀ i, b ≤ i < npages newsz → vpte (km s) root i = 0) →
  ∃ r s' G' newpt pages',
    uvmalloc root oldsz newsz xperm s = Ret r s' ∧
    vm_inv G' s' root pages' ∧ G ⊆ G' ∧
    (∀ q, is_Some (G' !! q) → is_Some (G !! q) ∨ q ∈ newpt) ∧
    upper_kept G (km s) (km s') ∧ (∀ q, q ∈ newpt → in_tree (km s') root q) ∧
    (r = newsz ∧ grown G s root pages b 0 n xperm s' G' newpt pages' ∨
     r = 0 ∧ undone G s root pages b 0 s' newpt pages').
Proof.
  intros b n Hinv Hsz Hmax Hx Hfree. rewrite /uvmalloc. destruct (Z.ltb_spec newsz oldsz); [lia|].
  pose proof (npages_mono _ _ (proj2 Hsz)). pose proof (npages_range oldsz ltac:(lia)).
  pose proof (npages_range newsz ltac:(lia)).
  rewrite PGROUNDUP_npages; [|lia]. rewrite -/b.
  replace (Z.to_nat ((newsz - b * PGSIZE + PGSIZE - 1) / PGSIZE)) with n.
  2:{ rewrite /n /b. f_equal. rewrite {1}/npages. klia. }
  destruct (uvmalloc_loop_spec n G s root pages b 0 newsz xperm)
    as (r & s' & G' & newpt & pages' & E & Hrest); try done; rewrite ?Z.add_0_r; try (subst b n; lia).
  - intros i Hi. lia.
  - intros i Hi. apply Hfree. subst b n. lia.
  - destruct (decide (npages newsz = b)) as [Eb|].
    + subst n b. rewrite Eb Z.sub_diag /npages. klia.
    + subst b n. rewrite Z2Nat.id; [|lia].
      replace (npages oldsz + _ - 1) with (npages newsz - 1) by lia. rewrite /npages. klia.
  - rewrite Z.add_0_r in E. by exists r, s', G', newpt, pages'.
Qed.

(** ** The contract of growing and shrinking *)

(** C31. [uvmalloc] either grows the address space or leaves it as it was.
    It returns the new size exactly when every page of the new range was
    allocated: the pages are zeroed, mapped readable for the user with the
    extra permissions, and owned by nothing else; it returns 0 after undoing
    a partial allocation, with every translation as before.  In both cases no
    page leaks: each page of the old free list is still free, or it is one of
    the new frames, or it is a page-table page that the page table at [root]
    now leads to. *)
Theorem uvmalloc_all_or_nothing G s root pages oldsz newsz xperm :
  let b := npages oldsz in let n := Z.to_nat (npages newsz - npages oldsz) in
  vm_inv G s root pages → 0 ≤ oldsz ≤ newsz → 0 < newsz ≤ MAXVA → 0 ≤ xperm < 1024 →
  (∀ i, b ≤ i < npages newsz → vpte (km s) root i = 0) →
  ∃ r s' G' newpt pages',
    uvmalloc root oldsz newsz xperm s = Ret r s' ∧ vm_inv G' s' root pages' ∧
    (∀ q, is_Some (G' !! q) → is_Some (G !! q) ∨ q ∈ newpt) ∧
    (∀ q, q ∈ newpt → in_tree (km s') root q) ∧
    kept G pages (km s) (km s') ∧
    (r = newsz ∧ own G' (km s') root pages' b (npages newsz - b) ∧
       pages ≡ₚ newpt ++ frames n (km s') root b ++ pages' ∧
       (∀ i, b ≤ i < npages newsz → ∃ p, vpte (km s') root i = user_pte p xperm ∧ p ∈ pages ∧
          ∀ a, p ≤ a < p + PGSIZE → ld8 (km s') a = 0) ∧
       (∀ i, 0 ≤ i < NVPN → ¬ (b ≤ i < npages newsz) → vpte (km s') root i = vpte (km s) root i)
     ∨ r = 0 ∧ pages ≡ₚ newpt ++ pages' ∧
       ∀ i, 0 ≤ i < NVPN → vpte (km s') root i = vpte (km s) root i).
Proof.
  intros b n Hinv Hsz Hmax Hx Hfree. pose proof (npages_mono _ _ (proj2 Hsz)).
  assert (∀ i, b ≤ i < npages newsz ↔ b + 0 ≤ i < b + 0 + Z.of_nat n) as Hr by (subst b n; lia).
  destruct (uvmalloc_spec G s root pages oldsz newsz xperm)
    as (r & s' & G' & newpt & pages' & E & Hinv' & _ & Hnew & _ & Htree & Hres); try done; [lia|].
  exists r, s', G', newpt, pages'. destruct Hres as [[-> []]|[-> []]].
  - rewrite Z.add_0_r in gr_pages0. split_and!; try done. left. split_and!; try done.
    + replace (npages newsz - b) with (0 + Z.of_nat n) by (subst b n; lia). done.
    + intros i Hi. destruct (gr_new0 i) as [Hpte Hz]; [by apply Hr|].
      exists (PTE2PA (vpte (km s') root i)). split_and!; try done.
      rewrite gr_pages0 !elem_of_app elem_of_frames. right. left. exists i. split; [subst b n; lia|done].
    + intros i Hi Hout. apply gr_old0; [by apply page_lt_maxva|]. by rewrite vpn_page -Hr.
  - split_and!; try done. right. split_and!; try done. intros i Hi.
    rewrite /vpte un_pte0; [|by apply page_lt_maxva]. by rewrite decide_False; [|lia].
Qed.

(** Shrinking undoes growing: after a successful [uvmalloc] from [oldsz]
    to [newsz], [uvmdealloc] back to [oldsz] returns and restores every
    translation, and the pages that are free again are exactly the old free
    list less the page-table pages that remain in the tree. *)
Theorem uvmdealloc_uvmalloc G s root pages oldsz newsz xperm s1 :
  vm_inv G s root pages → 0 ≤ oldsz ≤ newsz → 0 < newsz ≤ MAXVA → 0 ≤ xperm < 1024 →
  (∀ i, npages oldsz ≤ i < npages newsz → vpte (km s) root i = 0) →
  uvmalloc root oldsz newsz xperm s = Ret newsz s1 →
  ∃ s2 G' newpt pages', uvmdealloc root newsz oldsz s1 = Ret oldsz s2 ∧
    vm_inv G' s2 root pages' ∧ pages ≡ₚ newpt ++ pages' ∧
    (∀ q, is_Some (G' !! q) → is_Some (G !! q) ∨ q ∈ newpt) ∧
    ∀ i, 0 ≤ i < NVPN → vpte (km s2) root i = vpte (km s) root i.
Proof.
  intros Hinv Hsz Hmax Hx Hfree Hrun. pose proof (npages_mono _ _ (proj2 Hsz)).
  destruct (uvmalloc_spec G s root pages oldsz newsz xperm)
    as (r & s' & G' & newpt & pages1 & E & Hinv' & _ & Hnew & _ & _ & Hres); try done; [lia|].
  rewrite E in Hrun. injection Hrun as -> ->. destruct Hres as [[_ []]|[? _]]; [|lia].
  rewrite Z.add_0_l Z2Nat.id in gr_own0; [|lia]. rewrite Z.add_0_r in gr_pages0, gr_old0.
  destruct (uvmdealloc_spec G' s1 root pages1 newsz oldsz) as (s2 & E2 & Hinv2 & _ & _ & Hp2); try done; [lia|].
  exists s2, G', newpt, (frames (Z.to_nat (npages newsz - npages oldsz)) (km s1) root (npages oldsz) ++ pages1).
  split_and!; try done. intros i Hi.
  pose proof (page_lt_maxva _ Hi). rewrite /vpte Hp2 // vpn_page. case_decide as Hd.
  - rewrite -/(vpte (km s) root i) Hfree //. lia.
  - rewrite gr_old0 // vpn_page. lia.
Qed.

(** [uvmunmap] with [do_free] of pages the address space owns returns;
    afterwards none of them is mapped, every other translation is unchanged,
    and the free list is extended by exactly their frames, in order. *)
Theorem uvmunmap_frees G s root pages a n :
  vm_inv G s root pages → 0 ≤ a → 0 ≤ n → a + n ≤ NVPN → own G (km s) root pages a n →
  ∃ s', uvmunmap root (a * PGSIZE) n true s = Ret tt s' ∧
    vm_inv G s' root (frames (Z.to_nat n) (km s) root a ++ pages) ∧
    kept G (frames (Z.to_nat n) (km s) root a) (km s) (km s') ∧
    ∀ i, 0 ≤ i < NVPN →
      vpte (km s') root i = if decide (a ≤ i < a + n) then 0 else vpte (km s) root i.
Proof.
  intros Hinv Ha Hn Hlim Hown.
  destruct (uvmunmap_spec n G s root pages a) as (s' & E & ? & ? & _ & Hp); try done.
  exists s'. split_and!; try done. intros i Hi. rewrite /vpte Hp; [|by apply page_lt_maxva].
  by rewrite vpn_page.
Qed.
End addrspace.

(** ** Example: a two-page process on the small machine *)

#[local] Existing Instance demo_linker.

Definition demo_as : kmem :=
  ret_state (uvmalloc demo_top 0 0x1800 PTE_W demo_vm) demo_vm.

Lemma demo_as_run : uvmalloc demo_top 0 0x1800 PTE_W demo_vm = Ret 0x1800 demo_as.
Proof.
  apply ret_state_eq; [lia|]. vm_compute. reflexivity.
Qed.

Lemma demo_as_grown :
  ∃ G' newpt pages', vm_inv G' demo_as demo_top pages' ∧
    grown demo_pt demo_vm demo_top demo_pages 0 0 2 PTE_W demo_as G' newpt pages'.
Proof.
  destruct (uvmalloc_spec demo_pt demo_vm demo_top demo_pages 0 0x1800 PTE_W)
    as (r & s' & G' & newpt & pages' & E & Hinv & _ & _ & _ & _ & Hres).
  - exact demo_vm_inv.
  - lia.
  - klia.
  - klia.
  - intros i Hi. apply demo_vm_pte.
  - rewrite demo_as_run in E. apply Ret_inj in E as [<- <-]. exists G', newpt, pages'. split; [done|].
    by destruct Hres as [[_ ?]|[? _]].
Qed.
#[global] Opaque demo_as.

Lemma demo_vpn1 : 0 ≤ 1 < NVPN.
Proof. by vm_compute. Qed.

Lemma uvmalloc_all_or_nothing_witness :
  (∃ p, vpte (km demo_as) demo_top 1 = user_pte p PTE_W ∧ ∀ a, p ≤ a < p + PGSIZE → ld8 (km demo_as) a = 0) ∧
  ∃ newpt : list Z, (∀ q, q ∈ newpt → in_tree (km demo_as) demo_top q) ∧
    ∀ q, q ∈ demo_pages → q ∈ newpt ∨ q ∈ frames 2 (km demo_as) demo_top 0 ∨ ∃ pages', kmem_inv demo_as pages' ∧ q ∈ pages'.
Proof.
  destruct (uvmalloc_all_or_nothing demo_pt demo_vm demo_top demo_pages 0 0x1800 PTE_W)
    as (r & s' & G' & newpt & pages' & E & Hinv & _ & Ht & _ & Hres).
  - exact demo_vm_inv.
  - lia.
  - klia.
  - klia.
  - intros i Hi. apply demo_vm_pte.
  - rewrite demo_as_run in E. apply Ret_inj in E as [<- <-]. destruct Hres as [(_ & _ & HP & Hp & _)|[? _]]; [|lia].
    change (Z.to_nat (npages 0x1800 - npages 0)) with 2%nat in HP. change (npages 0) with 0 in HP. split.
    + destruct (Hp 1) as (p & ? & _ & ?); [vm_compute; intuition congruence|]. by exists p.
    + exists newpt. split; [exact Ht|]. intros q Hq. rewrite HP in Hq. apply elem_of_app in Hq as [Hq|[Hq|Hq]%elem_of_app]; [left; exact Hq|right; left; exact Hq|right; right].
      exists pages'. split; [exact (proj1 Hinv)|exact Hq].
Defined.

Lemma uvmdealloc_uvmalloc_witness :
  ∃ s2, uvmdealloc demo_top 0x1800 0 demo_as = Ret 0 s2 ∧ vpte (km s2) demo_top 1 = 0.
Proof.
  destruct (uvmdealloc_uvmalloc demo_pt demo_vm demo_top demo_pages 0 0x1800 PTE_W demo_as)
    as (s2 & G' & newpt & pages' & E & _ & _ & _ & Hp).
  - exact demo_vm_inv.
  - lia.
  - klia.
  - klia.
  - intros i Hi. apply demo_vm_pte.
  - apply demo_as_run.
  - exists s2. split; [exact E|]. etrans; [exact (Hp 1 demo_vpn1)|]. exact (demo_vm_pte (1 * PGSIZE)).
Defined.

Lemma uvmunmap_frees_witness :
  ∃ s', uvmunmap demo_top (1 * PGSIZE) 1 true demo_as = Ret tt s' ∧ vpte (km s') demo_top 1 = 0.
Proof.
  destruct demo_as_grown as (G' & newpt & pages' & Hinv & []).
  destruct (uvmunmap_frees G' demo_as demo_top pages' 1 1) as (s' & E & _ & _ & Hp).
  - exact Hinv.
  - lia.
  - lia.
  - rewrite /NVPN. lia.
  - eapply own_sub; [exact gr_own0|lia|lia].
  - exists s'. split; [exact E|]. etrans; [exact (Hp 1 demo_vpn1)|]. reflexivity.
Defined.
