(* ===== verification/UserCopy.v ===== *)
(** * Copying between kernel and user space

    [copyin], [copyout] and [copyinstr] of kernel/vm.c against reference
    definitions that go one byte and one translation at a time. *)
From S2P Require Import Prelude Riscv CString Kalloc Vm VmInv AddrSpace.

Section usercopy.
Context {LK : Linker}.

(** ** Reference definitions *)

(** The physical address user code reads [va] from: a valid entry with
    [PTE_U], for a frame other than frame 0. *)
Definition uaddr (m : mem) (root va : Z) : option Z :=
  if decide (0 ≤ va < MAXVA) then
    let e := pte_at m root va in
    if has e PTE_V && has e PTE_U && negb (PTE2PA e =? 0)
    then Some (PTE2PA e + va mod PGSIZE) else None
  else None.

(** One byte at a time: the readable prefix of [n] bytes, and whether all
    of them were readable. *)
Fixpoint uread (n : nat) (m : mem) (root va : Z) : list Z * bool :=
  match n with
  | O => ([], true)
  | S n' =>
      match uaddr m root va with
      | None => ([], false)
      | Some pa => let '(bs, ok) := uread n' m root (va + 1) in (ld8 m pa :: bs, ok)
      end
  end.

(** The NUL-terminated string of fewer than [n] bytes at [va]: the bytes
    copied and whether the NUL was reached. *)
Fixpoint ureadstr (n : nat) (m : mem) (root va : Z) : list Z * bool :=
  match n with
  | O => ([], false)
  | S n' =>
      match uaddr m root va with
      | None => ([], false)
      | Some pa =>
          if ld8 m pa =? 0 then ([0], true)
          else let '(bs, ok) := ureadstr n' m root (va + 1) in (ld8 m pa :: bs, ok)
      end
  end.

(** ** Page chunks *)

Lemma PGROUNDDOWN_spec va :
  0 ≤ va < 2 ^ 64 →
  PGROUNDDOWN va = vpn va * PGSIZE ∧ va - PGROUNDDOWN va = va mod PGSIZE ∧
  vpn (PGROUNDDOWN va) = vpn va ∧ 0 ≤ PGROUNDDOWN va ≤ va.
Proof. intros Hva. rewrite PGROUNDDOWN_eq // /vpn. klia. Qed.

Lemma walkaddr_spec G s root pages va :
  vm_inv G s root pages → 0 ≤ va < 2 ^ 64 →
  walkaddr root (PGROUNDDOWN va) s =
  Ret (match uaddr (km s) root va with Some pa => pa - va mod PGSIZE | None => 0 end) s.
Proof.
  intros Hinv Hva. destruct (PGROUNDDOWN_spec va Hva) as (E0 & E1 & E2 & E3).
  set (va0 := PGROUNDDOWN va) in *. rewrite /walkaddr /uaddr Z.geb_leb.
  destruct (Z.leb_spec MAXVA va0) as [Hge|Hlt].
  { case_decide; [lia|done]. }
  rewrite decide_True; [|rewrite /vpn in E0; klia].
  rewrite (bind_ret _ _ _ _ _ (walk_noalloc _ _ _ _ _ Hinv (conj (proj1 E3) Hlt))).
  rewrite -(pte_at_vpn _ root va0 va) // /pte_at /pte_of.
  destruct (walk_pure 2 (km s) root va0) as [a|] eqn:Hw; cbn [from_option id].
  2:{ by rewrite has_0. }
  destruct Hinv as (_ & Hpt & _).
  destruct (walk_pure_leaf _ _ _ _ _ _ _ Hpt (proj1 E3)
    (on_path_root _ _ _ _ Hpt (conj (proj1 E3) Hlt)) Hw) as (q & -> & Hq).
  pose proof (page_ok_pos _ (on_path_ok _ _ _ _ _ _ Hpt Hq)). pose proof (PX_range 0 va0).
  destruct (Z.eqb_spec (q + 8 * PX 0 va0) 0); [lia|].
  rewrite (bind_ret _ _ _ _ _ (eq_refl : load64 _ s = Ret _ s)).
  destruct (has _ PTE_V), (has _ PTE_U); cbn [andb negb]; try done.
  destruct (Z.eqb_spec (PTE2PA (ld64 (km s) (q + 8 * PX 0 va0))) 0) as [->|]; cbn [negb]; [done|].
  rewrite /mret /M_ret. f_equal. lia.
Qed.

(** Inside a page, the translation moves with the address. *)
Lemma uaddr_page m root va k :
  0 ≤ va → 0 ≤ k → va mod PGSIZE + k < PGSIZE →
  uaddr m root (va + k) = (λ pa, pa + k) <$> uaddr m root va.
Proof.
  intros Hva Hk Hp. rewrite /uaddr.
  assert (vpn (va + k) = vpn va) as E by (rewrite /vpn; klia).
  rewrite (pte_at_vpn _ root (va + k) va) //.
  destruct (decide (0 ≤ va < MAXVA)) as [Hd|Hd].
  - rewrite decide_True; [|klia]. destruct (_ && _); [|done]. cbn. f_equal. klia.
  - rewrite decide_False; [done|klia].
Qed.

Lemma uread_app n k m root va :
  uread (n + k) m root va =
  let '(bs, ok) := uread n m root va in
  if ok : bool then let '(bs', ok') := uread k m root (va + Z.of_nat n) in (bs ++ bs', ok')
  else (bs, false).
Proof.
  revert va. induction n as [|n IH]; intros va; cbn [Nat.add uread].
  - rewrite Z.add_0_r. by destruct (uread k m root va).
  - destruct (uaddr m root va); [|done]. rewrite IH.
    replace (va + 1 + Z.of_nat n) with (va + Z.of_nat (S n)) by lia.
    destruct (uread n m root (va + 1)) as [bs []]; [|done].
    by destruct (uread k m root (va + Z.of_nat (S n))).
Qed.

Lemma uread_chunk n m root va pa :
  0 ≤ va → va mod PGSIZE + Z.of_nat n ≤ PGSIZE → uaddr m root va = Some pa →
  uread n m root va = (ld_bytes n m pa, true).
Proof.
  revert va pa. induction n as [|n IH]; intros va pa Hva Hn Hu; [done|].
  cbn [uread ld_bytes]. rewrite Hu. destruct n as [|n]; [done|].
  rewrite (IH _ (pa + 1)); [done|lia|klia|].
  rewrite uaddr_page; [|klia..]. by rewrite Hu.
Qed.

Lemma ureadstr_chunk n k m root va pa :
  0 ≤ va → va mod PGSIZE + Z.of_nat n ≤ PGSIZE → uaddr m root va = Some pa →
  ureadstr (n + k) m root va =
  let '(bs, nul) := copyinstr_page n m pa in
  if nul : bool then (bs, true)
  else let '(bs', ok) := ureadstr k m root (va + Z.of_nat n) in (bs ++ bs', ok).
Proof.
  revert va pa. induction n as [|n IH]; intros va pa Hva Hn Hu.
  { cbn [Nat.add copyinstr_page]. rewrite Z.add_0_r. by destruct (ureadstr k m root va). }
  cbn [Nat.add ureadstr copyinstr_page]. rewrite Hu. destruct (ld8 m pa =? 0); [done|].
  replace (va + Z.of_nat (S n)) with (va + 1 + Z.of_nat n) by lia.
  destruct n as [|n].
  { cbn [Nat.add copyinstr_page]. rewrite Z.add_0_r. by destruct (ureadstr k m root (va + 1)). }
  rewrite (IH _ (pa + 1)); [|lia|klia|by rewrite uaddr_page; [rewrite Hu|klia..]].
  destruct (copyinstr_page (S n) m (pa + 1)) as [bs []]; [done|].
  by destruct (ureadstr k m root (va + 1 + Z.of_nat (S n))).
Qed.

(** The number of bytes one iteration moves. *)
Definition chunk (va len : Z) : Z :=
  let n := PGSIZE - (va - PGROUNDDOWN va) in if n >? len then len else n.

Lemma chunk_spec va len :
  0 ≤ va < 2 ^ 64 → 0 < len →
  1 ≤ chunk va len ≤ len ∧ va mod PGSIZE + chunk va len ≤ PGSIZE ∧
  (chunk va len < len → PGROUNDDOWN va + PGSIZE = va + chunk va len).
Proof.
  intros Hva Hlen. destruct (PGROUNDDOWN_spec va Hva) as (E0 & E1 & E2 & E3).
  rewrite /chunk E1 Z.gtb_ltb. destruct (Z.ltb_spec len (PGSIZE - va mod PGSIZE)); klia.
Qed.

Lemma uaddr_None_high m root va : MAXVA ≤ va → uaddr m root va = None.
Proof. intros. rewrite /uaddr. case_decide; [lia|done]. Qed.

Lemma uaddr_Some_lt m root va pa : uaddr m root va = Some pa → 0 ≤ va < MAXVA.
Proof. rewrite /uaddr. by case_decide. Qed.

(** A frame address plus an offset: 0 only if there is no translation. *)
Lemma uaddr_frame m root va pa :
  uaddr m root va = Some pa → pa - va mod PGSIZE ≠ 0.
Proof.
  rewrite /uaddr. case_decide; [|done]. destruct (Z.eqb_spec (PTE2PA (pte_at m root va)) 0).
  - by rewrite andb_false_r.
  - destruct (_ && _); [|done]. intros [= <-]. lia.
Qed.

(** ** [copyin] and [copyinstr] *)

Lemma copyin_loop_S fuel pt srcva len dst :
  copyin_loop (S fuel) pt srcva len dst =
  (if negb (len >? 0) then mret (0, dst)
   else
     pa0 ← walkaddr pt (PGROUNDDOWN srcva);
     if pa0 =? 0 then mret (-1, dst)
     else
       bs ← gets (λ s, ld_bytes (Z.to_nat (chunk srcva len)) (km s)
                         (pa0 + (srcva - PGROUNDDOWN srcva)));
       copyin_loop fuel pt (u64 (PGROUNDDOWN srcva + PGSIZE)) (len - chunk srcva len) (dst ++ bs)).
Proof. reflexivity. Qed.

Lemma copyin_loop_spec fuel G s root pages va len dst :
  vm_inv G s root pages → 0 ≤ va < 2 ^ 64 → 0 ≤ len ≤ Z.of_nat fuel →
  copyin_loop fuel root va len dst s =
  Ret (let '(bs, ok) := uread (Z.to_nat len) (km s) root va in
       ((if ok : bool then 0 else -1), dst ++ bs)) s.
Proof.
  intros Hinv. revert va len dst. induction fuel as [|fuel IH]; intros va len dst Hva Hlen.
  { assert (Z.to_nat len = 0%nat) as -> by lia. cbn. by rewrite app_nil_r. }
  rewrite copyin_loop_S Z.gtb_ltb. destruct (Z.ltb_spec 0 len) as [Hpos|]; cbn [negb].
  2:{ assert (Z.to_nat len = 0%nat) as -> by lia. cbn. by rewrite app_nil_r. }
  rewrite (bind_ret _ _ _ _ _ (walkaddr_spec _ _ _ _ _ Hinv Hva)).
  destruct (PGROUNDDOWN_spec va Hva) as (E0 & E1 & E2 & E3).
  destruct (chunk_spec va len Hva Hpos) as (C1 & C2 & C3). set (n := chunk va len) in *.
  replace (Z.to_nat len) with (Z.to_nat n + Z.to_nat (len - n))%nat by lia.
  rewrite uread_app. destruct (uaddr (km s) root va) as [pa|] eqn:Hu.
  2:{ destruct (Z.to_nat n) eqn:En; [lia|]. cbn [uread]. by rewrite Hu /= app_nil_r. }
  pose proof (uaddr_frame _ _ _ _ Hu). pose proof (uaddr_Some_lt _ _ _ _ Hu).
  destruct (Z.eqb_spec (pa - va mod PGSIZE) 0); [lia|].
  rewrite (uread_chunk _ _ _ _ pa); [|lia|lia|done].
  rewrite bind_gets E1.
  replace (pa - va mod PGSIZE + va mod PGSIZE) with pa by lia.
  rewrite u64_small; [|klia]. rewrite Z2Nat.id; [|lia].
  destruct (decide (n = len)) as [E|].
  - rewrite IH; [|klia|lia]. rewrite E Z.sub_diag. change (Z.to_nat 0) with 0%nat. cbn [uread]. by rewrite !app_nil_r.
  - rewrite (C3 ltac:(lia)) IH; [|klia|lia].
    destruct (uread _ _ _ (va + n)) as [bs ok]. by rewrite app_assoc.
Qed.

Lemma copyinstr_loop_S fuel pt srcva max dst :
  copyinstr_loop (S fuel) pt srcva max dst =
  (if negb (max >? 0) then mret (-1, dst)
   else
     pa0 ← walkaddr pt (PGROUNDDOWN srcva);
     if pa0 =? 0 then mret (-1, dst)
     else
       r ← gets (λ s, copyinstr_page (Z.to_nat (chunk srcva max)) (km s)
                         (pa0 + (srcva - PGROUNDDOWN srcva)));
       if r.2 : bool then mret (0, dst ++ r.1)
       else copyinstr_loop fuel pt (u64 (PGROUNDDOWN srcva + PGSIZE))
              (max - chunk srcva max) (dst ++ r.1)).
Proof. reflexivity. Qed.

Lemma copyinstr_loop_spec fuel G s root pages va max dst :
  vm_inv G s root pages → 0 ≤ va < 2 ^ 64 → 0 ≤ max ≤ Z.of_nat fuel →
  copyinstr_loop fuel root va max dst s =
  Ret (let '(bs, ok) := ureadstr (Z.to_nat max) (km s) root va in
       ((if ok : bool then 0 else -1), dst ++ bs)) s.
Proof.
  intros Hinv. revert va max dst. induction fuel as [|fuel IH]; intros va max dst Hva Hmax.
  { assert (Z.to_nat max = 0%nat) as -> by lia. cbn. by rewrite app_nil_r. }
  rewrite copyinstr_loop_S Z.gtb_ltb. destruct (Z.ltb_spec 0 max) as [Hpos|]; cbn [negb].
  2:{ assert (Z.to_nat max = 0%nat) as -> by lia. cbn. by rewrite app_nil_r. }
  rewrite (bind_ret _ _ _ _ _ (walkaddr_spec _ _ _ _ _ Hinv Hva)).
  destruct (PGROUNDDOWN_spec va Hva) as (E0 & E1 & E2 & E3).
  destruct (chunk_spec va max Hva Hpos) as (C1 & C2 & C3). set (n := chunk va max) in *.
  replace (Z.to_nat max) with (Z.to_nat n + Z.to_nat (max - n))%nat by lia.
  destruct (uaddr (km s) root va) as [pa|] eqn:Hu.
  2:{ destruct (Z.to_nat n) eqn:En; [lia|]. cbn [Nat.add ureadstr]. by rewrite Hu /= app_nil_r. }
  pose proof (uaddr_frame _ _ _ _ Hu). pose proof (uaddr_Some_lt _ _ _ _ Hu).
  destruct (Z.eqb_spec (pa - va mod PGSIZE) 0); [lia|].
  rewrite (ureadstr_chunk _ _ _ _ _ pa); [|lia|lia|done].
  rewrite bind_gets E1.
  replace (pa - va mod PGSIZE + va mod PGSIZE) with pa by lia.
  destruct (copyinstr_page (Z.to_nat n) (km s) pa) as [bs []]; cbn [fst snd]; [done|].
  rewrite u64_small; [|klia]. rewrite Z2Nat.id; [|lia].
  destruct (decide (n = max)) as [E|].
  - rewrite IH; [|klia|lia]. rewrite E Z.sub_diag. change (Z.to_nat 0) with 0%nat. cbn [ureadstr]. by rewrite !app_nil_r.
  - rewrite (C3 ltac:(lia)) IH; [|klia|lia].
    destruct (ureadstr _ _ _ (va + n)) as [bs' ok]. by rewrite app_assoc.
Qed.

(** ** [copyout] *)

Definition uvalid (e : Z) : bool := has e PTE_V && has e PTE_U.

(** The frames behind the user's mappings: real pages, neither free nor part
    of the page table, and no frame is mapped at two virtual pages. *)
Definition user_ok (G : gmap Z (nat * Z)) (m : mem) (root : Z) (pages : list Z) : Prop :=
  ∀ va, 0 ≤ va < MAXVA → uvalid (pte_at m root va) = true →
    page_ok (PTE2PA (pte_at m root va)) ∧ PTE2PA (pte_at m root va) ∉ pages ∧
    G !! PTE2PA (pte_at m root va) = None ∧
    ∀ va', 0 ≤ va' < MAXVA → uvalid (pte_at m root va') = true →
      PTE2PA (pte_at m root va') = PTE2PA (pte_at m root va) → vpn va' = vpn va.

(** The reference: one byte at a time, while the page is user-writable. *)
Fixpoint uwrite (l : list Z) (m : mem) (root va : Z) : mem * bool :=
  match l with
  | [] => (m, true)
  | b :: l' =>
      let e := pte_at m root va in
      if decide (0 ≤ va < MAXVA) then
        if uvalid e && has e PTE_W then uwrite l' (st8 m (PTE2PA e + va mod PGSIZE) b) root (va + 1)
        else (m, false)
      else (m, false)
  end.

Lemma user_ok_ext G m m' root pages :
  (∀ va, 0 ≤ va < MAXVA → pte_at m' root va = pte_at m root va) →
  user_ok G m root pages → user_ok G m' root pages.
Proof.
  intros E Hu va Hva. rewrite E // => Hv. destruct (Hu va Hva Hv) as (? & ? & ? & Hinj).
  split_and!; try done. intros va' Hva'. rewrite E //. by apply Hinj.
Qed.

Lemma same_outside_st_bytes f off m l :
  0 ≤ off → off + Z.of_nat (length l) ≤ PGSIZE → same_outside f m (st_bytes m (f + off) l).
Proof. intros ?? a Ha. rewrite ld8_st_bytes. case_decide; [lia|done]. Qed.

Lemma uwrite_chunk G s root pages l l' va :
  vm_inv G s root pages → user_ok G (km s) root pages → 0 ≤ va < MAXVA →
  va mod PGSIZE + Z.of_nat (length l) ≤ PGSIZE →
  uvalid (pte_at (km s) root va) && has (pte_at (km s) root va) PTE_W = true →
  uwrite (l ++ l') (km s) root va =
  uwrite l' (st_bytes (km s) (PTE2PA (pte_at (km s) root va) + va mod PGSIZE) l) root
    (va + Z.of_nat (length l)).
Proof.
  revert s va. induction l as [|b l IH]; intros s va Hinv Hu Hva Hlen Hw.
  { cbn. by rewrite Z.add_0_r. }
  pose proof Hw as [Hv _]%andb_true_iff.
  destruct (Hu va Hva Hv) as (Hok & Hnin & HG & _). set (f := PTE2PA (pte_at (km s) root va)) in *.
  cbn [app uwrite st_bytes length]. rewrite decide_True // Hw -/f.
  set (m1 := st8 (km s) (f + va mod PGSIZE) b).
  destruct (frame_store G s root pages f m1 Hinv Hok Hnin HG) as [Hinv1 Hpte].
  { rewrite /m1. change (st8 _ _ b) with (st_bytes (km s) (f + va mod PGSIZE) [b]).
    apply same_outside_st_bytes; [klia|]. cbn in *. klia. }
  destruct l as [|b' l].
  { cbn. done. }
  assert (vpn (va + 1) = vpn va) as E by (rewrite /vpn; cbn in Hlen; klia).
  assert (0 ≤ va + 1 < MAXVA) as Hva1 by (rewrite /vpn in E; klia).
  assert (pte_at m1 root (va + 1) = pte_at (km s) root va) as E1.
  { rewrite Hpte //. by apply pte_at_vpn. }
  replace (va + Z.of_nat (S (length (b' :: l)))) with (va + 1 + Z.of_nat (length (b' :: l))) by lia.
  rewrite (IH (mk_kmem m1 (freelist s))) //; cbn [km].
  - rewrite E1 -/f. do 2 f_equal. cbn in Hlen. klia.
  - by eapply user_ok_ext.
  - cbn in *. klia.
  - by rewrite E1.
Qed.

Lemma copyout_loop_S fuel pt dstva src :
  copyout_loop (S fuel) pt dstva src =
  (if negb (Z.of_nat (length src) >? 0) then mret 0
   else if PGROUNDDOWN dstva >=? MAXVA then mret (-1)
   else
     pte ← walk pt (PGROUNDDOWN dstva) false;
     v ← load64 pte;
     if (pte =? 0) || negb (has v PTE_V) || negb (has v PTE_U) || negb (has v PTE_W)
     then mret (-1)
     else
       let n := Z.to_nat (chunk dstva (Z.of_nat (length src))) in
       upd_mem (λ m, st_bytes m (PTE2PA v + (dstva - PGROUNDDOWN dstva)) (take n src));;
       copyout_loop fuel pt (u64 (PGROUNDDOWN dstva + PGSIZE)) (drop n src)).
Proof. reflexivity. Qed.

Lemma copyout_loop_spec fuel G s root pages va src :
  vm_inv G s root pages → user_ok G (km s) root pages → 0 ≤ va < 2 ^ 64 →
  (length src ≤ fuel)%nat →
  copyout_loop fuel root va src s =
  let '(m', ok) := uwrite src (km s) root va in
  Ret (if ok : bool then 0 else -1) (mk_kmem m' (freelist s)).
Proof.
  revert s va src. induction fuel as [|fuel IH]; intros s va src Hinv Hu Hva Hlen.
  { destruct src; [|cbn in Hlen; lia]. by destruct s. }
  rewrite copyout_loop_S Z.gtb_ltb. destruct (Z.ltb_spec 0 (Z.of_nat (length src))) as [Hpos|]; cbn [negb].
  2:{ destruct src; [|cbn in *; lia]. by destruct s. }
  destruct (PGROUNDDOWN_spec va Hva) as (E0 & E1 & E2 & E3).
  destruct (chunk_spec va _ Hva Hpos) as (C1 & C2 & C3).
  set (n := chunk va (Z.of_nat (length src))) in *. set (va0 := PGROUNDDOWN va) in *.
  rewrite Z.geb_leb. destruct (Z.leb_spec MAXVA va0) as [Hge|Hlt].
  { destruct src as [|b l]; [cbn in *; lia|]. cbn [uwrite]. rewrite decide_False; [|lia]. by destruct s. }
  assert (0 ≤ va < MAXVA) as Hvam by (rewrite /vpn in E0; klia).
  rewrite (bind_ret _ _ _ _ _ (walk_noalloc _ _ _ _ _ Hinv (conj (proj1 E3) Hlt))).
  rewrite (bind_ret _ _ _ _ _ (eq_refl : load64 _ s = Ret _ s)).
  assert (match walk_pure 2 (km s) root va0 with
          | Some a => a ≠ 0 ∧ ld64 (km s) a = pte_at (km s) root va
          | None => pte_at (km s) root va = 0 end) as Hw.
  { rewrite -(pte_at_vpn _ root va0 va) // /pte_at /pte_of.
    destruct (walk_pure 2 (km s) root va0) as [a|] eqn:Hw; [|done]. split; [|done].
    destruct Hinv as (_ & Hpt & _).
    destruct (walk_pure_leaf _ _ _ _ _ _ _ Hpt (proj1 E3)
      (on_path_root _ _ _ _ Hpt (conj (proj1 E3) Hlt)) Hw) as (q & -> & Hq).
    pose proof (page_ok_pos _ (on_path_ok _ _ _ _ _ _ Hpt Hq)). pose proof (PX_range 0 va0). lia. }
  rewrite -(take_drop (Z.to_nat n) src).
  destruct (uvalid (pte_at (km s) root va) && has (pte_at (km s) root va) PTE_W) eqn:Hwr.
  2:{ (* not writable: both stop at once *)
    rewrite take_drop. destruct src as [|b l]; [cbn in *; lia|]. cbn [uwrite].
    rewrite decide_True // Hwr. destruct (walk_pure 2 (km s) root va0) as [a|]; cbn [from_option id].
    - destruct Hw as [Ha ->]. destruct (Z.eqb_spec a 0); [done|]. cbn [orb]. rewrite /uvalid in Hwr.
      destruct (has _ PTE_V), (has _ PTE_U), (has _ PTE_W); first [discriminate Hwr|by destruct s].
    - by destruct s. }
  destruct (walk_pure 2 (km s) root va0) as [a|]; cbn [from_option id]; [|rewrite Hw /uvalid has_0 in Hwr; discriminate Hwr].
  destruct Hw as [Ha Hv]. rewrite Hv. destruct (Z.eqb_spec a 0); [done|]. cbn [orb].
  pose proof Hwr as [Huv HW]%andb_true_iff. pose proof Huv as [HV HU]%andb_true_iff.
  rewrite HV HU HW E1. cbn [negb orb].
  assert (length (take (Z.to_nat n) src) = Z.to_nat n) as Hlt' by (rewrite length_take; lia).
  rewrite (uwrite_chunk G s root pages) //; [|rewrite Hlt'; lia].
  rewrite bind_modify take_drop. set (m1 := st_bytes _ _ _).
  destruct (Hu va Hvam Huv) as (Hok & Hnin & HG & _).
  destruct (frame_store G s root pages (PTE2PA (pte_at (km s) root va)) m1 Hinv Hok Hnin HG) as [Hinv1 Hpte1].
  { apply same_outside_st_bytes; [klia|]. rewrite Hlt'. lia. }
  rewrite u64_small; [|klia]. rewrite Hlt' Z2Nat.id; [|lia].
  destruct (decide (n = Z.of_nat (length src))) as [En|].
  - rewrite En Nat2Z.id drop_all. by destruct fuel.
  - rewrite (C3 ltac:(lia)). rewrite (IH (mk_kmem m1 (freelist s))) //.
    + by eapply user_ok_ext.
    + klia.
    + rewrite length_drop. lia.
Qed.
(** What a completed [uwrite] leaves behind: the page table as it was, the
    bytes where user code reads them, every other user byte untouched. *)
Record uwrite_post G s root pages (va : Z) (l : list Z) (m' : mem) : Prop := {
  uw_inv : vm_inv G (mk_kmem m' (freelist s)) root pages;
  uw_pte : ∀ a, 0 ≤ a < MAXVA → pte_at m' root a = pte_at (km s) root a;
  uw_out : ∀ a pa, uaddr (km s) root a = Some pa →
    a < va ∨ va + Z.of_nat (length l) ≤ a → ld8 m' pa = ld8 (km s) pa;
  uw_in : ∀ i b, l !! i = Some b → ∃ pa,
    uaddr (km s) root (va + Z.of_nat i) = Some pa ∧ ld8 m' pa = u8 b;
}.

Lemma uvalid_uaddr G m root pages a :
  user_ok G m root pages → 0 ≤ a < MAXVA → uvalid (pte_at m root a) = true →
  uaddr m root a = Some (PTE2PA (pte_at m root a) + a mod PGSIZE).
Proof.
  intros Hu Ha Hv. destruct (Hu a Ha Hv) as (Hok & _). pose proof (page_ok_pos _ Hok).
  rewrite /uaddr decide_True //. rewrite /uvalid in Hv. rewrite Hv.
  destruct (Z.eqb_spec (PTE2PA (pte_at m root a)) 0); [lia|done].
Qed.

Lemma uaddr_Some m root a pa :
  uaddr m root a = Some pa →
  0 ≤ a < MAXVA ∧ uvalid (pte_at m root a) = true ∧ pa = PTE2PA (pte_at m root a) + a mod PGSIZE.
Proof.
  rewrite /uaddr /uvalid. case_decide; [|done].
  destruct (has _ PTE_V), (has _ PTE_U), (negb _); cbn; try discriminate. by intros [= <-].
Qed.

Lemma uaddr_ext m m' root a :
  (∀ a, 0 ≤ a < MAXVA → pte_at m' root a = pte_at m root a) → uaddr m' root a = uaddr m root a.
Proof. intros E. rewrite /uaddr. case_decide; [|done]. by rewrite E. Qed.

(** Two user addresses that read the same byte are the same address. *)
Lemma uaddr_inj G m root pages a a' pa :
  user_ok G m root pages → uaddr m root a = Some pa → uaddr m root a' = Some pa → a = a'.
Proof.
  intros Hu (Ha & Hv & E)%uaddr_Some (Ha' & Hv' & E')%uaddr_Some.
  destruct (Hu a Ha Hv) as ([Hal _] & _ & _ & Hinj). destruct (Hu a' Ha' Hv') as ([Hal' _] & _).
  assert (PTE2PA (pte_at m root a') = PTE2PA (pte_at m root a)) as EF by klia.
  pose proof (Hinj a' Ha' Hv' EF) as Evpn. rewrite /vpn in Evpn. klia.
Qed.

Lemma uwrite_spec G s root pages va l m' :
  vm_inv G s root pages → user_ok G (km s) root pages →
  uwrite l (km s) root va = (m', true) → uwrite_post G s root pages va l m'.
Proof.
  revert s va. induction l as [|b l IH]; intros s va Hinv Hu.
  { intros [= <-]. split; [by destruct s|done|done|]. intros i b Hb. by rewrite lookup_nil in Hb. }
  cbn [uwrite]. case_decide as Hva; [|discriminate]. destruct (_ && _) eqn:Hw; [|discriminate].
  apply andb_true_iff in Hw as [Hv _]. pose proof (uvalid_uaddr _ _ _ _ _ Hu Hva Hv) as Hpa.
  destruct (Hu va Hva Hv) as (Hok & Hnin & HG & _). set (f := PTE2PA (pte_at (km s) root va)) in *.
  set (m1 := st8 (km s) (f + va mod PGSIZE) b).
  destruct (frame_store G s root pages f m1 Hinv Hok Hnin HG) as [Hinv1 Hpte1].
  { intros a Ha. apply ld8_st8_ne. klia. }
  intros Hr. destruct (IH (mk_kmem m1 (freelist s)) (va + 1) Hinv1) as [Hi Hp Ho Hin];
    [by eapply user_ok_ext|done|]; cbn [km freelist] in *.
  assert (∀ a, uaddr m1 root a = uaddr (km s) root a) as Eu by (intros; by apply uaddr_ext).
  split; [done| | |].
  - intros a Ha. by rewrite Hp // Hpte1.
  - intros a pa Ea Hout. cbn [length] in Hout. rewrite (Ho a pa); [|by rewrite Eu|lia].
    apply ld8_st8_ne. intros ->. pose proof (uaddr_inj _ _ _ _ _ _ _ Hu Hpa Ea). lia.
  - intros [|i] b' Hb'.
    + injection Hb' as ->. rewrite Z.add_0_r. exists (f + va mod PGSIZE). split; [done|].
      rewrite (Ho va); [|by rewrite Eu|lia]. apply ld8_st8_eq.
    + destruct (Hin i b' Hb') as (pa & E & Hb). exists pa. split; [|done].
      rewrite -E Eu. f_equal. lia.
Qed.

Lemma uread_lookup n m root va bs :
  length bs = n →
  (∀ i b, bs !! i = Some b → ∃ pa, uaddr m root (va + Z.of_nat i) = Some pa ∧ ld8 m pa = b) →
  uread n m root va = (bs, true).
Proof.
  revert n va. induction bs as [|b bs IH]; intros n va <- Hb; [done|]. cbn [length uread].
  destruct (Hb O b eq_refl) as (pa & E & <-). rewrite Z.add_0_r in E. rewrite E.
  rewrite (IH (length bs)); [done|done|]. intros i b' Hi. destruct (Hb (S i) b' Hi) as (pa' & E' & ?).
  exists pa'. split; [|done]. rewrite -E'. f_equal. lia.
Qed.

Lemma uread_uwrite G s root pages va l m' :
  vm_inv G s root pages → user_ok G (km s) root pages → Forall (λ b, 0 ≤ b < 256) l →
  uwrite l (km s) root va = (m', true) → uread (length l) m' root va = (l, true).
Proof.
  intros Hinv Hu Hl Hw. destruct (uwrite_spec _ _ _ _ _ _ _ Hinv Hu Hw) as [_ Hp _ Hin].
  apply uread_lookup; [done|]. intros i b Hb. destruct (Hin i b Hb) as (pa & E & Hb8).
  exists pa. rewrite (uaddr_ext (km s)) //. split; [done|]. rewrite Hb8 u8_small //.
  rewrite Forall_lookup in Hl. by eapply Hl.
Qed.

(** An address space that owns its pages satisfies [user_ok]. *)
Lemma own_user_ok G m root pages n :
  own G m root pages 0 n → (∀ i, n ≤ i < NVPN → uvalid (vpte m root i) = false) →
  user_ok G m root pages.
Proof.
  intros Hown Hout va Hva Hv. rewrite pte_vpte in Hv |- *. pose proof (vpn_range _ Hva).
  assert (0 ≤ vpn va < 0 + n) as Hin.
  { destruct (decide (vpn va < n)); [lia|]. rewrite Hout in Hv; [discriminate|lia]. }
  destruct (Hown _ Hin) as (_ & _ & ? & ? & ? & Hinj). split_and!; try done.
  intros va' Hva' Hv'. rewrite pte_vpte in Hv' |- *. apply Hinj. pose proof (vpn_range _ Hva').
  destruct (decide (vpn va' < n)); [lia|]. rewrite Hout in Hv'; [discriminate|lia].
Qed.

(** ** The contract of the copy routines *)

(** [copyin] is the copy that translates every byte on its own: it
    returns 0 with the [len] bytes the user sees at [srcva] exactly when all
    of them are mapped user-readable below MAXVA, and -1 after the longest
    readable prefix otherwise, for any 64-bit address and without changing any state. *)
Theorem copyin_bytewise G s root pages va len :
  vm_inv G s root pages → 0 ≤ va < 2 ^ 64 → 0 ≤ len →
  copyin root va len s =
  Ret (let '(bs, ok) := uread (Z.to_nat len) (km s) root va in (if ok : bool then 0 else -1, bs)) s.
Proof. intros Hinv Hva Hlen. rewrite /copyin (copyin_loop_spec _ G s root pages) //; lia. Qed.

(** C33. [copyinstr] is the byte-at-a-time string copy: it returns 0 with the
    bytes up to and including the first NUL when that NUL is among the first
    [max] bytes and everything up to it is readable, and -1 otherwise. *)
Theorem copyinstr_bytewise G s root pages va max :
  vm_inv G s root pages → 0 ≤ va < 2 ^ 64 → 0 ≤ max →
  copyinstr root va max s =
  Ret (let '(bs, ok) := ureadstr (Z.to_nat max) (km s) root va in (if ok : bool then 0 else -1, bs)) s.
Proof. intros Hinv Hva Hlen. rewrite /copyinstr (copyinstr_loop_spec _ G s root pages) //; lia. Qed.

(** C34. [copyout] stores exactly what a byte-at-a-time user store would: it
    returns 0 when every destination byte is mapped user-writable, and -1
    after storing the writable prefix otherwise; the free list never changes. *)
Theorem copyout_bytewise G s root pages va src :
  vm_inv G s root pages → user_ok G (km s) root pages → 0 ≤ va < 2 ^ 64 →
  copyout root va src s =
  let '(m', ok) := uwrite src (km s) root va in
  Ret (if ok : bool then 0 else -1) (mk_kmem m' (freelist s)).
Proof. intros Hinv Hu Hva. by apply (copyout_loop_spec _ G s root pages). Qed.

(** C32. A successful [copyout] is what [copyin] then reads: copying the same
    range back returns 0 and the bytes written.  No other user byte of the
    address space changes, nor does any translation. *)
Theorem copyout_copyin G s root pages va src s' :
  vm_inv G s root pages → user_ok G (km s) root pages → 0 ≤ va < 2 ^ 64 →
  Forall (λ b, 0 ≤ b < 256) src →
  copyout root va src s = Ret 0 s' →
  copyin root va (Z.of_nat (length src)) s' = Ret (0, src) s' ∧
  (∀ a pa, uaddr (km s) root a = Some pa → a < va ∨ va + Z.of_nat (length src) ≤ a →
     uaddr (km s') root a = Some pa ∧ ld8 (km s') pa = ld8 (km s) pa).
Proof.
  intros Hinv Hu Hva Hsrc Hrun.
  rewrite /copyout (copyout_loop_spec _ G s root pages) // in Hrun.
  destruct (uwrite src (km s) root va) as [m' ok] eqn:Hw. destruct ok; [|discriminate Hrun].
  apply Ret_inj in Hrun as [_ <-].
  destruct (uwrite_spec _ _ _ _ _ _ _ Hinv Hu Hw) as [Hinv' Hp Hout _]. split.
  - rewrite /copyin Nat2Z.id (copyin_loop_spec _ G _ root pages) //; [|lia..].
    cbn [km]. by rewrite Nat2Z.id (uread_uwrite _ _ _ _ _ _ _ Hinv Hu Hsrc Hw).
  - intros a pa Ea Ha. rewrite (uaddr_ext (km s)) //. split; [done|]. by apply (Hout a).
Qed.
End usercopy.

(** ** Examples on the two-page process *)

#[local] Existing Instance demo_linker.

Lemma demo_as_user : ∃ G pages, vm_inv G demo_as demo_top pages ∧ user_ok G (km demo_as) demo_top pages.
Proof.
  destruct demo_as_grown as (G' & newpt & pages' & Hinv & [Hown _ _ _ Hold]). exists G', pages'. split; [exact Hinv|].
  apply (own_user_ok _ _ _ _ 2); [exact Hown|]. intros i Hi.
  assert (vpte (km demo_as) demo_top i = 0) as ->; [|by rewrite /uvalid has_0].
  etrans; [apply Hold; [apply page_lt_maxva; lia|rewrite vpn_page; lia]|apply demo_vm_pte].
Qed.

Definition demo_hello : list Z := [104; 101; 108; 108; 111].
(** "hello" stored across the page boundary at 0x1000. *)
Definition demo_msg : kmem := ret_state (copyout demo_top 0xffe demo_hello demo_as) demo_as.
Lemma demo_msg_run : copyout demo_top 0xffe demo_hello demo_as = Ret 0 demo_msg.
Proof. apply ret_state_eq; [lia|]. vm_compute. reflexivity. Qed.
#[global] Opaque demo_msg.

Lemma copyin_bytewise_witness :
  copyin demo_top 0x1ffe 4 demo_as = Ret (-1, [0; 0]) demo_as.
Proof.
  destruct demo_as_user as (G & pages & Hinv & _).
  etrans; [apply (copyin_bytewise G demo_as demo_top pages 0x1ffe 4 Hinv); lia|].
  assert (uread 4 (km demo_as) demo_top 0x1ffe = ([0; 0], false)) as E by (vm_compute; reflexivity).
  change (Z.to_nat 4) with 4%nat. by rewrite E.
Defined.

Lemma copyinstr_bytewise_witness :
  copyinstr demo_top 0x800 16 demo_as = Ret (0, [0]) demo_as.
Proof.
  destruct demo_as_user as (G & pages & Hinv & _).
  etrans; [apply (copyinstr_bytewise G demo_as demo_top pages 0x800 16 Hinv); lia|].
  assert (ureadstr 16 (km demo_as) demo_top 0x800 = ([0], true)) as E by (vm_compute; reflexivity).
  change (Z.to_nat 16) with 16%nat. by rewrite E.
Defined.

Lemma copyout_bytewise_witness :
  ret_val (copyout demo_top 0x1ffe demo_hello demo_as) = -1.
Proof.
  destruct demo_as_user as (G & pages & Hinv & Hu).
  rewrite (copyout_bytewise G demo_as demo_top pages 0x1ffe demo_hello Hinv Hu); [|lia].
  assert ((uwrite demo_hello (km demo_as) demo_top 0x1ffe).2 = false) as E by (vm_compute; reflexivity).
  destruct (uwrite _ _ _ _) as [m' ok]. cbn in E. by rewrite E.
Defined.

Lemma copyout_copyin_witness :
  copyin demo_top 0xffe 5 demo_msg = Ret (0, demo_hello) demo_msg.
Proof.
  destruct demo_as_user as (G & pages & Hinv & Hu).
  apply (copyout_copyin G demo_as demo_top pages 0xffe demo_hello demo_msg Hinv Hu);
    [lia|repeat constructor; lia|exact demo_msg_run].
Defined.
