(* ===== verification/Spinlock.v ===== *)
(** * kernel/spinlock.c: spin locks and interrupt nesting

    [push_off], [pop_off], [holding], [acquire] and [release] as the code runs
    them on one hart, and then as interleaved steps of several harts: every
    read or write of a lock is a step of its own, so that [holding]'s
    unsynchronised reads race with the other harts' updates. *)
From S2P Require Import Prelude Riscv.

(** ** One hart *)

(** struct cpu's [noff] and [intena], and the SIE bit of sstatus. *)
Record hart := mk_hart { noff : Z; intena : bool; sie : bool }.

Definition intr_get : M hart bool := gets sie.
Definition intr_off : M hart unit := modify (λ c, mk_hart (noff c) (intena c) false).
Definition intr_on : M hart unit := modify (λ c, mk_hart (noff c) (intena c) true).

Definition push_off : M hart unit :=
  old ← intr_get;
  intr_off;;
  c ← get;
  (if noff c =? 0 then modify (λ c, mk_hart (noff c) old (sie c)) else mret tt);;
  modify (λ c, mk_hart (noff c + 1) (intena c) (sie c)).

Definition pop_off : M hart unit :=
  i ← intr_get;
  if i : bool then panic "pop_off - interruptible"
  else
    c ← get;
    if noff c <? 1 then panic "pop_off"
    else
      put (mk_hart (noff c - 1) (intena c) (sie c));;
      c ← get;
      if (noff c =? 0) && intena c then intr_on else mret tt.

(** struct spinlock; [lcpu] is the hart whose struct cpu [lk->cpu] points to. *)
Record spinlock := mk_spinlock { locked : bool; lcpu : option nat }.

Definition initlock : spinlock := mk_spinlock false None.
Definition holding (h : nat) (lk : spinlock) : bool := locked lk && bool_decide (lcpu lk = Some h).

(** ** Interleaved harts

    [acquire(lk)] is [push_off]; the [holding] test, which reads [lk->locked]
    and, if that is set, [lk->cpu]; the test-and-set, which is repeated while
    it returns 1; and the store of [lk->cpu].  [release(lk)] is the two reads
    of the [holding] test; the store of [lk->cpu]; the store of [lk->locked];
    and [pop_off]. *)
Inductive pc :=
| Idle
| Acq0 (l : nat) | AcqH (l : nat) | Acq1 (l : nat) | Acq2 (l : nat) | Acq3 (l : nat)
| RelH (l : nat) | Rel0 (l : nat) | Rel1 (l : nat) | Rel2 (l : nat) | Rel3 (l : nat)
| Panicked (msg : string).

(** [held h]: the locks whose [acquire] hart [h] has finished and that it has
    not released; [pushes h]: its own unmatched calls of [push_off].  Both
    only record the history. *)
Record mach := mk_mach {
  harts : nat → hart;
  locks : nat → spinlock;
  pcs : nat → pc;
  held : nat → gset nat;
  pushes : nat → Z;
}.

Definition upd {A} (f : nat → A) (k : nat) (v : A) : nat → A := λ x, if decide (x = k) then v else f x.

Definition set_pc (h : nat) (p : pc) (m : mach) : mach :=
  mk_mach (harts m) (locks m) (upd (pcs m) h p) (held m) (pushes m).
Definition set_lock (l : nat) (k : spinlock) (m : mach) : mach :=
  mk_mach (harts m) (upd (locks m) l k) (pcs m) (held m) (pushes m).
Definition set_hart (h : nat) (c : hart) (m : mach) : mach :=
  mk_mach (upd (harts m) h c) (locks m) (pcs m) (held m) (pushes m).
Definition set_held (h : nat) (s : gset nat) (m : mach) : mach :=
  mk_mach (harts m) (locks m) (pcs m) (upd (held m) h s) (pushes m).

(** Run an interrupt-nesting function on hart [h] and go on to [p]. *)
Definition on_hart (h : nat) (f : M hart unit) (p : pc) (m : mach) : mach :=
  match f (harts m h) with
  | Ret _ c => set_pc h p (set_hart h c m)
  | Panic e => set_pc h (Panicked e) m
  | Sleep _ _ => m
  end.

(** The next step of hart [h] inside [acquire] or [release]. *)
Definition hart_step (h : nat) (m : mach) : mach :=
  match pcs m h with
  | Acq0 l => on_hart h push_off (AcqH l) m
  | AcqH l => if locked (locks m l) then set_pc h (Acq1 l) m else set_pc h (Acq2 l) m
  | Acq1 l =>
      if bool_decide (lcpu (locks m l) = Some h) then set_pc h (Panicked "acquire") m
      else set_pc h (Acq2 l) m
  | Acq2 l =>
      if locked (locks m l) then m
      else set_pc h (Acq3 l) (set_lock l (mk_spinlock true (lcpu (locks m l))) m)
  | Acq3 l =>
      set_pc h Idle (set_held h ({[l]} ∪ held m h)
        (set_lock l (mk_spinlock (locked (locks m l)) (Some h)) m))
  | RelH l =>
      if locked (locks m l) then set_pc h (Rel0 l) m else set_pc h (Panicked "release") m
  | Rel0 l =>
      if bool_decide (lcpu (locks m l) = Some h) then set_pc h (Rel1 l) m
      else set_pc h (Panicked "release") m
  | Rel1 l => set_pc h (Rel2 l) (set_lock l (mk_spinlock (locked (locks m l)) None) m)
  | Rel2 l =>
      set_pc h (Rel3 l) (set_held h (held m h ∖ {[l]})
        (set_lock l (mk_spinlock false (lcpu (locks m l))) m))
  | Rel3 l => on_hart h pop_off Idle m
  | Idle | Panicked _ => m
  end.

(** What the rest of the kernel does between these calls: it calls
    [acquire] or [release] on any lock at any time, [push_off], [pop_off]
    to match an earlier [push_off], and turns interrupts on or off while it
    is not nested (trap.c, scheduler). *)
Inductive mstep : mach → mach → Prop :=
| step_hart m h : mstep m (hart_step h m)
| step_acquire m h l : pcs m h = Idle → mstep m (set_pc h (Acq0 l) m)
| step_release m h l : pcs m h = Idle → mstep m (set_pc h (RelH l) m)
| step_push m h : pcs m h = Idle →
    mstep m (let m' := on_hart h push_off Idle m in
             mk_mach (harts m') (locks m') (pcs m') (held m') (upd (pushes m) h (pushes m h + 1)))
| step_pop m h : pcs m h = Idle → 0 < pushes m h →
    mstep m (let m' := on_hart h pop_off Idle m in
             mk_mach (harts m') (locks m') (pcs m') (held m') (upd (pushes m) h (pushes m h - 1)))
| step_intr m h b : pcs m h = Idle → noff (harts m h) = 0 →
    mstep m (set_hart h (mk_hart 0 (intena (harts m h)) b) m).

Definition boot : mach :=
  mk_mach (λ _, mk_hart 0 false false) (λ _, initlock) (λ _, Idle) (λ _, ∅) (λ _, 0).

Inductive reachable : mach → Prop :=
| reach_boot : reachable boot
| reach_step m m' : reachable m → mstep m m' → reachable m'.

(** ** The invariant *)

(** Unmatched [push_off]s of the call in progress. *)
Definition pending (p : pc) : Z :=
  match p with AcqH _ | Acq1 _ | Acq2 _ | Acq3 _ | Rel3 _ => 1 | _ => 0 end.

Definition owns (m : mach) (h l : nat) : Prop := l ∈ held m h ∨ pcs m h = Acq3 l.

Record hart_inv (m : mach) (h : nat) : Prop := {
  hi_noff : match pcs m h with
    | Panicked _ => Z.of_nat (size (held m h)) + pushes m h ≤ noff (harts m h)
    | _ => noff (harts m h) = Z.of_nat (size (held m h)) + pending (pcs m h) + pushes m h
    end;
  hi_intr : 0 < noff (harts m h) → sie (harts m h) = false;
  hi_pushes : 0 ≤ pushes m h;
  hi_acq : ∀ l, pcs m h = Acq2 l ∨ pcs m h = Acq3 l → l ∉ held m h;
  hi_rel : ∀ l, pcs m h = Rel1 l ∨ pcs m h = Rel2 l → l ∈ held m h;
}.

Record lock_inv (m : mach) (l : nat) : Prop := {
  li_locked : locked (locks m l) = true ↔ ∃ h, owns m h l;
  li_cpu : ∀ h, lcpu (locks m l) = Some h ↔ l ∈ held m h ∧ pcs m h ≠ Rel2 l;
  li_unique : ∀ h h', owns m h l → owns m h' l → h = h';
}.

Definition mach_inv (m : mach) : Prop := (∀ h, hart_inv m h) ∧ (∀ l, lock_inv m l).

Lemma upd_eq {A} (f : nat → A) k v : upd f k v k = v.
Proof. rewrite /upd. by case_decide. Qed.
Lemma upd_ne {A} (f : nat → A) k v x : x ≠ k → upd f k v x = f x.
Proof. rewrite /upd. by case_decide. Qed.

(** [push_off] and [pop_off] as state transformers. *)
Lemma push_off_run c :
  push_off c = Ret tt (mk_hart (noff c + 1) (if noff c =? 0 then sie c else intena c) false).
Proof. rewrite /push_off /intr_get /intr_off. mrun. by destruct (noff c =? 0). Qed.

Lemma pop_off_run c :
  sie c = false → 1 ≤ noff c →
  pop_off c = Ret tt (mk_hart (noff c - 1) (intena c) ((noff c - 1 =? 0) && intena c)).
Proof.
  intros Hs Hn. rewrite /pop_off /intr_get. mrun. rewrite Hs.
  destruct (Z.ltb_spec (noff c) 1); [lia|]. cbn [noff intena].
  destruct (_ && _); by rewrite ?Hs.
Qed.

(** Preservation for the lock side: a step either keeps every pc away from
    the two points where ownership and the fields of a lock disagree, or is
    one of the four steps that change a lock. *)
Definition plain (p : pc) : Prop := match p with Acq3 _ | Rel2 _ => False | _ => True end.
#[local] Hint Extern 0 (plain _) => exact I : core.

Lemma lock_inv_ext m m' l :
  locks m' l = locks m l → (∀ h, l ∈ held m' h ↔ l ∈ held m h) →
  (∀ h, pcs m' h = Acq3 l ↔ pcs m h = Acq3 l) → (∀ h, pcs m' h = Rel2 l ↔ pcs m h = Rel2 l) →
  lock_inv m l → lock_inv m' l.
Proof.
  intros El Eh Ea Er [H1 H2 H3].
  assert (∀ h, owns m' h l ↔ owns m h l) as Eo by (intros h; rewrite /owns Eh Ea //).
  split; rewrite ?El.
  - rewrite H1. by split; intros [h ?]; exists h; apply Eo.
  - intros h. by rewrite H2 Eh Er.
  - intros h h'. rewrite !Eo. apply H3.
Qed.

Lemma lock_inv_pc m m' h p' l :
  lock_inv m l → plain (pcs m h) → plain p' →
  locks m' = locks m → held m' = held m → pcs m' = upd (pcs m) h p' → lock_inv m' l.
Proof.
  intros Hl Hp Hp' El Eh Ep. eapply lock_inv_ext; [..|exact Hl]; rewrite ?El ?Eh ?Ep //.
  all: intros h'; rewrite /upd; case_decide; [subst|done].
  all: split; intros E; [rewrite E in Hp'|rewrite E in Hp]; done.
Qed.

Section lock_steps.
Context (m : mach) (h l : nat) (Hinv : mach_inv m).

Lemma lock_inv_tas l' :
  pcs m h = Acq2 l → locked (locks m l) = false →
  lock_inv (set_pc h (Acq3 l) (set_lock l (mk_spinlock true (lcpu (locks m l))) m)) l'.
Proof using Hinv.
  intros Hp Hf. pose proof (proj2 Hinv l') as Hl. destruct (decide (l' = l)) as [->|Hne].
  2:{ eapply lock_inv_ext; [by apply upd_ne|done|..|exact Hl]; intros h'; cbn; rewrite /upd;
        case_decide; subst; intuition congruence. }
  destruct Hl as [H1 H2 H3]. assert (∀ h', ¬ owns m h' l) as Hno.
  { intros h' Ho. assert (locked (locks m l) = true) by (apply H1; by eexists). congruence. }
  split; cbn; rewrite ?upd_eq; cbn.
  - split; [intros _; exists h; right; cbn; by rewrite upd_eq|done].
  - intros h'. rewrite H2. rewrite /upd. case_decide; subst; intuition congruence.
  - assert (∀ h', owns (set_pc h (Acq3 l) (set_lock l (mk_spinlock true (lcpu (locks m l))) m)) h' l → h' = h) as Ho.
    { intros h' [Hh|Hh]; cbn in Hh.
      - destruct (Hno h'). by left.
      - rewrite /upd in Hh. case_decide; [done|]. destruct (Hno h'). by right. }
    intros h1 h2 ->%Ho ->%Ho. done.
Qed.

Lemma lock_inv_setcpu l' :
  pcs m h = Acq3 l →
  lock_inv (set_pc h Idle (set_held h ({[l]} ∪ held m h)
        (set_lock l (mk_spinlock (locked (locks m l)) (Some h)) m))) l'.
Proof using Hinv.
  intros Hp. pose proof (proj2 Hinv l') as Hl. destruct (decide (l' = l)) as [->|Hne].
  2:{ eapply lock_inv_ext; [by apply upd_ne| | | |exact Hl]; intros h'; cbn; rewrite /upd;
        case_decide; subst; [set_solver|done|intuition congruence..]. }
  destruct Hl as [H1 H2 H3]. assert (owns m h l) as Hown by (by right).
  split; cbn; rewrite ?upd_eq; cbn.
  - rewrite H1. split; intros _; exists h; [left; cbn; rewrite upd_eq; set_solver|done].
  - intros h'. rewrite /upd. case_decide as Hd; [subst; split; [set_solver|done]|].
    split; [by intros [= ->]|]. intros [Hin _]. destruct Hd. apply H3; [by left|done].
  - assert (∀ h', owns (set_pc h Idle (set_held h ({[l]} ∪ held m h)
        (set_lock l (mk_spinlock (locked (locks m l)) (Some h)) m))) h' l → h' = h) as Ho.
    { intros h' Hh. destruct (decide (h' = h)) as [|Hd]; [done|]. apply H3; [|done].
      rewrite /owns /= !upd_ne // in Hh. }
    intros h1 h2 ->%Ho ->%Ho. done.
Qed.

Lemma lock_inv_clearcpu l' :
  pcs m h = Rel1 l →
  lock_inv (set_pc h (Rel2 l) (set_lock l (mk_spinlock (locked (locks m l)) None) m)) l'.
Proof using Hinv.
  intros Hp. pose proof (proj2 Hinv l') as Hl. destruct (decide (l' = l)) as [->|Hne].
  2:{ eapply lock_inv_ext; [by apply upd_ne|done|..|exact Hl]; intros h'; cbn; rewrite /upd;
        case_decide; subst; intuition congruence. }
  pose proof (hi_rel _ _ (proj1 Hinv h) l (or_introl Hp)) as Hin.
  destruct Hl as [H1 H2 H3].
  assert (∀ h', owns (set_pc h (Rel2 l) (set_lock l (mk_spinlock (locked (locks m l)) None) m)) h' l ↔ owns m h' l) as Eo.
  { intros h'. rewrite /owns /= /upd. case_decide; [subst|done]. intuition congruence. }
  split; cbn; rewrite ?upd_eq; cbn.
  - rewrite H1. by split; intros [h' ?]; exists h'; apply Eo.
  - intros h'. split; [done|]. rewrite /upd. case_decide as Hd; [subst; intuition congruence|].
    intros [Hin' _]. destruct Hd. apply H3; by left.
  - intros h1 h2. rewrite !Eo. apply H3.
Qed.

Lemma lock_inv_unlock l' :
  pcs m h = Rel2 l →
  lock_inv (set_pc h (Rel3 l) (set_held h (held m h ∖ {[l]})
        (set_lock l (mk_spinlock false (lcpu (locks m l))) m))) l'.
Proof using Hinv.
  intros Hp. pose proof (proj2 Hinv l') as Hl. destruct (decide (l' = l)) as [->|Hne].
  2:{ eapply lock_inv_ext; [by apply upd_ne| | | |exact Hl]; intros h'; cbn; rewrite /upd;
        case_decide; subst; [set_solver|done|intuition congruence..]. }
  pose proof (hi_rel _ _ (proj1 Hinv h) l (or_intror Hp)) as Hin.
  destruct Hl as [H1 H2 H3].
  assert (∀ h', ¬ owns (set_pc h (Rel3 l) (set_held h (held m h ∖ {[l]})
        (set_lock l (mk_spinlock false (lcpu (locks m l))) m))) h' l) as Hno.
  { intros h' Ho. destruct (decide (h' = h)) as [->|Hd].
    - destruct Ho as [Ho|Ho]; cbn in Ho; rewrite upd_eq in Ho; set_solver.
    - apply Hd, H3; [|by left]. destruct Ho as [Ho|Ho]; cbn in Ho; rewrite upd_ne // in Ho; [by left|by right]. }
  split; cbn; rewrite ?upd_eq; cbn.
  - split; [done|]. intros [h' Ho]. by destruct (Hno h').
  - intros h'. rewrite H2 /upd. case_decide as Hd; [subst; set_solver|].
    split; [|done]. intros [? _]. split; [done|]. intros Hr. destruct Hd. apply H3; by left.
  - intros h1 h2 Ho. by destruct (Hno h1).
Qed.
End lock_steps.

(** Preservation for the hart side. *)
Lemma hart_inv_other m m' h' :
  harts m' h' = harts m h' → pcs m' h' = pcs m h' → held m' h' = held m h' → pushes m' h' = pushes m h' →
  hart_inv m h' → hart_inv m' h'.
Proof. intros E1 E2 E3 E4 []. split; rewrite ?E1 ?E2 ?E3 ?E4 //. Qed.

(** A step to a point of the code that needs neither [hi_acq] nor [hi_rel]. *)
Lemma hart_inv_plain m h :
  noff (harts m h) = Z.of_nat (size (held m h)) + pending (pcs m h) + pushes m h →
  (0 < noff (harts m h) → sie (harts m h) = false) → 0 ≤ pushes m h →
  match pcs m h with Acq2 _ | Acq3 _ | Rel1 _ | Rel2 _ => False | _ => True end →
  hart_inv m h.
Proof.
  intros H1 H2 H3 H4. split; try done; destruct (pcs m h); try done; cbn in *; try lia; intros l' [?|?]; done.
Qed.

Lemma pend_nonneg p : 0 ≤ pending p.
Proof. destruct p; cbn; lia. Qed.

Lemma on_hart_push m h p :
  on_hart h push_off p m =
  set_pc h p (set_hart h (mk_hart (noff (harts m h) + 1)
    (if noff (harts m h) =? 0 then sie (harts m h) else intena (harts m h)) false) m).
Proof. by rewrite /on_hart push_off_run. Qed.

Lemma on_hart_pop m h p :
  sie (harts m h) = false → 1 ≤ noff (harts m h) →
  on_hart h pop_off p m =
  set_pc h p (set_hart h (mk_hart (noff (harts m h) - 1) (intena (harts m h))
    ((noff (harts m h) - 1 =? 0) && intena (harts m h))) m).
Proof. intros. by rewrite /on_hart pop_off_run. Qed.

Lemma hart_step_other m h h' : h' ≠ h → hart_inv m h' → hart_inv (hart_step h m) h'.
Proof.
  intros Hne Hi. rewrite /hart_step. destruct (pcs m h); try done.
  all: rewrite /on_hart; repeat case_match; try done.
  all: eapply hart_inv_other; [..|exact Hi]; cbn; rewrite ?upd_ne //.
Qed.

Lemma hart_step_hart m h : mach_inv m → hart_inv (hart_step h m) h.
Proof.
  intros [Hh Hl]. destruct (Hh h) as [Hn Hi Hp Ha Hr]. rewrite /hart_step.
  destruct (pcs m h) as [|l|l|l|l|l|l|l|l|l|l|e] eqn:Epc; cbn [pending] in Hn; [by split; rewrite ?Epc|..].
  - (* push_off *)
    rewrite on_hart_push. apply hart_inv_plain; cbn; rewrite ?upd_eq; cbn; try done; lia.
  - destruct (locked (locks m l)) eqn:El.
    + apply hart_inv_plain; cbn; rewrite ?upd_eq; cbn; done || lia.
    + split; cbn; rewrite ?upd_eq; cbn; try done; try lia; [|naive_solver].
      intros l' [[= <-]|?] Hin; [|done].
      assert (locked (locks m l) = true); [|congruence]. apply (li_locked _ _ (Hl l)). exists h. by left.
  - case_bool_decide as Hc.
    + split; cbn; rewrite ?upd_eq; cbn; try done; try lia; intros l' [?|?]; done.
    + split; cbn; rewrite ?upd_eq; cbn; try done; try lia; [|naive_solver].
      intros l' [[= <-]|?] Hin; [|done]. apply Hc, (li_cpu _ _ (Hl l)). split; [done|]. rewrite Epc. discriminate.
  - destruct (locked (locks m l)) eqn:El; [by split; rewrite ?Epc|].
    split; cbn; rewrite ?upd_eq; cbn; try done; try lia; [|naive_solver].
    intros l' [?|[= <-]]; [done|]. apply Ha. by left.
  - (* the end of acquire *)
    apply hart_inv_plain; cbn; rewrite ?upd_eq; cbn; try done.
    rewrite size_union; [rewrite size_singleton; lia|]. pose proof (Ha l (or_intror eq_refl)). set_solver.
  - destruct (locked (locks m l)).
    + apply hart_inv_plain; cbn; rewrite ?upd_eq; cbn; done || lia.
    + split; cbn; rewrite ?upd_eq; cbn; try done; try lia; intros l' [?|?]; done.
  - case_bool_decide as Hc.
    + split; cbn; rewrite ?upd_eq; cbn; try done; try lia; intros l' [E|E]; try discriminate E.
      injection E as <-. by apply (li_cpu _ _ (Hl l)).
    + split; cbn; rewrite ?upd_eq; cbn; try done; try lia; intros l' [?|?]; done.
  - split; cbn; rewrite ?upd_eq; cbn; try done; try lia; [naive_solver|].
    intros l' [?|[= <-]]; [done|]. apply Hr. by left.
  - (* the store of lk->locked *)
    pose proof (Hr l (or_intror eq_refl)) as Hin.
    apply hart_inv_plain; cbn; rewrite ?upd_eq; cbn; try done.
    assert (size (held m h ∖ {[l]}) = (size (held m h) - 1)%nat) as ->.
    { rewrite size_difference; [by rewrite size_singleton|set_solver]. }
    assert (size (held m h) ≠ 0%nat) by (intros E%size_empty_inv; set_solver). lia.
  - rewrite on_hart_pop; [|apply Hi; lia|lia].
    apply hart_inv_plain; cbn; rewrite ?upd_eq; cbn; try done; [lia|].
    intros ?. destruct (Z.eqb_spec (noff (harts m h) - 1) 0); [lia|done].
  - by split; rewrite ?Epc.
Qed.

Lemma hart_step_lock m h l' : mach_inv m → lock_inv (hart_step h m) l'.
Proof.
  intros Hinv. pose proof (proj2 Hinv l') as Hl. destruct (proj1 Hinv h) as [Hn Hi Hp _ _].
  assert (∀ p m', lock_inv m l' → plain (pcs m h) → plain p → locks m' = locks m → held m' = held m →
    pcs m' = upd (pcs m) h p → lock_inv m' l') as Hpc by (intros; by eapply lock_inv_pc).
  rewrite /hart_step. destruct (pcs m h) as [|l|l|l|l|l|l|l|l|l|l|e] eqn:Epc; cbn [pending] in Hn; try done.
  - rewrite on_hart_push. by eapply (Hpc (AcqH l)); rewrite ?Epc.
  - case_match; [by eapply (Hpc (Acq1 l)); rewrite ?Epc|by eapply (Hpc (Acq2 l)); rewrite ?Epc].
  - case_match; [by eapply (Hpc (Panicked "acquire")); rewrite ?Epc|by eapply (Hpc (Acq2 l)); rewrite ?Epc].
  - destruct (locked (locks m l)) eqn:El; [done|]. by apply lock_inv_tas.
  - by apply lock_inv_setcpu.
  - case_match; [by eapply (Hpc (Rel0 l)); rewrite ?Epc|by eapply (Hpc (Panicked "release")); rewrite ?Epc].
  - case_match; [by eapply (Hpc (Rel1 l)); rewrite ?Epc|by eapply (Hpc (Panicked "release")); rewrite ?Epc].
  - by apply lock_inv_clearcpu.
  - by apply lock_inv_unlock.
  - rewrite on_hart_pop; [|apply Hi; lia|lia]. by eapply (Hpc Idle); rewrite ?Epc.
Qed.

Lemma boot_inv : mach_inv boot.
Proof.
  split.
  - intros h. apply hart_inv_plain; cbn; done || rewrite size_empty; lia.
  - intros l. split; cbn.
    + split; [done|]. intros (h & [Hh|Hh]); [set_solver|discriminate Hh].
    + intros h. split; [done|]. set_solver.
    + intros h h' [Hh|Hh]; [set_solver|discriminate Hh].
Qed.

(** The steps of the rest of the kernel: one hart moves, no lock changes. *)
Lemma env_step_inv m m' h p :
  mach_inv m → plain (pcs m h) → plain p →
  locks m' = locks m → held m' = held m → pcs m' = upd (pcs m) h p →
  (∀ h', h' ≠ h → harts m' h' = harts m h' ∧ pushes m' h' = pushes m h') →
  hart_inv m' h → mach_inv m'.
Proof.
  intros [Hh Hl] Hp Hp' El Eh Ep Eo Hi. split.
  - intros h'. destruct (decide (h' = h)) as [->|Hne]; [done|]. destruct (Eo h' Hne).
    eapply hart_inv_other; [..|exact (Hh h')]; rewrite ?Eh ?Ep ?upd_ne //.
  - intros l. by eapply lock_inv_pc.
Qed.

Lemma mstep_inv m m' : mach_inv m → mstep m m' → mach_inv m'.
Proof.
  intros Hinv Hs. destruct Hs as [m h|m h l Hp|m h l Hp|m h Hp|m h Hp Hpos|m h b Hp H0].
  - split; [|intros l; by apply hart_step_lock]. intros h'.
    destruct (decide (h' = h)) as [->|]; [by apply hart_step_hart|].
    apply hart_step_other; [done|apply Hinv].
  - apply (env_step_inv m _ h (Acq0 l) Hinv); try done; [rewrite Hp; exact I|].
    destruct (proj1 Hinv h) as [Hn Hi Hps _ _]. rewrite Hp in Hn.
    apply hart_inv_plain; cbn; rewrite ?upd_eq; done.
  - apply (env_step_inv m _ h (RelH l) Hinv); try done; [rewrite Hp; exact I|].
    destruct (proj1 Hinv h) as [Hn Hi Hps _ _]. rewrite Hp in Hn.
    apply hart_inv_plain; cbn; rewrite ?upd_eq; done.
  - destruct (proj1 Hinv h) as [Hn Hi Hps _ _]. rewrite Hp /= in Hn. rewrite on_hart_push.
    apply (env_step_inv m _ h Idle Hinv); try done; [rewrite Hp; exact I|intros; cbn; by rewrite !upd_ne|].
    apply hart_inv_plain; cbn; rewrite ?upd_eq; cbn; done || lia.
  - destruct (proj1 Hinv h) as [Hn Hi Hps _ _]. rewrite Hp /= in Hn.
    rewrite on_hart_pop; [|apply Hi; lia|lia].
    apply (env_step_inv m _ h Idle Hinv); try done; [rewrite Hp; exact I|intros; cbn; by rewrite !upd_ne|].
    apply hart_inv_plain; cbn; rewrite ?upd_eq; cbn; try done; lia.
  - destruct (proj1 Hinv h) as [Hn Hi Hps _ _]. rewrite Hp /= in Hn.
    split; [|intros l; eapply lock_inv_ext; [..|exact (proj2 Hinv l)]; done].
    intros h'. destruct (decide (h' = h)) as [->|].
    + apply hart_inv_plain; cbn; rewrite ?upd_eq ?Hp; cbn; done || lia.
    + eapply hart_inv_other; [..|exact (proj1 Hinv h')]; cbn; rewrite ?upd_ne //.
Qed.

Lemma reachable_inv m : reachable m → mach_inv m.
Proof. induction 1; [apply boot_inv|by eapply mstep_inv]. Qed.

(** ** The lock contract *)

(** C5. Mutual exclusion: in every reachable state of any number of harts
    that call [acquire] and [release] on any locks in any order, and otherwise
    turn interrupts on and off only while no [push_off] is pending, no lock is held by two harts, and a hart that
    holds a lock has interrupts off, with a nesting count at least the
    number of locks it holds.  Between calls, [holding] tells exactly the
    locks the hart holds. *)
Theorem mutual_exclusion m :
  reachable m →
  (∀ l h h', l ∈ held m h → l ∈ held m h' → h = h') ∧
  (∀ l h, l ∈ held m h → locked (locks m l) = true ∧ sie (harts m h) = false) ∧
  (∀ h, Z.of_nat (size (held m h)) ≤ noff (harts m h)) ∧
  (∀ l h, pcs m h = Idle → holding h (locks m l) = true ↔ l ∈ held m h).
Proof.
  intros [Hh Hl]%reachable_inv.
  assert (∀ h, Z.of_nat (size (held m h)) ≤ noff (harts m h)) as Hn.
  { intros h. destruct (Hh h) as [Hn _ Hp _ _]. pose proof (pend_nonneg (pcs m h)).
    destruct (pcs m h); lia. }
  split_and!; [|intros l h Hin; split|done|].
  - intros l h h' H1 H2. apply (li_unique _ _ (Hl l)); by left.
  - apply (li_locked _ _ (Hl l)). exists h. by left.
  - apply (hi_intr _ _ (Hh h)). specialize (Hn h).
    assert (size (held m h) ≠ 0%nat) by (intros E%size_empty_inv; set_solver). lia.
  - intros l h Hp. rewrite /holding andb_true_iff bool_decide_eq_true (li_cpu _ _ (Hl l)) Hp. split.
    + by intros (_ & ? & _).
    + intros Hin. split_and!; [apply (li_locked _ _ (Hl l)); exists h; by left|done|discriminate].
Qed.

(** The unsynchronised test [holding] never misfires: in every reachable
    state, a step of [acquire] or [release] panics only if the hart calls
    [acquire] on a lock it already holds, or [release] on one it does not
    hold; the panics of [pop_off] are never reached. *)
Theorem panics_are_misuse m h e :
  reachable m → (∀ e', pcs m h ≠ Panicked e') → pcs (hart_step h m) h = Panicked e →
  ∃ l, (e = "acquire"%string ∧ pcs m h = Acq1 l ∧ l ∈ held m h) ∨
       (e = "release"%string ∧ (pcs m h = RelH l ∨ pcs m h = Rel0 l) ∧ l ∉ held m h).
Proof.
  intros [Hh Hl]%reachable_inv Hnp. destruct (Hh h) as [Hn Hi Hp _ _]. rewrite /hart_step.
  destruct (pcs m h) as [|l|l|l|l|l|l|l|l|l|l|e'] eqn:Epc; cbn [pending] in Hn; rewrite ?Epc;
    try discriminate; try by destruct (Hnp e').
  - rewrite on_hart_push. cbn. by rewrite upd_eq.
  - case_match; cbn; rewrite upd_eq; discriminate.
  - case_bool_decide as Hc; cbn; rewrite upd_eq; [|discriminate]. intros [= <-]. exists l. left.
    apply (li_cpu _ _ (Hl l)) in Hc as [? _]. done.
  - case_match; [by rewrite Epc|]. cbn. by rewrite upd_eq.
  - cbn. by rewrite upd_eq.
  - destruct (locked (locks m l)) eqn:El; cbn; rewrite upd_eq; [discriminate|]. intros [= <-].
    exists l. right. split_and!; [done|by left|]. intros Hin.
    assert (locked (locks m l) = true); [|congruence]. apply (li_locked _ _ (Hl l)). exists h. by left.
  - case_bool_decide as Hc; cbn; rewrite upd_eq; [discriminate|]. intros [= <-]. exists l. right.
    split_and!; [done|by right|]. intros Hin. apply Hc, (li_cpu _ _ (Hl l)). split; [done|].
    rewrite Epc. discriminate.
  - cbn. by rewrite upd_eq.
  - cbn. by rewrite upd_eq.
  - rewrite on_hart_pop; [|apply Hi; lia|lia]. cbn. by rewrite upd_eq.
Qed.

(** [k] nested calls. *)
Fixpoint repeatM {S} (k : nat) (f : M S unit) : M S unit :=
  match k with O => mret tt | S k' => f;; repeatM k' f end.

Lemma push_n k c :
  0 ≤ noff c →
  repeatM k push_off c = Ret tt (if k is O then c else
    mk_hart (noff c + Z.of_nat k) (if noff c =? 0 then sie c else intena c) false).
Proof.
  revert c. induction k as [|k IH]; intros c Hc; [done|]. cbn [repeatM].
  rewrite (bind_ret _ _ _ _ _ (push_off_run c)) IH; [|cbn; lia]. destruct k as [|k]; [done|].
  cbn [noff intena sie]. destruct (Z.eqb_spec (noff c + 1) 0); [lia|]. do 2 f_equal. lia.
Qed.

Lemma pop_n k c :
  sie c = false → Z.of_nat k ≤ noff c →
  repeatM k pop_off c = Ret tt (if k is O then c else
    mk_hart (noff c - Z.of_nat k) (intena c) ((noff c - Z.of_nat k =? 0) && intena c)).
Proof.
  revert c. induction k as [|k IH]; intros c Hs Hc; [done|]. cbn [repeatM].
  rewrite (bind_ret _ _ _ _ _ (pop_off_run c Hs ltac:(lia))). destruct k as [|k].
  { cbn. done. }
  destruct (Z.eqb_spec (noff c - 1) 0); [lia|]. cbn [andb]. rewrite IH; cbn [noff intena sie]; [|done|lia].
  replace (noff c - 1 - Z.of_nat (S k)) with (noff c - Z.of_nat (S (S k))) by lia. done.
Qed.

(** [push_off] and [pop_off] nest: [k] calls of [push_off] followed by
    [k] calls of [pop_off] return, with the nesting count and the
    interrupt-enable bit exactly as they were, whether interrupts were on or
    off and however deep the nesting already was. *)
Theorem push_pop_nest k c :
  0 ≤ noff c → (0 < noff c → sie c = false) →
  ∃ c', (repeatM k push_off;; repeatM k pop_off) c = Ret tt c' ∧
    noff c' = noff c ∧ sie c' = sie c ∧ (0 < noff c → intena c' = intena c).
Proof.
  intros Hn Hs. rewrite (bind_ret _ _ _ _ _ (push_n k c Hn)).
  destruct k as [|k]; [by exists c|]. rewrite pop_n; cbn [noff intena sie]; [|done|lia].
  eexists. split; [done|]. cbn [noff intena sie]. rewrite Z.add_simpl_r.
  destruct (Z.eqb_spec (noff c) 0) as [E|E]; cbn [andb]; split_and!; try done; try lia.
  symmetry. apply Hs. lia.
Qed.

(** ** Examples *)

(** Hart 0 acquires lock 7 while hart 1 waits for it. *)
Definition demo_run : mach :=
  hart_step 1 (hart_step 1 (hart_step 1 (set_pc 1 (Acq0 7)
    (hart_step 0 (hart_step 0 (hart_step 0 (hart_step 0 (set_pc 0 (Acq0 7) boot)))))))).

Lemma demo_reachable : reachable demo_run.
Proof.
  do 3 (eapply reach_step; [|apply step_hart]). eapply reach_step; [|by apply step_acquire].
  do 4 (eapply reach_step; [|apply step_hart]). eapply reach_step; [|by apply step_acquire].
  apply reach_boot.
Qed.

Lemma mutual_exclusion_witness :
  sie (harts demo_run 0%nat) = false ∧ (7%nat ∈ held demo_run 1%nat → (0 = 1)%nat).
Proof.
  destruct (mutual_exclusion demo_run demo_reachable) as (H1 & H2 & _).
  assert (7%nat ∈ held demo_run 0%nat) as Hin by (vm_compute; reflexivity).
  split; [by apply (H2 7%nat)|by apply (H1 7%nat)].
Defined.

(** Hart 0, holding lock 7, calls [acquire] on it again. *)
Definition demo_again : mach :=
  hart_step 0 (hart_step 0 (set_pc 0 (Acq0 7) demo_run)).

Lemma panics_are_misuse_witness :
  pcs (hart_step 0 demo_again) 0%nat = Panicked "acquire" ∧ 7%nat ∈ held demo_again 0%nat.
Proof.
  assert (reachable demo_again) as Hr.
  { do 2 (eapply reach_step; [|apply step_hart]). eapply reach_step; [|by apply step_acquire].
    exact demo_reachable. }
  assert (pcs (hart_step 0 demo_again) 0%nat = Panicked "acquire") as Hp by (vm_compute; reflexivity).
  assert (pcs demo_again 0%nat = Acq1 7) as Hpc by (vm_compute; reflexivity).
  split; [exact Hp|]. destruct (panics_are_misuse demo_again 0 "acquire" Hr) as (l & Hl); [|exact Hp|].
  - intros e. rewrite Hpc. discriminate.
  - rewrite Hpc in Hl. destruct Hl as [(_ & E & Hin)|(E & _)]; [|discriminate E].
    by injection E as ->.
Defined.

Lemma push_pop_nest_witness :
  ∃ c', (repeatM 3 push_off;; repeatM 3 pop_off) (mk_hart 0 false true) = Ret tt c' ∧ sie c' = true.
Proof.
  destruct (push_pop_nest 3 (mk_hart 0 false true)) as (c' & E & _ & Hs & _); [cbn; lia|cbn; lia|].
  exists c'. split; [exact E|exact Hs].
Defined.
