(* ===== verification/Cache.v ===== *)
(** * The interface of the buffer cache

    What bio.c promises to its clients (log.c and fs.c): an abstract state,
    the transitions its operations make on it, and a class of the caches
    that implement them.  BioInv shows that bio.c is one. *)
From S2P Require Import Prelude Riscv.

(** fs.h *)
Definition BSIZE : Z := 1024.

(** The contents of a block of a map of blocks: zeroes where it has none. *)
Definition blk (d : gmap Z mem) (b : Z) : mem := default ∅ (d !! b).

Lemma blk_insert d b m b' : blk (<[b := m]> d) b' = if decide (b' = b) then m else blk d b'.
Proof. rewrite /blk. case_decide; [subst; by rewrite lookup_insert_eq|by rewrite lookup_insert_ne]. Qed.
Lemma blk_insert_eq d b m : blk (<[b := m]> d) b = m.
Proof. rewrite blk_insert. by case_decide. Qed.
Lemma blk_insert_ne d b m b' : b' ≠ b → blk (<[b := m]> d) b' = blk d b'.
Proof. intros. rewrite blk_insert. by case_decide. Qed.

(** [cview]: the contents of every block; [cdisk]: what is on the disk;
    [chold]: the buffers the running process has locked, with their block
    numbers; [cpin]: the blocks pinned by the log; [cwrites]: the disk
    writes so far. *)
Record cache := mk_cache {
  cview : gmap Z mem;
  cdisk : gmap Z mem;
  chold : gmap Z Z;
  cpin : gset Z;
  cwrites : list (Z * mem);
}.

(** The blocks that occupy a buffer. *)
Definition busy (A : cache) : gset Z := cpin A ∪ map_img (chold A).

(** The transitions. *)
Definition hold_blk (A : cache) (i b : Z) : cache :=
  mk_cache (cview A) (cdisk A) (<[i := b]> (chold A)) (cpin A) (cwrites A).
Definition unhold (A : cache) (i : Z) : cache :=
  mk_cache (cview A) (cdisk A) (delete i (chold A)) (cpin A) (cwrites A).
Definition set_view (A : cache) (b : Z) (m : mem) : cache :=
  mk_cache (<[b := m]> (cview A)) (cdisk A) (chold A) (cpin A) (cwrites A).
Definition write_blk (A : cache) (b : Z) : cache :=
  mk_cache (cview A) (<[b := blk (cview A) b]> (cdisk A)) (chold A) (cpin A)
    (cwrites A ++ [(b, blk (cview A) b)]).
Definition pin (A : cache) (b : Z) : cache :=
  mk_cache (cview A) (cdisk A) (chold A) ({[b]} ∪ cpin A) (cwrites A).
Definition unpin (A : cache) (b : Z) : cache :=
  mk_cache (cview A) (cdisk A) (chold A) (cpin A ∖ {[b]}) (cwrites A).

(** Block [b] is not locked by the running process. *)
Definition not_held (A : cache) (b : Z) : Prop := ∀ i, chold A !! i ≠ Some b.

(** A cache: its operations, what they promise, and the states they promise
    it for.  A buffer is named by a number. *)
Class BlockCache (S : Type) := {
  c_bread : Z → Z → M S Z;
  c_bwrite : Z → M S unit;
  c_brelse : Z → M S unit;
  c_bpin : Z → M S unit;
  c_bunpin : Z → M S unit;
  c_blockno : Z → M S Z;
  c_data : Z → M S mem;
  c_store : Z → (mem → mem) → M S unit;
  c_rel : S → cache → Prop;
  c_clean s A b :
    c_rel s A → b ∉ cpin A → not_held A b → blk (cview A) b = blk (cdisk A) b;
  c_bread_spec s A b :
    c_rel s A → not_held A b → (b ∈ cpin A ∨ Z.of_nat (size (busy A)) < NBUF) →
    ∃ i s', c_bread ROOTDEV b s = Ret i s' ∧ c_rel s' (hold_blk A i b) ∧ chold A !! i = None;
  c_data_spec s A i b :
    c_rel s A → chold A !! i = Some b → c_data i s = Ret (blk (cview A) b) s;
  c_blockno_spec s A i b :
    c_rel s A → chold A !! i = Some b → c_blockno i s = Ret b s;
  c_store_spec s A i b f :
    c_rel s A → chold A !! i = Some b →
    ∃ s', c_store i f s = Ret tt s' ∧ c_rel s' (set_view A b (f (blk (cview A) b)));
  c_bwrite_spec s A i b :
    c_rel s A → chold A !! i = Some b →
    ∃ s', c_bwrite i s = Ret tt s' ∧ c_rel s' (write_blk A b);
  c_bpin_spec s A i b :
    c_rel s A → chold A !! i = Some b → b ∉ cpin A →
    ∃ s', c_bpin i s = Ret tt s' ∧ c_rel s' (pin A b);
  c_bunpin_spec s A i b :
    c_rel s A → chold A !! i = Some b → b ∈ cpin A →
    ∃ s', c_bunpin i s = Ret tt s' ∧ c_rel s' (unpin A b);
  c_brelse_spec s A i b :
    c_rel s A → chold A !! i = Some b → (b ∈ cpin A ∨ blk (cview A) b = blk (cdisk A) b) →
    ∃ s', c_brelse i s = Ret tt s' ∧ c_rel s' (unhold A i);
}.
