(* ===== verification/Bio.v ===== *)
(** * kernel/bio.c: the buffer cache

    The buffers, with the LRU list kept as the code keeps it, in [prev] and
    [next] links around a list head.  The disk behind the cache is a map from
    block numbers to contents: [disk_rw] is the contract of [virtio_disk_rw],
    which Virtio models down to its rings.  The state also records the
    history of disk writes, from which the states a crash can leave are read
    off. *)
From S2P Require Import Prelude Riscv Cache.

(** struct buf (buf.h); [lk_locked] and [lk_pid] are its sleep-lock.  Its
    [disk] flag belongs to the driver. *)
Record buf := mk_buf {
  valid : bool;
  dev : Z;
  blockno : Z;
  lk_locked : bool;
  lk_pid : Z;
  refcnt : Z;
  prev : Z;
  next : Z;
  data : mem;
}.
#[global] Instance buf_inhabited : Inhabited buf := populate (mk_buf false 0 0 false 0 0 0 0 ∅).

(** [bcache.buf[i]] is buffer [i] < NBUF, [&bcache.head] is buffer NBUF. *)
Definition head : Z := NBUF.

Record bio := mk_bio {
  bufs : gmap Z buf;
  dsk : gmap Z mem;
  writes : list (Z * mem);
  pid : Z; (* myproc()->pid *)
}.

Definition set_bufs (f : gmap Z buf → gmap Z buf) (s : bio) : bio :=
  mk_bio (f (bufs s)) (dsk s) (writes s) (pid s).

Definition getb (i : Z) : M bio buf := gets (λ s, bufs s !!! i).
Definition updb (i : Z) (f : buf → buf) : M bio unit :=
  modify (set_bufs (λ m, <[i := f (m !!! i)]> m)).

Definition with_valid v b := mk_buf v (dev b) (blockno b) (lk_locked b) (lk_pid b) (refcnt b) (prev b) (next b) (data b).
Definition with_key d n b := mk_buf false d n (lk_locked b) (lk_pid b) 1 (prev b) (next b) (data b).
Definition with_lock l p b := mk_buf (valid b) (dev b) (blockno b) l p (refcnt b) (prev b) (next b) (data b).
Definition with_refcnt r b := mk_buf (valid b) (dev b) (blockno b) (lk_locked b) (lk_pid b) r (prev b) (next b) (data b).
Definition with_prev p b := mk_buf (valid b) (dev b) (blockno b) (lk_locked b) (lk_pid b) (refcnt b) p (next b) (data b).
Definition with_next n b := mk_buf (valid b) (dev b) (blockno b) (lk_locked b) (lk_pid b) (refcnt b) (prev b) n (data b).
Definition with_data m b := mk_buf (valid b) (dev b) (blockno b) (lk_locked b) (lk_pid b) (refcnt b) (prev b) (next b) m.

(** sleeplock.c on a buffer's lock *)
Definition acquiresleep (i : Z) : M bio unit :=
  b ← getb i;
  if lk_locked b then sleep ("buffer"%string, i)
  else p ← gets pid; updb i (with_lock true p).
Definition releasesleep (i : Z) : M bio unit := updb i (with_lock false 0).
Definition holdingsleep (i : Z) : M bio bool :=
  b ← getb i; p ← gets pid; mret (lk_locked b && (lk_pid b =? p)).

(** Push [b] on the front of the list. *)
Definition link_front (b : Z) : M bio unit :=
  h ← getb head;
  updb b (with_next (next h));;
  updb b (with_prev head);;
  h ← getb head;
  updb (next h) (with_prev b);;
  updb head (with_next b).

Fixpoint binit_loop (n : nat) (b : Z) : M bio unit :=
  match n with
  | O => mret tt
  | S n' =>
      h ← getb head;
      updb b (with_next (next h));;
      updb b (with_prev head);;
      updb b (with_lock false 0);;
      h ← getb head;
      updb (next h) (with_prev b);;
      updb head (with_next b);;
      binit_loop n' (b + 1)
  end.
Definition binit : M bio unit :=
  updb head (with_prev head);;
  updb head (with_next head);;
  binit_loop (Z.to_nat NBUF) 0.

(** The two scans of [bget]. *)
Fixpoint scan_cached (fuel : nat) (b d n : Z) : M bio (option Z) :=
  match fuel with
  | O => panic "loop bound"
  | S fuel' =>
      if b =? head then mret None
      else
        x ← getb b;
        if (dev x =? d) && (blockno x =? n) then mret (Some b)
        else scan_cached fuel' (next x) d n
  end.
Fixpoint scan_unused (fuel : nat) (b : Z) : M bio (option Z) :=
  match fuel with
  | O => panic "loop bound"
  | S fuel' =>
      if b =? head then mret None
      else
        x ← getb b;
        if refcnt x =? 0 then mret (Some b) else scan_unused fuel' (prev x)
  end.
Definition bget (d n : Z) : M bio Z :=
  h ← getb head;
  r ← scan_cached (S (Z.to_nat NBUF)) (next h) d n;
  match r with
  | Some b =>
      x ← getb b;
      updb b (with_refcnt (u32 (refcnt x + 1)));;
      acquiresleep b;;
      mret b
  | None =>
      h ← getb head;
      r ← scan_unused (S (Z.to_nat NBUF)) (prev h);
      match r with
      | Some b => updb b (with_key d n);; acquiresleep b;; mret b
      | None => panic "bget: no buffers"
      end
  end.

(** The contract of [virtio_disk_rw(b, write)]. *)
Definition disk_rw (i : Z) (write : bool) : M bio unit :=
  b ← getb i;
  if write then
    modify (λ s, mk_bio (bufs s) (<[blockno b := data b]> (dsk s))
                   (writes s ++ [(blockno b, data b)]) (pid s))
  else
    d ← gets dsk;
    updb i (with_data (blk d (blockno b))).

Definition bread (d n : Z) : M bio Z :=
  b ← bget d n;
  x ← getb b;
  (if negb (valid x) then disk_rw b false;; updb b (with_valid true) else mret tt);;
  mret b.

Definition bwrite (b : Z) : M bio unit :=
  h ← holdingsleep b;
  if negb h then panic "bwrite" else disk_rw b true.

Definition brelse (b : Z) : M bio unit :=
  h ← holdingsleep b;
  if negb h then panic "brelse"
  else
    releasesleep b;;
    x ← getb b;
    updb b (with_refcnt (u32 (refcnt x - 1)));;
    x ← getb b;
    if refcnt x =? 0 then
      updb (next x) (with_prev (prev x));;
      x ← getb b;
      updb (prev x) (with_next (next x));;
      link_front b
    else mret tt.

Definition bpin (b : Z) : M bio unit :=
  x ← getb b; updb b (with_refcnt (u32 (refcnt x + 1))).
Definition bunpin (b : Z) : M bio unit :=
  x ← getb b; updb b (with_refcnt (u32 (refcnt x - 1))).

(** The accesses of the clients to [b->blockno] and [b->data]. *)
Definition bblockno (b : Z) : M bio Z := x ← getb b; mret (blockno x).
Definition bdata (b : Z) : M bio mem := x ← getb b; mret (data x).
Definition bstore (b : Z) (f : mem → mem) : M bio unit := updb b (λ x, with_data (f (data x)) x).

(** The cache at boot: zeroed buffers (.bss) and a disk. *)
Definition bio_boot (d : gmap Z mem) (p : Z) : bio := mk_bio ∅ d [] p.
