(* ===== verification/BioInv.v ===== *)
(** * The buffer cache implements a map of blocks

    The links of the LRU list represent a list of buffers, and the whole
    cache represents an abstract state: the current contents of every block,
    the blocks held by the running process and the blocks that are pinned. *)
From S2P Require Import Prelude Riscv Cache Bio.

(** ** Linked lists *)

Section chain.
Context (nx pv : Z → Z).

(** [x -> l -> y], linked both ways. *)
Fixpoint chain (x : Z) (l : list Z) (y : Z) : Prop :=
  match l with
  | [] => nx x = y ∧ pv y = x
  | z :: l' => nx x = z ∧ pv z = x ∧ chain z l' y
  end.

Lemma chain_app x l1 z l2 y :
  chain x (l1 ++ z :: l2) y ↔ chain x l1 z ∧ chain z l2 y.
Proof.
  revert x. induction l1 as [|w l1 IH]; intros x; cbn; [tauto|]. rewrite IH. tauto.
Qed.

Lemma chain_last x l y : chain x l y → nx (default x (last l)) = y ∧ pv y = default x (last l).
Proof.
  revert x. induction l as [|z l IH]; intros x; [done|]. intros (_ & _ & Hc).
  destruct (IH _ Hc) as [H1 H2]. rewrite last_cons. by destruct (last l).
Qed.

Lemma chain_first x l y : chain x l y → nx x = default y (hd_error l) ∧ pv (default y (hd_error l)) = x.
Proof. destruct l; cbn; tauto. Qed.
End chain.

(** The end of a chain redirected from [y] to [y']. *)
Lemma chain_relink nx pv nx' pv' x l y y' :
  chain nx pv x l y → NoDup (x :: l) →
  (∀ z, z ∈ x :: l → z ≠ default x (last l) → nx' z = nx z) → nx' (default x (last l)) = y' →
  (∀ z, z ∈ l → pv' z = pv z) → pv' y' = default x (last l) →
  chain nx' pv' x l y'.
Proof.
  revert x. induction l as [|z l IH]; intros x Hc Hnd Hn Hl Hp Hy; [done|].
  destruct Hc as (H1 & H2 & Hc). apply NoDup_cons in Hnd as [Hnin Hnd].
  assert (default x (last (z :: l)) = default z (last l)) as El by (rewrite last_cons; by destruct (last l)).
  rewrite El in Hn, Hl, Hy. split_and!.
  - rewrite Hn; [done|by left|]. intros ->. apply Hnin.
    destruct (last l) as [w|] eqn:E; cbn; [|by left]. right. by apply last_Some_elem_of in E.
  - rewrite Hp; [done|by left].
  - apply IH; try done; intros w Hw; [intros Hne; apply Hn; [by right|done]|apply Hp; by right].
Qed.

(** The same chain under links that agree on it. *)
Lemma chain_ext nx pv nx' pv' x l y :
  chain nx pv x l y → (∀ z, z ∈ x :: l → nx' z = nx z) → (∀ z, z ∈ l → pv' z = pv z) → pv' y = pv y →
  chain nx' pv' x l y.
Proof.
  revert x. induction l as [|z l IH]; intros x; cbn [chain].
  - intros [E1 E2] Hn Hp Hy. split; [rewrite Hn //; by left|by rewrite Hy].
  - intros (E1 & E2 & Hc) Hn Hp Hy. split_and!.
    + rewrite Hn //. by left.
    + rewrite Hp //. by left.
    + apply IH; try done; intros w Hw; [apply Hn|apply Hp]; by right.
Qed.

(** Linking [b] in after the list head. *)
Lemma chain_push nx pv nx' pv' h l b :
  chain nx pv h l h → NoDup (h :: l) → b ∉ h :: l →
  (∀ z, nx' z = if decide (z = h) then b else if decide (z = b) then nx h else nx z) →
  (∀ z, pv' z = if decide (z = nx h) then b else if decide (z = b) then h else pv z) →
  chain nx' pv' h (b :: l) h.
Proof.
  intros Hc Hnd Hb Hn Hp. apply not_elem_of_cons in Hb as [Hbh Hbl].
  apply NoDup_cons in Hnd as [Hh Hnd].
  assert (nx' h = b ∧ nx' b = nx h) as [E1 E2].
  { rewrite !Hn. by rewrite decide_True // decide_False // decide_True. }
  assert (nx h ≠ b) as Hne.
  { destruct l as [|z l]; cbn in Hc; destruct Hc as (-> & _); [done|set_solver]. }
  assert (pv' b = h) as E3 by (rewrite Hp decide_False // decide_True //).
  cbn [chain]. split_and!; [done..|]. destruct l as [|z l]; cbn [chain] in Hc |- *.
  - destruct Hc as [E _]. split; [by rewrite E2|]. rewrite Hp E. by rewrite decide_True.
  - destruct Hc as (E & _ & Hc). apply NoDup_cons in Hnd as [Hz _]. split_and!.
    + by rewrite E2.
    + rewrite Hp E. by rewrite decide_True.
    + eapply chain_ext; [exact Hc|..].
      * intros w Hw. rewrite Hn !decide_False //; set_solver.
      * intros w Hw. rewrite Hp E !decide_False //; set_solver.
      * rewrite Hp E !decide_False //; set_solver.
Qed.

(** Unlinking [b]. *)
Lemma chain_unlink nx pv nx' pv' h l1 b l2 :
  chain nx pv h (l1 ++ b :: l2) h → NoDup (h :: l1 ++ b :: l2) →
  (∀ z, nx' z = if decide (z = pv b) then nx b else nx z) →
  (∀ z, pv' z = if decide (z = nx b) then pv b else pv z) →
  chain nx' pv' h (l1 ++ l2) h.
Proof.
  intros [Hc1 Hc2]%chain_app Hnd Hn Hp.
  destruct (chain_last _ _ _ _ _ Hc1) as [_ Epv]. destruct (chain_first _ _ _ _ _ Hc2) as [Enx _].
  assert (NoDup (h :: l1)) as Hnd1.
  { apply (sublist_NoDup _ (h :: l1 ++ b :: l2)); [done|]. apply sublist_skip, sublist_inserts_r. done. }
  assert (pv b ∈ h :: l1) as Hpin.
  { rewrite Epv. destruct (last l1) as [w|] eqn:E; cbn; [|by left]. right. by apply last_Some_elem_of. }
  rewrite NoDup_cons NoDup_app NoDup_cons in Hnd. destruct Hnd as (Hh & _ & Hdis & Hb & Hnd2).
  assert (∀ y', nx b = y' → (∀ z, z ∈ l1 → z ≠ y') → chain nx' pv' h l1 y') as Hrel.
  { intros y' Ey Hy. eapply chain_relink; [exact Hc1|done|..].
    - intros z _ Hz. rewrite Hn decide_False //. by rewrite Epv.
    - rewrite Hn Epv decide_True //.
    - intros z Hz. rewrite Hp decide_False //. rewrite Ey. by apply Hy.
    - rewrite Hp Ey decide_True //. }
  destruct l2 as [|w l2]; cbn [hd_error default from_option id] in Enx.
  - rewrite app_nil_r. apply Hrel; [done|]. intros z Hz ->. set_solver.
  - apply NoDup_cons in Hnd2 as [Hw _]. apply chain_app. split.
    + apply Hrel; [done|]. intros z Hz ->. set_solver.
    + destruct Hc2 as (_ & _ & Hc2). eapply chain_ext; [exact Hc2|..].
      * intros z Hz. rewrite Hn decide_False //. intros ->. set_solver.
      * intros z Hz. rewrite Hp decide_False // Enx. set_solver.
      * rewrite Hp decide_False // Enx. set_solver.
Qed.

Lemma chain_rev nx pv x l y : chain nx pv x l y → chain pv nx y (rev l) x.
Proof.
  revert x. induction l as [|z l IH]; intros x; cbn [chain rev].
  - intros [E1 E2]. split; done.
  - intros (E1 & E2 & Hc). apply chain_app. split; [by apply IH|]. cbn. split; done.
Qed.

(** ** The abstract state of the cache *)

Definition bnext (m : gmap Z buf) (i : Z) : Z := next (m !!! i).
Definition bprev (m : gmap Z buf) (i : Z) : Z := prev (m !!! i).

(** The LRU list, most recently used first. *)
Definition ring (m : gmap Z buf) (l : list Z) : Prop :=
  chain (bnext m) (bprev m) head l head ∧ NoDup (head :: l) ∧ ∀ i, i ∈ l ↔ 0 ≤ i < NBUF.

Definition b2z (b : bool) : Z := if b then 1 else 0.

(** The references to block [b] of buffer [i]. *)
Definition refs (A : cache) (i b : Z) : Z :=
  b2z (bool_decide (is_Some (chold A !! i))) + b2z (bool_decide (b ∈ cpin A)).

(** Everything about buffer [i] except its links. *)
Record buf_ok (A : cache) (p i : Z) (x : buf) : Prop := {
  bo_ref : refcnt x = if dev x =? ROOTDEV then refs A i (blockno x) else 0;
  bo_hold : ∀ b, chold A !! i = Some b →
    dev x = ROOTDEV ∧ blockno x = b ∧ lk_locked x = true ∧ lk_pid x = p ∧ valid x = true;
  bo_free : chold A !! i = None → lk_locked x = false;
  bo_data : dev x = ROOTDEV → valid x = true → data x = blk (cview A) (blockno x);
  bo_pin : dev x = ROOTDEV → blockno x ∈ cpin A → valid x = true;
}.

Record cache_ok (A : cache) (p : Z) (m : gmap Z buf) : Prop := {
  co_buf : ∀ i, 0 ≤ i < NBUF → buf_ok A p i (m !!! i);
  co_uniq : ∀ i j, 0 ≤ i < NBUF → 0 ≤ j < NBUF →
    dev (m !!! i) = ROOTDEV → dev (m !!! j) = ROOTDEV → blockno (m !!! i) = blockno (m !!! j) → i = j;
  co_hold : ∀ i, is_Some (chold A !! i) → 0 ≤ i < NBUF;
  co_pin : ∀ b, b ∈ cpin A → ∃ i, 0 ≤ i < NBUF ∧ dev (m !!! i) = ROOTDEV ∧ blockno (m !!! i) = b;
  co_clean : ∀ b, b ∉ cpin A → (∀ i, chold A !! i ≠ Some b) → blk (cview A) b = blk (cdisk A) b;
}.

(** The concrete cache [s] represents [A]. *)
Record bio_rel (s : bio) (A : cache) : Prop := {
  br_ring : ∃ l, ring (bufs s) l;
  br_ok : cache_ok A (pid s) (bufs s);
  br_disk : dsk s = cdisk A;
  br_writes : writes s = cwrites A;
}.

(** ** Lookups after updates *)

Lemma lookup_updb (m : gmap Z buf) i x j :
  <[i := x]> m !!! j = if decide (j = i) then x else m !!! j.
Proof.
  case_decide as Hd; [subst; apply lookup_total_insert_eq|by apply lookup_total_insert_ne].
Qed.

(** Buffers that differ in their links only. *)
Definition same_core (x y : buf) : Prop :=
  valid x = valid y ∧ dev x = dev y ∧ blockno x = blockno y ∧ lk_locked x = lk_locked y ∧
  lk_pid x = lk_pid y ∧ refcnt x = refcnt y ∧ data x = data y.

Lemma same_core_next n x : same_core (with_next n x) x.
Proof. done. Qed.
Lemma same_core_prev n x : same_core (with_prev n x) x.
Proof. done. Qed.
Lemma same_core_trans x y z : same_core x y → same_core y z → same_core x z.
Proof. rewrite /same_core. intuition congruence. Qed.

Lemma cache_ok_core A p m m' :
  (∀ i, 0 ≤ i < NBUF → same_core (m' !!! i) (m !!! i)) → cache_ok A p m → cache_ok A p m'.
Proof.
  intros Hc []. split; try done.
  - intros i Hi. destruct (Hc i Hi) as (E1 & E2 & E3 & E4 & E5 & E6 & E7). destruct (co_buf0 i Hi).
    split; rewrite ?E1 ?E2 ?E3 ?E4 ?E5 ?E6 ?E7 //.
  - intros i j Hi Hj. destruct (Hc i Hi) as (_ & -> & -> & _). destruct (Hc j Hj) as (_ & -> & -> & _).
    by apply co_uniq0.
  - intros b Hb. destruct (co_pin0 b Hb) as (i & Hi & ? & ?). exists i.
    destruct (Hc i Hi) as (_ & -> & -> & _). done.
Qed.

(** Changing anything but the links of one buffer keeps the list. *)
Lemma ring_ext m m' l :
  ring m l → (∀ i, next (m' !!! i) = next (m !!! i)) → (∀ i, prev (m' !!! i) = prev (m !!! i)) →
  ring m' l.
Proof.
  intros (Hc & Hnd & Hl) Hn Hp. split_and!; try done.
  eapply chain_ext; [exact Hc|intros; apply Hn|intros; apply Hp|apply Hp].
Qed.

Lemma ring_insert m l i x :
  ring m l → next x = next (m !!! i) → prev x = prev (m !!! i) → ring (<[i := x]> m) l.
Proof.
  intros Hr Hn Hp. eapply ring_ext; [exact Hr|..]; intros j; rewrite lookup_updb; case_decide; by subst.
Qed.

Lemma head_range : ¬ (0 ≤ head < NBUF).
Proof. rewrite /head. lia. Qed.

(** ** The scans *)

Lemma scan_cached_run fuel s x l d n :
  chain (bnext (bufs s)) (bprev (bufs s)) x l head → head ∉ l → (length l < fuel)%nat →
  scan_cached fuel (bnext (bufs s) x) d n s =
  Ret (find (λ i, (dev (bufs s !!! i) =? d) && (blockno (bufs s !!! i) =? n)) l) s.
Proof.
  revert fuel x. induction l as [|z l IH]; intros fuel x Hc Hh Hf; (destruct fuel as [|fuel]; [cbn in Hf; lia|]).
  - destruct Hc as [E _]. rewrite E. cbn [scan_cached]. by rewrite Z.eqb_refl.
  - destruct Hc as (E & _ & Hc). rewrite E. cbn [scan_cached find].
    apply not_elem_of_cons in Hh as [Hz Hh]. destruct (Z.eqb_spec z head); [congruence|].
    rewrite /getb bind_gets. case_match; [done|]. apply IH; [done|done|cbn in Hf; lia].
Qed.

Lemma scan_unused_run fuel s x l :
  chain (bprev (bufs s)) (bnext (bufs s)) x l head → head ∉ l → (length l < fuel)%nat →
  scan_unused fuel (bprev (bufs s) x) s = Ret (find (λ i, refcnt (bufs s !!! i) =? 0) l) s.
Proof.
  revert fuel x. induction l as [|z l IH]; intros fuel x Hc Hh Hf; (destruct fuel as [|fuel]; [cbn in Hf; lia|]).
  - destruct Hc as [E _]. rewrite E. cbn [scan_unused]. by rewrite Z.eqb_refl.
  - destruct Hc as (E & _ & Hc). rewrite E. cbn [scan_unused find].
    apply not_elem_of_cons in Hh as [Hz Hh]. destruct (Z.eqb_spec z head); [congruence|].
    rewrite /getb bind_gets. case_match; [done|]. apply IH; [done|done|cbn in Hf; lia].
Qed.

Lemma length_ring m l : ring m l → length l = Z.to_nat NBUF.
Proof.
  intros (_ & [_ Hnd]%NoDup_cons & Hl).
  rewrite -(length_seqZ 0 NBUF). apply Permutation_length, NoDup_Permutation; [done|apply NoDup_seqZ|].
  intros i. rewrite Hl elem_of_seqZ. lia.
Qed.

(** ** [bread] *)

(** Some buffer is unreferenced if fewer than NBUF blocks are in use. *)
Lemma unused_exists A p m l :
  cache_ok A p m → ring m l → Z.of_nat (size (busy A)) < NBUF →
  find (λ i, refcnt (m !!! i) =? 0) (rev l) ≠ None.
Proof.
  intros [Hb Hu _ _ _] Hr Hsz Hf. pose proof (length_ring _ _ Hr) as Hlen.
  destruct Hr as (_ & [_ Hnd]%NoDup_cons & Hl).
  assert (∀ i, i ∈ l → dev (m !!! i) = ROOTDEV ∧ blockno (m !!! i) ∈ busy A) as Hin.
  { intros i Hi. pose proof (find_none _ _ Hf i) as Hne. rewrite -in_rev -list_elem_of_In in Hne.
    specialize (Hne Hi). apply Z.eqb_neq in Hne. apply Hl in Hi. destruct (Hb i Hi) as [Href Hh _ _ _].
    rewrite Href in Hne. destruct (Z.eqb_spec (dev (m !!! i)) ROOTDEV) as [Ed|]; [|done]. split; [done|].
    rewrite /busy elem_of_union elem_of_map_img. destruct (decide (blockno (m !!! i) ∈ cpin A)); [by left|].
    right. rewrite /refs (bool_decide_eq_false_2 (_ ∈ cpin A)) // in Hne.
    case_bool_decide as Hs; [|done]. destruct Hs as [b Hbk]. exists i. destruct (Hh b Hbk) as (_ & -> & _). done. }
  assert (NoDup ((λ i, blockno (m !!! i)) <$> l)) as Hnd'.
  { apply NoDup_fmap_2_strong; [|done]. intros i j Hi Hj E. destruct (Hin i Hi), (Hin j Hj).
    apply Hu; try done; by apply Hl. }
  assert ((list_to_set ((λ i, blockno (m !!! i)) <$> l) : gset Z) ⊆ busy A) as Hsub.
  { intros b. rewrite elem_of_list_to_set list_elem_of_fmap. intros (i & -> & Hi). by apply Hin. }
  apply subseteq_size in Hsub. rewrite size_list_to_set // length_fmap Hlen in Hsub. lia.
Qed.

(** Locking buffer [i] for block [b]. *)
Lemma cache_ok_take A p m i b y :
  cache_ok A p m → 0 ≤ i < NBUF → chold A !! i = None →
  (∀ j, 0 ≤ j < NBUF → j ≠ i → dev (m !!! j) = ROOTDEV → blockno (m !!! j) ≠ b) →
  (dev (m !!! i) = ROOTDEV → blockno (m !!! i) ∈ cpin A → blockno (m !!! i) = b) →
  y = mk_buf true ROOTDEV b true p (1 + b2z (bool_decide (b ∈ cpin A))) (prev y) (next y) (blk (cview A) b) →
  cache_ok (hold_blk A i b) p (<[i := y]> m).
Proof.
  intros [Hb Hu Hh Hp Hc] Hi Hni Hother Hpin Hy. split; cbn [hold_blk cview cdisk chold cpin].
  - intros j Hj. destruct (decide (j = i)) as [->|Hd].
    + rewrite lookup_total_insert_eq Hy. split; cbn; rewrite ?lookup_insert_eq; try done.
      * rewrite /refs /= lookup_insert_eq. done.
      * intros b' [= <-]. done.
    + rewrite lookup_total_insert_ne //. destruct (Hb j Hj) as [H1 H2 H3 H4 H5].
      split; cbn; rewrite ?lookup_insert_ne //. rewrite H1. by rewrite /refs /= lookup_insert_ne.
  - intros j k Hj Hk. destruct (decide (j = i)) as [->|Hji], (decide (k = i)) as [->|Hki]; [done|..].
    + rewrite lookup_total_insert_eq lookup_total_insert_ne // Hy /=. intros _ Ed E. destruct (Hother k Hk); done.
    + rewrite lookup_total_insert_eq lookup_total_insert_ne // Hy /=. intros Ed _ E. destruct (Hother j Hj); done.
    + rewrite !lookup_total_insert_ne //. by apply Hu.
  - intros j [b' Hj]. destruct (decide (j = i)) as [->|]; [done|].
    rewrite lookup_insert_ne // in Hj. apply Hh. by eexists.
  - intros b' Hb'. destruct (Hp b' Hb') as (j & Hj & Ed & Eb). exists j. split; [done|].
    destruct (decide (j = i)) as [->|]; [|by rewrite lookup_total_insert_ne].
    rewrite lookup_total_insert_eq Hy /=. split; [done|].
    rewrite -Eb. symmetry. apply Hpin; [done|]. by rewrite Eb.
  - intros b' Hnp Hnh. apply Hc; [done|]. intros j Hj. apply (Hnh j).
    rewrite lookup_insert_ne //. intros <-. congruence.
Qed.

Lemma acquiresleep_run s i y :
  lk_locked y = false →
  acquiresleep i (set_bufs (λ m, <[i := y]> m) s) =
  Ret tt (set_bufs (λ m, <[i := with_lock true (pid s) y]> m) s).
Proof.
  intros Hl. rewrite /acquiresleep /getb bind_gets. cbn. rewrite lookup_total_insert_eq Hl bind_gets.
  rewrite /updb /modify /set_bufs /=. by rewrite lookup_total_insert_eq insert_insert_eq.
Qed.

(** [bget]'s two outcomes. *)
Lemma bget_cached s i b l :
  ring (bufs s) l →
  find (λ i, (dev (bufs s !!! i) =? ROOTDEV) && (blockno (bufs s !!! i) =? b)) l = Some i →
  lk_locked (bufs s !!! i) = false →
  bget ROOTDEV b s = Ret i (set_bufs (λ m, <[i := with_lock true (pid s)
    (with_refcnt (u32 (refcnt (bufs s !!! i) + 1)) (bufs s !!! i))]> m) s).
Proof.
  intros Hr Hf Hl. pose proof (length_ring _ _ Hr) as Hlen. destruct Hr as (Hc & [Hh _]%NoDup_cons & _).
  rewrite /bget /getb bind_gets.
  rewrite (bind_ret _ _ _ _ _ (scan_cached_run (S (Z.to_nat NBUF)) s head l ROOTDEV b Hc Hh ltac:(lia))).
  rewrite Hf bind_gets bind_modify. rewrite (bind_ret _ _ _ _ _ (acquiresleep_run s i _ _)) //.
Qed.

Lemma bget_recycle s i b l :
  ring (bufs s) l →
  find (λ i, (dev (bufs s !!! i) =? ROOTDEV) && (blockno (bufs s !!! i) =? b)) l = None →
  find (λ i, refcnt (bufs s !!! i) =? 0) (rev l) = Some i →
  lk_locked (bufs s !!! i) = false →
  bget ROOTDEV b s = Ret i (set_bufs (λ m, <[i := with_lock true (pid s)
    (with_key ROOTDEV b (bufs s !!! i))]> m) s).
Proof.
  intros Hr Hf Hf' Hl. pose proof (length_ring _ _ Hr) as Hlen. destruct Hr as (Hc & [Hh _]%NoDup_cons & _).
  rewrite /bget /getb bind_gets.
  rewrite (bind_ret _ _ _ _ _ (scan_cached_run (S (Z.to_nat NBUF)) s head l ROOTDEV b Hc Hh ltac:(lia))).
  rewrite Hf bind_gets.
  rewrite (bind_ret _ _ _ _ _ (scan_unused_run (S (Z.to_nat NBUF)) s head (rev l) _ _ _)).
  - rewrite Hf' bind_modify. rewrite (bind_ret _ _ _ _ _ (acquiresleep_run s i _ _)) //.
  - by apply chain_rev.
  - by rewrite list_elem_of_In -in_rev -list_elem_of_In.
  - rewrite length_rev. lia.
Qed.

(** [bread] after [bget]: read the block if the buffer is not valid. *)
Lemma bread_finish s i b y :
  bget ROOTDEV b s = Ret i (set_bufs (λ m, <[i := y]> m) s) →
  bread ROOTDEV b s =
  Ret i (set_bufs (λ m, <[i := mk_buf true (dev y) (blockno y) (lk_locked y) (lk_pid y) (refcnt y) (prev y)
           (next y) (if valid y then data y else blk (dsk s) (blockno y))]> m) s).
Proof.
  intros Hg. rewrite /bread (bind_ret _ _ _ _ _ Hg) /getb bind_gets. cbn [bufs set_bufs].
  rewrite lookup_total_insert_eq. destruct (valid y) eqn:Ev; cbn [negb].
  - rewrite bind_mret. destruct y; cbn in *. by rewrite Ev.
  - rewrite /disk_rw /getb /updb /set_bufs. mrun.
    repeat (rewrite ?lookup_total_insert_eq ?insert_insert_eq; cbn). done.
Qed.

(** [bread] in the abstract: with a buffer to spare, it returns a buffer that
    was not held, locked, with the current contents of the block. *)
Lemma bread_spec s A b :
  bio_rel s A → not_held A b → (b ∈ cpin A ∨ Z.of_nat (size (busy A)) < NBUF) →
  ∃ i s', bread ROOTDEV b s = Ret i s' ∧ bio_rel s' (hold_blk A i b) ∧ chold A !! i = None ∧ pid s' = pid s.
Proof.
  intros [[l Hr] Hok Hd Hw] Hnh Hcap. pose proof Hr as (_ & _ & Hl).
  pose proof Hok as [Hb Hu Hh Hp Hcl].
  destruct (find (λ i, (dev (bufs s !!! i) =? ROOTDEV) && (blockno (bufs s !!! i) =? b)) l) as [i|] eqn:Hf.
  - (* cached *)
    pose proof (find_some _ _ Hf) as [Hi [Ed%Z.eqb_eq Eb%Z.eqb_eq]%andb_true_iff].
    apply list_elem_of_In, Hl in Hi. destruct (Hb i Hi) as [Href Hhold Hfree Hdata Hpin].
    assert (chold A !! i = None) as Hni.
    { destruct (chold A !! i) as [b'|] eqn:E; [|done]. destruct (Hhold b' eq_refl) as (_ & Eb' & _).
      destruct (Hnh i). rewrite E. congruence. }
    rewrite Ed Z.eqb_refl /refs Hni Eb in Href.
    exists i. eexists. split; [by eapply bread_finish, bget_cached; [|exact Hf|apply Hfree]|].
    split_and!; [|done|done]. cbn [with_lock with_refcnt valid dev blockno lk_locked lk_pid refcnt prev next data].
    split; [exists l; by apply ring_insert| |done|done]. cbn [bufs set_bufs pid].
    apply cache_ok_take; try done.
    + intros j Hj Hji Edj Ebj. apply Hji. apply Hu; congruence.
    + f_equal; [done..| |].
      * rewrite Href u32_small; destruct (bool_decide (b ∈ cpin A)); cbn; lia.
      * destruct (valid (bufs s !!! i)) eqn:Ev; [rewrite Hdata // Eb //|].
        rewrite Eb Hd Hcl //. intros Hbp. rewrite -Eb in Hbp. specialize (Hpin Ed Hbp). congruence.
  - (* recycle the least recently used one *)
    assert (∀ j, 0 ≤ j < NBUF → dev (bufs s !!! j) = ROOTDEV → blockno (bufs s !!! j) ≠ b) as Hnone.
    { intros j Hj Edj Ebj. pose proof (find_none _ _ Hf j) as Hn. rewrite -list_elem_of_In Hl in Hn.
      specialize (Hn Hj). rewrite Edj Ebj !Z.eqb_refl in Hn. discriminate Hn. }
    assert (b ∉ cpin A) as Hnp.
    { intros Hin. destruct (Hp b Hin) as (j & Hj & Edj & Ebj). by destruct (Hnone j). }
    destruct Hcap as [?|Hcap]; [done|].
    destruct (find (λ i, refcnt (bufs s !!! i) =? 0) (rev l)) as [i|] eqn:Hf'.
    2:{ by apply (unused_exists _ _ _ _ Hok Hr) in Hf'. }
    pose proof (find_some _ _ Hf') as [Hi E0%Z.eqb_eq]. rewrite -in_rev -list_elem_of_In Hl in Hi.
    destruct (Hb i Hi) as [Href Hhold Hfree Hdata Hpin].
    assert (chold A !! i = None ∧ (dev (bufs s !!! i) = ROOTDEV → blockno (bufs s !!! i) ∉ cpin A)) as [Hni Hnpi].
    { rewrite E0 in Href. split.
      - destruct (chold A !! i) as [b'|] eqn:E; [|done]. destruct (Hhold b' eq_refl) as (Ed & _).
        rewrite Ed Z.eqb_refl /refs E in Href. destruct (bool_decide (_ ∈ cpin A)); discriminate Href.
      - intros Ed Hin. rewrite Ed Z.eqb_refl /refs (bool_decide_eq_true_2 (_ ∈ cpin A)) // in Href.
        destruct (bool_decide (is_Some _)); discriminate Href. }
    exists i. eexists. split; [by eapply bread_finish, bget_recycle; [|exact Hf|exact Hf'|apply Hfree]|].
    split_and!; [|done|done]. cbn [with_lock with_key valid dev blockno lk_locked lk_pid refcnt prev next data].
    split; [exists l; by apply ring_insert| |done|done]. cbn [bufs set_bufs pid].
    apply cache_ok_take; try done.
    + intros j Hj _ Edj. by apply Hnone.
    + intros Edi Hin. by destruct (Hnpi Edi).
    + cbn. rewrite (bool_decide_eq_false_2 (b ∈ cpin A)) //. f_equal. by rewrite Hd Hcl.
Qed.

(** ** The other operations *)

(** A held buffer. *)
Lemma held_buf s A i b :
  bio_rel s A → chold A !! i = Some b →
  0 ≤ i < NBUF ∧ dev (bufs s !!! i) = ROOTDEV ∧ blockno (bufs s !!! i) = b ∧
  lk_locked (bufs s !!! i) = true ∧ lk_pid (bufs s !!! i) = pid s ∧ valid (bufs s !!! i) = true ∧
  data (bufs s !!! i) = blk (cview A) b ∧
  refcnt (bufs s !!! i) = 1 + b2z (bool_decide (b ∈ cpin A)).
Proof.
  intros [_ Hok _ _] Hi. assert (0 ≤ i < NBUF) as Hr by (eapply co_hold; [exact Hok|by eexists]).
  destruct (co_buf _ _ _ Hok i Hr) as [H1 H2 H3 H4 H5]. destruct (H2 b Hi) as (E1 & E2 & E3 & E4 & E5).
  rewrite E1 Z.eqb_refl /refs Hi E2 in H1. specialize (H4 E1 E5). rewrite E2 in H4.
  split; [exact Hr|]. by split_and!.
Qed.

Lemma bdata_spec s A i b :
  bio_rel s A → chold A !! i = Some b → bdata i s = Ret (blk (cview A) b) s.
Proof.
  intros Hrel Hi. destruct (held_buf _ _ _ _ Hrel Hi) as (_ & _ & _ & _ & _ & _ & E & _).
  by rewrite /bdata /getb bind_gets E.
Qed.

Lemma holdingsleep_held s A i b :
  bio_rel s A → chold A !! i = Some b → holdingsleep i s = Ret true s.
Proof.
  intros Hrel Hi. destruct (held_buf _ _ _ _ Hrel Hi) as (_ & _ & _ & E1 & E2 & _).
  by rewrite /holdingsleep /getb !bind_gets E1 E2 Z.eqb_refl.
Qed.

(** Changing the abstract state of buffer [i] only. *)
Lemma cache_ok_upd A A' p m i y :
  cache_ok A p m → 0 ≤ i < NBUF →
  dev y = dev (m !!! i) → blockno y = blockno (m !!! i) →
  buf_ok A' p i y →
  (∀ j, 0 ≤ j < NBUF → j ≠ i → buf_ok A p j (m !!! j) → buf_ok A' p j (m !!! j)) →
  (∀ j, is_Some (chold A' !! j) → is_Some (chold A !! j)) →
  (∀ b, b ∈ cpin A' → b ∈ cpin A ∨ dev y = ROOTDEV ∧ b = blockno y) →
  (∀ b, b ∉ cpin A' → (∀ j, chold A' !! j ≠ Some b) → blk (cview A') b = blk (cdisk A') b) →
  cache_ok A' p (<[i := y]> m).
Proof.
  intros [Hb Hu Hh Hp Hcl] Hi Ed Eb Hy Hother Hhold Hpin Hclean.
  assert (∀ j, dev (<[i := y]> m !!! j) = dev (m !!! j) ∧ blockno (<[i := y]> m !!! j) = blockno (m !!! j)) as Ekey.
  { intros j. rewrite lookup_updb. case_decide; by subst. }
  split.
  - intros j Hj. destruct (decide (j = i)) as [->|Hd]; [by rewrite lookup_total_insert_eq|].
    rewrite lookup_total_insert_ne //. apply Hother; auto.
  - intros j k Hj Hk. destruct (Ekey j) as [-> ->], (Ekey k) as [-> ->]. by apply Hu.
  - intros j Hj. by apply Hh, Hhold.
  - intros b [Hb'|[Edy ->]]%Hpin.
    + destruct (Hp b Hb') as (j & Hj & ? & ?). exists j. destruct (Ekey j) as [-> ->]. done.
    + exists i. destruct (Ekey i) as [-> ->]. by rewrite -Ed -Eb.
  - done.
Qed.

Lemma bstore_spec s A i b f :
  bio_rel s A → chold A !! i = Some b →
  ∃ s', bstore i f s = Ret tt s' ∧ bio_rel s' (set_view A b (f (blk (cview A) b))) ∧ pid s' = pid s.
Proof.
  intros Hrel Hi. destruct (held_buf _ _ _ _ Hrel Hi) as (Hr & Ed & Eb & El & Ep & Ev & Edata & Eref).
  destruct Hrel as [[l Hring] Hok Hd Hw]. eexists. split; [done|]. split; [|done].
  split; [exists l; by apply ring_insert| |done|done]. cbn.
  eapply cache_ok_upd; [exact Hok|done|done|done|..]; cbn; try done.
  - split; cbn; rewrite ?Ed ?Eb /refs /= ?Hi //.
    + intros b' [= <-]. done.
    + intros _ _. by rewrite Edata blk_insert decide_True.
  - intros j Hj Hji [H1 H2 H3 H4 H5]. split; cbn; try done.
    intros Edj Evj. rewrite H4 // blk_insert decide_False //. intros Ebj. apply Hji.
    apply (co_uniq _ _ _ Hok); congruence.
  - intros b' Hb'. by left.
  - intros b' Hnp Hnh. rewrite blk_insert decide_False; [|intros ->; by apply (Hnh i)].
    by apply (co_clean _ _ _ Hok).
Qed.

Lemma bwrite_spec s A i b :
  bio_rel s A → chold A !! i = Some b →
  ∃ s', bwrite i s = Ret tt s' ∧ bio_rel s' (write_blk A b) ∧ pid s' = pid s.
Proof.
  intros Hrel Hi. rewrite /bwrite (bind_ret _ _ _ _ _ (holdingsleep_held _ _ _ _ Hrel Hi)). cbn [negb].
  destruct (held_buf _ _ _ _ Hrel Hi) as (Hr & Ed & Eb & El & Ep & Ev & Edata & Eref).
  destruct Hrel as [Hring Hok Hd Hw]. rewrite /disk_rw /getb bind_gets.
  eexists. split; [done|]. split; [|done]. split; cbn; rewrite ?Eb ?Edata ?Hd ?Hw //.
  destruct Hok as [H1 H2 H3 H4 H5]. split; cbn; try done.
  - intros j Hj. destruct (H1 j Hj). by split.
  - intros b' Hnp Hnh. rewrite blk_insert. destruct (decide (b' = b)) as [->|]; [done|]. by apply H5.
Qed.

Lemma bpin_spec s A i b :
  bio_rel s A → chold A !! i = Some b → b ∉ cpin A →
  ∃ s', bpin i s = Ret tt s' ∧ bio_rel s' (pin A b) ∧ pid s' = pid s.
Proof.
  intros Hrel Hi Hnp. destruct (held_buf _ _ _ _ Hrel Hi) as (Hr & Ed & Eb & El & Ep & Ev & Edata & Eref).
  rewrite bool_decide_eq_false_2 // in Eref.
  destruct Hrel as [[l Hring] Hok Hd Hw]. rewrite /bpin /getb bind_gets.
  eexists. split; [done|]. split; [|done]. split; [exists l; by apply ring_insert| |done|done]. cbn.
  eapply cache_ok_upd; [exact Hok|done|done|done|..]; cbn; try done.
  - split; cbn; rewrite ?Ed ?Eb /refs /= ?Hi //.
    + rewrite Eref. cbn. rewrite bool_decide_eq_true_2; [done|set_solver].
    + intros b' [= <-]. done.
  - intros j Hj Hji [H1 H2 H3 H4 H5]. 
    assert (dev (bufs s !!! j) = ROOTDEV → blockno (bufs s !!! j) ≠ b) as Hne.
    { intros Edj Ebj. apply Hji. apply (co_uniq _ _ _ Hok); congruence. }
    split; cbn; try done.
    + rewrite H1 /refs /=. destruct (Z.eqb_spec (dev (bufs s !!! j)) ROOTDEV) as [Edj|]; [|done].
      do 2 f_equal. apply bool_decide_ext. specialize (Hne Edj). set_solver.
    + intros Edj Hin. apply H5; [done|]. specialize (Hne Edj). set_solver.
  - intros b' [->%elem_of_singleton|?]%elem_of_union; [right; by rewrite Ed Eb|by left].
  - intros b' Hnp' Hnh. apply (co_clean _ _ _ Hok); [set_solver|done].
Qed.

Lemma bunpin_spec s A i b :
  bio_rel s A → chold A !! i = Some b → b ∈ cpin A →
  ∃ s', bunpin i s = Ret tt s' ∧ bio_rel s' (unpin A b) ∧ pid s' = pid s.
Proof.
  intros Hrel Hi Hp. destruct (held_buf _ _ _ _ Hrel Hi) as (Hr & Ed & Eb & El & Ep & Ev & Edata & Eref).
  rewrite bool_decide_eq_true_2 // in Eref.
  destruct Hrel as [[l Hring] Hok Hd Hw]. rewrite /bunpin /getb bind_gets.
  eexists. split; [done|]. split; [|done]. split; [exists l; by apply ring_insert| |done|done]. cbn.
  eapply cache_ok_upd; [exact Hok|done|done|done|..]; cbn; try done.
  - split; cbn; rewrite ?Ed ?Eb /refs /= ?Hi //.
    + rewrite Eref. cbn. rewrite bool_decide_eq_false_2; [done|set_solver].
    + intros b' [= <-]. done.
  - intros j Hj Hji [H1 H2 H3 H4 H5].
    assert (dev (bufs s !!! j) = ROOTDEV → blockno (bufs s !!! j) ≠ b) as Hne.
    { intros Edj Ebj. apply Hji. apply (co_uniq _ _ _ Hok); congruence. }
    split; cbn; try done.
    + rewrite H1 /refs /=. destruct (Z.eqb_spec (dev (bufs s !!! j)) ROOTDEV) as [Edj|]; [|done].
      do 2 f_equal. apply bool_decide_ext. specialize (Hne Edj). set_solver.
    + intros Edj Hin. apply H5; [done|]. set_solver.
  - intros b' Hb'. left. set_solver.
  - intros b' Hnp' Hnh. apply (co_clean _ _ _ Hok); [|done]. intros Hin. apply (Hnh i).
    rewrite Hi. f_equal. set_solver.
Qed.

(** ** Moving a buffer in the list *)

Lemma bnext_prev m k v z : bnext (<[k := with_prev v (m !!! k)]> m) z = bnext m z.
Proof. rewrite /bnext lookup_updb. case_decide; by subst. Qed.
Lemma bprev_prev m k v z :
  bprev (<[k := with_prev v (m !!! k)]> m) z = if decide (z = k) then v else bprev m z.
Proof. rewrite /bprev lookup_updb. by case_decide. Qed.
Lemma bnext_next m k v z :
  bnext (<[k := with_next v (m !!! k)]> m) z = if decide (z = k) then v else bnext m z.
Proof. rewrite /bnext lookup_updb. by case_decide. Qed.
Lemma bprev_next m k v z : bprev (<[k := with_next v (m !!! k)]> m) z = bprev m z.
Proof. rewrite /bprev lookup_updb. case_decide; by subst. Qed.

Lemma same_core_upd (g : buf → buf) (m : gmap Z buf) k j :
  (∀ x, same_core (g x) x) → same_core (<[k := g (m !!! k)]> m !!! j) (m !!! j).
Proof. intros Hg. rewrite lookup_updb. case_decide; [subst; apply Hg|done]. Qed.

Lemma link_front_spec s l b :
  chain (bnext (bufs s)) (bprev (bufs s)) head l head → NoDup (head :: l) → b ∉ head :: l →
  ∃ m', link_front b s = Ret tt (set_bufs (λ _, m') s) ∧
    chain (bnext m') (bprev m') head (b :: l) head ∧ ∀ j, same_core (m' !!! j) (bufs s !!! j).
Proof.
  intros Hc Hnd Hb. pose proof Hb as [Hbh _]%not_elem_of_cons.
  set (m := bufs s) in *. set (f := bnext m head).
  set (m1 := <[b := with_next f (m !!! b)]> m). set (m2 := <[b := with_prev head (m1 !!! b)]> m1).
  assert (bnext m2 head = f) as Ef.
  { rewrite /m2 bnext_prev /m1 bnext_next decide_False //. }
  set (m3 := <[f := with_prev b (m2 !!! f)]> m2). exists (<[head := with_next b (m3 !!! head)]> m3).
  split_and!.
  - rewrite /link_front /getb bind_gets !bind_modify bind_gets bind_modify. cbn [bufs set_bufs].
    rewrite -/m -/f -/m1 -/m2 -/(bnext m2 head) Ef -/m3. done.
  - eapply (chain_push (bnext m) (bprev m)); [done..| |]; intros z.
    + rewrite bnext_next. destruct (decide (z = head)); [done|].
      by rewrite /m3 bnext_prev /m2 bnext_prev /m1 bnext_next.
    + rewrite bprev_next /m3 bprev_prev -/f. destruct (decide (z = f)); [done|].
      rewrite /m2 bprev_prev. destruct (decide (z = b)); [done|]. by rewrite /m1 bprev_next.
  - intros j. repeat (eapply same_core_trans; [apply same_core_upd; done|]). done.
Qed.

Lemma unlink_spec s l1 b l2 :
  let x := bufs s !!! b in
  chain (bnext (bufs s)) (bprev (bufs s)) head (l1 ++ b :: l2) head → NoDup (head :: l1 ++ b :: l2) →
  ∃ m', (updb (next x) (with_prev (prev x));; x' ← getb b; updb (prev x') (with_next (next x'))) s =
      Ret tt (set_bufs (λ _, m') s) ∧
    chain (bnext m') (bprev m') head (l1 ++ l2) head ∧ ∀ j, same_core (m' !!! j) (bufs s !!! j).
Proof.
  intros x Hc Hnd. set (m := bufs s) in *. set (m1 := <[next x := with_prev (prev x) (m !!! next x)]> m).
  assert (next x ≠ b) as Hne.
  { pose proof Hc as [_ Hc2]%chain_app. destruct (chain_first _ _ _ _ _ Hc2) as [E _].
    change (next x) with (bnext m b). rewrite E. destruct l2 as [|w l2]; cbn.
    - intros <-. apply NoDup_cons in Hnd as [Hh _]. apply Hh, elem_of_app. right. by left.
    - intros ->. apply NoDup_cons in Hnd as [_ (_ & _ & [Hw _]%NoDup_cons)%NoDup_app]. apply Hw. by left. }
  assert (m1 !!! b = x) as Ex by (rewrite /m1 lookup_total_insert_ne //).
  exists (<[prev x := with_next (next x) (m1 !!! prev x)]> m1). split_and!.
  - rewrite bind_modify /getb bind_gets. cbn [bufs set_bufs]. rewrite -/m -/m1 Ex. done.
  - eapply (chain_unlink (bnext m) (bprev m)); [done..| |]; intros z.
    + rewrite bnext_next /m1 bnext_prev. done.
    + rewrite bprev_next /m1 bprev_prev. done.
  - intros j. repeat (eapply same_core_trans; [apply same_core_upd; done|]). done.
Qed.

(** [brelse]: the block may leave the cache, so its contents must be on the
    disk unless it is pinned. *)
Lemma brelse_spec s A i b :
  bio_rel s A → chold A !! i = Some b → (b ∈ cpin A ∨ blk (cview A) b = blk (cdisk A) b) →
  ∃ s', brelse i s = Ret tt s' ∧ bio_rel s' (unhold A i) ∧ pid s' = pid s.
Proof.
  intros Hrel Hi Hcl. rewrite /brelse (bind_ret _ _ _ _ _ (holdingsleep_held _ _ _ _ Hrel Hi)). cbn [negb].
  destruct (held_buf _ _ _ _ Hrel Hi) as (Hr & Ed & Eb & El & Ep & Ev & Edata & Eref).
  destruct Hrel as [[l Hring] Hok Hd Hw]. set (x := bufs s !!! i) in *.
  set (r := b2z (bool_decide (b ∈ cpin A))) in *.
  assert (u32 (refcnt x - 1) = r) as Er.
  { rewrite Eref /r u32_small; destruct (bool_decide _); cbn; lia. }
  set (y := with_refcnt r (with_lock false 0 x)). set (m1 := <[i := y]> (bufs s)).
  assert (ring m1 l) as Hring1 by (by apply ring_insert).
  assert (cache_ok (unhold A i) (pid s) m1) as Hok1.
  { eapply cache_ok_upd; [exact Hok|done|done|done|..]; cbn; try done.
    - split; cbn; rewrite ?Ed ?Eb /refs /= ?lookup_delete_eq //.
    - intros j Hj Hji [H1 H2 H3 H4 H5]. split; cbn; rewrite ?lookup_delete_ne //.
      rewrite H1. by rewrite /refs /= lookup_delete_ne.
    - intros j Hj. rewrite lookup_delete_is_Some in Hj. tauto.
    - by left.
    - intros b' Hnp Hnh. destruct (decide (b' = b)) as [->|]; [by destruct Hcl|].
      apply (co_clean _ _ _ Hok); [done|]. intros j Hj. apply (Hnh j).
      rewrite lookup_delete_ne //. intros <-. congruence. }
  set (s1 := mk_bio m1 (dsk s) (writes s) (pid s)).
  assert (bufs s1 !!! i = y) as Ey by (apply lookup_total_insert_eq).
  rewrite /releasesleep /updb bind_modify /getb bind_gets bind_modify bind_gets. cbn [bufs set_bufs].
  rewrite !lookup_total_insert_eq. change (bufs s !!! i) with x. cbn [with_lock refcnt]. rewrite Er.
  assert (set_bufs (λ m, <[i := with_refcnt r (m !!! i)]> m)
    (set_bufs (λ m, <[i := with_lock false 0 (m !!! i)]> m) s) = s1) as ->.
  { rewrite /set_bufs /s1 /m1 /=. by rewrite lookup_total_insert_eq insert_insert_eq. }
  change (with_refcnt r (with_lock false 0 x)) with y. change (refcnt y) with r.
  destruct (Z.eqb_spec r 0) as [E0|].
  2:{ eexists. split; [done|]. split; [|done]. split; [by exists l|done|done|done]. }
  destruct Hring1 as (Hc & Hnd & Hl). assert (i ∈ l) as Hil by (by apply Hl).
  apply list_elem_of_split in Hil as (l1 & l2 & ->).
  destruct (unlink_spec s1 l1 i l2 Hc Hnd) as (m2 & E2 & Hc2 & Hs2). rewrite Ey in E2.
  assert (NoDup (head :: l1 ++ l2) ∧ i ∉ head :: l1 ++ l2) as [Hnd2 Hni2].
  { rewrite -Permutation_middle in Hnd. rewrite !NoDup_cons in Hnd |- *. clear -Hnd. set_solver. }
  destruct (link_front_spec (set_bufs (λ _, m2) s1) (l1 ++ l2) i Hc2 Hnd2 Hni2) as (m3 & E3 & Hc3 & Hs3).
  exists (set_bufs (λ _, m3) (set_bufs (λ _, m2) s1)). split; [|split; [|done]].
  - rewrite -E3 -(bind_ret _ (λ _, link_front i) _ _ _ E2) bind_assoc. done.
  - split; [|eapply cache_ok_core; [|exact Hok1]|done|done].
    + exists (i :: l1 ++ l2). split_and!; [done| |].
      * rewrite NoDup_cons in Hnd2. rewrite !NoDup_cons. clear -Hnd2 Hni2. set_solver.
      * intros j. rewrite -Hl !(elem_of_cons, elem_of_app). tauto.
    + intros j _. eapply same_core_trans; [apply Hs3|apply Hs2].
Qed.

(** ** [binit] *)

Definition zero_buf : buf := inhabitant.

Lemma binit_loop_S n b s :
  b ≠ head → binit_loop (S n) b s = ((updb b (with_lock false 0);; link_front b);; binit_loop n (b + 1)) s.
Proof.
  intros Hb. cbn [binit_loop]. rewrite /link_front /getb /updb /set_bufs. mrun. f_equal. f_equal.
  rewrite !lookup_total_insert_eq !(insert_insert_eq _ b) !(lookup_total_insert_ne _ b head) //.
Qed.

Lemma binit_loop_spec n b s l :
  0 ≤ b → b + Z.of_nat n = NBUF →
  chain (bnext (bufs s)) (bprev (bufs s)) head l head → NoDup (head :: l) → (∀ i, i ∈ l ↔ 0 ≤ i < b) →
  (∀ j, same_core (bufs s !!! j) zero_buf) →
  ∃ m' l', binit_loop n b s = Ret tt (set_bufs (λ _, m') s) ∧ ring m' l' ∧
    ∀ j, same_core (m' !!! j) zero_buf.
Proof.
  revert b s l. induction n as [|n IH]; intros b s l Hb Hn Hc Hnd Hl Hz.
  { exists (bufs s), l. split; [by destruct s|]. split; [|done]. split; [done|]. split; [done|].
    intros i. rewrite Hl. lia. }
  assert (b ≠ head) as Hbh by (rewrite /head; lia).
  assert (b ∉ head :: l) as Hbl by (apply not_elem_of_cons; split; [done|rewrite Hl; lia]).
  rewrite binit_loop_S // bind_assoc. rewrite bind_modify.
  set (s1 := set_bufs _ s).
  assert (∀ j, same_core (bufs s1 !!! j) zero_buf) as Hz1.
  { intros j. cbn. rewrite lookup_updb. destruct (decide (j = b)) as [->|]; [|done].
    destruct (Hz b) as (? & ? & ? & ? & ? & ? & ?). done. }
  assert (chain (bnext (bufs s1)) (bprev (bufs s1)) head l head) as Hc1.
  { eapply chain_ext; [exact Hc|..]; intros; rewrite /bnext /bprev /= lookup_updb;
      case_decide; by subst. }
  destruct (link_front_spec s1 l b Hc1 Hnd Hbl) as (m2 & E2 & Hc2 & Hs2).
  rewrite (bind_ret _ _ _ _ _ E2).
  destruct (IH (b + 1) (set_bufs (λ _, m2) s1) (b :: l)) as (m' & l' & E' & Hr & Hz'); try done; try lia.
  - rewrite !NoDup_cons in Hnd |- *. set_solver.
  - intros i. rewrite elem_of_cons Hl. lia.
  - intros j. eapply same_core_trans; [apply Hs2|apply Hz1].
  - exists m', l'. by rewrite E'.
Qed.

Lemma binit_spec d p :
  ∃ s', binit (bio_boot d p) = Ret tt s' ∧ bio_rel s' (mk_cache d d ∅ ∅ []) ∧ pid s' = p.
Proof.
  rewrite /binit /updb !bind_modify. set (s0 := set_bufs _ _).
  assert (∀ j, bufs s0 !!! j = if decide (j = head) then with_next head (with_prev head zero_buf) else zero_buf) as Hz.
  { intros j. cbn. rewrite insert_insert_eq lookup_updb lookup_total_insert_eq. case_decide; [|done].
    f_equal. }
  destruct (binit_loop_spec (Z.to_nat NBUF) 0 s0 []) as (m' & l' & E & Hr & Hz'); [lia|reflexivity| | | | |].
  - split; rewrite /bnext /bprev Hz; reflexivity.
  - apply NoDup_singleton.
  - intros i. rewrite elem_of_nil. lia.
  - intros j. rewrite Hz. destruct (decide (j = head)); done.
  - rewrite E. eexists. split; [done|]. split; [|done]. split; [by exists l'| |done|done].
    split; cbn; try done.
    + intros i Hi. destruct (Hz' i) as (Ev & Ed & Eb & El & Ep & Er & Edata).
      split; cbn.
      * by rewrite Er Ed.
      * intros b Hb. rewrite lookup_empty in Hb. discriminate Hb.
      * by intros _.
      * rewrite Ed. intros E'. discriminate E'.
      * rewrite Ed. intros E'. discriminate E'.
    + intros i j Hi Hj. destruct (Hz' i) as (_ & -> & _). intros E'. discriminate E'.
    + intros i [b Hb]. by rewrite lookup_empty in Hb.
    + intros b Hb. by apply elem_of_empty in Hb.
Qed.

(** ** bio.c implements the interface *)

Lemma bblockno_spec s A i b :
  bio_rel s A → chold A !! i = Some b → bblockno i s = Ret b s.
Proof.
  intros Hrel Hi. destruct (held_buf _ _ _ _ Hrel Hi) as (_ & _ & E & _).
  by rewrite /bblockno /getb bind_gets E.
Qed.

#[global] Program Instance bio_cache : BlockCache bio := {
  c_bread := bread; c_bwrite := bwrite; c_brelse := brelse; c_bpin := bpin; c_bunpin := bunpin;
  c_blockno := bblockno; c_data := bdata; c_store := bstore; c_rel := bio_rel;
}.
Next Obligation. intros s A b [_ Hok _ _]. exact (co_clean _ _ _ Hok b). Qed.
Next Obligation. intros s A b ???. destruct (bread_spec s A b) as (i & s' & ? & ? & ? & _); eauto. Qed.
Next Obligation. exact bdata_spec. Qed.
Next Obligation. exact bblockno_spec. Qed.
Next Obligation. intros s A i b f ??. destruct (bstore_spec s A i b f) as (s' & ? & ? & _); eauto. Qed.
Next Obligation. intros s A i b ??. destruct (bwrite_spec s A i b) as (s' & ? & ? & _); eauto. Qed.
Next Obligation. intros s A i b ???. destruct (bpin_spec s A i b) as (s' & ? & ? & _); eauto. Qed.
Next Obligation. intros s A i b ???. destruct (bunpin_spec s A i b) as (s' & ? & ? & _); eauto. Qed.
Next Obligation. intros s A i b ???. destruct (brelse_spec s A i b) as (s' & ? & ? & _); eauto. Qed.

(** ** The contract of the buffer cache *)

(** The operations a client performs, when it may, and their abstract effect. *)
Inductive cop :=
| OpRead (b : Z) | OpStore (i : Z) (f : mem → mem) | OpWrite (i : Z)
| OpRelse (i : Z) | OpPin (i : Z) | OpUnpin (i : Z).

Definition run_op (o : cop) : M bio Z :=
  match o with
  | OpRead b => bread ROOTDEV b
  | OpStore i f => bstore i f;; mret i
  | OpWrite i => bwrite i;; mret i
  | OpRelse i => brelse i;; mret i
  | OpPin i => bpin i;; mret i
  | OpUnpin i => bunpin i;; mret i
  end.

(** A process reads a block it does not hold, while a buffer can be found
    for it; it uses buffers it holds; it releases a block that is pinned or
    whose contents are on the disk. *)
Definition enabled (A : cache) (o : cop) : Prop :=
  match o with
  | OpRead b => not_held A b ∧ (b ∈ cpin A ∨ Z.of_nat (size (busy A)) < NBUF)
  | OpStore i _ | OpWrite i => is_Some (chold A !! i)
  | OpRelse i => ∃ b, chold A !! i = Some b ∧ (b ∈ cpin A ∨ blk (cview A) b = blk (cdisk A) b)
  | OpPin i => ∃ b, chold A !! i = Some b ∧ b ∉ cpin A
  | OpUnpin i => ∃ b, chold A !! i = Some b ∧ b ∈ cpin A
  end.

Definition effect (A : cache) (o : cop) (r : Z) : cache :=
  let b := default 0 (chold A !! r) in
  match o with
  | OpRead b => hold_blk A r b
  | OpStore _ f => set_view A b (f (blk (cview A) b))
  | OpWrite _ => write_blk A b
  | OpRelse _ => unhold A r
  | OpPin _ => pin A b
  | OpUnpin _ => unpin A b
  end.

Lemma op_refines s A o :
  bio_rel s A → enabled A o →
  ∃ r s', run_op o s = Ret r s' ∧ bio_rel s' (effect A o r) ∧
    match o with
    | OpRead b => chold A !! r = None ∧ bdata r s' = Ret (blk (cview A) b) s'
    | OpStore i _ | OpWrite i | OpRelse i | OpPin i | OpUnpin i => r = i
    end.
Proof.
  intros Hrel He. destruct o as [b|i f|i|i|i|i]; cbn [enabled] in He.
  - destruct He as [Hn Hc]. destruct (bread_spec s A b Hrel Hn Hc) as (i & s' & E & Hrel' & Hi & _).
    exists i, s'. split_and!; try done. rewrite (bdata_spec s' (hold_blk A i b) i b Hrel') //.
    cbn. by rewrite lookup_insert_eq.
  - destruct He as [b Hb]. destruct (bstore_spec s A i b f Hrel Hb) as (s' & E & Hrel' & _).
    exists i, s'. cbn [run_op effect]. rewrite (bind_ret _ _ _ _ _ E) Hb. done.
  - destruct He as [b Hb]. destruct (bwrite_spec s A i b Hrel Hb) as (s' & E & Hrel' & _).
    exists i, s'. cbn [run_op effect]. rewrite (bind_ret _ _ _ _ _ E) Hb. done.
  - destruct He as (b & Hb & Hcl). destruct (brelse_spec s A i b Hrel Hb Hcl) as (s' & E & Hrel' & _).
    exists i, s'. cbn [run_op effect]. rewrite (bind_ret _ _ _ _ _ E). done.
  - destruct He as (b & Hb & Hcl). destruct (bpin_spec s A i b Hrel Hb Hcl) as (s' & E & Hrel' & _).
    exists i, s'. cbn [run_op effect]. rewrite (bind_ret _ _ _ _ _ E) Hb. done.
  - destruct He as (b & Hb & Hcl). destruct (bunpin_spec s A i b Hrel Hb Hcl) as (s' & E & Hrel' & _).
    exists i, s'. cbn [run_op effect]. rewrite (bind_ret _ _ _ _ _ E) Hb. done.
Qed.

(** A run of operations, each allowed where it happens. *)
Inductive run : cache → list cop → cache → bio → bio → Prop :=
| run_nil A s : run A [] A s s
| run_cons A o os A' s r s1 s2 :
    enabled A o → run_op o s = Ret r s1 → run (effect A o r) os A' s1 s2 →
    run A (o :: os) A' s s2.

(** C2. The buffer cache with its linked LRU list implements the abstract
    cache: from a state that represents one, every operation that is allowed
    returns (it neither panics nor sleeps) in a state that represents the
    abstract effect, and a buffer returned by [bread] was not in use and
    holds the block's current contents; so along every run of allowed
    operations the cache keeps representing the abstract state, whatever was
    evicted and re-read on the way. *)
Theorem bio_refines_cache s A :
  bio_rel s A →
  (∀ o, enabled A o → ∃ r s', run_op o s = Ret r s' ∧ bio_rel s' (effect A o r) ∧
     match o with
     | OpRead b => chold A !! r = None ∧ bdata r s' = Ret (blk (cview A) b) s'
     | OpStore i _ | OpWrite i | OpRelse i | OpPin i | OpUnpin i => r = i
     end) ∧
  (∀ os A' s', run A os A' s s' → bio_rel s' A').
Proof.
  intros Hrel. split; [intros o; by apply op_refines|].
  intros os A' s' Hrun. induction Hrun as [|A o os A' s r s1 s2 He E _ IH]; [done|]. apply IH.
  destruct (op_refines s A o Hrel He) as (r' & s' & E' & Hrel' & _). rewrite E in E'.
  by apply Ret_inj in E' as [-> ->].
Qed.

(** [binit] on the zeroed buffers of a fresh kernel returns with a cache
    that represents an empty one: every block has its contents on the disk,
    nothing is held or pinned, and nothing has been written. *)
Theorem binit_establishes d p :
  ∃ s', binit (bio_boot d p) = Ret tt s' ∧ bio_rel s' (mk_cache d d ∅ ∅ []).
Proof. destruct (binit_spec d p) as (s' & ? & ? & _). by exists s'. Qed.

(** Replacement is least-recently-used: when block [b] is not cached,
    [bget] takes the unreferenced buffer nearest the end of the list, gives
    it the new block number, not valid and with one reference, and changes no
    other buffer and no link. *)
Theorem bget_lru s l b i :
  ring (bufs s) l →
  (∀ j, j ∈ l → dev (bufs s !!! j) = ROOTDEV → blockno (bufs s !!! j) ≠ b) →
  find (λ j, refcnt (bufs s !!! j) =? 0) (rev l) = Some i → lk_locked (bufs s !!! i) = false →
  ∃ s', bget ROOTDEV b s = Ret i s' ∧ ring (bufs s') l ∧ blockno (bufs s' !!! i) = b ∧
    valid (bufs s' !!! i) = false ∧ refcnt (bufs s' !!! i) = 1 ∧
    ∀ j, j ≠ i → bufs s' !!! j = bufs s !!! j.
Proof.
  intros Hr Hnone Hf Hl. eexists. split.
  - eapply bget_recycle; [exact Hr| |exact Hf|exact Hl].
    destruct (find _ l) as [j|] eqn:Hj; [|done].
    apply find_some in Hj as [Hj%list_elem_of_In [Ed%Z.eqb_eq Eb%Z.eqb_eq]%andb_true_iff].
    by destruct (Hnone j Hj Ed).
  - split; [by apply ring_insert|]. cbn. rewrite lookup_total_insert_eq. split_and!; try done.
    intros j Hj. by rewrite lookup_total_insert_ne.
Qed.

(** ** Examples *)

Definition demo_disk : gmap Z mem := {[5 := st8 ∅ 0 42]}.
Definition demo_bio : bio := ret_state (binit (bio_boot demo_disk 1)) (bio_boot ∅ 0).

Lemma demo_bio_rel : bio_rel demo_bio (mk_cache demo_disk demo_disk ∅ ∅ []).
Proof.
  destruct (binit_spec demo_disk 1) as (s' & E & Hrel & _). by rewrite /demo_bio E.
Qed.
#[global] Opaque demo_bio.

Lemma bio_refines_cache_witness :
  ∃ i s', bread ROOTDEV 5 demo_bio = Ret i s' ∧ bdata i s' = Ret (st8 ∅ 0 42) s'.
Proof.
  destruct (bio_refines_cache demo_bio _ demo_bio_rel) as [H1 _].
  destruct (H1 (OpRead 5)) as (i & s' & E & _ & _ & Hd).
  - split; [intros i; cbn; rewrite lookup_empty; discriminate|right]. vm_compute. reflexivity.
  - exists i, s'. split; [exact E|exact Hd].
Defined.

Lemma bget_lru_witness :
  ∃ s', bget ROOTDEV 7 demo_bio = Ret 0 s' ∧ blockno (bufs s' !!! 0) = 7.
Proof.
  destruct (br_ring _ _ demo_bio_rel) as [l Hr].
  destruct (bget_lru demo_bio (rev (seqZ 0 NBUF)) 7 0) as (s' & E & _ & Eb & _).
  - split_and!; [vm_compute; intuition congruence| |].
    + apply (bool_decide_unpack _). vm_compute. exact I.
    + intros i. rewrite list_elem_of_In -in_rev -list_elem_of_In elem_of_seqZ. lia.
  - intros j Hj. assert (∀ j, j ∈ rev (seqZ 0 NBUF) → (dev (bufs demo_bio !!! j) =? 0) = true) as Hz.
    { apply Forall_forall. apply (bool_decide_unpack _). vm_compute. exact I. }
    apply Hz, Z.eqb_eq in Hj. rewrite Hj. intros E. clear -E. by vm_compute in E.
  - vm_compute. reflexivity.
  - vm_compute. reflexivity.
  - exists s'. split; [exact E|exact Eb].
Defined.
