(* ===== verification/Log.v ===== *)
(** * kernel/log.c: the write-ahead log

    The code is written against the interface of the buffer cache (Cache).
    [sleep] on [&log] ends the attempt of [begin_op]; [wakeup] concerns the
    process table only and has no effect on this state. *)
From S2P Require Import Prelude Riscv Cache.

Section log.
Context {S : Type} {BC : BlockCache S}.

(** struct log and struct logheader; [lhblock] is the array lh.block. *)
Record logst := mk_log {
  lcache : S;
  lstart : Z;
  lsize : Z;
  outstanding : Z;
  committing : bool;
  ldev : Z;
  lhn : Z;
  lhblock : gmap Z Z;
}.

Definition set_cache (c : S) (s : logst) : logst :=
  mk_log c (lstart s) (lsize s) (outstanding s) (committing s) (ldev s) (lhn s) (lhblock s).
Definition set_lh (n : Z) (bl : gmap Z Z) (s : logst) : logst :=
  mk_log (lcache s) (lstart s) (lsize s) (outstanding s) (committing s) (ldev s) n bl.
Definition set_ops (o : Z) (c : bool) (s : logst) : logst :=
  mk_log (lcache s) (lstart s) (lsize s) o c (ldev s) (lhn s) (lhblock s).

(** Run an operation of the buffer cache. *)
Definition onc {A} (m : M S A) : M logst A := lift lcache set_cache m.

(** lh.block[i], an array of LOGSIZE ints; an index outside it is undefined
    behaviour, at which the model stops. *)
Definition lh_get (i : Z) : M logst Z :=
  if (0 <=? i) && (i <? LOGSIZE) then gets (λ s, default 0 (lhblock s !! i))
  else panic "lh.block: index out of bounds".
Definition lh_set (i b : Z) : M logst unit :=
  if (0 <=? i) && (i <? LOGSIZE) then modify (λ s, set_lh (lhn s) (<[i := b]> (lhblock s)) s)
  else panic "lh.block: index out of bounds".

(** The logheader stored in a block: [n] at offset 0, [block[i]] at 4+4i. *)
Definition hdr_n (m : mem) : Z := s32 (ld32 m 0).
Definition hdr_block (m : mem) (i : Z) : Z := s32 (ld32 m (4 + 4 * i)).

Fixpoint install_loop (n : nat) (tail : Z) (recovering : bool) : M logst unit :=
  match n with
  | O => mret tt
  | Datatypes.S n' =>
      s ← get;
      lbuf ← onc (c_bread (u32 (ldev s)) (u32 (lstart s + tail + 1)));
      b ← lh_get tail;
      dbuf ← onc (c_bread (u32 (ldev s)) (u32 b));
      d ← onc (c_data lbuf);
      onc (c_store dbuf (λ _, d));;
      onc (c_bwrite dbuf);;
      (if negb recovering then onc (c_bunpin dbuf) else mret tt);;
      onc (c_brelse lbuf);;
      onc (c_brelse dbuf);;
      install_loop n' (tail + 1) recovering
  end.
Definition install_trans (recovering : bool) : M logst unit :=
  n ← gets lhn; install_loop (Z.to_nat n) 0 recovering.

Fixpoint read_head_loop (n : nat) (i : Z) (lh : mem) : M logst unit :=
  match n with
  | O => mret tt
  | Datatypes.S n' => lh_set i (hdr_block lh i);; read_head_loop n' (i + 1) lh
  end.
Definition read_head : M logst unit :=
  s ← get;
  buf ← onc (c_bread (u32 (ldev s)) (u32 (lstart s)));
  lh ← onc (c_data buf);
  modify (λ s, set_lh (hdr_n lh) (lhblock s) s);;
  read_head_loop (Z.to_nat (hdr_n lh)) 0 lh;;
  onc (c_brelse buf).

Fixpoint write_head_loop (n : nat) (i buf : Z) : M logst unit :=
  match n with
  | O => mret tt
  | Datatypes.S n' =>
      b ← lh_get i;
      onc (c_store buf (λ m, st32 m (4 + 4 * i) b));;
      write_head_loop n' (i + 1) buf
  end.
Definition write_head : M logst unit :=
  s ← get;
  buf ← onc (c_bread (u32 (ldev s)) (u32 (lstart s)));
  onc (c_store buf (λ m, st32 m 0 (lhn s)));;
  write_head_loop (Z.to_nat (lhn s)) 0 buf;;
  onc (c_bwrite buf);;
  onc (c_brelse buf).

Definition recover_from_log : M logst unit :=
  read_head;;
  install_trans true;;
  modify (λ s, set_lh 0 (lhblock s) s);;
  write_head.

(** The fields of the superblock [initlog] reads. *)
Definition initlog (dev logstart nlog : Z) : M logst unit :=
  if 4 + 4 * LOGSIZE >=? BSIZE then panic "initlog: too big logheader" else
  modify (λ s, mk_log (lcache s) (s32 logstart) (s32 nlog) (outstanding s) (committing s) dev
                 (lhn s) (lhblock s));;
  recover_from_log.

(** One turn of [begin_op]'s loop. *)
Definition begin_op : M logst unit :=
  s ← get;
  if committing s then sleep ("log"%string, 0)
  else if lhn s + (outstanding s + 1) * MAXOPBLOCKS >? LOGSIZE then sleep ("log"%string, 0)
  else put (set_ops (outstanding s + 1) (committing s) s).

Fixpoint write_log_loop (n : nat) (tail : Z) : M logst unit :=
  match n with
  | O => mret tt
  | Datatypes.S n' =>
      s ← get;
      to ← onc (c_bread (u32 (ldev s)) (u32 (lstart s + tail + 1)));
      b ← lh_get tail;
      from ← onc (c_bread (u32 (ldev s)) (u32 b));
      d ← onc (c_data from);
      onc (c_store to (λ _, d));;
      onc (c_bwrite to);;
      onc (c_brelse from);;
      onc (c_brelse to);;
      write_log_loop n' (tail + 1)
  end.
Definition write_log : M logst unit :=
  n ← gets lhn; write_log_loop (Z.to_nat n) 0.

Definition commit : M logst unit :=
  n ← gets lhn;
  if n >? 0 then
    write_log;;
    write_head;;
    install_trans false;;
    modify (λ s, set_lh 0 (lhblock s) s);;
    write_head
  else mret tt.

Definition end_op : M logst unit :=
  modify (λ s, set_ops (outstanding s - 1) (committing s) s);;
  s ← get;
  if committing s then panic "log.committing"
  else if outstanding s =? 0 then
    modify (λ s, set_ops (outstanding s) true s);;
    commit;;
    modify (λ s, set_ops (outstanding s) false s)
  else mret tt.

(** The index of [blockno] in lh.block[0 .. n), or n. *)
Fixpoint absorb (n : nat) (i blockno : Z) : M logst Z :=
  match n with
  | O => mret i
  | Datatypes.S n' =>
      b ← lh_get i;
      if u32 b =? blockno then mret i else absorb n' (i + 1) blockno
  end.
Definition log_write (b : Z) : M logst unit :=
  s ← get;
  if (lhn s >=? LOGSIZE) || (lhn s >=? lsize s - 1) then panic "too big a transaction"
  else if outstanding s <? 1 then panic "log_write outside of trans"
  else
    blockno ← onc (c_blockno b);
    i ← absorb (Z.to_nat (lhn s)) 0 blockno;
    lh_set i (s32 blockno);;
    if i =? lhn s then
      onc (c_bpin b);;
      modify (λ s, set_lh (lhn s + 1) (lhblock s) s)
    else mret tt.
End log.
Arguments logst : clear implicits.
