(* ===== verification/LogInv.v ===== *)
(** * The write-ahead log makes a transaction atomic

    The writes [commit] makes, what [recover_from_log] does with what a crash
    leaves of them, and the space the log needs. *)
From S2P Require Import Prelude Riscv Cache Log.

Section loginv.
Context {S : Type} {BC : BlockCache S}.
Implicit Types (s : logst S) (A : cache).

(** ** Rules for the cache operations *)

Lemma wp_onc {B} (m : M S B) s (Q : B → logst S → Prop) :
  wp m (lcache s) (λ a c, Q a (set_cache c s)) → wp (onc m) s Q.
Proof. apply wp_lift. Qed.

Lemma wp_bread s A b Q :
  c_rel (lcache s) A → not_held A b → (b ∈ cpin A ∨ Z.of_nat (size (busy A)) < NBUF) →
  (∀ i c, c_rel c (hold_blk A i b) → chold A !! i = None → Q i (set_cache c s)) →
  wp (onc (c_bread ROOTDEV b)) s Q.
Proof.
  intros Hr Hn Hc HQ. apply wp_onc.
  destruct (c_bread_spec _ _ _ Hr Hn Hc) as (i & c & E & Hr' & Hi). exists i, c. auto.
Qed.
Lemma wp_data s A i b Q :
  c_rel (lcache s) A → chold A !! i = Some b → Q (blk (cview A) b) s → wp (onc (c_data i)) s Q.
Proof.
  intros Hr Hi HQ. apply wp_onc. exists (blk (cview A) b), (lcache s).
  split; [by apply c_data_spec|by destruct s].
Qed.
Lemma wp_blockno s A i b Q :
  c_rel (lcache s) A → chold A !! i = Some b → Q b s → wp (onc (c_blockno i)) s Q.
Proof.
  intros Hr Hi HQ. apply wp_onc. exists b, (lcache s).
  split; [by eapply c_blockno_spec|by destruct s].
Qed.
Lemma wp_store s A i b f Q :
  c_rel (lcache s) A → chold A !! i = Some b →
  (∀ c, c_rel c (set_view A b (f (blk (cview A) b))) → Q tt (set_cache c s)) →
  wp (onc (c_store i f)) s Q.
Proof.
  intros Hr Hi HQ. apply wp_onc. destruct (c_store_spec _ _ _ _ f Hr Hi) as (c & E & Hr').
  exists tt, c. auto.
Qed.
Lemma wp_bwrite s A i b Q :
  c_rel (lcache s) A → chold A !! i = Some b →
  (∀ c, c_rel c (write_blk A b) → Q tt (set_cache c s)) → wp (onc (c_bwrite i)) s Q.
Proof.
  intros Hr Hi HQ. apply wp_onc. destruct (c_bwrite_spec _ _ _ _ Hr Hi) as (c & E & Hr').
  exists tt, c. auto.
Qed.
Lemma wp_brelse s A i b Q :
  c_rel (lcache s) A → chold A !! i = Some b → (b ∈ cpin A ∨ blk (cview A) b = blk (cdisk A) b) →
  (∀ c, c_rel c (unhold A i) → Q tt (set_cache c s)) → wp (onc (c_brelse i)) s Q.
Proof.
  intros Hr Hi Hcl HQ. apply wp_onc. destruct (c_brelse_spec _ _ _ _ Hr Hi Hcl) as (c & E & Hr').
  exists tt, c. auto.
Qed.
Lemma wp_bpin s A i b Q :
  c_rel (lcache s) A → chold A !! i = Some b → b ∉ cpin A →
  (∀ c, c_rel c (pin A b) → Q tt (set_cache c s)) → wp (onc (c_bpin i)) s Q.
Proof.
  intros Hr Hi Hcl HQ. apply wp_onc. destruct (c_bpin_spec _ _ _ _ Hr Hi Hcl) as (c & E & Hr').
  exists tt, c. auto.
Qed.
Lemma wp_bunpin s A i b Q :
  c_rel (lcache s) A → chold A !! i = Some b → b ∈ cpin A →
  (∀ c, c_rel c (unpin A b) → Q tt (set_cache c s)) → wp (onc (c_bunpin i)) s Q.
Proof.
  intros Hr Hi Hcl HQ. apply wp_onc. destruct (c_bunpin_spec _ _ _ _ Hr Hi Hcl) as (c & E & Hr').
  exists tt, c. auto.
Qed.

Lemma wp_lh_get s i Q :
  0 ≤ i < LOGSIZE → Q (default 0 (lhblock s !! i)) s → wp (lh_get i) s Q.
Proof.
  intros Hi HQ. rewrite /lh_get. destruct (Z.leb_spec 0 i), (Z.ltb_spec i LOGSIZE); try lia.
  cbn [andb]. by apply wp_gets.
Qed.
Lemma wp_lh_set s i b Q :
  0 ≤ i < LOGSIZE → Q tt (set_lh (lhn s) (<[i := b]> (lhblock s)) s) → wp (lh_set i b) s Q.
Proof.
  intros Hi HQ. rewrite /lh_set. destruct (Z.leb_spec 0 i), (Z.ltb_spec i LOGSIZE); try lia.
  cbn [andb]. by apply wp_modify.
Qed.

(** ** Writing a block through to the disk *)

Definition put_blk (A : cache) (b : Z) (m : mem) : cache :=
  mk_cache (<[b := m]> (cview A)) (<[b := m]> (cdisk A)) (chold A) (cpin A) (cwrites A ++ [(b, m)]).

Lemma put_blk_eq A i b m :
  chold A !! i = None → unhold (write_blk (set_view (hold_blk A i b) b m) b) i = put_blk A b m.
Proof.
  intros Hi. rewrite /unhold /write_blk /set_view /put_blk /= blk_insert_eq.
  by rewrite delete_insert_id.
Qed.

Lemma set_view_twice A b m1 m2 : set_view (set_view A b m1) b m2 = set_view A b m2.
Proof. by rewrite /set_view /= insert_insert_eq. Qed.

Lemma unhold_hold A i b : chold A !! i = None → unhold (hold_blk A i b) i = A.
Proof. intros Hi. destruct A. rewrite /unhold /hold_blk /= delete_insert_id //. Qed.

(** ** The header block *)

(** The blocks of the in-memory header. *)
Definition lh_list s : list Z := (λ i, default 0 (lhblock s !! i)) <$> seqZ 0 (lhn s).

Fixpoint hdr_fill (n : nat) (i : Z) (bl : gmap Z Z) (m : mem) : mem :=
  match n with
  | O => m
  | Datatypes.S n' => hdr_fill n' (i + 1) bl (st32 m (4 + 4 * i) (default 0 (bl !! i)))
  end.

Lemma ld32_st32_eq m a v : ld32 (st32 m a v) a = u32 v.
Proof. apply (ld_st_le_eq 4). Qed.
Lemma ld32_st32_ne m a v b : b + 4 ≤ a ∨ a + 4 ≤ b → ld32 (st32 m a v) b = ld32 m b.
Proof. intros. apply (ld_st_le_ne 4 4). lia. Qed.

Lemma s32_u32 x : - 2 ^ 31 ≤ x < 2 ^ 31 → s32 (u32 x) = x.
Proof. intros. rewrite /s32 /u32. lia. Qed.

Lemma hdr_fill_below n i bl m a : a + 4 ≤ 4 + 4 * i → ld32 (hdr_fill n i bl m) a = ld32 m a.
Proof.
  revert i m. induction n as [|n IH]; intros i m Ha; [done|]. cbn [hdr_fill].
  rewrite IH; [|lia]. apply ld32_st32_ne. lia.
Qed.

Lemma hdr_fill_block n i bl m j :
  i ≤ j < i + Z.of_nat n → (∀ k, - 2 ^ 31 ≤ default 0 (bl !! k) < 2 ^ 31) →
  hdr_block (hdr_fill n i bl m) j = default 0 (bl !! j).
Proof.
  intros Hj Hb. revert i m Hj. induction n as [|n IH]; intros i m Hj; [lia|]. cbn [hdr_fill].
  destruct (decide (j = i)) as [->|]; [|apply IH; lia].
  rewrite /hdr_block hdr_fill_below; [|lia]. rewrite ld32_st32_eq. by apply s32_u32.
Qed.

Lemma wp_write_head_loop n i buf s A b m (Q : unit → logst S → Prop) :
  c_rel (lcache s) (set_view A b m) → chold A !! buf = Some b → 0 ≤ i → i + Z.of_nat n ≤ LOGSIZE →
  (∀ c, c_rel c (set_view A b (hdr_fill n i (lhblock s) m)) → Q tt (set_cache c s)) →
  wp (write_head_loop n i buf) s Q.
Proof.
  revert i s m. induction n as [|n IH]; intros i s m Hr Hb Hi Hn HQ; cbn [write_head_loop].
  - apply wp_mret. replace s with (set_cache (lcache s) s) by (by destruct s). by apply HQ.
  - apply wp_bind, wp_lh_get; [lia|].
    apply wp_bind, (wp_store _ _ _ b _ _ Hr); [done|]. intros c Hc. cbn in Hc.
    rewrite set_view_twice blk_insert_eq in Hc.
    apply (IH (i + 1) (set_cache c s) _ Hc); [done|lia|lia|]. intros c' Hc'. by apply HQ.
Qed.

(** [write_head] writes a block that encodes the in-memory header. *)
Lemma wp_write_head s A (Q : unit → logst S → Prop) :
  c_rel (lcache s) A → ldev s = ROOTDEV → 0 ≤ lstart s < 2 ^ 32 → 0 ≤ lhn s ≤ LOGSIZE →
  chold A = ∅ → Z.of_nat (size (cpin A)) < NBUF →
  (∀ k, - 2 ^ 31 ≤ default 0 (lhblock s !! k) < 2 ^ 31) →
  (∀ c H, c_rel c (put_blk A (lstart s) H) → hdr_n H = lhn s →
     (∀ k, 0 ≤ k < lhn s → hdr_block H k = default 0 (lhblock s !! k)) → Q tt (set_cache c s)) →
  wp write_head s Q.
Proof.
  intros Hr Ed Hst Hn Hh Hcap Hbl HQ. rewrite /write_head. apply wp_bind, wp_get. rewrite Ed.
  change (u32 ROOTDEV) with ROOTDEV. rewrite u32_small //.
  apply wp_bind. eapply wp_bread; [exact Hr| | |].
  { intros i. rewrite Hh lookup_empty. discriminate. }
  { right. by rewrite /busy Hh map_img_empty_L right_id_L. }
  intros buf c1 Hr1 Hb1. apply wp_bind. eapply wp_store; [exact Hr1|cbn; by rewrite lookup_insert_eq|].
  intros c2 Hr2. cbn [cview hold_blk] in Hr2. set (m0 := st32 _ 0 (lhn s)) in Hr2.
  apply wp_bind. eapply wp_write_head_loop; [exact Hr2|cbn; by rewrite lookup_insert_eq|lia|lia|].
  intros c3 Hr3. cbn [lhblock set_cache] in Hr3. set (H := hdr_fill _ _ _ _) in Hr3.
  apply wp_bind. eapply wp_bwrite; [exact Hr3|cbn; by rewrite lookup_insert_eq|].
  intros c4 Hr4. eapply wp_brelse; [exact Hr4|cbn; by rewrite lookup_insert_eq| |].
  { right. cbn. by rewrite !blk_insert_eq. }
  intros c5 Hr5. rewrite put_blk_eq // in Hr5. apply (HQ c5 H Hr5).
  - rewrite /hdr_n /H hdr_fill_below; [|lia]. rewrite /m0 ld32_st32_eq s32_u32 //. rewrite /LOGSIZE in Hn. klia.
  - intros k Hk. apply hdr_fill_block; [lia|done].
Qed.

(** ** Copying blocks *)

Definition put_all (A : cache) (ws : list (Z * mem)) : cache :=
  foldl (λ A w, put_blk A w.1 w.2) A ws.

(** A copy of block [b1]'s contents over block [b2], with both locked. *)
Lemma copy_eq A i1 i2 b1 b2 m :
  chold A !! i1 = None → chold (hold_blk A i1 b1) !! i2 = None →
  unhold (unhold (write_blk (set_view (hold_blk (hold_blk A i1 b1) i2 b2) b1 m) b1) i2) i1 = put_blk A b1 m ∧
  unhold (unhold (write_blk (set_view (hold_blk (hold_blk A i1 b1) i2 b2) b2 m) b2) i1) i2 = put_blk A b2 m.
Proof.
  cbn. intros H1 H2. assert (i2 ≠ i1) as Hne.
  { intros ->. rewrite lookup_insert_eq in H2. discriminate H2. }
  rewrite lookup_insert_ne // in H2.
  rewrite /unhold /write_blk /set_view /put_blk /= !blk_insert_eq. split; f_equal.
  - rewrite delete_insert_id ?lookup_insert_ne //. by rewrite delete_insert_id.
  - rewrite delete_insert_ne // delete_insert_id // delete_insert_id //.
Qed.

Lemma not_held_empty A b : chold A = ∅ → not_held A b.
Proof. intros Hh i. rewrite Hh lookup_empty. discriminate. Qed.

Lemma not_held_one A i b b' : chold A = ∅ → b' ≠ b → not_held (hold_blk A i b) b'.
Proof.
  intros Hh Hne j. cbn. rewrite Hh. destruct (decide (j = i)) as [->|].
  - rewrite lookup_insert_eq. congruence.
  - rewrite lookup_insert_ne // lookup_empty. discriminate.
Qed.

Lemma busy_empty A : chold A = ∅ → busy A = cpin A.
Proof. intros Hh. by rewrite /busy Hh map_img_empty_L right_id_L. Qed.
Lemma busy_one A i b : chold A = ∅ → busy (hold_blk A i b) = {[b]} ∪ cpin A.
Proof. intros Hh. rewrite /busy /= Hh insert_empty map_img_singleton_L. set_solver. Qed.

(** The hypotheses of the three copying loops. *)
Record log_pre (s : logst S) (A : cache) (t n : Z) : Prop := {
  lp_rel : c_rel (lcache s) A;
  lp_dev : ldev s = ROOTDEV;
  lp_start : 0 ≤ lstart s ∧ lstart s + lsize s ≤ 2 ^ 32;
  lp_hold : chold A = ∅;
  lp_range : 0 ≤ t ∧ 0 ≤ n ∧ t + n ≤ LOGSIZE ∧ t + n < lsize s;
  lp_home : ∀ k, t ≤ k < t + n → 0 ≤ default 0 (lhblock s !! k) < 2 ^ 31 ∧
    ¬ (lstart s ≤ default 0 (lhblock s !! k) < lstart s + lsize s);
  lp_logpin : ∀ b, lstart s ≤ b < lstart s + lsize s → b ∉ cpin A;
}.

(** The writes of [write_log]: log block [k] gets [v k]. *)
Fixpoint log_ws (n : nat) (start t : Z) (v : Z → mem) : list (Z * mem) :=
  match n with
  | O => []
  | Datatypes.S n' => (start + t + 1, v t) :: log_ws n' start (t + 1) v
  end.

Lemma wp_write_log_loop n t s A v (Q : unit → logst S → Prop) :
  log_pre s A t (Z.of_nat n) →
  (∀ k, t ≤ k < t + Z.of_nat n → default 0 (lhblock s !! k) ∈ cpin A) →
  Z.of_nat (size (cpin A)) < NBUF →
  (∀ k, t ≤ k < t + Z.of_nat n → blk (cview A) (default 0 (lhblock s !! k)) = v k) →
  (∀ c, c_rel c (put_all A (log_ws n (lstart s) t v)) → Q tt (set_cache c s)) →
  wp (write_log_loop n t) s Q.
Proof.
  revert t s A. induction n as [|n IH]; intros t s A Hpre Hpin Hcap Hv HQ; cbn [write_log_loop].
  { apply wp_mret. replace s with (set_cache (lcache s) s) by (by destruct s). apply HQ. by destruct Hpre. }
  pose proof Hpre as [Hr Hd Hst Hh Hrg Hhome Hlp]. apply wp_bind, wp_get. rewrite Hd.
  change (u32 ROOTDEV) with ROOTDEV. rewrite u32_small; [|lia].
  set (lb := lstart s + t + 1). destruct (Hhome t ltac:(lia)) as [Hb32 Hbout].
  set (hb := default 0 (lhblock s !! t)) in *.
  assert (hb ≠ lb) as Hne by (rewrite /lb; lia).
  apply wp_bind. eapply wp_bread; [exact Hr|by apply not_held_empty|right; by rewrite busy_empty|].
  intros i1 c1 Hr1 Hi1. apply wp_bind, wp_lh_get; [lia|]. cbn [lhblock set_cache]. rewrite -/hb u32_small; [|lia].
  apply wp_bind. eapply wp_bread; [exact Hr1|by apply not_held_one|left; apply Hpin; lia|].
  intros i2 c2 Hr2 Hi2. assert (i2 ≠ i1) as Hi12.
  { intros ->. cbn in Hi2. rewrite lookup_insert_eq in Hi2. discriminate Hi2. }
  apply wp_bind. eapply wp_data; [exact Hr2|cbn; by rewrite lookup_insert_eq|]. cbn [cview hold_blk].
  apply wp_bind. eapply wp_store; [exact Hr2|cbn; by rewrite lookup_insert_ne // lookup_insert_eq|].
  intros c3 Hr3. apply wp_bind.
  eapply wp_bwrite; [exact Hr3|cbn; by rewrite lookup_insert_ne // lookup_insert_eq|].
  intros c4 Hr4. apply wp_bind.
  eapply wp_brelse; [exact Hr4|cbn; by rewrite lookup_insert_eq|left; apply Hpin; lia|].
  intros c5 Hr5. apply wp_bind.
  eapply wp_brelse; [exact Hr5|cbn; by rewrite delete_insert_id ?lookup_insert_eq //
    |right; cbn; by rewrite !blk_insert_eq|].
  intros c6 Hr6. destruct (copy_eq A i1 i2 lb hb (blk (cview A) hb) Hi1 Hi2) as [E _]. rewrite E in Hr6.
  apply (IH (t + 1) (set_cache c6 s) (put_blk A lb (blk (cview A) hb))); cbn [lhblock set_cache lstart].
  - split; cbn; try done; [lia|]. intros k Hk. apply Hhome. lia.
  - intros k Hk. apply Hpin. lia.
  - done.
  - intros k Hk. cbn. rewrite blk_insert_ne; [apply Hv; lia|]. destruct (Hhome k ltac:(lia)). rewrite /lb. lia.
  - intros c Hc. apply HQ. cbn [log_ws]. rewrite -/lb -(Hv t); [|lia]. exact Hc.
Qed.

(** The writes of [install_trans]: the home of log block [k] gets [v k]. *)
Fixpoint home_ws (n : nat) (t : Z) (bl : gmap Z Z) (v : Z → mem) : list (Z * mem) :=
  match n with
  | O => []
  | Datatypes.S n' => (default 0 (bl !! t), v t) :: home_ws n' (t + 1) bl v
  end.

Definition inst_one (recovering : bool) (A : cache) (w : Z * mem) : cache :=
  if recovering then put_blk A w.1 w.2 else unpin (put_blk A w.1 w.2) w.1.
Definition inst_all (recovering : bool) (A : cache) (ws : list (Z * mem)) : cache :=
  foldl (inst_one recovering) A ws.

Lemma inst_one_fields r A w :
  cview (inst_one r A w) = <[w.1 := w.2]> (cview A) ∧ cdisk (inst_one r A w) = <[w.1 := w.2]> (cdisk A) ∧
  chold (inst_one r A w) = chold A ∧ cwrites (inst_one r A w) = cwrites A ++ [w] ∧
  cpin (inst_one r A w) = if r then cpin A else cpin A ∖ {[w.1]}.
Proof. destruct w, r; done. Qed.

Lemma wp_install_loop n t r s A v (Q : unit → logst S → Prop) :
  log_pre s A t (Z.of_nat n) →
  (r = false → (∀ k, t ≤ k < t + Z.of_nat n → default 0 (lhblock s !! k) ∈ cpin A) ∧
     (∀ k k', t ≤ k < t + Z.of_nat n → t ≤ k' < t + Z.of_nat n →
        default 0 (lhblock s !! k) = default 0 (lhblock s !! k') → k = k')) →
  Z.of_nat (size (cpin A)) + (if r then 1 else 0) < NBUF →
  (∀ k, t ≤ k < t + Z.of_nat n → blk (cview A) (lstart s + k + 1) = v k) →
  (∀ c, c_rel c (inst_all r A (home_ws n t (lhblock s) v)) → Q tt (set_cache c s)) →
  wp (install_loop n t r) s Q.
Proof.
  revert t s A. induction n as [|n IH]; intros t s A Hpre Hpin Hcap Hv HQ; cbn [install_loop].
  { apply wp_mret. replace s with (set_cache (lcache s) s) by (by destruct s). apply HQ. by destruct Hpre. }
  pose proof Hpre as [Hr Hd Hst Hh Hrg Hhome Hlp]. apply wp_bind, wp_get. rewrite Hd.
  change (u32 ROOTDEV) with ROOTDEV. rewrite u32_small; [|lia].
  set (lb := lstart s + t + 1). destruct (Hhome t ltac:(lia)) as [Hb32 Hbout].
  set (hb := default 0 (lhblock s !! t)) in *.
  assert (hb ≠ lb) as Hne by (rewrite /lb; lia).
  assert (blk (cview A) lb = blk (cdisk A) lb) as Hcl.
  { apply (c_clean _ _ _ Hr); [apply Hlp; rewrite /lb; lia|by apply not_held_empty]. }
  apply wp_bind. eapply wp_bread; [exact Hr|by apply not_held_empty|right; rewrite busy_empty //; destruct r; lia|].
  intros i1 c1 Hr1 Hi1. apply wp_bind, wp_lh_get; [lia|]. cbn [lhblock set_cache]. rewrite -/hb u32_small; [|lia].
  apply wp_bind. eapply wp_bread; [exact Hr1|by apply not_held_one| |].
  { destruct r; [right|left; apply Hpin; [done|lia]]. rewrite busy_one //.
    pose proof (size_union_alt ({[lb]} : gset Z) (cpin A)) as Hsz. rewrite size_singleton in Hsz.
    assert (size (cpin A ∖ {[lb]}) ≤ size (cpin A))%nat by (apply subseteq_size; set_solver). lia. }
  intros i2 c2 Hr2 Hi2. assert (i2 ≠ i1) as Hi12.
  { intros ->. cbn in Hi2. rewrite lookup_insert_eq in Hi2. discriminate Hi2. }
  apply wp_bind. eapply wp_data; [exact Hr2|cbn; by rewrite lookup_insert_ne // lookup_insert_eq|].
  cbn [cview hold_blk]. apply wp_bind. eapply wp_store; [exact Hr2|cbn; by rewrite lookup_insert_eq|].
  intros c3 Hr3. apply wp_bind. eapply wp_bwrite; [exact Hr3|cbn; by rewrite lookup_insert_eq|].
  intros c4 Hr4. destruct (copy_eq A i1 i2 lb hb (blk (cview A) lb) Hi1 Hi2) as [_ E].
  set (B := write_blk _ _) in Hr4, E.
  assert (chold B !! i1 = Some lb ∧ chold B !! i2 = Some hb) as [HB1 HB2].
  { rewrite /B /=. rewrite lookup_insert_ne // !lookup_insert_eq. done. }
  assert (blk (cview B) lb = blk (cdisk B) lb ∧ blk (cview B) hb = blk (cdisk B) hb) as [HBl HBh].
  { rewrite /B /= !blk_insert_eq. rewrite !blk_insert_ne //. }
  assert (∃ c5, (if negb r then onc (c_bunpin i2) else mret tt) (set_cache c4 s) = Ret tt (set_cache c5 s) ∧
    c_rel c5 (if r then B else unpin B hb)) as (c5 & E5 & Hr5).
  { destruct r; cbn [negb]; [by exists c4|].
    destruct (c_bunpin_spec c4 B i2 hb Hr4 HB2) as (c5 & E5 & Hr5); [apply Hpin; [done|lia]|].
    exists c5. split; [|done]. by rewrite /onc /lift E5. }
  apply wp_bind. eapply wp_ret; [exact E5|].
  apply wp_bind. eapply wp_brelse; [exact Hr5|by destruct r|right; by destruct r|].
  intros c6 Hr6. apply wp_bind.
  eapply wp_brelse; [exact Hr6|destruct r; cbn [chold unhold unpin]; by rewrite lookup_delete_ne|right; by destruct r|].
  intros c7 Hr7. assert (c_rel c7 (inst_one r A (hb, blk (cview A) lb))) as Hr8.
  { rewrite /inst_one /= -E. by destruct r. }
  clear Hr7. destruct (inst_one_fields r A (hb, blk (cview A) lb)) as (F1 & F2 & F3 & F4 & F5). cbn [fst snd] in *.
  apply (IH (t + 1) (set_cache c7 s) (inst_one r A (hb, blk (cview A) lb))); cbn [lhblock set_cache lstart].
  - split; cbn; rewrite ?F3 ?F5; try done; [lia| |].
    + intros k Hk. apply Hhome. lia.
    + intros b Hb. destruct r; [by apply Hlp|]. specialize (Hlp b Hb). set_solver.
  - intros ->. destruct (Hpin eq_refl) as [Hp1 Hp2]. split; [|intros k k' ??; apply Hp2; lia].
    intros k Hk. rewrite F5 elem_of_difference elem_of_singleton. split; [apply Hp1; lia|].
    intros Ek. apply Hp2 in Ek; lia.
  - rewrite F5. destruct r; [done|].
    assert (size (cpin A ∖ {[hb]}) ≤ size (cpin A))%nat by (apply subseteq_size; set_solver). lia.
  - intros k Hk. rewrite F1 blk_insert_ne; [apply Hv; lia|lia].
  - intros c Hc. apply HQ. cbn [home_ws]. rewrite -/hb -(Hv t); [exact Hc|lia].
Qed.

(** ** Sequences of disk writes *)

Definition apply_ws (ws : list (Z * mem)) (d : gmap Z mem) : gmap Z mem :=
  foldl (λ d w, <[w.1 := w.2]> d) d ws.

Lemma apply_ws_app ws1 ws2 d : apply_ws (ws1 ++ ws2) d = apply_ws ws2 (apply_ws ws1 d).
Proof. apply foldl_app. Qed.

Lemma blk_apply_out ws d b : (∀ w, w ∈ ws → w.1 ≠ b) → blk (apply_ws ws d) b = blk d b.
Proof.
  revert d. induction ws as [|w ws IH]; intros d Hw; [done|]. cbn. rewrite IH.
  - rewrite blk_insert_ne //. apply not_eq_sym, Hw. by left.
  - intros w' Hw'. apply Hw. by right.
Qed.

(** The last write to [b] decides. *)
Lemma blk_apply_in ws d b m :
  (∃ w, w ∈ ws ∧ w.1 = b) → (∀ w, w ∈ ws → w.1 = b → w.2 = m) → blk (apply_ws ws d) b = m.
Proof.
  revert d. induction ws as [|w ws IH]; intros d (w0 & Hw0 & E0) Hm; [by apply elem_of_nil in Hw0|]. cbn.
  destruct (decide (Exists (λ w, w.1 = b) ws)) as [(w1 & H1 & E1)%Exists_exists|Hn].
  - apply IH; [by exists w1|]. intros w' Hw'. apply Hm. by right.
  - assert (∀ w', w' ∈ ws → w'.1 ≠ b) as Hout.
    { intros w' Hw' E. apply Hn, Exists_exists. by exists w'. }
    rewrite blk_apply_out //. apply elem_of_cons in Hw0 as [->|Hw0]; [|by destruct (Hout w0)].
    rewrite -E0 blk_insert_eq. apply Hm; [by left|done].
Qed.

Lemma put_all_fields A ws :
  cview (put_all A ws) = apply_ws ws (cview A) ∧ cdisk (put_all A ws) = apply_ws ws (cdisk A) ∧
  chold (put_all A ws) = chold A ∧ cpin (put_all A ws) = cpin A ∧ cwrites (put_all A ws) = cwrites A ++ ws.
Proof.
  revert A. induction ws as [|w ws IH]; intros A; [cbn; by rewrite app_nil_r|].
  change (put_all A (w :: ws)) with (put_all (put_blk A w.1 w.2) ws).
  destruct (IH (put_blk A w.1 w.2)) as (-> & -> & -> & -> & ->). cbn. split_and!; try done.
  rewrite -app_assoc. by destruct w.
Qed.

Lemma inst_all_fields r A ws :
  cview (inst_all r A ws) = apply_ws ws (cview A) ∧ cdisk (inst_all r A ws) = apply_ws ws (cdisk A) ∧
  chold (inst_all r A ws) = chold A ∧ cwrites (inst_all r A ws) = cwrites A ++ ws ∧
  (∀ b, b ∈ cpin (inst_all r A ws) ↔ b ∈ cpin A ∧ (r = true ∨ ∀ w, w ∈ ws → w.1 ≠ b)).
Proof.
  revert A. induction ws as [|w ws IH]; intros A.
  { cbn. rewrite app_nil_r. split_and!; try done. intros b. split; [|tauto]. intros ?. split; [done|].
    right. intros w Hw. by apply elem_of_nil in Hw. }
  destruct (inst_one_fields r A w) as (F1 & F2 & F3 & F4 & F5).
  destruct (IH (inst_one r A w)) as (E1 & E2 & E3 & E4 & E5).
  change (inst_all r A (w :: ws)) with (inst_all r (inst_one r A w) ws).
  rewrite E1 E2 E3 E4 F1 F2 F3 F4 -app_assoc. split_and!; try done.
  intros b. rewrite E5 F5. destruct r; [tauto|]. rewrite elem_of_difference elem_of_singleton. split.
  - intros [[? ?] [?|Hw]]; [done|]. split; [done|]. right. intros w' [->|?]%elem_of_cons; [done|by apply Hw].
  - intros [? [?|Hw]]; [done|]. split_and!; [done|apply not_eq_sym, Hw; by left|].
    right. intros w' ?. apply Hw. by right.
Qed.

Lemma elem_of_log_ws n start t v w :
  w ∈ log_ws n start t v ↔ ∃ k, t ≤ k < t + Z.of_nat n ∧ w = (start + k + 1, v k).
Proof.
  revert t. induction n as [|n IH]; intros t; cbn [log_ws].
  - rewrite elem_of_nil. split; [done|]. intros (k & ? & _). lia.
  - rewrite elem_of_cons IH. split.
    + intros [->|(k & ? & ->)]; [exists t|exists k]; split; lia || done.
    + intros (k & ? & ->). destruct (decide (k = t)) as [->|]; [by left|right; exists k; split; [lia|done]].
Qed.

Lemma elem_of_home_ws n t bl v w :
  w ∈ home_ws n t bl v ↔ ∃ k, t ≤ k < t + Z.of_nat n ∧ w = (default 0 (bl !! k), v k).
Proof.
  revert t. induction n as [|n IH]; intros t; cbn [home_ws].
  - rewrite elem_of_nil. split; [done|]. intros (k & ? & _). lia.
  - rewrite elem_of_cons IH. split.
    + intros [->|(k & ? & ->)]; [exists t|exists k]; split; lia || done.
    + intros (k & ? & ->). destruct (decide (k = t)) as [->|]; [by left|right; exists k; split; [lia|done]].
Qed.

Lemma length_log_ws n start t v : length (log_ws n start t v) = n.
Proof. revert t. induction n as [|n IH]; intros t; cbn; [done|]. by rewrite IH. Qed.
Lemma length_home_ws n t bl v : length (home_ws n t bl v) = n.
Proof. revert t. induction n as [|n IH]; intros t; cbn; [done|]. by rewrite IH. Qed.

Lemma blk_log_ws n start t v d k :
  t ≤ k < t + Z.of_nat n → blk (apply_ws (log_ws n start t v) d) (start + k + 1) = v k.
Proof.
  intros Hk. apply blk_apply_in.
  - exists (start + k + 1, v k). split; [apply elem_of_log_ws; by exists k|done].
  - intros w (k' & _ & ->)%elem_of_log_ws E. cbn in *. f_equal. lia.
Qed.

(** ** [commit] *)

(** A transaction ready to commit: lh.block[0 .. n) names distinct blocks
    outside the log, which are exactly the pinned ones. *)
Record txn (s : logst S) (A : cache) : Prop := {
  tx_pre : log_pre s A 0 (lhn s);
  tx_pin : ∀ b, b ∈ cpin A ↔ ∃ k, 0 ≤ k < lhn s ∧ b = default 0 (lhblock s !! k);
  tx_inj : ∀ k k', 0 ≤ k < lhn s → 0 ≤ k' < lhn s →
    default 0 (lhblock s !! k) = default 0 (lhblock s !! k') → k = k';
  tx_int : ∀ k, - 2 ^ 31 ≤ default 0 (lhblock s !! k) < 2 ^ 31;
  tx_cap : Z.of_nat (size (cpin A)) < NBUF;
}.

(** The disk writes of a commit. *)
Definition commit_ws (s : logst S) (A : cache) (H H0 : mem) : list (Z * mem) :=
  let n := Z.to_nat (lhn s) in
  let v k := blk (cview A) (default 0 (lhblock s !! k)) in
  log_ws n (lstart s) 0 v ++ (lstart s, H) :: home_ws n 0 (lhblock s) v ++ [(lstart s, H0)].

Definition hdr_ok (s : logst S) (H : mem) : Prop :=
  hdr_n H = lhn s ∧ ∀ k, 0 ≤ k < lhn s → hdr_block H k = default 0 (lhblock s !! k).

Lemma log_pre_put s A c ws t n :
  log_pre s A t n → c_rel c (put_all A ws) → log_pre (set_cache c s) (put_all A ws) t n.
Proof.
  intros [] Hr. destruct (put_all_fields A ws) as (F1 & F2 & F3 & F4 & F5).
  split; cbn; rewrite ?F3 ?F4 //.
Qed.

Lemma commit_spec s A :
  txn s A → 0 < lhn s →
  wp commit s (λ _ s', ∃ A' H H0,
    c_rel (lcache s') A' ∧ hdr_ok s H ∧ hdr_n H0 = 0 ∧
    cview A' = apply_ws (commit_ws s A H H0) (cview A) ∧
    cdisk A' = apply_ws (commit_ws s A H H0) (cdisk A) ∧
    cwrites A' = cwrites A ++ commit_ws s A H H0 ∧ chold A' = ∅ ∧ cpin A' = ∅ ∧
    s' = set_cache (lcache s') (set_lh 0 (lhblock s) s)).
Proof.
  intros [Hpre Hpin Hinj Hint Hcap] Hn. rewrite /commit. apply wp_bind, wp_gets.
  destruct (Z.gtb_spec (lhn s) 0) as [_|?]; [|lia].
  pose proof Hpre as [Hr Hd Hst Hh Hrg Hhome Hlp].
  set (v := λ k, blk (cview A) (default 0 (lhblock s !! k))). set (n := Z.to_nat (lhn s)).
  assert (Z.of_nat n = lhn s) as En by (rewrite /n; lia).
  set (lws := log_ws n (lstart s) 0 v). set (hws := home_ws n 0 (lhblock s) v).
  (* write_log *)
  apply wp_bind. rewrite /write_log. apply wp_bind, wp_gets. rewrite -/n.
  apply (wp_write_log_loop n 0 s A v).
  { by rewrite En. }
  { intros k Hk. apply Hpin. exists k. split; [lia|done]. }
  { done. }
  { done. }
  intros c1 Hr1. rewrite -/lws in Hr1. set (A1 := put_all A lws) in Hr1.
  destruct (put_all_fields A lws) as (F1 & F2 & F3 & F4 & F5). rewrite -/A1 in F1, F2, F3, F4, F5.
  (* write_head *)
  apply wp_bind. eapply wp_write_head; [exact Hr1|done|cbn; lia|cbn; lia|by rewrite F3|by rewrite F4|done|].
  intros c2 H Hr2 HHn HHb. cbn [lhn lstart lhblock set_cache] in Hr2, HHn, HHb.
  set (A2 := put_blk A1 (lstart s) H) in Hr2.
  (* install_trans *)
  apply wp_bind. rewrite /install_trans. apply wp_bind, wp_gets. cbn [lhn set_cache]. rewrite -/n.
  apply (wp_install_loop n 0 false _ A2 v).
  { split; cbn; rewrite ?F3 ?F4 ?En //. }
  { intros _. cbn. rewrite F4. split; [intros k Hk; apply Hpin; exists k; split; [lia|done]|].
    intros k k' ??. apply Hinj; lia. }
  { cbn. rewrite F4. lia. }
  { intros k Hk. cbn. rewrite blk_insert_ne; [|lia]. rewrite F1. apply blk_log_ws. lia. }
  intros c3 Hr3. cbn [lhblock set_cache] in Hr3. rewrite -/hws in Hr3.
  destruct (inst_all_fields false A2 hws) as (G1 & G2 & G3 & G4 & G5). set (A3 := inst_all false A2 hws) in *.
  assert (cpin A3 = ∅) as G6.
  { apply set_eq. intros b. rewrite G5 /=. rewrite F4. split; [|intros Hb; by apply elem_of_empty in Hb].
    intros [(k & Hk & ->)%Hpin [?|Hw]]; [done|]. exfalso.
    apply (Hw (default 0 (lhblock s !! k), v k)); [|done]. apply elem_of_home_ws. exists k. split; [lia|done]. }
  (* clear the header *)
  apply wp_bind, wp_modify. cbn [lhblock set_cache].
  eapply wp_write_head; [exact Hr3|done|cbn; lia|cbn; rewrite /LOGSIZE; klia
    |rewrite G3; cbn; by rewrite F3|rewrite G6 size_empty; klia|done|].
  intros c4 H0 Hr4 HH0n _. cbn [lhn lstart set_lh set_cache] in Hr4, HH0n.
  exists (put_blk A3 (lstart s) H0), H, H0. cbn [cview cdisk cwrites chold cpin put_blk].
  rewrite G1 G2 G3 G4 G6. cbn [cview cdisk cwrites chold A2 put_blk]. rewrite F1 F2 F3 F5 Hh.
  rewrite /commit_ws -/n -/v -/lws -/hws !apply_ws_app. cbn [apply_ws foldl fst snd].
  rewrite -/(apply_ws hws _) !foldl_app -/(apply_ws hws _). split_and!; try done.
  by rewrite -!app_assoc.
Qed.

(** ** Recovery *)

(** The writes recovery makes: the blocks named by the header on the disk. *)
Definition rec_ws (start : Z) (d : gmap Z mem) : list (Z * mem) :=
  (λ k, (hdr_block (blk d start) k, blk d (start + k + 1))) <$> seqZ 0 (hdr_n (blk d start)).

(** The disk as recovery leaves it, up to the header. *)
Definition recovered (start : Z) (d : gmap Z mem) : gmap Z mem := apply_ws (rec_ws start d) d.

(** The header on the disk of a log of [nlog] blocks names at most LOGSIZE
    blocks, for which the log has room, outside the log. *)
Definition hdr_sane (start nlog : Z) (d : gmap Z mem) : Prop :=
  (0 ≤ hdr_n (blk d start) ≤ LOGSIZE ∧ hdr_n (blk d start) < nlog) ∧
  ∀ k, 0 ≤ k < hdr_n (blk d start) →
    0 ≤ hdr_block (blk d start) k ∧ ¬ (start ≤ hdr_block (blk d start) k < start + nlog).


Lemma wp_read_head_loop n i lh s (Q : unit → logst S → Prop) :
  0 ≤ i → i + Z.of_nat n ≤ LOGSIZE →
  (∀ bl, (∀ k, default 0 (bl !! k) =
            if decide (i ≤ k < i + Z.of_nat n) then hdr_block lh k else default 0 (lhblock s !! k)) →
     Q tt (set_lh (lhn s) bl s)) →
  wp (read_head_loop n i lh) s Q.
Proof.
  revert i s. induction n as [|n IH]; intros i s Hi Hn HQ; cbn [read_head_loop].
  - apply wp_mret. replace s with (set_lh (lhn s) (lhblock s) s) by (by destruct s). apply HQ.
    intros k. rewrite decide_False //. lia.
  - apply wp_bind, wp_lh_set; [lia|]. apply IH; [lia|lia|]. intros bl Hbl. apply (HQ bl).
    intros k. rewrite Hbl. cbn [lhblock set_lh]. destruct (decide (k = i)) as [->|].
    + rewrite decide_False; [|lia]. rewrite decide_True; [|lia]. by rewrite lookup_insert_eq.
    + rewrite lookup_insert_ne //. repeat case_decide; lia || done.
Qed.

Lemma home_ws_map n t bl v :
  home_ws n t bl v = (λ k, (default 0 (bl !! k), v k)) <$> seqZ t (Z.of_nat n).
Proof.
  revert t. induction n as [|n IH]; intros t; [done|].
  rewrite seqZ_cons; [|lia]. cbn [home_ws]. rewrite fmap_cons IH. do 2 f_equal. f_equal; lia.
Qed.

Lemma recover_spec s A :
  c_rel (lcache s) A → ldev s = ROOTDEV → 0 ≤ lstart s → lstart s + lsize s ≤ 2 ^ 32 →
  chold A = ∅ → cpin A = ∅ → hdr_sane (lstart s) (lsize s) (cdisk A) →
  (∀ k, - 2 ^ 31 ≤ default 0 (lhblock s !! k) < 2 ^ 31) →
  wp recover_from_log s (λ _ s', ∃ A' H0,
    c_rel (lcache s') A' ∧ hdr_n H0 = 0 ∧
    cview A' = <[lstart s := H0]> (apply_ws (rec_ws (lstart s) (cdisk A)) (cview A)) ∧
    cdisk A' = <[lstart s := H0]> (recovered (lstart s) (cdisk A)) ∧
    cwrites A' = cwrites A ++ rec_ws (lstart s) (cdisk A) ++ [(lstart s, H0)] ∧
    chold A' = ∅ ∧ cpin A' = ∅ ∧ lhn s' = 0 ∧
    s' = set_cache (lcache s') (set_lh 0 (lhblock s') s)).
Proof.
  intros Hr Hd Hst Hst2 Hh Hp [Hn Hb] Hint. rewrite /recover_from_log.
  assert (∀ b, blk (cview A) b = blk (cdisk A) b) as Hcl.
  { intros b. apply (c_clean _ _ _ Hr); [rewrite Hp; apply not_elem_of_empty|by apply not_held_empty]. }
  set (h := blk (cdisk A) (lstart s)) in *.
  (* read_head *)
  apply wp_bind. rewrite /read_head. apply wp_bind, wp_get. rewrite Hd.
  change (u32 ROOTDEV) with ROOTDEV. rewrite u32_small; [|klia].
  apply wp_bind. eapply wp_bread; [exact Hr|by apply not_held_empty|right; rewrite busy_empty // Hp size_empty; klia|].
  intros i1 c1 Hr1 Hi1. apply wp_bind. eapply wp_data; [exact Hr1|cbn; by rewrite lookup_insert_eq|].
  cbn [cview hold_blk]. rewrite Hcl -/h. apply wp_bind, wp_modify.
  apply wp_bind, wp_read_head_loop; [lia|lia|]. intros bl Hbl. cbn [lhn set_lh set_cache lhblock] in Hbl |- *.
  eapply wp_brelse; [exact Hr1|cbn; by rewrite lookup_insert_eq|right; apply Hcl|].
  intros c2 Hr2. rewrite unhold_hold // in Hr2.
  (* install_trans *)
  set (n := Z.to_nat (hdr_n h)) in *. assert (Z.of_nat n = hdr_n h) as En by lia.
  assert (∀ k, 0 ≤ k < hdr_n h → default 0 (bl !! k) = hdr_block h k) as Hblk.
  { intros k Hk. rewrite Hbl decide_True //. lia. }
  apply wp_bind. rewrite /install_trans. apply wp_bind, wp_gets. cbn [lhn set_lh set_cache]. rewrite -/n.
  apply (wp_install_loop n 0 true _ A (λ k, blk (cdisk A) (lstart s + k + 1))).
  { split; cbn; rewrite ?En; try done; [lia|..].
    - intros k Hk. rewrite Hblk //. destruct (Hb k Hk). split; [|done]. split; [done|apply s32_range].
    - intros b _. rewrite Hp. apply not_elem_of_empty. }
  { done. }
  { rewrite Hp size_empty. klia. }
  { intros k Hk. cbn. apply Hcl. }
  intros c3 Hr3. cbn [lhblock set_lh set_cache] in Hr3. rewrite home_ws_map En in Hr3.
  assert ((λ k, (default 0 (bl !! k), blk (cdisk A) (lstart s + k + 1))) <$> seqZ 0 (hdr_n h) =
    rec_ws (lstart s) (cdisk A)) as Ews.
  { apply list_fmap_ext. intros j k Hk%list_elem_of_lookup_2. rewrite elem_of_seqZ in Hk. rewrite Hblk //. }
  rewrite Ews in Hr3. set (ws := rec_ws (lstart s) (cdisk A)) in *.
  destruct (inst_all_fields true A ws) as (G1 & G2 & G3 & G4 & G5). set (A3 := inst_all true A ws) in *.
  assert (cpin A3 = ∅) as G6 by (apply set_eq; intros b; rewrite G5 Hp; set_solver).
  (* clear the header *)
  apply wp_bind, wp_modify.
  eapply wp_write_head; [exact Hr3|done|cbn; klia|cbn; klia|by rewrite G3|rewrite G6 size_empty; klia| |].
  { intros k. cbn. rewrite Hbl. destruct (decide _); [apply s32_range|apply Hint]. }
  intros c4 H0 Hr4 HH0n _. cbn [lhn lstart set_lh set_cache] in Hr4, HH0n.
  exists (put_blk A3 (lstart s) H0), H0. cbn [cview cdisk cwrites chold cpin put_blk].
  rewrite G1 G2 G3 G4 G6 Hh. split_and!; try done. by rewrite -app_assoc.
Qed.

(** ** Crashes *)

Lemma blk_apply_ext ws d1 d2 b :
  (∃ w, w ∈ ws ∧ w.1 = b) ∨ blk d1 b = blk d2 b → blk (apply_ws ws d1) b = blk (apply_ws ws d2) b.
Proof.
  revert d1 d2. induction ws as [|w ws IH]; intros d1 d2 Hb; cbn.
  - destruct Hb as [(w & Hw & _)|?]; [by apply elem_of_nil in Hw|done].
  - apply IH. destruct (decide (w.1 = b)) as [<-|Hne]; [right; by rewrite !blk_insert_eq|].
    destruct Hb as [(w' & [->|Hw']%elem_of_cons & E)|E]; [done|left; by exists w'|right].
    by rewrite !blk_insert_ne.
Qed.

Lemma take_in {X} k (l : list X) x : x ∈ take k l → x ∈ l.
Proof. rewrite -{2}(take_drop k l) elem_of_app. by left. Qed.

Lemma rec_ws_empty start d : hdr_n (blk d start) = 0 → rec_ws start d = [].
Proof. intros E. by rewrite /rec_ws E. Qed.

Section crash.
Context (s : logst S) (A : cache) (H H0 : mem).
Hypothesis (Htx : txn s A) (Hn : 0 < lhn s) (HH : hdr_ok s H) (HH0 : hdr_n H0 = 0).
Hypothesis Hempty : hdr_n (blk (cdisk A) (lstart s)) = 0.

Let n := Z.to_nat (lhn s).
Let v k := blk (cview A) (default 0 (lhblock s !! k)).
Let lws := log_ws n (lstart s) 0 v.
Let hws := home_ws n 0 (lhblock s) v.
Definition not_log (b : Z) : Prop := ¬ (lstart s ≤ b < lstart s + lsize s).

Lemma lws_in w : w ∈ lws → lstart s < w.1 < lstart s + lsize s.
Proof using All.
  intros (k & Hk & ->)%elem_of_log_ws. destruct Htx as [[_ _ _ _ Hr _ _] _ _ _ _]. cbn. lia.
Qed.
Lemma hws_in w : w ∈ hws → not_log w.1.
Proof using All.
  intros (k & Hk & ->)%elem_of_home_ws. destruct Htx as [[_ _ _ _ Hr Hh _] _ _ _ _]. cbn.
  apply Hh. lia.
Qed.
Lemma start_log : ¬ not_log (lstart s).
Proof using All. destruct Htx as [[_ _ _ _ Hr _ _] _ _ _ _]. rewrite /not_log. lia. Qed.

(** Until the header is written the old state survives. *)
Lemma crash_old k :
  (k ≤ n)%nat → let d := apply_ws (take k (commit_ws s A H H0)) (cdisk A) in
  hdr_sane (lstart s) (lsize s) d ∧ ∀ b, not_log b → blk (recovered (lstart s) d) b = blk (cdisk A) b.
Proof using All.
  intros Hk d. assert (d = apply_ws (take k lws) (cdisk A)) as Ed.
  { rewrite /d /commit_ws -/n -/v -/lws take_app_le // length_log_ws //. }
  assert (blk d (lstart s) = blk (cdisk A) (lstart s)) as Est.
  { rewrite Ed. apply blk_apply_out. intros w Hw%take_in%lws_in. lia. }
  split.
  - destruct Htx as [[_ _ _ _ Hr _ _] _ _ _ _]. rewrite /hdr_sane Est Hempty. split; [klia|lia].
  - intros b Hb. rewrite /recovered rec_ws_empty ?Est // Ed. cbn. apply blk_apply_out.
    intros w Hw%take_in%lws_in. rewrite /not_log in Hb. lia.
Qed.

(** The blocks of the new state. *)
Lemma new_state ws d :
  (∀ w, w ∈ ws → w ∈ hws) → (∀ b, not_log b → b ∉ cpin A → blk d b = blk (cdisk A) b) →
  ∀ b, not_log b → (b ∈ cpin A → ∃ w, w ∈ ws ∧ w.1 = b) → blk (apply_ws ws d) b = blk (cview A) b.
Proof using All.
  intros Hws Hd b Hb Hin. destruct (decide (b ∈ cpin A)) as [Hp|Hp].
  - apply blk_apply_in; [by apply Hin|].
    intros w (k & Hk & ->)%Hws%elem_of_home_ws E. cbn in *. by rewrite /v E.
  - rewrite blk_apply_out.
    + rewrite Hd //. destruct Htx as [[Hr _ _ Hh _ _ _] _ _ _ _]. symmetry.
      apply (c_clean _ _ _ Hr); [done|by apply not_held_empty].
    + intros w (k & Hk & ->)%Hws%elem_of_home_ws E. cbn in E. apply Hp.
      destruct Htx as [_ Hpin _ _ _]. apply Hpin. exists k. split; [lia|done].
Qed.

Lemma pinned_home b : b ∈ cpin A → ∃ w, w ∈ hws ∧ w.1 = b.
Proof using All.
  destruct Htx as [_ Hpin _ _ _]. intros (k & Hk & ->)%Hpin.
  exists (default 0 (lhblock s !! k), v k). split; [|done]. apply elem_of_home_ws. exists k. split; [lia|done].
Qed.

(** The disk with the whole log and the header written. *)
Lemma logged_disk j :
  let d := apply_ws (take j hws) (<[lstart s := H]> (apply_ws lws (cdisk A))) in
  blk d (lstart s) = H ∧ (∀ k, 0 ≤ k < lhn s → blk d (lstart s + k + 1) = v k) ∧
  (∀ b, not_log b → b ∉ cpin A → blk d b = blk (cdisk A) b).
Proof using All.
  intros d. assert (∀ b, ¬ not_log b → blk d b = blk (<[lstart s := H]> (apply_ws lws (cdisk A))) b) as Hlog.
  { intros b Hb. apply blk_apply_out. intros w Hw%take_in%hws_in <-. done. }
  destruct Htx as [[_ _ _ _ Hr _ _] Hpin _ _ _]. split_and!.
  - rewrite Hlog; [|apply start_log]. apply blk_insert_eq.
  - intros k Hk. rewrite Hlog; [|rewrite /not_log; klia]. rewrite blk_insert_ne; [|lia].
    apply blk_log_ws. lia.
  - intros b Hb Hp. rewrite /d blk_apply_out.
    + rewrite blk_insert_ne; [|intros ->; by apply start_log in Hb].
      apply blk_apply_out. intros w Hw%lws_in E. rewrite /not_log in Hb. lia.
    + intros w (k & Hk & ->)%take_in%elem_of_home_ws E. cbn in E. apply Hp, Hpin. exists k.
      split; [lia|done].
Qed.

(** From the header on, the new state is recovered. *)
Lemma crash_new k :
  (n < k)%nat → let d := apply_ws (take k (commit_ws s A H H0)) (cdisk A) in
  hdr_sane (lstart s) (lsize s) d ∧ ∀ b, not_log b → blk (recovered (lstart s) d) b = blk (cview A) b.
Proof using All.
  intros Hk d. destruct HH as [HHn HHb].
  assert (d = apply_ws (take (k - n - 1) (hws ++ [(lstart s, H0)])) (<[lstart s := H]> (apply_ws lws (cdisk A)))) as Ed.
  { rewrite /d /commit_ws -/n -/v -/lws -/hws. rewrite take_app_ge; [|rewrite length_log_ws; lia].
    rewrite length_log_ws. destruct (k - n)%nat as [|j] eqn:Ej; [lia|].
    replace (Datatypes.S j - 1)%nat with j by lia. by rewrite apply_ws_app. }
  destruct (decide (k - n - 1 ≤ n)%nat) as [Hj|Hj].
  - rewrite take_app_le in Ed; [|rewrite length_home_ws; lia].
    destruct (logged_disk (k - n - 1)) as (E1 & E2 & E3). rewrite -Ed in E1, E2, E3.
    destruct Htx as [[_ _ _ _ Hr Hhome _] _ _ _ _].
    assert (rec_ws (lstart s) d = hws) as Ews.
    { rewrite /rec_ws E1 HHn /hws home_ws_map. rewrite /n Z2Nat.id; [|lia]. apply list_fmap_ext.
      intros i x Hx%list_elem_of_lookup_2. rewrite elem_of_seqZ in Hx. rewrite HHb; [|lia]. rewrite E2 //. }
    split.
    + rewrite /hdr_sane E1 HHn. split; [lia|]. intros i Hi. rewrite HHb //. destruct (Hhome i); [lia|].
      split; [lia|done].
    + intros b Hb. rewrite /recovered Ews. apply new_state; [done|done|done|apply pinned_home].
  - rewrite take_ge in Ed; [|rewrite length_app length_home_ws /=; lia].
    rewrite apply_ws_app in Ed. cbn in Ed.
    assert (hdr_n (blk d (lstart s)) = 0) as E0 by (rewrite Ed blk_insert_eq; done).
    destruct (logged_disk 0) as (_ & _ & E3). cbn in E3.
    split; [destruct Htx as [[_ _ _ _ Hr _ _] _ _ _ _]; rewrite /hdr_sane E0; split; [klia|lia]|]. intros b Hb.
    rewrite /recovered rec_ws_empty //. cbn. rewrite Ed blk_insert_ne; [|intros ->; by apply start_log in Hb].
    apply new_state; [done|done|done|apply pinned_home].
Qed.
End crash.
End loginv.
