(* ===== verification/Crash.v ===== *)
(** * Transactions: logging blocks, committing, crashing, recovering

    [log_write] builds a transaction, [commit] writes it, and a crash at any
    point followed by recovery yields all of it or nothing. *)
From S2P Require Import Prelude Riscv Cache Log LogInv Bio BioInv.

Section crash.
Context {S : Type} {BC : BlockCache S}.
Implicit Types (s : logst S) (A : cache).

Abbreviation lblk s k := (default 0 (lhblock s !! k)).

(** ** A transaction in progress *)

Record tx_inv s A : Prop := {
  ti_rel : c_rel (lcache s) A;
  ti_dev : ldev s = ROOTDEV;
  ti_start : 0 ≤ lstart s ∧ lstart s + lsize s ≤ 2 ^ 32;
  ti_n : 0 ≤ lhn s ≤ LOGSIZE ∧ lhn s < lsize s;
  ti_home : ∀ k, 0 ≤ k < lhn s → 0 ≤ lblk s k < 2 ^ 31 ∧ not_log s (lblk s k);
  ti_pin : ∀ b, b ∈ cpin A ↔ ∃ k, 0 ≤ k < lhn s ∧ b = lblk s k;
  ti_inj : ∀ k k', 0 ≤ k < lhn s → 0 ≤ k' < lhn s → lblk s k = lblk s k' → k = k';
  ti_int : ∀ k, - 2 ^ 31 ≤ lblk s k < 2 ^ 31;
}.

Lemma tx_size s A : tx_inv s A → Z.of_nat (size (cpin A)) ≤ lhn s.
Proof.
  intros [_ _ _ Hn _ Hp Hinj _].
  assert (cpin A ⊆ list_to_set ((λ k, lblk s k) <$> seqZ 0 (lhn s))) as Hsub.
  { intros b (k & Hk & ->)%Hp. apply elem_of_list_to_set, list_elem_of_fmap. exists k.
    split; [done|]. apply elem_of_seqZ. lia. }
  apply subseteq_size in Hsub. rewrite size_list_to_set in Hsub.
  - rewrite length_fmap length_seqZ in Hsub. lia.
  - apply NoDup_fmap_2_strong; [|apply NoDup_seqZ]. intros k k' Hk Hk'.
    rewrite !elem_of_seqZ in Hk, Hk'. apply Hinj; lia.
Qed.

Lemma tx_txn s A : tx_inv s A → chold A = ∅ → lhn s < NBUF → txn s A.
Proof.
  intros Htx Hh Hn. pose proof (tx_size _ _ Htx) as Hsz. destruct Htx. split; try done; [|lia].
  split; try done; try lia. intros b Hb (k & Hk & ->)%ti_pin0. by destruct (ti_home0 k Hk).
Qed.

(** ** [log_write] *)

Lemma absorb_run n i b s :
  0 ≤ i → i + Z.of_nat n ≤ LOGSIZE → (∀ k, i ≤ k < i + Z.of_nat n → 0 ≤ lblk s k < 2 ^ 31) →
  ∃ j, absorb n i b s = Ret j s ∧ i ≤ j ≤ i + Z.of_nat n ∧
    (∀ k, i ≤ k < j → lblk s k ≠ b) ∧ (j < i + Z.of_nat n → lblk s j = b).
Proof.
  revert i. induction n as [|n IH]; intros i Hi Hn Hb; cbn [absorb].
  - exists i. split_and!; [done|lia..].
  - assert (lh_get i s = Ret (lblk s i) s) as E.
    { rewrite /lh_get. by destruct (Z.leb_spec 0 i), (Z.ltb_spec i LOGSIZE); try lia. }
    rewrite (bind_ret _ _ _ _ _ E). rewrite u32_small; [|specialize (Hb i); lia].
    destruct (Z.eqb_spec (lblk s i) b) as [Eb|Hne].
    + exists i. split_and!; try done; lia.
    + destruct (IH (i + 1)) as (j & Ej & Hj & Hnone & Hfound); [lia|lia|intros; apply Hb; lia|].
      exists j. split_and!; [done|lia|lia| |intros; apply Hfound; lia].
      intros k Hk. destruct (decide (k = i)) as [->|]; [done|]. apply Hnone. lia.
Qed.

Lemma log_write_spec s A i b :
  tx_inv s A → chold A !! i = Some b → 0 ≤ b < 2 ^ 31 → not_log s b → 1 ≤ outstanding s →
  lhn s < lsize s - 1 → lhn s < LOGSIZE →
  wp (log_write i) s (λ _ s', ∃ A', tx_inv s' A' ∧ A' = (if decide (b ∈ cpin A) then A else pin A b) ∧
    lhn s' = lhn s + (if decide (b ∈ cpin A) then 0 else 1) ∧
    lstart s' = lstart s ∧ lsize s' = lsize s ∧ outstanding s' = outstanding s ∧ committing s' = committing s).
Proof.
  intros Htx Hi Hb Hnl Hout Hsz Hn. pose proof Htx as [Hr Hd Hst Hnr Hhome Hpin Hinj Hint].
  rewrite /log_write. apply wp_bind, wp_get.
  destruct (Z.geb_spec (lhn s) LOGSIZE); [lia|]. destruct (Z.geb_spec (lhn s) (lsize s - 1)); [lia|]. cbn [orb].
  destruct (Z.ltb_spec (outstanding s) 1); [lia|].
  apply wp_bind. eapply wp_blockno; [exact Hr|exact Hi|]. apply wp_bind.
  destruct (absorb_run (Z.to_nat (lhn s)) 0 b s) as (j & Ej & Hj & Hnone & Hfound); [lia|lia| |].
  { intros k Hk. apply Hhome. lia. }
  rewrite Z2Nat.id in Hj, Hfound; [|lia..]. eapply wp_ret; [exact Ej|].
  apply wp_bind, wp_lh_set; [lia|]. rewrite s32_small; [|lia].
  set (s1 := set_lh _ _ s).
  assert (∀ k, lblk s1 k = if decide (k = j) then b else lblk s k) as Hl1.
  { intros k. cbn. destruct (decide (k = j)) as [->|]; [by rewrite lookup_insert_eq|by rewrite lookup_insert_ne]. }
  destruct (Z.eqb_spec j (lhn s)) as [->|Hne].
  - (* a new block *)
    assert (b ∉ cpin A) as Hnp.
    { intros (k & Hk & Eb)%Hpin. by apply (Hnone k). }
    apply wp_bind. eapply wp_bpin; [exact Hr|exact Hi|done|]. intros c Hc. apply wp_modify.
    exists (pin A b). rewrite !decide_False //. split_and!; try done.
    set (s2 := set_lh _ _ (set_cache c s1)).
    assert (∀ k, lblk s2 k = if decide (k = lhn s) then b else lblk s k) as Hl2 by exact Hl1.
    split; try done; change (lhn s2) with (lhn s + 1); change (lsize s2) with (lsize s); try lia.
    + intros k Hk. change (not_log s2) with (not_log s). rewrite Hl2. destruct (decide _); [done|]. apply Hhome. lia.
    + intros b'. cbn [cpin pin]. rewrite elem_of_union elem_of_singleton Hpin. split.
      * intros [->|(k & Hk & ->)].
        { exists (lhn s). rewrite Hl2 decide_True //. split; [lia|done]. }
        exists k. rewrite Hl2 decide_False; [split; [lia|done]|lia].
      * intros (k & Hk & ->). rewrite Hl2. destruct (decide (k = lhn s)); [by left|]. right. exists k.
        split; [lia|done].
    + intros k k' Hk Hk'. rewrite !Hl2. destruct (decide (k = lhn s)), (decide (k' = lhn s)); try lia.
      * intros E. symmetry in E. by destruct (Hnone k'); [lia|].
      * intros E. by destruct (Hnone k); [lia|].
      * apply Hinj; lia.
    + intros k. rewrite Hl2. destruct (decide _); [lia|apply Hint].
  - (* absorbed *)
    assert (lblk s j = b) as Ejb by (apply Hfound; lia).
    assert (b ∈ cpin A) as Hp by (apply Hpin; exists j; split; [lia|done]).
    apply wp_mret. exists A. rewrite !decide_True // Z.add_0_r. split_and!; try done.
    assert (∀ k, lblk s1 k = lblk s k) as Hl2.
    { intros k. rewrite Hl1. by destruct (decide (k = j)) as [->|]. }
    split; try done; change (lhn s1) with (lhn s); change (not_log s1) with (not_log s);
      intros *; rewrite ?Hl2; auto.
    setoid_rewrite Hl2. apply Hpin.
Qed.

(** ** Crash and recovery *)

(** A kernel that has booted on the disk [d] with its log of [nlog] blocks
    at [start]. *)
Record booted s0 (d : gmap Z mem) (start nlog : Z) : Prop := {
  bt_rel : ∃ w0, c_rel (lcache s0) (mk_cache d d ∅ ∅ w0);
  bt_dev : ldev s0 = ROOTDEV;
  bt_start : lstart s0 = start;
  bt_size : lsize s0 = nlog;
  bt_lh : lhblock s0 = ∅;
}.

Lemma recover_at s0 d start nlog w0 :
  booted s0 d start nlog → c_rel (lcache s0) (mk_cache d d ∅ ∅ w0) → hdr_sane start nlog d → 0 ≤ start → start + nlog ≤ 2 ^ 32 →
  ∃ s1 A1 H0, recover_from_log s0 = Ret tt s1 ∧ c_rel (lcache s1) A1 ∧ hdr_n H0 = 0 ∧
    cview A1 = <[start := H0]> (recovered start d) ∧ cdisk A1 = <[start := H0]> (recovered start d) ∧
    cwrites A1 = w0 ++ rec_ws start d ++ [(start, H0)].
Proof.
  intros [_ Hd Hst Hsz Hlh] Hr Hs H0 H1.
  destruct (recover_spec s0 (mk_cache d d ∅ ∅ w0)) as (u & s1 & E & A1 & h & Hr1 & Hh & Ev & Ed & Ew & _);
    try done; rewrite ?Hst ?Hsz //.
  { intros k. rewrite Hlh lookup_empty. cbn. lia. }
  destruct u. exists s1, A1, h. rewrite Hst in Ev, Ed, Ew. by split_and!.
Qed.
Lemma recover_booted s0 d start nlog :
  booted s0 d start nlog → hdr_sane start nlog d → 0 ≤ start → start + nlog ≤ 2 ^ 32 →
  ∃ s1 A1 H0, recover_from_log s0 = Ret tt s1 ∧ c_rel (lcache s1) A1 ∧ hdr_n H0 = 0 ∧
    cview A1 = <[start := H0]> (recovered start d) ∧ cdisk A1 = <[start := H0]> (recovered start d).
Proof.
  intros Hb Hs H0 H1. destruct (bt_rel _ _ _ _ Hb) as (w0 & Hr).
  destruct (recover_at s0 d start nlog w0 Hb Hr Hs H0 H1) as (s1 & A1 & h & E & Hr1 & Hh & Ev & Ed & _). by exists s1, A1, h.
Qed.

(** C1. Crash atomicity.  Committing a transaction returns, and leaves the
    disk with the contents every block has in memory.  Let the machine stop
    after any number [k] of the disk writes of the commit, reboot, and run
    [recover_from_log] over any implementation of the buffer cache: recovery
    returns, and every block outside the log has, on the disk and in memory,
    its contents from before the transaction if at most as many writes as
    there are blocks in the transaction were made, and its new contents
    otherwise.  No mixture of the two is possible. *)
Theorem commit_crash_atomic s A :
  txn s A → 0 < lhn s → hdr_n (blk (cdisk A) (lstart s)) = 0 →
  ∃ s' A' ws, commit s = Ret tt s' ∧ c_rel (lcache s') A' ∧ cwrites A' = cwrites A ++ ws ∧
    (∀ b, not_log s b → blk (cdisk A') b = blk (cview A) b ∧ blk (cview A') b = blk (cview A) b) ∧
    ∀ k s0, booted s0 (apply_ws (take k ws) (cdisk A)) (lstart s) (lsize s) →
      ∃ s1 A1, recover_from_log s0 = Ret tt s1 ∧ c_rel (lcache s1) A1 ∧
        ∀ b, not_log s b →
          blk (cdisk A1) b = (if decide (Z.of_nat k ≤ lhn s) then blk (cdisk A) b else blk (cview A) b) ∧
          blk (cview A1) b = blk (cdisk A1) b.
Proof.
  intros Htx Hn Hempty. pose proof Htx as [[_ _ Hst _ _ _ _] _ _ _ _].
  destruct (commit_spec s A Htx Hn) as (u & s' & E & A' & H & H0 & Hr & HH & HH0 & Ev & Ed & Ew & Hh' & Hp' & _).
  destruct u. exists s', A', (commit_ws s A H H0). split_and!; try done.
  - intros b Hb. assert (blk (cview A') b = blk (cdisk A') b) as ->.
    { apply (c_clean _ _ _ Hr); [rewrite Hp'; apply not_elem_of_empty|by apply not_held_empty]. }
    destruct (crash_new s A H H0 Htx Hn HH HH0 Hempty (length (commit_ws s A H H0))) as [_ Hnew].
    { rewrite /commit_ws length_app length_log_ws. cbn. lia. }
    rewrite take_ge // -Ed in Hnew. specialize (Hnew b Hb).
    rewrite -Hnew. rewrite /recovered rec_ws_empty //. rewrite Ed /commit_ws.
    rewrite app_comm_cons app_assoc apply_ws_app. cbn. by rewrite blk_insert_eq.
  - intros k s0 Hb0.
    assert (hdr_sane (lstart s) (lsize s) (apply_ws (take k (commit_ws s A H H0)) (cdisk A)) ∧
      ∀ b, not_log s b → blk (recovered (lstart s) (apply_ws (take k (commit_ws s A H H0)) (cdisk A))) b =
        if decide (Z.of_nat k ≤ lhn s) then blk (cdisk A) b else blk (cview A) b) as [Hs Hb].
    { destruct (decide (Z.of_nat k ≤ lhn s)).
      - apply (crash_old s A H H0 Htx Hn HH HH0 Hempty). lia.
      - apply (crash_new s A H H0 Htx Hn HH HH0 Hempty). lia. }
    destruct (recover_booted s0 _ _ _ Hb0 Hs) as (s1 & A1 & h & E1 & Hr1 & Hh1 & Ev1 & Ed1); [lia|lia|].
    exists s1, A1. split_and!; try done. intros b Hbl. rewrite Ev1 Ed1. split; [|done].
    rewrite blk_insert_ne; [by apply Hb|]. intros ->. apply Hbl.
    destruct Htx as [[_ _ _ _ Hrg _ _] _ _ _ _]. lia.
Qed.

Lemma rec_ws_idem start nlog d j :
  hdr_sane start nlog d → rec_ws start (apply_ws (take j (rec_ws start d)) d) = rec_ws start d.
Proof.
  intros [Hn Hb]. set (d' := apply_ws _ d).
  assert (∀ b, start ≤ b < start + nlog → blk d' b = blk d b) as Hlog.
  { intros b Hr. apply blk_apply_out. intros w Hw%take_in. apply list_elem_of_fmap in Hw as (k & -> & Hk).
    rewrite elem_of_seqZ in Hk. cbn. destruct (Hb k ltac:(lia)). lia. }
  rewrite /rec_ws Hlog; [|klia]. apply list_fmap_ext. intros i k Hk%list_elem_of_lookup_2.
  rewrite elem_of_seqZ in Hk. rewrite Hlog //. lia.
Qed.

(** C30. Recovery tolerates crashes.  Let [recover_from_log] run on a disk
    with a sane header: it returns, its disk writes [ws] install every block
    of the log at its place and then empty the header.  Let it stop instead
    after any number [j] of these writes, and let the machine reboot and
    recover again: the header on the disk is still sane, the second recovery
    returns and leaves every block outside the log, on the disk and in memory,
    as the uninterrupted first one does. *)
Theorem recovery_idempotent s0 w0 d start nlog :
  booted s0 d start nlog → c_rel (lcache s0) (mk_cache d d ∅ ∅ w0) → hdr_sane start nlog d → 0 ≤ start → start + nlog ≤ 2 ^ 32 →
  ∃ s1 A1 ws, recover_from_log s0 = Ret tt s1 ∧ c_rel (lcache s1) A1 ∧ cwrites A1 = w0 ++ ws ∧ cdisk A1 = apply_ws ws d ∧
    hdr_n (blk (cdisk A1) start) = 0 ∧
    (∀ b, ¬ (start ≤ b < start + nlog) → blk (cdisk A1) b = blk (recovered start d) b) ∧
    ∀ j s2, booted s2 (apply_ws (take j ws) d) start nlog →
      hdr_sane start nlog (apply_ws (take j ws) d) ∧
      ∃ s3 A3, recover_from_log s2 = Ret tt s3 ∧ c_rel (lcache s3) A3 ∧
        ∀ b, ¬ (start ≤ b < start + nlog) →
          blk (cdisk A3) b = blk (cdisk A1) b ∧ blk (cview A3) b = blk (cdisk A1) b.
Proof.
  intros Hb Hr0 Hs H0 H1. pose proof (proj1 Hs) as Hnl. destruct (recover_at s0 d start nlog w0 Hb Hr0 Hs H0 H1)
    as (s1 & A1 & h & E1 & Hr1 & Hh1 & Ev1 & Ed1 & Ew1).
  exists s1, A1, (rec_ws start d ++ [(start, h)]). split_and!; try done; [by rewrite Ed1 apply_ws_app|by rewrite Ed1 blk_insert_eq| |].
  { intros b Hbl. rewrite Ed1 blk_insert_ne //. intros ->. klia. }
  intros j s2 Hb2.
  assert (hdr_sane start nlog (apply_ws (take j (rec_ws start d ++ [(start, h)])) d) ∧
    ∀ b, ¬ (start ≤ b < start + nlog) →
      blk (recovered start (apply_ws (take j (rec_ws start d ++ [(start, h)])) d)) b = blk (recovered start d) b)
    as [Hs2 Hb3].
  { destruct (decide (j ≤ length (rec_ws start d))%nat) as [Hj|Hj].
    - rewrite take_app_le //. pose proof (rec_ws_idem start nlog d j Hs) as Ews.
      assert (blk (apply_ws (take j (rec_ws start d)) d) start = blk d start) as Est.
      { apply blk_apply_out. intros w Hw%take_in. apply list_elem_of_fmap in Hw as (k & -> & Hk).
        rewrite elem_of_seqZ in Hk. cbn. destruct (proj2 Hs k ltac:(lia)). klia. }
      split; [by rewrite /hdr_sane Est|]. intros b Hbl. rewrite /recovered Ews. apply blk_apply_ext.
      destruct (decide (Exists (λ w, w.1 = b) (rec_ws start d))) as [(w & Hw & E)%Exists_exists|Hn].
      + left. by exists w.
      + right. apply blk_apply_out. intros w Hw%take_in E. apply Hn, Exists_exists. by exists w.
    - rewrite take_ge; [|rewrite length_app /=; lia]. rewrite apply_ws_app. cbn.
      set (d' := <[start := h]> _). assert (hdr_n (blk d' start) = 0) as E0 by (by rewrite blk_insert_eq).
      split; [rewrite /hdr_sane E0; split; [klia|lia]|]. intros b Hbl.
      rewrite /recovered rec_ws_empty //. cbn. rewrite /d' blk_insert_ne //. intros ->. klia. }
  destruct (recover_booted s2 _ _ _ Hb2 Hs2 H0 H1) as (s3 & A3 & h3 & E3 & Hr3 & _ & Ev3 & Ed3).
  split; [exact Hs2|]. exists s3, A3. split_and!; try done. intros b Hbl. assert (b ≠ start) by (intros ->; klia).
  rewrite Ev3 Ed3 Ed1 !blk_insert_ne //. by rewrite Hb3.
Qed.

(** [log_write] in a transaction with room: it returns, adds the block to
    the transaction and pins it, or finds it already there (absorption) and
    changes nothing; the blocks of the transaction stay distinct, outside the
    log and exactly the pinned ones.  Without room, or outside a transaction,
    it panics. *)
Theorem log_write_correct s A i b :
  tx_inv s A → chold A !! i = Some b → 0 ≤ b < 2 ^ 31 → not_log s b →
  if decide (LOGSIZE ≤ lhn s ∨ lsize s - 1 ≤ lhn s) then log_write i s = Panic "too big a transaction"
  else if decide (outstanding s < 1) then log_write i s = Panic "log_write outside of trans"
  else ∃ s' A', log_write i s = Ret tt s' ∧ tx_inv s' A' ∧ chold A' = chold A ∧ cview A' = cview A ∧
    (b ∈ cpin A → A' = A ∧ lhn s' = lhn s) ∧ (b ∉ cpin A → cpin A' = {[b]} ∪ cpin A ∧ lhn s' = lhn s + 1).
Proof.
  intros Htx Hi Hb Hnl. destruct (decide (LOGSIZE ≤ lhn s ∨ lsize s - 1 ≤ lhn s)) as [Hfull|Hroom].
  { rewrite /log_write bind_get. by destruct (Z.geb_spec (lhn s) LOGSIZE), (Z.geb_spec (lhn s) (lsize s - 1)); try lia. }
  destruct (decide (outstanding s < 1)).
  { rewrite /log_write bind_get. destruct (Z.geb_spec (lhn s) LOGSIZE), (Z.geb_spec (lhn s) (lsize s - 1)); try lia.
    by destruct (Z.ltb_spec (outstanding s) 1); [|lia]. }
  destruct (log_write_spec s A i b) as (u & s' & E & A' & Htx' & EA & En & _); try done; [lia..|].
  destruct u. exists s', A'. split_and!; try done.
  - rewrite EA. by destruct (decide _).
  - rewrite EA. by destruct (decide _).
  - intros Hin. rewrite decide_True // in EA. rewrite decide_True // Z.add_0_r in En. done.
  - intros Hin. rewrite decide_False // in EA. rewrite decide_False // in En. by rewrite EA.
Qed.
(** ** The reservations of [begin_op] *)

(** What a system call does to change block [b] *)
Definition update_block (b : Z) (f : mem → mem) : M (logst S) unit :=
  i ← onc (c_bread ROOTDEV b);
  onc (c_store i f);;
  log_write i;;
  onc (c_brelse i).
Fixpoint update_blocks (bs : list Z) (f : mem → mem) : M (logst S) unit :=
  match bs with
  | [] => mret tt
  | b :: bs' => update_block b f;; update_blocks bs' f
  end.

(** Between two changes in a transaction *)
Definition tx_idle s A : Prop := tx_inv s A ∧ chold A = ∅ ∧ 1 ≤ outstanding s ∧ lsize s = LOGSIZE.
Lemma tx_read s A b f :
  tx_idle s A → lhn s < NBUF →
  ∃ i s2, (∀ X (k : Z → M (logst S) X), (i ← onc (c_bread ROOTDEV b); onc (c_store i f);; k i) s = k i s2) ∧
    tx_inv s2 (set_view (hold_blk A i b) b (f (blk (cview A) b))) ∧ chold A !! i = None ∧
    lhn s2 = lhn s ∧ lstart s2 = lstart s ∧ lsize s2 = lsize s ∧ outstanding s2 = outstanding s.
Proof.
  intros (Htx & Hh & _ & _) Hn. pose proof (tx_size _ _ Htx) as Hsz.
  destruct (c_bread_spec (lcache s) A b (ti_rel _ _ Htx)) as (i & c1 & E1 & Hr1 & Hi); [by apply not_held_empty|right; rewrite busy_empty //; lia|].
  destruct (c_store_spec c1 _ i b f Hr1) as (c2 & E2 & Hr2); [cbn; by rewrite lookup_insert_eq|].
  assert (onc (c_bread ROOTDEV b) s = Ret i (set_cache c1 s)) as F1 by (by rewrite /onc /lift E1).
  assert (onc (c_store i f) (set_cache c1 s) = Ret tt (set_cache c2 s)) as F2 by (by rewrite /onc /lift E2).
  exists i, (set_cache c2 s). split_and!; try done.
  - intros X k. by rewrite (bind_ret _ _ _ _ _ F1) (bind_ret _ _ _ _ _ F2).
  - destruct Htx. by split.
Qed.
Lemma update_block_spec s A b f :
  tx_idle s A → 0 ≤ b < 2 ^ 31 → not_log s b → b ∉ cpin A → lhn s < LOGSIZE - 1 →
  wp (update_block b f) s (λ _ s', ∃ A', tx_idle s' A' ∧ cpin A' = {[b]} ∪ cpin A ∧ lhn s' = lhn s + 1 ∧ lstart s' = lstart s).
Proof.
  intros Hid Hb Hnl Hp Hn. pose proof Hid as (Htx & Hh & Ho & Hs). destruct (tx_read s A b f Hid) as (i & s2 & Er & Htx2 & Hi & En & Est & Esz & Eo); [klia|].
  rewrite /wp /update_block Er. fold (wp (log_write i;; onc (c_brelse i)) s2 (λ _ s', ∃ A', tx_idle s' A' ∧ cpin A' = {[b]} ∪ cpin A ∧ lhn s' = lhn s + 1 ∧ lstart s' = lstart s)).
  set (A2 := set_view _ _ _) in *. apply wp_bind. eapply wp_mono.
  { apply (log_write_spec s2 A2 i b); try done; try lia; [cbn; by rewrite lookup_insert_eq|by rewrite /not_log Est Esz]. }
  intros [] s3 (A3 & Htx3 & EA3 & En3 & Est3 & Esz3 & Eo3 & _). rewrite decide_False // in EA3. rewrite decide_False // in En3.
  eapply wp_brelse; [exact (ti_rel _ _ Htx3)|rewrite EA3; cbn; by rewrite lookup_insert_eq|left; rewrite EA3; cbn; set_solver|].
  intros c4 Hr4. exists (unhold A3 i). split_and!; cbn [lhn lstart set_cache]; [|by rewrite EA3|lia|congruence].
  split_and!; cbn [outstanding lsize set_cache]; [destruct Htx3; by split| |lia|congruence].
  rewrite EA3. cbn. rewrite delete_insert_id //.
Qed.
Lemma update_blocks_spec bs f s A :
  tx_idle s A → NoDup bs → (∀ b, b ∈ bs → 0 ≤ b < 2 ^ 31 ∧ not_log s b ∧ b ∉ cpin A) → lhn s + Z.of_nat (length bs) ≤ LOGSIZE - 1 →
  wp (update_blocks bs f) s (λ _ s', ∃ A', tx_idle s' A' ∧ lhn s' = lhn s + Z.of_nat (length bs)).
Proof.
  revert s A. induction bs as [|b bs IH]; intros s A Hid Hnd Hb Hn; cbn [update_blocks length] in *.
  { apply wp_mret. exists A. split; [done|lia]. }
  apply NoDup_cons in Hnd as [Hnb Hnd]. destruct (Hb b (list_elem_of_here _ _)) as (H1 & H2 & H3). apply wp_bind.
  eapply wp_mono; [apply (update_block_spec s A b f Hid H1 H2 H3); lia|]. intros _ s1 (A1 & Hid1 & Ep & En & Est).
  eapply wp_mono; [apply (IH s1 A1 Hid1 Hnd)|].
  - intros b' Hb'. destruct (Hb b' ltac:(by right)) as (? & Hnl & ?). destruct Hid1 as (_ & _ & _ & Hs1), Hid as (_ & _ & _ & Hs).
    split; [done|]. split; [rewrite /not_log Est Hs1 -Hs; exact Hnl|]. rewrite Ep. set_solver.
  - lia.
  - intros _ s2 (A2 & Hid2 & En2). exists A2. split; [done|lia].
Qed.
Lemma update_block_full s A b f : tx_idle s A → lhn s = LOGSIZE - 1 → update_block b f s = Panic "too big a transaction".
Proof.
  intros Hid Hn. pose proof Hid as (_ & _ & _ & Hs). destruct (tx_read s A b f Hid) as (i & s2 & Er & _ & _ & En & _ & Esz & _); [klia|].
  assert (log_write i s2 = Panic "too big a transaction") as E by (rewrite /log_write bind_get En Esz Hs Hn; reflexivity).
  rewrite /update_block Er. by rewrite (bind_panic _ _ _ _ E).
Qed.

(** C35. The log is one block short of the space [begin_op] hands out.  With
    the log mkfs makes (nlog = LOGSIZE = 30), three system calls are admitted
    together and the 30 blocks they may write are reserved.  Let them write 30
    distinct blocks outside the log, as their reservations allow: every number
    up to 29 of them is logged, and at the thirtieth [log_write] panics, because
    the header takes a block of the log.  This holds for every state of an idle
    log, over every implementation of the buffer cache. *)
Theorem log_reservation_overcommits s A bs f :
  tx_inv s A → chold A = ∅ → lhn s = 0 → outstanding s = 0 → committing s = false → lsize s = LOGSIZE →
  NoDup bs → Z.of_nat (length bs) = LOGSIZE → (∀ b, b ∈ bs → 0 ≤ b < 2 ^ 31 ∧ not_log s b) →
  ∃ s3, (begin_op;; begin_op;; begin_op) s = Ret tt s3 ∧ outstanding s3 = 3 ∧ outstanding s3 * MAXOPBLOCKS = Z.of_nat (length bs) ∧
    (∀ n, (n < length bs)%nat → ∃ s', update_blocks (take n bs) f s3 = Ret tt s' ∧ lhn s' = Z.of_nat n) ∧
    update_blocks bs f s3 = Panic "too big a transaction".
Proof.
  intros Htx Hh Hn Ho Hc Hs Hnd Hlen Hb. set (s3 := set_ops 3 false s).
  assert ((begin_op;; begin_op;; begin_op) s = Ret tt s3) as E3.
  { destruct s as [c st sz o cm dv n bl]; cbn in Hn, Ho, Hc, Hs; subst. reflexivity. }
  assert (tx_idle s3 A) as Hid by (split; [destruct Htx; by split|split_and!; [done|cbn; lia|done]]).
  assert (cpin A = ∅) as Hp. { apply elem_of_equiv_empty_L. intros b (k & Hk & _)%(ti_pin _ _ Htx). lia. }
  assert (∀ n, (n < length bs)%nat → ∃ s', update_blocks (take n bs) f s3 = Ret tt s' ∧ lhn s' = Z.of_nat n ∧ ∃ A', tx_idle s' A') as Hrun.
  { intros n Hlt. destruct (update_blocks_spec (take n bs) f s3 A Hid) as ([] & s' & E & A' & Hid' & En).
    - rewrite -(take_drop n bs) in Hnd. by apply NoDup_app in Hnd as [? _].
    - intros b Hin%take_in. destruct (Hb b Hin) as [H1 H2]. split; [done|]. split; [exact H2|]. rewrite Hp. apply not_elem_of_empty.
    - rewrite length_take. change (lhn s3) with (lhn s). lia.
    - exists s'. rewrite length_take in En. change (lhn s3) with (lhn s) in En. split_and!; [done|lia|by exists A']. }
  exists s3. split_and!; [done|done|rewrite Hlen; reflexivity| |].
  { intros n Hlt. destruct (Hrun n Hlt) as (s' & ? & ? & _). by exists s'. }
  assert (bs ≠ []) as Hne by (intros ->; discriminate Hlen). destruct (exists_last Hne) as (bs' & b & ->). rewrite length_app in Hlen, Hrun. cbn [length] in Hlen, Hrun.
  destruct (Hrun (length bs')) as (s' & E & En & A' & Hid'); [lia|]. rewrite take_app_length in E.
  assert (∀ bs1 s1, update_blocks bs1 f s1 = Ret tt s' → update_blocks (bs1 ++ [b]) f s1 = update_block b f s') as Happ.
  { clear. induction bs1 as [|b1 bs1 IH]; intros s1 E; cbn [update_blocks app] in *; unfold mbind, M_bind in *; cbv beta in *.
    - unfold mret, M_ret in E. injection E as ->. destruct (update_block b f s') as [[]| |]; done.
    - destruct (update_block b1 f s1); [by apply IH|discriminate E..]. }
  rewrite (Happ _ _ E). eapply update_block_full; [exact Hid'|lia].
Qed.
End crash.

(** ** Running the log over bio.c *)

(** The log of a fresh file system: header in block 2, nlog blocks
    (mkfs.c: nlog = LOGSIZE). *)
Definition demo_log : logst bio := mk_log demo_bio 2 LOGSIZE 0 false ROOTDEV 0 ∅.

(** A system call that changes the first byte of block [b] to [x]. *)
Definition change_block (b x : Z) : M (logst bio) unit :=
  i ← onc (bread ROOTDEV b);
  onc (bstore i (λ m, st8 m 0 x));;
  log_write i;;
  onc (brelse i).

Lemma demo_log_inv : tx_inv demo_log (mk_cache demo_disk demo_disk ∅ ∅ []).
Proof.
  split.
  - exact demo_bio_rel.
  - done.
  - cbn. klia.
  - cbn. klia.
  - intros k Hk. cbn in Hk. lia.
  - cbn. intros b. split; [intros Hb; by apply elem_of_empty in Hb|]. intros (k & ? & _). lia.
  - intros k k' Hk. cbn in Hk. lia.
  - intros k. cbn [lhblock demo_log]. rewrite lookup_empty. cbn. lia.
Qed.

(** One system call that changes block 100. *)
Definition demo_tx : logst bio := ret_state ((begin_op;; change_block 100 7) demo_log) demo_log.

Lemma demo_tx_inv :
  (begin_op;; change_block 100 7) demo_log = Ret tt demo_tx ∧ lhn demo_tx = 1 ∧ lstart demo_tx = 2 ∧ lsize demo_tx = LOGSIZE ∧
  ∃ A, tx_inv demo_tx A ∧ chold A = ∅ ∧ cdisk A = demo_disk ∧ blk (cview A) 100 = st8 ∅ 0 7.
Proof.
  set (A0 := mk_cache demo_disk demo_disk ∅ ∅ []).
  assert (wp (begin_op;; change_block 100 7) demo_log (λ _ s, lhn s = 1 ∧ lstart s = 2 ∧ lsize s = LOGSIZE ∧
    ∃ A, tx_inv s A ∧ chold A = ∅ ∧ cdisk A = demo_disk ∧ blk (cview A) 100 = st8 ∅ 0 7)) as (u & s & E & HQ).
  { apply wp_bind. rewrite /begin_op. apply wp_bind, wp_get. cbn [committing demo_log].
    match goal with |- context [?a >? ?b] => change (a >? b) with false end. apply wp_put.
    rewrite /change_block. apply wp_bind.
    eapply (wp_bread (BC := bio_cache)); [exact demo_bio_rel|by apply not_held_empty|right; vm_compute; reflexivity|].
    intros i c1 Hr1 Hi1. apply wp_bind.
    eapply (wp_store (BC := bio_cache)); [exact Hr1|cbn; by rewrite lookup_insert_eq|].
    intros c2 Hr2. set (A2 := set_view _ _ _) in Hr2. set (s2 := set_cache _ _).
    assert (tx_inv s2 A2) as Htx2.
    { destruct demo_log_inv. by split. }
    apply wp_bind. eapply wp_mono.
    { apply (log_write_spec s2 A2 i 100); try done; try (cbn; klia).
      - cbn. by rewrite lookup_insert_eq.
      - rewrite /not_log. cbn. klia. }
    intros [] s3 (A3 & Htx3 & EA3 & En3 & Est3 & Esz3 & _). revert EA3 En3.
    destruct (decide (100 ∈ cpin A2)) as [Hin|_]; [by apply not_elem_of_empty in Hin|]. intros EA3 En3.
    eapply (wp_brelse (BC := bio_cache)); [exact (ti_rel _ _ Htx3)|rewrite EA3; cbn; by rewrite lookup_insert_eq
      |left; rewrite EA3; cbn; set_solver|].
    intros c4 Hr4. split_and!; [done|done|done|]. exists (unhold A3 i). split_and!.
    - destruct Htx3. by split.
    - rewrite EA3. cbn. by rewrite delete_insert_id.
    - by rewrite EA3.
    - rewrite EA3. cbn. rewrite blk_insert_eq. done. }
  rewrite /demo_tx E. destruct u. destruct HQ as (? & ? & ? & ?). done.
Qed.
#[global] Opaque demo_tx.

Lemma commit_crash_atomic_witness :
  ∃ s' ws, commit demo_tx = Ret tt s' ∧
    ∀ k (s0 : logst bio), booted s0 (apply_ws (take k ws) demo_disk) 2 LOGSIZE →
      ∃ s1 A1, recover_from_log s0 = Ret tt s1 ∧ c_rel (lcache s1) A1 ∧
        blk (cdisk A1) 100 = if decide (Z.of_nat k ≤ 1) then ∅ else st8 ∅ 0 7.
Proof.
  destruct demo_tx_inv as (_ & Hn & Hst & Hsz & A & Htx & Hh & Hd & Hv).
  destruct (commit_crash_atomic demo_tx A) as (s' & A' & ws & E & _ & _ & _ & Hcrash).
  - apply tx_txn; [exact Htx|exact Hh|rewrite Hn; klia].
  - rewrite Hn. lia.
  - rewrite Hd Hst. vm_compute. reflexivity.
  - exists s', ws. split; [exact E|]. intros k s0 Hb. rewrite Hd Hst Hsz Hn in Hcrash.
    destruct (Hcrash k s0 Hb) as (s1 & A1 & E1 & Hr1 & Hb1). exists s1, A1. split; [exact E1|].
    split; [exact Hr1|]. destruct (Hb1 100) as [E2 _]; [rewrite /not_log Hst Hsz; klia|]. rewrite E2 Hv. done.
Defined.

(** A disk on which the last transaction, block 100, is in the log only *)
Definition crash_disk : gmap Z mem := {[2 := st32 (st32 ∅ 0 1) 4 100; 3 := st8 ∅ 0 7]}.
Definition crash_bio : bio := ret_state (binit (bio_boot crash_disk 1)) (bio_boot ∅ 0).
Definition crash_log : logst bio := mk_log crash_bio 2 LOGSIZE 0 false ROOTDEV 0 ∅.
Lemma crash_bio_rel : bio_rel crash_bio (mk_cache crash_disk crash_disk ∅ ∅ []).
Proof. destruct (binit_spec crash_disk 1) as (s' & E & Hrel & _). by rewrite /crash_bio E. Qed.
#[global] Opaque crash_bio.
Lemma crash_log_booted : booted crash_log crash_disk 2 LOGSIZE.
Proof. split; [exists []; exact crash_bio_rel|done..]. Qed.

Lemma recovery_idempotent_witness :
  ∃ s1 A1 ws, recover_from_log crash_log = Ret tt s1 ∧ c_rel (lcache s1) A1 ∧ cwrites A1 = ws ∧ blk (cdisk A1) 100 = st8 ∅ 0 7 ∧
    ∀ j (s2 : logst bio), booted s2 (apply_ws (take j ws) crash_disk) 2 LOGSIZE →
      ∃ s3 A3, recover_from_log s2 = Ret tt s3 ∧ c_rel (lcache s3) A3 ∧ blk (cview A3) 100 = st8 ∅ 0 7.
Proof.
  assert (hdr_n (blk crash_disk 2) = 1 ∧ hdr_block (blk crash_disk 2) 0 = 100) as [En Eb] by (split; vm_compute; reflexivity).
  destruct (recovery_idempotent crash_log [] crash_disk 2 LOGSIZE crash_log_booted) as (s1 & A1 & ws & E & Hr & Hw & _ & _ & Hd & Hc).
  - exact crash_bio_rel.
  - rewrite /hdr_sane En. split; [klia|]. intros k Hk. assert (k = 0) as -> by lia. rewrite Eb. klia.
  - lia.
  - klia.
  - assert (blk (cdisk A1) 100 = st8 ∅ 0 7) as Ed by (rewrite Hd; [vm_compute; reflexivity|klia]).
    exists s1, A1, ws. split_and!; [exact E|exact Hr|exact Hw|exact Ed|]. intros j s2 Hb2. destruct (Hc j s2 Hb2) as (_ & s3 & A3 & E3 & Hr3 & Hb3).
    exists s3, A3. split_and!; [exact E3|exact Hr3|]. destruct (Hb3 100) as [_ ->]; [klia|exact Ed].
Defined.

(** Block 100 read into a buffer, in a system call. *)
Definition demo_held : logst bio :=
  ret_state ((begin_op;; onc (bread ROOTDEV 100)) demo_log) demo_log.

Lemma demo_held_inv :
  outstanding demo_held = 1 ∧ lhn demo_held = 0 ∧ lsize demo_held = LOGSIZE ∧ lstart demo_held = 2 ∧
  ∃ A i, tx_inv demo_held A ∧ chold A !! i = Some 100 ∧ cpin A = ∅.
Proof.
  assert (wp (begin_op;; onc (bread ROOTDEV 100)) demo_log (λ i s,
    outstanding s = 1 ∧ lhn s = 0 ∧ lsize s = LOGSIZE ∧ lstart s = 2 ∧
    ∃ A i, tx_inv s A ∧ chold A !! i = Some 100 ∧ cpin A = ∅)) as (i & s & E & HQ).
  { apply wp_bind. rewrite /begin_op. apply wp_bind, wp_get. cbn [committing demo_log].
    match goal with |- context [?a >? ?b] => change (a >? b) with false end. apply wp_put.
    eapply (wp_bread (BC := bio_cache)); [exact demo_bio_rel|by apply not_held_empty|right; vm_compute; reflexivity|].
    intros i c1 Hr1 Hi1. split_and!; try done. exists (hold_blk (mk_cache demo_disk demo_disk ∅ ∅ []) i 100), i.
    split_and!; [destruct demo_log_inv; by split|cbn; by rewrite lookup_insert_eq|done]. }
  rewrite /demo_held E. done.
Qed.
#[global] Opaque demo_held.

Lemma log_write_correct_witness :
  ∃ i s', log_write i demo_held = Ret tt s' ∧ lhn s' = 1.
Proof.
  destruct demo_held_inv as (Ho & Hn & Hsz & Hst & A & i & Htx & Hi & Hp).
  pose proof (log_write_correct demo_held A i 100 Htx Hi ltac:(lia)) as Hw. revert Hw.
  destruct (decide (LOGSIZE ≤ lhn demo_held ∨ lsize demo_held - 1 ≤ lhn demo_held)) as [Hf|_].
  { rewrite Hn Hsz in Hf. klia. }
  destruct (decide (outstanding demo_held < 1)) as [Hf|_]; [lia|].
  intros Hw. destruct Hw as (s' & A' & E & _ & _ & _ & _ & Hnew); [rewrite /not_log Hst Hsz; klia|].
  exists i, s'. split; [exact E|]. destruct Hnew as [_ En]; [rewrite Hp; apply not_elem_of_empty|].
  by rewrite En Hn.
Defined.

(** Blocks 100 to 129 *)
Lemma log_reservation_overcommits_witness :
  ∃ s3, (begin_op;; begin_op;; begin_op) demo_log = Ret tt s3 ∧
    (∃ s', update_blocks (seqZ 100 29) (λ m, st8 m 0 1) s3 = Ret tt s' ∧ lhn s' = 29) ∧
    update_blocks (seqZ 100 30) (λ m, st8 m 0 1) s3 = Panic "too big a transaction".
Proof.
  destruct (log_reservation_overcommits demo_log (mk_cache demo_disk demo_disk ∅ ∅ []) (seqZ 100 30) (λ m, st8 m 0 1) demo_log_inv)
    as (s3 & E & _ & _ & Hn & Hp); [done..|apply NoDup_seqZ|done| |].
  - intros b Hb%elem_of_seqZ. rewrite /not_log. cbn. split; [lia|]. klia.
  - exists s3. split; [exact E|]. split; [|exact Hp]. destruct (Hn 29%nat) as (s' & E' & Hl); [vm_compute; lia|]. by exists s'.
Defined.
