(* ===== verification/Fs.v ===== *)
(** * kernel/fs.c: blocks, inodes, file contents, directories, path names

    The code is written against the log, and through it against the
    interface of the buffer cache.  A pointer into the inode table is the
    index of the entry, and [NULL] is -1; other pointers are addresses of
    kernel memory.  The calls of [printf] are left out: they do not touch
    this state. *)
From S2P Require Import Prelude Riscv CString Kalloc Vm Cache Log.

(** ** kernel/fs.h and kernel/stat.h *)
Definition ROOTINO : Z := 1.
Definition FSMAGIC : Z := 0x10203040.
Definition NDIRECT : Z := 12.
Definition NINDIRECT : Z := BSIZE / 4.
Definition MAXFILE : Z := NDIRECT + NINDIRECT.
Definition DINODE_SIZE : Z := 64.
Definition IPB : Z := BSIZE / DINODE_SIZE.
Definition BPB : Z := BSIZE * 8.
Definition DIRSIZ : Z := 14.
Definition DIRENT_SIZE : Z := 16.
Definition T_DIR : Z := 1.
Definition T_FILE : Z := 2.
Definition T_DEVICE : Z := 3.

Record superblock := mk_sb {
  sb_magic : Z;
  sb_size : Z;
  sb_nblocks : Z;
  sb_ninodes : Z;
  sb_nlog : Z;
  sb_logstart : Z;
  sb_inodestart : Z;
  sb_bmapstart : Z;
}.

Definition IBLOCK (i : Z) (sb : superblock) : Z := u32 (i / IPB + sb_inodestart sb).
Definition BBLOCK (b : Z) (sb : superblock) : Z := u32 (b / BPB + sb_bmapstart sb).

(** The in-memory inode (file.h); [i_locked] and [i_pid] are its sleep-lock. *)
Record inode := mk_inode {
  i_dev : Z;
  i_inum : Z;
  i_ref : Z;
  i_locked : bool;
  i_pid : Z;
  i_valid : bool;
  i_type : Z;
  i_major : Z;
  i_minor : Z;
  i_nlink : Z;
  i_size : Z;
  i_addrs : list Z;
}.
#[global] Instance inode_inhabited : Inhabited inode :=
  populate (mk_inode 0 0 0 false 0 false 0 0 0 0 0 (replicate 13 0)).

Definition with_ref r ip := mk_inode (i_dev ip) (i_inum ip) r (i_locked ip) (i_pid ip) (i_valid ip)
  (i_type ip) (i_major ip) (i_minor ip) (i_nlink ip) (i_size ip) (i_addrs ip).
Definition with_ilock l p ip := mk_inode (i_dev ip) (i_inum ip) (i_ref ip) l p (i_valid ip)
  (i_type ip) (i_major ip) (i_minor ip) (i_nlink ip) (i_size ip) (i_addrs ip).
Definition with_ivalid v ip := mk_inode (i_dev ip) (i_inum ip) (i_ref ip) (i_locked ip) (i_pid ip) v
  (i_type ip) (i_major ip) (i_minor ip) (i_nlink ip) (i_size ip) (i_addrs ip).
Definition with_type t ip := mk_inode (i_dev ip) (i_inum ip) (i_ref ip) (i_locked ip) (i_pid ip) (i_valid ip)
  t (i_major ip) (i_minor ip) (i_nlink ip) (i_size ip) (i_addrs ip).
Definition with_devno ma mi ip := mk_inode (i_dev ip) (i_inum ip) (i_ref ip) (i_locked ip) (i_pid ip) (i_valid ip)
  (i_type ip) ma mi (i_nlink ip) (i_size ip) (i_addrs ip).
Definition with_nlink n ip := mk_inode (i_dev ip) (i_inum ip) (i_ref ip) (i_locked ip) (i_pid ip) (i_valid ip)
  (i_type ip) (i_major ip) (i_minor ip) n (i_size ip) (i_addrs ip).
Definition with_size n ip := mk_inode (i_dev ip) (i_inum ip) (i_ref ip) (i_locked ip) (i_pid ip) (i_valid ip)
  (i_type ip) (i_major ip) (i_minor ip) (i_nlink ip) n (i_addrs ip).
Definition with_addr (k a : Z) ip := mk_inode (i_dev ip) (i_inum ip) (i_ref ip) (i_locked ip) (i_pid ip) (i_valid ip)
  (i_type ip) (i_major ip) (i_minor ip) (i_nlink ip) (i_size ip) (<[Z.to_nat k := a]> (i_addrs ip)).
Definition i_addr (ip : inode) (k : Z) : Z := i_addrs ip !!! Z.to_nat k.

(** The null pointer to a table entry. *)
Definition NULL : Z := -1.

(** The addresses of the local variables whose address the code takes, in
    the stack frames of their functions. *)
Class Frames := { local : string → Z }.

(** The fields of [myproc()] the file system uses. *)
Record fproc := mk_fproc { fp_pid : Z; fp_pagetable : Z; fp_cwd : Z }.

(** struct stat (stat.h) *)
Record stat := mk_stat { st_dev : Z; st_ino : Z; st_type : Z; st_nlink : Z; st_size : Z }.

Section fs.
Context {S : Type} {BC : BlockCache S} {LK : Linker} {FR : Frames}.

Record fs := mk_fs {
  flog : logst S;
  fsb : superblock;
  itable : gmap Z inode;
  fmem : kmem;
  fcur : fproc;
}.

Definition set_flog (l : logst S) (s : fs) : fs := mk_fs l (fsb s) (itable s) (fmem s) (fcur s).
Definition set_fsb (b : superblock) (s : fs) : fs := mk_fs (flog s) b (itable s) (fmem s) (fcur s).
Definition set_itable (t : gmap Z inode) (s : fs) : fs := mk_fs (flog s) (fsb s) t (fmem s) (fcur s).
Definition set_fmem (m : kmem) (s : fs) : fs := mk_fs (flog s) (fsb s) (itable s) m (fcur s).

(** Running the operations of the log, of the cache and of the memory. *)
Definition onl {A} (m : M (logst S) A) : M fs A := lift flog set_flog m.
Definition onb {A} (m : M S A) : M fs A := onl (onc m).
Definition onm {A} (m : M kmem A) : M fs A := lift fmem set_fmem m.

Definition geti (ip : Z) : M fs inode := gets (λ s, itable s !!! ip).
Definition updi (ip : Z) (f : inode → inode) : M fs unit :=
  modify (λ s, set_itable (<[ip := f (itable s !!! ip)]> (itable s)) s).

(** ** The superblock *)

Definition sb_read (m : mem) : superblock :=
  mk_sb (ld32 m 0) (ld32 m 4) (ld32 m 8) (ld32 m 12) (ld32 m 16) (ld32 m 20) (ld32 m 24) (ld32 m 28).
Definition readsb (dev : Z) : M fs unit :=
  bp ← onb (c_bread dev 1);
  m ← onb (c_data bp);
  modify (set_fsb (sb_read m));;
  onb (c_brelse bp).
Definition fsinit (dev : Z) : M fs unit :=
  readsb dev;;
  sb ← gets fsb;
  if negb (sb_magic sb =? FSMAGIC) then panic "invalid file system"
  else onl (initlog dev (sb_logstart sb) (sb_nlog sb)).

(** ** Blocks *)

Definition bzero (dev bno : Z) : M fs unit :=
  bp ← onb (c_bread dev bno);
  onb (c_store bp (λ m, memset m 0 0 BSIZE));;
  onl (log_write bp);;
  onb (c_brelse bp).

(** The inner loop of [balloc]: the first clear bit of a bitmap block from
    [bi] on, among [n] bits. *)
Definition bit_free (m : mem) (bi : Z) : bool :=
  Z.land (ld8 m (bi / 8)) (Z.shiftl 1 (bi mod 8)) =? 0.
Definition set_bit (m : mem) (bi : Z) : mem :=
  st8 m (bi / 8) (Z.lor (ld8 m (bi / 8)) (Z.shiftl 1 (bi mod 8))).
Definition clear_bit (m : mem) (bi : Z) : mem :=
  st8 m (bi / 8) (Z.land (ld8 m (bi / 8)) (Z.lnot (Z.shiftl 1 (bi mod 8)))).
Fixpoint balloc_scan (n : nat) (bi : Z) (m : mem) : option Z :=
  match n with
  | O => None
  | Datatypes.S n' => if bit_free m bi then Some bi else balloc_scan n' (bi + 1) m
  end.
Fixpoint balloc_loop (fuel : nat) (dev b : Z) : M fs Z :=
  match fuel with
  | O => mret 0
  | Datatypes.S fuel' =>
      sb ← gets fsb;
      if negb (b <? sb_size sb) then mret 0
      else
        bp ← onb (c_bread dev (BBLOCK b sb));
        m ← onb (c_data bp);
        match balloc_scan (Z.to_nat (Z.min BPB (sb_size sb - b))) 0 m with
        | Some bi =>
            onb (c_store bp (λ m, set_bit m bi));;
            onl (log_write bp);;
            onb (c_brelse bp);;
            bzero dev (b + bi);;
            mret (b + bi)
        | None =>
            onb (c_brelse bp);;
            balloc_loop fuel' dev (b + BPB)
        end
  end.
Definition balloc (dev : Z) : M fs Z :=
  sb ← gets fsb;
  balloc_loop (Z.to_nat (sb_size sb / BPB + 1)) dev 0.

Definition bfree (dev b : Z) : M fs unit :=
  sb ← gets fsb;
  bp ← onb (c_bread dev (BBLOCK b sb));
  m ← onb (c_data bp);
  if bit_free m (b mod BPB) then panic "freeing free block"
  else
    onb (c_store bp (λ m, clear_bit m (b mod BPB)));;
    onl (log_write bp);;
    onb (c_brelse bp).

(** ** Inodes *)

(** sleeplock.c on an inode's lock *)
Definition acquireisleep (ip : Z) : M fs unit :=
  x ← geti ip;
  if i_locked x then sleep ("inode"%string, ip)
  else p ← gets fcur; updi ip (with_ilock true (fp_pid p)).
Definition releaseisleep (ip : Z) : M fs unit := updi ip (with_ilock false 0).
Definition holdingisleep (ip : Z) : M fs bool :=
  x ← geti ip; p ← gets fcur; mret (i_locked x && (i_pid x =? fp_pid p)).

Fixpoint iinit_loop (n : nat) (i : Z) : M fs unit :=
  match n with
  | O => mret tt
  | Datatypes.S n' => updi i (with_ilock false 0);; iinit_loop n' (i + 1)
  end.
Definition iinit : M fs unit := iinit_loop (Z.to_nat NINODE) 0.

(** The scan of [iget] from entry [ip] on, with the free entry remembered:
    the entry of the inode if it has one, or else the free entry. *)
Fixpoint iget_scan (n : nat) (ip empty dev inum : Z) : M fs (bool * Z) :=
  match n with
  | O => mret (false, empty)
  | Datatypes.S n' =>
      x ← geti ip;
      if (i_ref x >? 0) && (i_dev x =? dev) && (i_inum x =? inum) then mret (true, ip)
      else
        let empty := if (empty =? NULL) && (i_ref x =? 0) then ip else empty in
        iget_scan n' (ip + 1) empty dev inum
  end.
Definition iget (dev inum : Z) : M fs Z :=
  r ← iget_scan (Z.to_nat NINODE) 0 NULL dev inum;
  let '(found, ip) := r in
  if found : bool then
    updi ip (λ x, with_ref (i_ref x + 1) x);;
    mret ip
  else if ip =? NULL then panic "iget: no inodes"
  else
    updi ip (λ x, mk_inode dev inum 1 (i_locked x) (i_pid x) false (i_type x) (i_major x)
                    (i_minor x) (i_nlink x) (i_size x) (i_addrs x));;
    mret ip.

Definition idup (ip : Z) : M fs Z :=
  updi ip (λ x, with_ref (i_ref x + 1) x);;
  mret ip.

(** struct dinode [inum % IPB] of an inode block. *)
Definition dinode_off (inum : Z) : Z := DINODE_SIZE * (inum mod IPB).

Fixpoint ialloc_loop (n : nat) (dev type inum : Z) : M fs Z :=
  match n with
  | O => mret NULL
  | Datatypes.S n' =>
      sb ← gets fsb;
      bp ← onb (c_bread dev (IBLOCK inum sb));
      m ← onb (c_data bp);
      let dip := dinode_off inum in
      if s16 (ld16 m dip) =? 0 then
        onb (c_store bp (λ m, st16 (memset m dip 0 DINODE_SIZE) dip type));;
        onl (log_write bp);;
        onb (c_brelse bp);;
        iget dev inum
      else
        onb (c_brelse bp);;
        ialloc_loop n' dev type (inum + 1)
  end.
(** [for(inum = 1; inum < sb.ninodes; inum++)] *)
Definition ialloc (dev type : Z) : M fs Z :=
  sb ← gets fsb;
  ialloc_loop (Z.to_nat (sb_ninodes sb - 1)) dev type 1.

(** [memmove(dip->addrs, ip->addrs, sizeof(ip->addrs))] and back. *)
Fixpoint st_addrs (m : mem) (a : Z) (l : list Z) : mem :=
  match l with
  | [] => m
  | x :: l' => st_addrs (st32 m a x) (a + 4) l'
  end.
Fixpoint ld_addrs (n : nat) (m : mem) (a : Z) : list Z :=
  match n with
  | O => []
  | Datatypes.S n' => ld32 m a :: ld_addrs n' m (a + 4)
  end.
Definition dinode_store (dip : Z) (x : inode) (m : mem) : mem :=
  let m := st16 m dip (i_type x) in
  let m := st16 m (dip + 2) (i_major x) in
  let m := st16 m (dip + 4) (i_minor x) in
  let m := st16 m (dip + 6) (i_nlink x) in
  let m := st32 m (dip + 8) (i_size x) in
  st_addrs m (dip + 12) (i_addrs x).
Definition dinode_load (dip : Z) (m : mem) (x : inode) : inode :=
  mk_inode (i_dev x) (i_inum x) (i_ref x) (i_locked x) (i_pid x) (i_valid x)
    (s16 (ld16 m dip)) (s16 (ld16 m (dip + 2))) (s16 (ld16 m (dip + 4))) (s16 (ld16 m (dip + 6)))
    (ld32 m (dip + 8)) (ld_addrs 13 m (dip + 12)).

Definition iupdate (ip : Z) : M fs unit :=
  x ← geti ip;
  sb ← gets fsb;
  bp ← onb (c_bread (i_dev x) (IBLOCK (i_inum x) sb));
  onb (c_store bp (dinode_store (dinode_off (i_inum x)) x));;
  onl (log_write bp);;
  onb (c_brelse bp).

Definition ilock (ip : Z) : M fs unit :=
  x ← geti ip;
  if (ip =? NULL) || (i_ref x <? 1) then panic "ilock"
  else
    acquireisleep ip;;
    x ← geti ip;
    if negb (i_valid x) then
      sb ← gets fsb;
      bp ← onb (c_bread (i_dev x) (IBLOCK (i_inum x) sb));
      m ← onb (c_data bp);
      updi ip (dinode_load (dinode_off (i_inum x)) m);;
      onb (c_brelse bp);;
      updi ip (with_ivalid true);;
      x ← geti ip;
      if i_type x =? 0 then panic "ilock: no type" else mret tt
    else mret tt.

Definition iunlock (ip : Z) : M fs unit :=
  x ← geti ip;
  h ← holdingisleep ip;
  if (ip =? NULL) || negb h || (i_ref x <? 1) then panic "iunlock"
  else releaseisleep ip.

(** [for(i = 0; i < NDIRECT; i++)] of [itrunc], and the loop over the
    entries of the indirect block held in buffer [bp]. *)
Fixpoint itrunc_direct (n : nat) (ip i : Z) : M fs unit :=
  match n with
  | O => mret tt
  | Datatypes.S n' =>
      x ← geti ip;
      (if negb (i_addr x i =? 0) then
         bfree (i_dev x) (i_addr x i);;
         updi ip (with_addr i 0)
       else mret tt);;
      itrunc_direct n' ip (i + 1)
  end.
Fixpoint itrunc_indirect (n : nat) (dev bp j : Z) : M fs unit :=
  match n with
  | O => mret tt
  | Datatypes.S n' =>
      m ← onb (c_data bp);
      (if negb (ld32 m (4 * j) =? 0) then bfree dev (ld32 m (4 * j)) else mret tt);;
      itrunc_indirect n' dev bp (j + 1)
  end.
Definition itrunc (ip : Z) : M fs unit :=
  itrunc_direct (Z.to_nat NDIRECT) ip 0;;
  x ← geti ip;
  (if negb (i_addr x NDIRECT =? 0) then
     bp ← onb (c_bread (i_dev x) (i_addr x NDIRECT));
     itrunc_indirect (Z.to_nat NINDIRECT) (i_dev x) bp 0;;
     onb (c_brelse bp);;
     bfree (i_dev x) (i_addr x NDIRECT);;
     updi ip (with_addr NDIRECT 0)
   else mret tt);;
  updi ip (with_size 0);;
  iupdate ip.

Definition iput (ip : Z) : M fs unit :=
  x ← geti ip;
  (if (i_ref x =? 1) && i_valid x && (i_nlink x =? 0) then
     acquireisleep ip;;
     itrunc ip;;
     updi ip (with_type 0);;
     iupdate ip;;
     updi ip (with_ivalid false);;
     releaseisleep ip
   else mret tt);;
  updi ip (λ x, with_ref (i_ref x - 1) x).

Definition iunlockput (ip : Z) : M fs unit := iunlock ip;; iput ip.

(** ** Inode content *)

Definition bmap (ip bn : Z) : M fs Z :=
  x ← geti ip;
  if bn <? NDIRECT then
    let addr := i_addr x bn in
    if addr =? 0 then
      addr ← balloc (i_dev x);
      if addr =? 0 then mret 0
      else updi ip (with_addr bn addr);; mret addr
    else mret addr
  else
    let bn := bn - NDIRECT in
    if bn <? NINDIRECT then
      addr ← (let addr := i_addr x NDIRECT in
              if addr =? 0 then
                addr ← balloc (i_dev x);
                if addr =? 0 then mret 0
                else updi ip (with_addr NDIRECT addr);; mret addr
              else mret addr);
      if addr =? 0 then mret 0
      else
        bp ← onb (c_bread (i_dev x) addr);
        m ← onb (c_data bp);
        addr ← (let addr := ld32 m (4 * bn) in
                if addr =? 0 then
                  addr ← balloc (i_dev x);
                  (if negb (addr =? 0) then
                     onb (c_store bp (λ m, st32 m (4 * bn) addr));;
                     onl (log_write bp)
                   else mret tt);;
                  mret addr
                else mret addr);
        onb (c_brelse bp);;
        mret addr
    else panic "bmap: out of range".

Definition stati (ip : Z) : M fs stat :=
  x ← geti ip;
  mret (mk_stat (s32 (i_dev x)) (i_inum x) (i_type x) (i_nlink x) (i_size x)).

(** proc.c: copies between a kernel buffer, given by its bytes, and a user
    or a kernel address.  [either_copyin] also returns the bytes it copied:
    fewer than [len] when it fails half-way. *)
Definition either_copyout (user_dst : bool) (dst : Z) (src : list Z) : M fs Z :=
  p ← gets fcur;
  if user_dst then onm (copyout (fp_pagetable p) dst src)
  else onm (upd_mem (λ m, st_bytes m dst src));; mret 0.
Definition either_copyin (user_src : bool) (src len : Z) : M fs (Z * list Z) :=
  p ← gets fcur;
  if user_src then onm (copyin (fp_pagetable p) src len)
  else m ← gets fmem; mret (0, ld_bytes (Z.to_nat len) (km m) src).

(** The loops of [readi] and [writei] go through one block a turn. *)
Fixpoint readi_loop (fuel : nat) (ip : Z) (user_dst : bool) (dst off n tot : Z) : M fs Z :=
  match fuel with
  | O => mret (s32 tot)
  | Datatypes.S fuel' =>
      if negb (tot <? n) then mret (s32 tot)
      else
        addr ← bmap ip (off / BSIZE);
        if addr =? 0 then mret (s32 tot)
        else
          x ← geti ip;
          bp ← onb (c_bread (i_dev x) addr);
          let m := Z.min (n - tot) (BSIZE - off mod BSIZE) in
          d ← onb (c_data bp);
          r ← either_copyout user_dst dst (ld_bytes (Z.to_nat m) d (off mod BSIZE));
          if r =? -1 then onb (c_brelse bp);; mret (-1)
          else
            onb (c_brelse bp);;
            readi_loop fuel' ip user_dst (u64 (dst + m)) (u32 (off + m)) n (u32 (tot + m))
  end.
Definition readi (ip : Z) (user_dst : bool) (dst off n : Z) : M fs Z :=
  x ← geti ip;
  if (off >? i_size x) || (u32 (off + n) <? off) then mret 0
  else
    let n := if u32 (off + n) >? i_size x then i_size x - off else n in
    readi_loop (Z.to_nat (n / BSIZE + 2)) ip user_dst dst off n 0.

(** Returns [tot] and the final [off]. *)
Fixpoint writei_loop (fuel : nat) (ip : Z) (user_src : bool) (src off n tot : Z) : M fs (Z * Z) :=
  match fuel with
  | O => mret (tot, off)
  | Datatypes.S fuel' =>
      if negb (tot <? n) then mret (tot, off)
      else
        addr ← bmap ip (off / BSIZE);
        if addr =? 0 then mret (tot, off)
        else
          x ← geti ip;
          bp ← onb (c_bread (i_dev x) addr);
          let m := Z.min (n - tot) (BSIZE - off mod BSIZE) in
          r ← either_copyin user_src src m;
          onb (c_store bp (λ d, st_bytes d (off mod BSIZE) r.2));;
          if r.1 =? -1 then onb (c_brelse bp);; mret (tot, off)
          else
            onl (log_write bp);;
            onb (c_brelse bp);;
            writei_loop fuel' ip user_src (u64 (src + m)) (u32 (off + m)) n (u32 (tot + m))
  end.
Definition writei (ip : Z) (user_src : bool) (src off n : Z) : M fs Z :=
  x ← geti ip;
  if (off >? i_size x) || (u32 (off + n) <? off) then mret (-1)
  else if u32 (off + n) >? MAXFILE * BSIZE then mret (-1)
  else
    r ← writei_loop (Z.to_nat (n / BSIZE + 2)) ip user_src src off n 0;
    let '(tot, off) := r in
    x ← geti ip;
    (if off >? i_size x then updi ip (with_size off) else mret tt);;
    iupdate ip;;
    mret (s32 tot).

(** ** Directories *)

Definition namecmp (m : mem) (s t : Z) : Z := strncmp m s t DIRSIZ.

(** Returns the inode and the value stored in [*poff]. *)
Fixpoint dirlookup_loop (fuel : nat) (dp name off : Z) : M fs (Z * Z) :=
  match fuel with
  | O => mret (NULL, 0)
  | Datatypes.S fuel' =>
      x ← geti dp;
      if negb (off <? i_size x) then mret (NULL, 0)
      else
        let de := local "dirlookup.de" in
        r ← readi dp false de off DIRENT_SIZE;
        if negb (r =? DIRENT_SIZE) then panic "dirlookup read"
        else
          m ← gets (λ s, km (fmem s));
          let inum := ld16 m de in
          if inum =? 0 then dirlookup_loop fuel' dp name (u32 (off + DIRENT_SIZE))
          else if namecmp m name (de + 2) =? 0 then
            ip ← iget (i_dev x) inum;
            mret (ip, off)
          else dirlookup_loop fuel' dp name (u32 (off + DIRENT_SIZE))
  end.
Definition dirlookup (dp name : Z) : M fs (Z * Z) :=
  x ← geti dp;
  if negb (i_type x =? T_DIR) then panic "dirlookup not DIR"
  else dirlookup_loop (Z.to_nat (i_size x / DIRENT_SIZE + 1)) dp name 0.

(** The search of [dirlink] for an empty dirent. *)
Fixpoint dirlink_loop (fuel : nat) (dp off : Z) : M fs Z :=
  match fuel with
  | O => mret off
  | Datatypes.S fuel' =>
      x ← geti dp;
      if negb (u32 off <? i_size x) then mret off
      else
        let de := local "dirlink.de" in
        r ← readi dp false de off DIRENT_SIZE;
        if negb (r =? DIRENT_SIZE) then panic "dirlink read"
        else
          m ← gets (λ s, km (fmem s));
          if ld16 m de =? 0 then mret off
          else dirlink_loop fuel' dp (off + DIRENT_SIZE)
  end.
Definition dirlink (dp name inum : Z) : M fs Z :=
  r ← dirlookup dp name;
  if negb (r.1 =? NULL) then iput r.1;; mret (-1)
  else
    x ← geti dp;
    off ← dirlink_loop (Z.to_nat (i_size x / DIRENT_SIZE + 1)) dp 0;
    let de := local "dirlink.de" in
    onm (upd_mem (λ m, strncpy m (de + 2) name DIRSIZ));;
    onm (upd_mem (λ m, st16 m de inum));;
    r ← writei dp false de off DIRENT_SIZE;
    if negb (r =? DIRENT_SIZE) then mret (-1) else mret 0.

(** ** Paths

    The loops over a path run to its NUL; the kernel's paths are arrays of
    MAXPATH bytes, which bounds them. *)

(** [while( *path == '/') path++;] *)
Fixpoint skip_slashes (fuel : nat) (m : mem) (path : Z) : Z :=
  match fuel with
  | O => path
  | Datatypes.S fuel' => if ld8 m path =? 47 then skip_slashes fuel' m (path + 1) else path
  end.
(** [while( *path != '/' && *path != 0) path++;] *)
Fixpoint skip_elem (fuel : nat) (m : mem) (path : Z) : Z :=
  match fuel with
  | O => path
  | Datatypes.S fuel' =>
      if negb (ld8 m path =? 47) && negb (ld8 m path =? 0) then skip_elem fuel' m (path + 1) else path
  end.
(** The memory with the element copied to [name], and the rest of the path
    (0 if there is no element). *)
Definition skipelem_mem (m : mem) (path name : Z) : mem * Z :=
  let path := skip_slashes (Z.to_nat MAXPATH) m path in
  if ld8 m path =? 0 then (m, 0)
  else
    let s := path in
    let path := skip_elem (Z.to_nat MAXPATH) m path in
    let len := path - s in
    let m' :=
      if len >=? DIRSIZ then memmove m name s DIRSIZ
      else st8 (memmove m name s len) (name + len) 0 in
    (m', skip_slashes (Z.to_nat MAXPATH) m' path).
Definition skipelem (path name : Z) : M fs Z :=
  r ← gets (λ s, skipelem_mem (km (fmem s)) path name);
  onm (upd_mem (λ _, r.1));;
  mret r.2.

Fixpoint namex_loop (fuel : nat) (ip path : Z) (nameiparent : bool) (name : Z) : M fs Z :=
  match fuel with
  | O => panic "loop bound"
  | Datatypes.S fuel' =>
      path ← skipelem path name;
      if path =? 0 then
        if nameiparent then iput ip;; mret NULL else mret ip
      else
        ilock ip;;
        x ← geti ip;
        if negb (i_type x =? T_DIR) then iunlockput ip;; mret NULL
        else
          c ← gets (λ s, ld8 (km (fmem s)) path);
          if nameiparent && (c =? 0) then iunlock ip;; mret ip
          else
            r ← dirlookup ip name;
            if r.1 =? NULL then iunlockput ip;; mret NULL
            else
              iunlockput ip;;
              namex_loop fuel' r.1 path nameiparent name
  end.
Definition namex (path : Z) (nameiparent : bool) (name : Z) : M fs Z :=
  c ← gets (λ s, ld8 (km (fmem s)) path);
  ip ← (if c =? 47 then iget ROOTDEV ROOTINO
        else p ← gets fcur; idup (fp_cwd p));
  namex_loop (Z.to_nat MAXPATH) ip path nameiparent name.
Definition namei (path : Z) : M fs Z := namex path false (local "namei.name").
Definition nameiparent (path name : Z) : M fs Z := namex path true name.
End fs.
Arguments fs : clear implicits.
