(* ===== verification/FsBlock.v ===== *)
(** * The file system inside a transaction; block allocation

    Program-logic rules for the block accesses of fs.c within a transaction,
    and the correctness of [balloc] and [bfree] over the free bitmap. *)
From S2P Require Import Prelude Riscv CString Kalloc Vm Cache Log LogInv Crash Fs.

(** Changing block [b] in a transaction. *)
Definition log_upd (A : cache) (b : Z) (m : mem) : cache :=
  mk_cache (<[b := m]> (cview A)) (cdisk A) (chold A) ({[b]} ∪ cpin A) (cwrites A).

Lemma unhold_upd A i b b' m :
  chold A !! i = None → unhold (log_upd (hold_blk A i b) b' m) i = log_upd A b' m.
Proof. intros. by rewrite /unhold /hold_blk /log_upd /= delete_insert_id. Qed.

Section fsblock.
Context {S : Type} {BC : BlockCache S} {LK : Linker} {FR : Frames}.
Context (start lsz : Z).
Implicit Types (s : fs S) (l : logst S) (A : cache).

Definition in_log (b : Z) : Prop := start ≤ b < start + lsz.

(** The log has the abstract state [A]: what the running process has locked
    is in the transaction or as on the disk. *)
Record fs_rd l A : Prop := {
  fr_tx : tx_inv l A;
  fr_start : lstart l = start;
  fr_lsz : lsize l = lsz;
  fr_held : ∀ i b, chold A !! i = Some b → b ∈ cpin A ∨ blk (cview A) b = blk (cdisk A) b;
}.
(** The process is in a transaction, between [begin_op] and [end_op]. *)
Record fs_tx l A : Prop := { ft_rd : fs_rd l A; ft_out : 1 ≤ outstanding l }.

(** There is room for [k] more blocks in the transaction. *)
Definition room A (k : Z) : Prop := Z.of_nat (size (cpin A)) + k ≤ Z.min LOGSIZE lsz - 1.

Lemma lhn_size l A : tx_inv l A → lhn l = Z.of_nat (size (cpin A)).
Proof.
  intros Htx. pose proof (tx_size _ _ Htx). destruct Htx as [_ _ _ Hn _ Hp Hinj _].
  assert (list_to_set ((λ k, default 0 (lhblock l !! k)) <$> seqZ 0 (lhn l)) ⊆ cpin A) as Hsub.
  { intros b (k & -> & Hk%elem_of_seqZ)%elem_of_list_to_set%list_elem_of_fmap. apply Hp. exists k.
    split; [lia|done]. }
  apply subseteq_size in Hsub. rewrite size_list_to_set in Hsub.
  - rewrite length_fmap length_seqZ in Hsub. lia.
  - apply NoDup_fmap_2_strong; [|apply NoDup_seqZ]. intros k k' Hk Hk'.
    rewrite !elem_of_seqZ in Hk, Hk'. apply Hinj; lia.
Qed.

Lemma size_union_le (X Y : gset Z) : (size (X ∪ Y) ≤ size X + size Y)%nat.
Proof. rewrite size_union_alt. apply Nat.add_le_mono_l, subseteq_size. set_solver. Qed.
Lemma size_map_img (m : gmap Z Z) : (size (map_img m : gset Z) ≤ size m)%nat.
Proof.
  induction m as [|i x m Hi _ IH] using map_first_key_ind.
  { by rewrite map_img_empty_L. }
  rewrite map_size_insert_None //. etrans; [apply subseteq_size, map_img_insert_subseteq|].
  etrans; [apply size_union_le|]. rewrite size_singleton. lia.
Qed.
Lemma size_busy A : (size (busy A) ≤ size (cpin A) + size (chold A))%nat.
Proof. rewrite /busy. etrans; [apply size_union_le|]. pose proof (size_map_img (chold A)). lia. Qed.

(** ** The rules *)

Lemma wp_onb {B} (m : M S B) s Q :
  wp (onc m) (flog s) (λ a l, Q a (set_flog l s)) → wp (onb m) s Q.
Proof. apply wp_lift. Qed.

Lemma wp_rbread s A b Q :
  fs_rd (flog s) A → not_held A b → room A (Z.of_nat (size (chold A))) →
  (∀ i l, fs_rd l (hold_blk A i b) → outstanding l = outstanding (flog s) → chold A !! i = None → Q i (set_flog l s)) →
  wp (onb (c_bread ROOTDEV b)) s Q.
Proof.
  intros [Htx Hs Hl Hh] Hn Hroom HQ. apply wp_onb. pose proof Htx as [Hr Hd Hst Hnr Hhm Hp Hinj Hint].
  eapply wp_bread; [exact Hr|done|right; pose proof (size_busy A); rewrite /room in Hroom; klia|].
  intros i c Hc Hi. apply (HQ i (set_cache c (flog s))); [|done|done]. split; [by split|done..|].
  intros j b' Hj. destruct (decide (j = i)) as [->|].
  - cbn in Hj. rewrite lookup_insert_eq in Hj. injection Hj as <-. cbn.
    destruct (decide (b ∈ cpin A)); [by left|]. right. by apply (c_clean _ _ _ Hr).
  - cbn in Hj. rewrite lookup_insert_ne // in Hj. by eapply Hh.
Qed.
Lemma wp_fbread s A b Q :
  fs_tx (flog s) A → not_held A b → room A (Z.of_nat (size (chold A))) →
  (∀ i l, fs_tx l (hold_blk A i b) → chold A !! i = None → Q i (set_flog l s)) →
  wp (onb (c_bread ROOTDEV b)) s Q.
Proof. intros [Hrd Ho] Hn Hroom HQ. eapply wp_rbread; [done..|]. intros i l Hl E Hi. apply HQ; [|done]. split; [done|]. by rewrite E. Qed.

Lemma wp_rdata s A i b Q :
  fs_rd (flog s) A → chold A !! i = Some b → Q (blk (cview A) b) s → wp (onb (c_data i)) s Q.
Proof.
  intros [Htx _ _ _] Hi HQ. apply wp_onb. eapply wp_data; [apply Htx|exact Hi|]. by destruct s.
Qed.
Lemma wp_fdata s A i b Q :
  fs_tx (flog s) A → chold A !! i = Some b → Q (blk (cview A) b) s → wp (onb (c_data i)) s Q.
Proof. intros [Hrd _]. by apply wp_rdata. Qed.

(** A block may be logged. *)
Definition loggable (b : Z) : Prop := 0 ≤ b < 2 ^ 31 ∧ ¬ in_log b.

(** A store to a locked block followed by [log_write]. *)
Lemma wp_fupd s A i b f Q :
  fs_tx (flog s) A → chold A !! i = Some b → loggable b → room A 1 →
  (∀ l, fs_tx l (log_upd A b (f (blk (cview A) b))) → Q tt (set_flog l s)) →
  wp (onb (c_store i f)) s (λ _ s', wp (onl (log_write i)) s' Q).
Proof.
  intros [[Htx Hs Hl Hh] Ho] Hi [Hb Hnl] Hroom HQ. pose proof (lhn_size _ _ Htx) as Hsz.
  apply wp_onb. eapply wp_store; [apply Htx|exact Hi|]. intros c Hc. apply wp_lift. cbn [flog set_flog].
  set (A1 := set_view _ _ _) in Hc. assert (tx_inv (set_cache c (flog s)) A1) as Htx1 by (destruct Htx; by split).
  eapply wp_mono.
  { eapply (log_write_spec _ A1); [exact Htx1|exact Hi|done| |done|..]; cbn; rewrite /room in Hroom; try klia.
    rewrite /not_log Hs Hl. exact Hnl. }
  intros [] l (A' & Htx' & EA & En & E1 & E2 & E3 & E4). cbn.
  change (Q tt (set_flog l s)). apply HQ.
  assert (A' = log_upd A b (f (blk (cview A) b))) as <-.
  { rewrite EA /log_upd. destruct (decide (b ∈ cpin A1)) as [Hin|]; [|done]. rewrite /A1 /set_view. f_equal.
    cbn in Hin. set_solver. }
  split; [|by rewrite E3]. split; [done|by rewrite E1|by rewrite E2|]. intros j b' Hj.
  assert (chold A' = chold A) as Eh by (rewrite EA; by destruct (decide _)). rewrite Eh in Hj.
  destruct (decide (b' = b)) as [->|Hne].
  { left. rewrite EA. destruct (decide (b ∈ cpin A1)); cbn; [done|set_solver]. }
  rewrite EA. destruct (decide (b ∈ cpin A1)); cbn; rewrite blk_insert_ne //; destruct (Hh _ _ Hj); try by right.
  - by left.
  - left. set_solver.
Qed.

Lemma wp_fupd_seq {B} s A i b f (K : M (fs S) B) Q :
  fs_tx (flog s) A → chold A !! i = Some b → loggable b → room A 1 →
  (∀ l, fs_tx l (log_upd A b (f (blk (cview A) b))) → wp K (set_flog l s) Q) →
  wp (onb (c_store i f);; onl (log_write i);; K) s Q.
Proof.
  intros Hfs Hi Hb Hroom HK. apply wp_bind. eapply wp_mono.
  { eapply (wp_fupd _ _ _ _ _ (λ _ s', wp K s' Q)); done. }
  cbv beta. intros _ s' Hs'. by apply wp_bind.
Qed.

Lemma wp_rbrelse s A i b Q :
  fs_rd (flog s) A → chold A !! i = Some b →
  (∀ l, fs_rd l (unhold A i) → outstanding l = outstanding (flog s) → Q tt (set_flog l s)) → wp (onb (c_brelse i)) s Q.
Proof.
  intros [Htx Hs Hl Hh] Hi HQ. apply wp_onb. eapply wp_brelse; [apply Htx|exact Hi|by eapply Hh|].
  intros c Hc. apply (HQ (set_cache c (flog s))); [|done]. split; [destruct Htx; by split|done..|].
  intros j b' Hj. apply (Hh j). cbn in Hj. by apply lookup_delete_Some in Hj as [_ Hj].
Qed.
Lemma wp_fbrelse s A i b Q :
  fs_tx (flog s) A → chold A !! i = Some b →
  (∀ l, fs_tx l (unhold A i) → Q tt (set_flog l s)) → wp (onb (c_brelse i)) s Q.
Proof. intros [Hrd Ho] Hi HQ. eapply wp_rbrelse; [done..|]. intros l Hl E. apply HQ. split; [done|]. by rewrite E. Qed.

Lemma room_mono A k k' : room A k → k' ≤ k → room A k'.
Proof. rewrite /room. lia. Qed.
Lemma room_upd A b m k : room A (k + 1) → room (log_upd A b m) k.
Proof.
  rewrite /room /log_upd /=. intros. pose proof (size_union_le {[b]} (cpin A)) as H1.
  rewrite size_singleton in H1. lia.
Qed.

(** ** The free bitmap *)

Lemma land_bit x k : 0 ≤ k → (Z.land x (Z.shiftl 1 k) =? 0) = negb (Z.testbit x k).
Proof.
  intros Hk. rewrite Z.shiftl_1_l. destruct (Z.testbit x k) eqn:E; cbn [negb].
  - apply Z.eqb_neq. intros H0. assert (Z.testbit (Z.land x (2 ^ k)) k = false) as Hf by (rewrite H0; apply Z.bits_0).
    rewrite Z.land_spec Z.pow2_bits_true // E in Hf. discriminate Hf.
  - apply Z.eqb_eq, Z.bits_inj'. intros j Hj. rewrite Z.land_spec Z.bits_0 Z.pow2_bits_eqb //.
    destruct (Z.eqb_spec k j) as [->|]; [by rewrite E|apply andb_false_r].
Qed.

Lemma u8_testbit x k : 0 ≤ k < 8 → Z.testbit (u8 x) k = Z.testbit x k.
Proof. intros. apply Z.mod_pow2_bits_low. lia. Qed.

Lemma bit_free_testbit m bi : bit_free m bi = negb (Z.testbit (ld8 m (bi / 8)) (bi mod 8)).
Proof. rewrite /bit_free. apply land_bit. lia. Qed.

Lemma bit_free_set m bi bj :
  bit_free (set_bit m bi) bj = if decide (bj = bi) then false else bit_free m bj.
Proof.
  rewrite !bit_free_testbit /set_bit ld8_st8 Z.shiftl_1_l. case_decide as H1.
  - rewrite u8_testbit; [|lia]. rewrite Z.lor_spec Z.pow2_bits_eqb; [|lia].
    destruct (Z.eqb_spec (bi mod 8) (bj mod 8)) as [E|E].
    + destruct (decide (bj = bi)) as [_|Hn]; [by rewrite orb_true_r|lia].
    + destruct (decide (bj = bi)) as [->|_]; [done|]. by rewrite orb_false_r H1.
  - destruct (decide (bj = bi)) as [->|_]; [done|done].
Qed.

Lemma bit_free_clear m bi bj :
  bit_free (clear_bit m bi) bj = if decide (bj = bi) then true else bit_free m bj.
Proof.
  rewrite !bit_free_testbit /clear_bit ld8_st8 Z.shiftl_1_l. case_decide as H1.
  - rewrite u8_testbit; [|lia]. rewrite Z.land_spec Z.lnot_spec; [|lia]. rewrite Z.pow2_bits_eqb; [|lia].
    destruct (Z.eqb_spec (bi mod 8) (bj mod 8)) as [E|E].
    + destruct (decide (bj = bi)) as [_|Hn]; [by rewrite andb_false_r|lia].
    + destruct (decide (bj = bi)) as [->|_]; [done|]. by rewrite andb_true_r H1.
  - destruct (decide (bj = bi)) as [->|_]; [done|done].
Qed.

Lemma balloc_scan_spec n bi m :
  match balloc_scan n bi m with
  | Some r => bi ≤ r < bi + Z.of_nat n ∧ bit_free m r = true ∧ ∀ k, bi ≤ k < r → bit_free m k = false
  | None => ∀ k, bi ≤ k < bi + Z.of_nat n → bit_free m k = false
  end.
Proof.
  revert bi. induction n as [|n IH]; intros bi; cbn [balloc_scan]; [intros; lia|].
  destruct (bit_free m bi) eqn:E; [split_and!; [lia|lia|done|intros; lia]|].
  specialize (IH (bi + 1)). destruct (balloc_scan n (bi + 1) m).
  - destruct IH as (? & ? & Hk). split_and!; [lia|lia|done|]. intros k ?.
    destruct (decide (k = bi)) as [->|]; [done|apply Hk; lia].
  - intros k ?. destruct (decide (k = bi)) as [->|]; [done|apply IH; lia].
Qed.

(** Block [b] is in use, according to the bitmap. *)
Definition bused (V : gmap Z mem) (sb : superblock) (b : Z) : bool :=
  negb (bit_free (blk V (BBLOCK b sb)) (b mod BPB)).

(** The layout of the disk: the bitmap and the free blocks are outside the
    log and not locked by the running process, and no free block is a block
    of the bitmap. *)
Record layout (sb : superblock) A : Prop := {
  lay_size : 0 < sb_size sb < 2 ^ 31;
  lay_bmap : 0 ≤ sb_bmapstart sb ∧ sb_bmapstart sb + sb_size sb / BPB < 2 ^ 31;
  lay_bmap_out : ∀ b, 0 ≤ b < sb_size sb → ¬ in_log (BBLOCK b sb) ∧ not_held A (BBLOCK b sb);
  lay_free : ∀ b, 0 ≤ b < sb_size sb → bused (cview A) sb b = false →
    ¬ in_log b ∧ not_held A b ∧ ∀ b', 0 ≤ b' < sb_size sb → BBLOCK b' sb ≠ b;
}.

Lemma BBLOCK_eq sb A b : layout sb A → 0 ≤ b < sb_size sb → BBLOCK b sb = b / BPB + sb_bmapstart sb.
Proof.
  intros [Hs Hbm _ _] Hb. apply u32_small. unfold BPB, BSIZE in *. lia.
Qed.
Lemma lay_loggable sb A b : layout sb A → 0 ≤ b < sb_size sb → loggable (BBLOCK b sb).
Proof.
  intros HL Hb. split; [|by apply (lay_bmap_out _ _ HL)]. rewrite (BBLOCK_eq _ _ _ HL Hb).
  destruct HL as [? ? _ _]. unfold BPB, BSIZE in *. lia.
Qed.

(** The effect of allocating and of freeing block [b]. *)
Definition set_used sb A b : cache :=
  log_upd A (BBLOCK b sb) (set_bit (blk (cview A) (BBLOCK b sb)) (b mod BPB)).
Definition alloc_upd sb A b : cache :=
  let A1 := set_used sb A b in log_upd A1 b (memset (blk (cview A1) b) 0 0 BSIZE).
Definition free_upd sb A b : cache :=
  log_upd A (BBLOCK b sb) (clear_bit (blk (cview A) (BBLOCK b sb)) (b mod BPB)).

Lemma bzero_spec s A b Q :
  fs_tx (flog s) A → not_held A b → loggable b → room A (1 + Z.of_nat (size (chold A))) →
  (∀ l, fs_tx l (log_upd A b (memset (blk (cview A) b) 0 0 BSIZE)) → Q tt (set_flog l s)) →
  wp (bzero ROOTDEV b) s Q.
Proof.
  intros Hfs Hn Hlog Hroom HQ. apply wp_bind.
  eapply wp_fbread; [exact Hfs|done|eapply room_mono; [exact Hroom|lia]|]. intros i l Hl Hi.
  assert (chold (hold_blk A i b) !! i = Some b) as Hib by apply lookup_insert_eq.
  eapply wp_fupd_seq; [exact Hl|exact Hib|done|eapply room_mono; [exact Hroom|lia]|]. intros l2 Hl2.
  eapply wp_fbrelse; [exact Hl2|exact Hib|]. intros l3. rewrite unhold_upd //. apply HQ.
Qed.

(** ** [balloc] and [bfree] *)

(** What [balloc] returned in state [s'], from state [s]. *)
Definition balloc_post s A (r : Z) (s' : fs S) : Prop :=
  ∃ l, s' = set_flog l s ∧
  ((0 ≤ r < sb_size (fsb s) ∧ bused (cview A) (fsb s) r = false ∧
    (∀ b, 0 ≤ b < r → bused (cview A) (fsb s) b = true) ∧ fs_tx l (alloc_upd (fsb s) A r)) ∨
   (r = 0 ∧ (∀ b, 0 ≤ b < sb_size (fsb s) → bused (cview A) (fsb s) b = true) ∧ fs_tx l A)).

Lemma not_held_upd A b m b' : not_held (log_upd A b m) b' ↔ not_held A b'.
Proof. done. Qed.

Lemma balloc_found s l A b bi :
  let sb := fsb s in
  fs_tx l A → layout sb A → room A (2 + Z.of_nat (size (chold A))) →
  b mod BPB = 0 → 0 ≤ b → 0 ≤ bi < BPB → b + bi < sb_size sb →
  bit_free (blk (cview A) (BBLOCK b sb)) bi = true →
  (∀ k, 0 ≤ k < bi → bit_free (blk (cview A) (BBLOCK b sb)) k = false) →
  (∀ b', 0 ≤ b' < b → bused (cview A) sb b' = true) →
  BBLOCK (b + bi) sb = BBLOCK b sb ∧ (b + bi) mod BPB = bi ∧ bused (cview A) sb (b + bi) = false ∧
  (∀ b', 0 ≤ b' < b + bi → bused (cview A) sb b' = true).
Proof.
  intros sb Hfs HL Hroom Hmod Hb Hbi Hlt Hfree Hused Hlow.
  assert (∀ k, 0 ≤ k < BPB → b + k < sb_size sb → BBLOCK (b + k) sb = BBLOCK b sb ∧ (b + k) mod BPB = k) as Hk.
  { intros k Hk Hkl. rewrite !(BBLOCK_eq _ _ _ HL); [|unfold BPB, BSIZE in *; lia..].
    unfold BPB, BSIZE in *. lia. }
  destruct (Hk bi Hbi Hlt) as [E1 E2]. split_and!; [done|done| |].
  - by rewrite /bused E1 E2 Hfree.
  - intros b' Hb'. destruct (decide (b' < b)); [apply Hlow; lia|].
    destruct (Hk (b' - b)) as [E3 E4]; [lia|lia|]. replace (b + (b' - b)) with b' in E3, E4 by lia.
    rewrite /bused E3 E4 Hused //. lia.
Qed.

Lemma balloc_loop_spec fuel b s A :
  fs_tx (flog s) A → layout (fsb s) A → room A (2 + Z.of_nat (size (chold A))) →
  b mod BPB = 0 → 0 ≤ b → sb_size (fsb s) < b + Z.of_nat fuel * BPB →
  (∀ b', 0 ≤ b' < b → b' < sb_size (fsb s) → bused (cview A) (fsb s) b' = true) →
  wp (balloc_loop fuel ROOTDEV b) s (balloc_post s A).
Proof.
  revert b s. induction fuel as [|fuel IH]; intros b s Hfs HL Hroom Hmod Hb Hfuel Hlow.
  { apply wp_mret. exists (flog s). split; [by destruct s|]. right. split_and!; [done| |done].
    intros b' Hb'. apply Hlow; lia. }
  cbn [balloc_loop]. apply wp_bind, wp_gets. destruct (Z.ltb_spec b (sb_size (fsb s))); cbn [negb].
  2:{ apply wp_mret. exists (flog s). split; [by destruct s|]. right. split_and!; [done| |done].
      intros b' Hb'. apply Hlow; lia. }
  set (bb := BBLOCK b (fsb s)). destruct (lay_bmap_out _ _ HL b) as [_ Hnh]; [lia|].
  apply wp_bind. eapply wp_fbread; [exact Hfs|exact Hnh|eapply room_mono; [exact Hroom|lia]|]. intros i l Hl Hi.
  assert (chold (hold_blk A i bb) !! i = Some bb) as Hib by apply lookup_insert_eq.
  apply wp_bind. eapply wp_fdata; [exact Hl|exact Hib|]. cbn [cview hold_blk].
  pose proof (balloc_scan_spec (Z.to_nat (Z.min BPB (sb_size (fsb s) - b))) 0 (blk (cview A) bb)) as Hscan.
  destruct (balloc_scan _ _ _) as [bi|].
  - destruct Hscan as (Hbi & Hfree & Hused).
    destruct (balloc_found s (flog s) A b bi) as (E1 & E2 & E3 & E4); try done; [lia..| |].
    { intros b' Hb'. apply Hlow; lia. }
    destruct (lay_free _ _ HL (b + bi)) as (Hnl & Hnh2 & Hnb); [lia|done|].
    eapply wp_fupd_seq; [exact Hl|exact Hib|apply (lay_loggable _ _ _ HL); lia|eapply room_mono; [exact Hroom|lia]|].
    intros l2 Hl2. apply wp_bind. eapply wp_fbrelse; [exact Hl2|exact Hib|]. intros l3 Hl3.
    rewrite unhold_upd // in Hl3. apply wp_bind.
    eapply bzero_spec; [exact Hl3|exact Hnh2|split; [pose proof (lay_size _ _ HL); lia|done]| |].
    { apply room_upd. eapply room_mono; [exact Hroom|cbn; lia]. }
    intros l4 Hl4. apply wp_mret. exists l4. split; [done|]. left. split_and!; [lia|lia|done|done|].
    rewrite /alloc_upd /set_used E1 E2. exact Hl4.
  - apply wp_bind. eapply wp_fbrelse; [exact Hl|exact Hib|]. intros l3 Hl3. rewrite unhold_hold // in Hl3.
    apply (IH (b + BPB) (set_flog l3 s)); try done; [unfold BPB, BSIZE in *; lia|unfold BPB, BSIZE in *; lia|
      cbn [fsb set_flog]; lia|]. cbn [fsb set_flog].
    intros b' Hb' Hlt. destruct (decide (b' < b)); [apply Hlow; lia|].
    assert (BBLOCK b' (fsb s) = bb ∧ b' mod BPB = b' - b) as [E1 E2].
    { rewrite /bb !(BBLOCK_eq _ _ _ HL); [|lia..]. unfold BPB, BSIZE in *. lia. }
    rewrite /bused E1 E2 Hscan //. lia.
Qed.

Lemma balloc_spec s A :
  fs_tx (flog s) A → layout (fsb s) A → room A (2 + Z.of_nat (size (chold A))) →
  wp (balloc ROOTDEV) s (balloc_post s A).
Proof.
  intros Hfs HL Hroom. apply wp_bind, wp_gets. apply balloc_loop_spec; try done; [|intros; lia].
  pose proof (lay_size _ _ HL). unfold BPB, BSIZE in *. lia.
Qed.

Lemma bfree_spec s A b :
  fs_tx (flog s) A → layout (fsb s) A → room A (1 + Z.of_nat (size (chold A))) → 0 ≤ b < sb_size (fsb s) →
  bused (cview A) (fsb s) b = true →
  wp (bfree ROOTDEV b) s (λ _ s', ∃ l, s' = set_flog l s ∧ fs_tx l (free_upd (fsb s) A b)).
Proof.
  intros Hfs HL Hroom Hb Hused. apply wp_bind, wp_gets. destruct (lay_bmap_out _ _ HL b Hb) as [_ Hnh].
  apply wp_bind. eapply wp_fbread; [exact Hfs|exact Hnh|eapply room_mono; [exact Hroom|lia]|]. intros i l Hl Hi.
  set (bb := BBLOCK b (fsb s)) in *.
  assert (chold (hold_blk A i bb) !! i = Some bb) as Hib by apply lookup_insert_eq.
  apply wp_bind. eapply wp_fdata; [exact Hl|exact Hib|]. cbn [cview hold_blk].
  rewrite /bused -/bb in Hused. apply negb_true_iff in Hused. rewrite Hused.
  eapply wp_fupd_seq; [exact Hl|exact Hib|by apply (lay_loggable _ _ _ HL)|eapply room_mono; [exact Hroom|lia]|].
  intros l2 Hl2. eapply wp_fbrelse; [exact Hl2|exact Hib|]. intros l3 Hl3. rewrite unhold_upd // in Hl3.
  exists l3. split; [done|exact Hl3].
Qed.

Lemma bused_alloc sb A r b :
  layout sb A → 0 ≤ r < sb_size sb → bused (cview A) sb r = false → 0 ≤ b < sb_size sb →
  bused (cview (alloc_upd sb A r)) sb b = if decide (b = r) then true else bused (cview A) sb b.
Proof.
  intros HL Hr Hfree Hb. destruct (lay_free _ _ HL r Hr Hfree) as (_ & _ & Hnb).
  rewrite /bused /alloc_upd /set_used /=. rewrite blk_insert_ne; [|by apply Hnb].
  rewrite blk_insert. destruct (decide (BBLOCK b sb = BBLOCK r sb)) as [E|E].
  - rewrite bit_free_set -E. rewrite !(BBLOCK_eq _ _ _ HL) // in E.
    destruct (decide (b mod BPB = r mod BPB)), (decide (b = r)); subst; try done; unfold BPB, BSIZE in *; lia.
  - by destruct (decide (b = r)) as [->|].
Qed.

Lemma bused_free sb A r b :
  layout sb A → 0 ≤ r < sb_size sb → 0 ≤ b < sb_size sb →
  bused (cview (free_upd sb A r)) sb b = if decide (b = r) then false else bused (cview A) sb b.
Proof.
  intros HL Hr Hb. rewrite /bused /free_upd /=.
  rewrite blk_insert. destruct (decide (BBLOCK b sb = BBLOCK r sb)) as [E|E].
  - rewrite bit_free_clear -E. rewrite !(BBLOCK_eq _ _ _ HL) // in E.
    destruct (decide (b mod BPB = r mod BPB)), (decide (b = r)); subst; try done; unfold BPB, BSIZE in *; lia.
  - by destruct (decide (b = r)) as [->|].
Qed.

Lemma layout_alloc sb A r :
  layout sb A → 0 ≤ r < sb_size sb → bused (cview A) sb r = false → layout sb (alloc_upd sb A r).
Proof.
  intros HL Hr Hf. pose proof HL as [H1 H2 H3 H4]. split; try done.
  intros b Hb. rewrite (bused_alloc _ _ _ _ HL Hr Hf Hb). destruct (decide (b = r)); [done|by apply H4].
Qed.

Lemma blk_alloc_zero sb A r a :
  0 ≤ a < BSIZE → ld8 (blk (cview (alloc_upd sb A r)) r) a = 0.
Proof. intros Ha. rewrite /alloc_upd /= blk_insert_eq ld8_memset_in //. Qed.

Lemma blk_alloc_other sb A r b :
  b ≠ r → b ≠ BBLOCK r sb → blk (cview (alloc_upd sb A r)) b = blk (cview A) b.
Proof. intros. rewrite /alloc_upd /set_used /= !blk_insert_ne //. Qed.

(** [balloc], in a transaction with room for two blocks on a disk laid
    out as mkfs does it: it returns.  If the bitmap has a free block, the
    lowest one is returned, zeroed, and it alone is marked in use; no other
    block of the disk changes, apart from the bitmap block of its bit.  If
    there is none it returns 0 and changes nothing.  The disk itself is not
    written: the change is in the transaction. *)
Theorem balloc_correct s A :
  fs_tx (flog s) A → layout (fsb s) A → room A (2 + Z.of_nat (size (chold A))) →
  ∃ r l A', balloc ROOTDEV s = Ret r (set_flog l s) ∧ fs_tx l A' ∧ cdisk A' = cdisk A ∧ chold A' = chold A ∧
  ((0 ≤ r < sb_size (fsb s) ∧ bused (cview A) (fsb s) r = false ∧
    (∀ b, 0 ≤ b < r → bused (cview A) (fsb s) b = true) ∧
    (∀ b, 0 ≤ b < sb_size (fsb s) →
       bused (cview A') (fsb s) b = if decide (b = r) then true else bused (cview A) (fsb s) b) ∧
    (∀ a, 0 ≤ a < BSIZE → ld8 (blk (cview A') r) a = 0) ∧
    (∀ b, b ≠ r → b ≠ BBLOCK r (fsb s) → blk (cview A') b = blk (cview A) b) ∧
    layout (fsb s) A' ∧ cpin A' = {[r]} ∪ ({[BBLOCK r (fsb s)]} ∪ cpin A)) ∨
   (r = 0 ∧ A' = A ∧ ∀ b, 0 ≤ b < sb_size (fsb s) → bused (cview A) (fsb s) b = true)).
Proof.
  intros Hfs HL Hroom. destruct (balloc_spec s A Hfs HL Hroom) as (r & s' & E & l & -> & Hpost).
  destruct Hpost as [(Hr & Hf & Hlow & Hl)|(-> & Hall & Hl)].
  - exists r, l, (alloc_upd (fsb s) A r). split_and!; try done. left. split_and!; try done; [lia|lia|..].
    + intros b Hb. by apply bused_alloc.
    + intros a Ha. by apply blk_alloc_zero.
    + intros b ??. by apply blk_alloc_other.
    + by apply layout_alloc.
  - exists 0, l, A. split_and!; try done. by right.
Qed.

(** [bfree] of a block in use, in a transaction with room: it returns,
    clears the bit of that block and changes nothing else; the block is again
    one [balloc] can return.  Freeing a free block panics. *)
Theorem bfree_correct s A b :
  fs_tx (flog s) A → layout (fsb s) A → room A (1 + Z.of_nat (size (chold A))) → 0 ≤ b < sb_size (fsb s) →
  if bused (cview A) (fsb s) b then
    ∃ l A', bfree ROOTDEV b s = Ret tt (set_flog l s) ∧ fs_tx l A' ∧ cdisk A' = cdisk A ∧ chold A' = chold A ∧
      (∀ b', 0 ≤ b' < sb_size (fsb s) →
         bused (cview A') (fsb s) b' = if decide (b' = b) then false else bused (cview A) (fsb s) b') ∧
      (∀ b', b' ≠ BBLOCK b (fsb s) → blk (cview A') b' = blk (cview A) b')
  else bfree ROOTDEV b s = Panic "freeing free block".
Proof.
  intros Hfs HL Hroom Hb. destruct (bused (cview A) (fsb s) b) eqn:Hu.
  - destruct (bfree_spec s A b Hfs HL Hroom Hb Hu) as ([] & s' & E & l & -> & Hl).
    exists l, (free_upd (fsb s) A b). split_and!; try done.
    + intros b' Hb'. by apply bused_free.
    + intros b' Hb'. by apply blk_insert_ne.
  - rewrite /bfree bind_gets. destruct (lay_bmap_out _ _ HL b Hb) as [_ Hnh].
    apply wp_bind_panic. eapply wp_fbread; [exact Hfs|exact Hnh|eapply room_mono; [exact Hroom|lia]|]. intros i l Hl Hi.
    apply wp_bind_panic. eapply wp_fdata; [exact Hl|apply lookup_insert_eq|]. cbn [cview hold_blk].
    rewrite /bused in Hu. apply negb_false_iff in Hu. by rewrite Hu.
Qed.
End fsblock.
