(* ===== verification/FsDemo.v ===== *)
(** * A small file system

    The disk mkfs makes, cut down: the superblock, a root directory with the
    entries [.], [..] and [a], and the file [a] with the contents [hello].
    The theorems about fs.c are instantiated on it. *)
From S2P Require Import Prelude Riscv CString Kalloc Vm Cache Bio BioInv Log LogInv Crash Fs FsBlock.

#[local] Existing Instance demo_linker.

(** The local variables of the kernel's functions, apart from each other. *)
#[export] Instance demo_frames : Frames := {|
  local x :=
    if decide (x = "dirlookup.de"%string) then 0x1000
    else if decide (x = "dirlink.de"%string) then 0x2000
    else if decide (x = "namei.name"%string) then 0x3000
    else 0x4000 |}.

(** mkfs.c with FSSIZE = 2000: the log is 2 .. 31, the inodes 32 .. 44, the
    bitmap 45, the data from 46 on. *)
Definition demo_sb : superblock := mk_sb FSMAGIC 2000 1954 200 30 2 32 45.

Definition st_sb (sb : superblock) : mem :=
  st32 (st32 (st32 (st32 (st32 (st32 (st32 (st32 ∅ 0 (sb_magic sb)) 4 (sb_size sb)) 8 (sb_nblocks sb))
    12 (sb_ninodes sb)) 16 (sb_nlog sb)) 20 (sb_logstart sb)) 24 (sb_inodestart sb)) 28 (sb_bmapstart sb).

Definition demo_dirent (inum : Z) (name : list Z) (k : Z) (m : mem) : mem :=
  st_bytes (st16 m (16 * k) inum) (16 * k + 2) name.

Definition demo_root : inode := mk_inode 1 1 0 false 0 false T_DIR 0 0 1 48 (46 :: replicate 12 0).
Definition demo_a : inode := mk_inode 1 2 0 false 0 false T_FILE 0 0 1 5 (47 :: replicate 12 0).

Definition demo_fsdisk : gmap Z mem :=
  <[1 := st_sb demo_sb]> (<[32 := dinode_store 128 demo_a (dinode_store 64 demo_root ∅)]>
  (<[45 := memset ∅ 0 255 6]>
  (<[46 := demo_dirent 2 [97] 2 (demo_dirent 1 [46; 46] 1 (demo_dirent 1 [46] 0 ∅))]>
  (<[47 := st_bytes ∅ 0 [104; 101; 108; 108; 111]]> ∅)))).

Definition demo_fsbio : bio := ret_state (binit (bio_boot demo_fsdisk 1)) (bio_boot ∅ 0).
Definition demo_cache : cache := mk_cache demo_fsdisk demo_fsdisk ∅ ∅ [].

Lemma demo_fsbio_rel : bio_rel demo_fsbio demo_cache.
Proof. destruct (binit_spec demo_fsdisk 1) as (s' & E & Hrel & _). by rewrite /demo_fsbio E. Qed.
#[global] Opaque demo_fsbio.

(** Process 1, whose current directory is entry 0 of the inode table, is in
    a system call. *)
Definition demo_flog : logst bio := mk_log demo_fsbio 2 LOGSIZE 1 false ROOTDEV 0 ∅.
Definition demo_fs : fs bio :=
  mk_fs demo_flog demo_sb {[0 := with_ref 1 demo_root]} (mk_kmem ∅ 0) (mk_fproc 1 0 0).

Lemma demo_fs_tx : fs_tx 2 LOGSIZE demo_flog demo_cache.
Proof.
  split; [|cbn; lia]. split; [|done|done|intros i b Hi; cbn in Hi; rewrite lookup_empty in Hi; discriminate Hi]. split.
  - exact demo_fsbio_rel.
  - done.
  - cbn. klia.
  - cbn. klia.
  - intros k Hk. cbn in Hk. lia.
  - cbn. intros b. split; [intros Hb; by apply elem_of_empty in Hb|]. intros (k & ? & _). lia.
  - intros k k' Hk. cbn in Hk. lia.
  - intros k. cbn. rewrite lookup_empty. cbn. lia.
Qed.

Lemma demo_used b : 0 ≤ b < 2000 → bused demo_fsdisk demo_sb b = false → 48 ≤ b.
Proof.
  intros Hb Hu. destruct (decide (48 ≤ b)); [done|]. exfalso.
  assert (forallb (bused demo_fsdisk demo_sb) (seqZ 0 48) = true) as H by (vm_compute; reflexivity).
  rewrite forallb_forall in H. rewrite H in Hu; [discriminate Hu|].
  apply list_elem_of_In, elem_of_seqZ. lia.
Qed.

Lemma demo_bblock b : 0 ≤ b < 2000 → BBLOCK b demo_sb = 45.
Proof. intros. rewrite /BBLOCK /= /BPB /BSIZE u32_small; lia. Qed.

Lemma demo_layout A : cview A = demo_fsdisk → chold A = ∅ → layout 2 LOGSIZE demo_sb A.
Proof.
  intros Hv Hh. split; try (cbn; unfold BPB, BSIZE; lia).
  - cbn. intros b Hb. rewrite demo_bblock //. split; [rewrite /in_log; klia|by apply not_held_empty].
  - cbn. intros b Hb Hu. rewrite Hv in Hu. apply demo_used in Hu; [|done]. split_and!.
    + rewrite /in_log. klia.
    + by apply not_held_empty.
    + intros b' Hb'. rewrite demo_bblock //. lia.
Qed.

Lemma demo_room k : k ≤ 20 → room LOGSIZE demo_cache k.
Proof. intros. rewrite /room. change (size (cpin demo_cache)) with 0%nat. klia. Qed.

Lemma balloc_correct_witness :
  ∃ r l, balloc ROOTDEV demo_fs = Ret r (set_flog l demo_fs) ∧ 48 ≤ r.
Proof.
  destruct (balloc_correct 2 LOGSIZE demo_fs demo_cache) as (r & l & A' & E & _ & _ & _ & HP).
  - exact demo_fs_tx.
  - by apply demo_layout.
  - apply demo_room. change (size (chold demo_cache)) with 0%nat. lia.
  - exists r, l. split; [exact E|]. destruct HP as [(Hr & Hu & _)|(_ & _ & Hall)].
    + by apply demo_used.
    + specialize (Hall 100). exfalso. assert (bused demo_fsdisk demo_sb 100 = false) as H100 by (vm_compute; reflexivity).
      cbn in Hall. rewrite H100 in Hall. discriminate Hall. lia.
Defined.

Lemma bfree_correct_witness :
  (∃ l, bfree ROOTDEV 47 demo_fs = Ret tt (set_flog l demo_fs)) ∧
  bfree ROOTDEV 48 demo_fs = Panic "freeing free block".
Proof.
  assert (room LOGSIZE demo_cache (1 + Z.of_nat (size (chold demo_cache)))) as Hroom.
  { apply demo_room. change (size (chold demo_cache)) with 0%nat. lia. }
  split.
  - pose proof (bfree_correct 2 LOGSIZE demo_fs demo_cache 47 demo_fs_tx ltac:(by apply demo_layout) Hroom ltac:(cbn; lia)) as H.
    assert (bused (cview demo_cache) (fsb demo_fs) 47 = true) as E by (vm_compute; reflexivity).
    rewrite E in H. destruct H as (l & A' & H & _). exists l. exact H.
  - pose proof (bfree_correct 2 LOGSIZE demo_fs demo_cache 48 demo_fs_tx ltac:(by apply demo_layout) Hroom ltac:(cbn; lia)) as H.
    assert (bused (cview demo_cache) (fsb demo_fs) 48 = false) as E by (vm_compute; reflexivity).
    rewrite E in H. exact H.
Defined.
