(* ===== verification/Kern.v ===== *)
(** * The state of the kernel above the file system

    The process table (proc.h, proc.c), the file table (file.h, file.c), the
    console and the clock, over the state of the file system.  A function of
    the kernel is run by the process [kcur] on one hart, up to where it
    returns or sleeps; pointers to processes and to open files are indices of
    their tables, [NULL] is -1. *)
From S2P Require Import Prelude Riscv CString Kalloc Vm Cache Log Fs.

(** ** kernel/proc.h *)

Inductive procstate := UNUSED | USED | SLEEPING | RUNNABLE | RUNNING | ZOMBIE.
#[global] Instance procstate_eq_dec : EqDecision procstate.
Proof. solve_decision. Defined.

(** struct context: the registers allocproc sets, and the rest zeroed. *)
Record context := mk_context { ctx_ra : Z; ctx_sp : Z; ctx_s : list Z }.

Record proc := mk_proc {
  p_state : procstate;
  p_chan : option chan;
  p_killed : bool;
  p_xstate : Z;
  p_pid : Z;
  p_parent : Z;
  p_kstack : Z;
  p_sz : Z;
  p_pagetable : Z;
  p_trapframe : Z;
  p_context : context;
  p_ofile : list Z;
  p_cwd : Z;
  p_name : list Z;
}.

(** A slot of the table at boot (.bss). *)
Definition proc0 : proc :=
  mk_proc UNUSED None false 0 0 NULL 0 0 0 0 (mk_context 0 0 (replicate 12 0)) (replicate 16 NULL) NULL
    (replicate 16 0).
#[global] Instance proc_inhabited : Inhabited proc := populate proc0.

Definition set_state v p := mk_proc v (p_chan p) (p_killed p) (p_xstate p) (p_pid p) (p_parent p) (p_kstack p)
  (p_sz p) (p_pagetable p) (p_trapframe p) (p_context p) (p_ofile p) (p_cwd p) (p_name p).
Definition set_chan v p := mk_proc (p_state p) v (p_killed p) (p_xstate p) (p_pid p) (p_parent p) (p_kstack p)
  (p_sz p) (p_pagetable p) (p_trapframe p) (p_context p) (p_ofile p) (p_cwd p) (p_name p).
Definition set_killed v p := mk_proc (p_state p) (p_chan p) v (p_xstate p) (p_pid p) (p_parent p) (p_kstack p)
  (p_sz p) (p_pagetable p) (p_trapframe p) (p_context p) (p_ofile p) (p_cwd p) (p_name p).
Definition set_xstate v p := mk_proc (p_state p) (p_chan p) (p_killed p) v (p_pid p) (p_parent p) (p_kstack p)
  (p_sz p) (p_pagetable p) (p_trapframe p) (p_context p) (p_ofile p) (p_cwd p) (p_name p).
Definition set_pid v p := mk_proc (p_state p) (p_chan p) (p_killed p) (p_xstate p) v (p_parent p) (p_kstack p)
  (p_sz p) (p_pagetable p) (p_trapframe p) (p_context p) (p_ofile p) (p_cwd p) (p_name p).
Definition set_parent v p := mk_proc (p_state p) (p_chan p) (p_killed p) (p_xstate p) (p_pid p) v (p_kstack p)
  (p_sz p) (p_pagetable p) (p_trapframe p) (p_context p) (p_ofile p) (p_cwd p) (p_name p).
Definition set_kstack v p := mk_proc (p_state p) (p_chan p) (p_killed p) (p_xstate p) (p_pid p) (p_parent p) v
  (p_sz p) (p_pagetable p) (p_trapframe p) (p_context p) (p_ofile p) (p_cwd p) (p_name p).
Definition set_sz v p := mk_proc (p_state p) (p_chan p) (p_killed p) (p_xstate p) (p_pid p) (p_parent p) (p_kstack p)
  v (p_pagetable p) (p_trapframe p) (p_context p) (p_ofile p) (p_cwd p) (p_name p).
Definition set_pagetable v p := mk_proc (p_state p) (p_chan p) (p_killed p) (p_xstate p) (p_pid p) (p_parent p)
  (p_kstack p) (p_sz p) v (p_trapframe p) (p_context p) (p_ofile p) (p_cwd p) (p_name p).
Definition set_trapframe v p := mk_proc (p_state p) (p_chan p) (p_killed p) (p_xstate p) (p_pid p) (p_parent p)
  (p_kstack p) (p_sz p) (p_pagetable p) v (p_context p) (p_ofile p) (p_cwd p) (p_name p).
Definition set_context v p := mk_proc (p_state p) (p_chan p) (p_killed p) (p_xstate p) (p_pid p) (p_parent p)
  (p_kstack p) (p_sz p) (p_pagetable p) (p_trapframe p) v (p_ofile p) (p_cwd p) (p_name p).
Definition set_ofile v p := mk_proc (p_state p) (p_chan p) (p_killed p) (p_xstate p) (p_pid p) (p_parent p)
  (p_kstack p) (p_sz p) (p_pagetable p) (p_trapframe p) (p_context p) v (p_cwd p) (p_name p).
Definition set_cwd v p := mk_proc (p_state p) (p_chan p) (p_killed p) (p_xstate p) (p_pid p) (p_parent p)
  (p_kstack p) (p_sz p) (p_pagetable p) (p_trapframe p) (p_context p) (p_ofile p) v (p_name p).
Definition set_name v p := mk_proc (p_state p) (p_chan p) (p_killed p) (p_xstate p) (p_pid p) (p_parent p)
  (p_kstack p) (p_sz p) (p_pagetable p) (p_trapframe p) (p_context p) (p_ofile p) (p_cwd p) v.

(** ** kernel/file.h *)

Inductive fdtype := FD_NONE | FD_PIPE | FD_INODE | FD_DEVICE.
#[global] Instance fdtype_eq_dec : EqDecision fdtype.
Proof. solve_decision. Defined.

Record file := mk_file {
  f_type : fdtype;
  f_ref : Z;
  f_readable : bool;
  f_writable : bool;
  f_pipe : Z; (* the address of the struct pipe *)
  f_ip : Z;
  f_off : Z;
  f_major : Z;
}.
#[global] Instance file_inhabited : Inhabited file := populate (mk_file FD_NONE 0 false false 0 NULL 0 0).

Definition set_fref v f := mk_file (f_type f) v (f_readable f) (f_writable f) (f_pipe f) (f_ip f) (f_off f) (f_major f).
Definition set_ftype v f := mk_file v (f_ref f) (f_readable f) (f_writable f) (f_pipe f) (f_ip f) (f_off f) (f_major f).
Definition set_frw r w f := mk_file (f_type f) (f_ref f) r w (f_pipe f) (f_ip f) (f_off f) (f_major f).
Definition set_fpipe v f := mk_file (f_type f) (f_ref f) (f_readable f) (f_writable f) v (f_ip f) (f_off f) (f_major f).
Definition set_fip v f := mk_file (f_type f) (f_ref f) (f_readable f) (f_writable f) (f_pipe f) v (f_off f) (f_major f).
Definition set_foff v f := mk_file (f_type f) (f_ref f) (f_readable f) (f_writable f) (f_pipe f) (f_ip f) v (f_major f).
Definition set_fmajor v f := mk_file (f_type f) (f_ref f) (f_readable f) (f_writable f) (f_pipe f) (f_ip f) (f_off f) v.

(** ** The console and the UART *)

(** The device: the bytes received and not yet read, how many bytes it can
    take for transmission now, and the bytes it has been given. *)
Record uart_dev := mk_uart { u_rx : list Z; u_idle : nat; u_sent : list Z }.

(** console.c's [cons] and uart.c's transmit buffer. *)
Record console := mk_cons {
  c_buf : gmap Z Z;
  c_r : Z;
  c_w : Z;
  c_e : Z;
  tx_buf : gmap Z Z;
  tx_w : Z;
  tx_r : Z;
  c_dev : uart_dev;
}.

(** ** The kernel *)

Section kern.
Context {S : Type} {BC : BlockCache S} {LK : Linker} {FR : Frames}.

Record kern := mk_kern {
  kfs : fs S;
  kproc : gmap Z proc;
  kcur : Z;
  kinitproc : Z;
  knextpid : Z;
  kfile : gmap Z file;
  kcons : console;
  kticks : Z;
}.

Definition set_kfs v k := mk_kern v (kproc k) (kcur k) (kinitproc k) (knextpid k) (kfile k) (kcons k) (kticks k).
Definition set_kproc v k := mk_kern (kfs k) v (kcur k) (kinitproc k) (knextpid k) (kfile k) (kcons k) (kticks k).
Definition set_kcur v k := mk_kern (kfs k) (kproc k) v (kinitproc k) (knextpid k) (kfile k) (kcons k) (kticks k).
Definition set_kinitproc v k := mk_kern (kfs k) (kproc k) (kcur k) v (knextpid k) (kfile k) (kcons k) (kticks k).
Definition set_knextpid v k := mk_kern (kfs k) (kproc k) (kcur k) (kinitproc k) v (kfile k) (kcons k) (kticks k).
Definition set_kfile v k := mk_kern (kfs k) (kproc k) (kcur k) (kinitproc k) (knextpid k) v (kcons k) (kticks k).
Definition set_kcons v k := mk_kern (kfs k) (kproc k) (kcur k) (kinitproc k) (knextpid k) (kfile k) v (kticks k).
Definition set_kticks v k := mk_kern (kfs k) (kproc k) (kcur k) (kinitproc k) (knextpid k) (kfile k) (kcons k) v.

(** The file system as the current process sees it. *)
Definition cur_fs (k : kern) : fs S :=
  let p := kproc k !!! kcur k in
  let f := kfs k in
  mk_fs (flog f) (fsb f) (itable f) (fmem f) (mk_fproc (p_pid p) (p_pagetable p) (p_cwd p)).

(** Running the operations of the file system, the log and the memory. *)
Definition onf {A} (m : M (fs S) A) : M kern A := lift cur_fs set_kfs m.
Definition onlog {A} (m : M (logst S) A) : M kern A := onf (onl m).
Definition onmem {A} (m : M kmem A) : M kern A := onf (onm m).
Definition oncons {A} (m : M console A) : M kern A := lift kcons set_kcons m.

Definition getp (p : Z) : M kern proc := gets (λ k, kproc k !!! p).
Definition updp (p : Z) (f : proc → proc) : M kern unit :=
  modify (λ k, set_kproc (<[p := f (kproc k !!! p)]> (kproc k)) k).
Definition getf (f : Z) : M kern file := gets (λ k, kfile k !!! f).
Definition updf (f : Z) (g : file → file) : M kern unit :=
  modify (λ k, set_kfile (<[f := g (kfile k !!! f)]> (kfile k)) k).

(** [myproc()] *)
Definition myproc : M kern Z := gets kcur.

(** ** Sleeping, waking and killing (proc.c) *)

Fixpoint wakeup_loop (n : nat) (p : Z) (c : chan) : M kern unit :=
  match n with
  | O => mret tt
  | Datatypes.S n' =>
      me ← myproc;
      (if negb (p =? me) then
         x ← getp p;
         if bool_decide (p_state x = SLEEPING) && bool_decide (p_chan x = Some c)
         then updp p (set_state RUNNABLE)
         else mret tt
       else mret tt);;
      wakeup_loop n' (p + 1) c
  end.
Definition wakeup (c : chan) : M kern unit := wakeup_loop (Z.to_nat NPROC) 0 c.

Definition killed (p : Z) : M kern bool := x ← getp p; mret (p_killed x).
Definition setkilled (p : Z) : M kern unit := updp p (set_killed true).

Fixpoint kill_loop (n : nat) (p pid : Z) : M kern Z :=
  match n with
  | O => mret (-1)
  | Datatypes.S n' =>
      x ← getp p;
      if p_pid x =? pid then
        updp p (set_killed true);;
        x ← getp p;
        (if bool_decide (p_state x = SLEEPING) then updp p (set_state RUNNABLE) else mret tt);;
        mret 0
      else kill_loop n' (p + 1) pid
  end.
Definition kill (pid : Z) : M kern Z := kill_loop (Z.to_nat NPROC) 0 pid.

(** The part of [sleep] up to [sched], which gives the processor away. *)
Definition sleep_on {A} (c : chan) : M kern A :=
  me ← myproc;
  updp me (set_chan (Some c));;
  updp me (set_state SLEEPING);;
  sleep c.
End kern.
Arguments kern : clear implicits.
