(* ===== verification/KernInv.v ===== *)
(** * Frames and rules for functions of the kernel

    What a function that only touches memory and wakes processes leaves
    alone, and the effect of [wakeup] and [kill] on the process table. *)
From S2P Require Import Prelude Riscv CString Kalloc Vm Cache Log Fs Kern.

Section kerninv.
Context {S : Type} {BC : BlockCache S} {LK : Linker} {FR : Frames}.
Implicit Types (k : kern S) (P : gmap Z proc).

Definition kmemory k : kmem := fmem (kfs k).

(** [P'] is [P] with some processes other than [me] woken up. *)
Definition woken (me : Z) P P' : Prop :=
  ∀ p, P' !!! p = P !!! p ∨
       (P' !!! p = set_state RUNNABLE (P !!! p) ∧ p_state (P !!! p) = SLEEPING ∧ p ≠ me).

Lemma woken_refl me P : woken me P P.
Proof. intros p. by left. Qed.
Lemma woken_trans me P1 P2 P3 : woken me P1 P2 → woken me P2 P3 → woken me P1 P3.
Proof.
  intros H1 H2 p. destruct (H1 p) as [E1|(E1 & Es & Hne)], (H2 p) as [E2|(E2 & Es2 & Hne2)].
  - left. by rewrite E2.
  - right. rewrite E2 E1. rewrite E1 in Es2. done.
  - right. rewrite E2. done.
  - rewrite E1 in Es2. cbn in Es2. discriminate Es2.
Qed.
Lemma woken_me me P P' : woken me P P' → P' !!! me = P !!! me.
Proof. intros H. by destruct (H me) as [?|(_ & _ & ?)]. Qed.

(** Everything but memory, and but wakeups. *)
Record kframe k k' : Prop := {
  kf_log : flog (kfs k') = flog (kfs k);
  kf_sb : fsb (kfs k') = fsb (kfs k);
  kf_it : itable (kfs k') = itable (kfs k);
  kf_free : freelist (kmemory k') = freelist (kmemory k);
  kf_proc : woken (kcur k) (kproc k) (kproc k');
  kf_cur : kcur k' = kcur k;
  kf_init : kinitproc k' = kinitproc k;
  kf_pid : knextpid k' = knextpid k;
  kf_file : kfile k' = kfile k;
  kf_cons : kcons k' = kcons k;
  kf_ticks : kticks k' = kticks k;
}.

Lemma kframe_refl k : kframe k k.
Proof. split; try done. apply woken_refl. Qed.
Lemma kframe_trans k1 k2 k3 : kframe k1 k2 → kframe k2 k3 → kframe k1 k3.
Proof.
  intros [] []. split; try congruence. eapply woken_trans; [done|]. by rewrite -kf_cur0.
Qed.
Lemma kframe_me k k' : kframe k k' → kproc k' !!! kcur k' = kproc k !!! kcur k.
Proof. intros []. rewrite kf_cur0. by apply woken_me. Qed.

(** Memory operations. *)
Lemma wp_onmem {B} (m : M kmem B) k (Q : B → kern S → Prop) a s :
  m (kmemory k) = Ret a s → freelist s = freelist (kmemory k) →
  (∀ k', kframe k k' → kmemory k' = s → Q a k') → wp (onmem m) k Q.
Proof.
  intros E Ef HQ. apply wp_lift, wp_lift. eexists a, s. split; [exact E|]. apply HQ; [|done].
  split; try done. apply woken_refl.
Qed.

(** ** [wakeup] *)

Definition wakes (c : chan) (me p : Z) (x : proc) : bool :=
  bool_decide (p ≠ me) && bool_decide (p_state x = SLEEPING) && bool_decide (p_chan x = Some c).

Lemma updp_lookup p f P q :
  <[p := f (P !!! p)]> P !!! q = if decide (q = p) then f (P !!! p) else P !!! q.
Proof. case_decide; [subst; by rewrite lookup_total_insert_eq|by rewrite lookup_total_insert_ne]. Qed.

Lemma wakeup_loop_run n p c k :
  ∃ P', wakeup_loop n p c k = Ret tt (set_kproc P' k) ∧
    ∀ q, P' !!! q = if decide (p ≤ q < p + Z.of_nat n) then
                      (if wakes c (kcur k) q (kproc k !!! q) then set_state RUNNABLE (kproc k !!! q) else kproc k !!! q)
                    else kproc k !!! q.
Proof.
  revert p k. induction n as [|n IH]; intros p k.
  - exists (kproc k). split; [by destruct k|]. intros q. by rewrite decide_False; [|lia].
  - cbn [wakeup_loop]. rewrite /myproc bind_gets.
    set (b := wakes c (kcur k) p (kproc k !!! p)).
    assert (∃ P1, (if negb (p =? kcur k) then x ← getp p;
         if bool_decide (p_state x = SLEEPING) && bool_decide (p_chan x = Some c)
         then updp p (set_state RUNNABLE) else mret tt else mret tt) k = Ret tt (set_kproc P1 k) ∧
       ∀ q, P1 !!! q = if decide (q = p) then (if b then set_state RUNNABLE (kproc k !!! p) else kproc k !!! p)
                       else kproc k !!! q) as (P1 & E1 & H1).
    { rewrite /b /wakes. destruct (Z.eqb_spec p (kcur k)) as [->|Hne]; cbn [negb].
      - exists (kproc k). split; [by destruct k|]. intros q. rewrite bool_decide_eq_false_2; [|tauto]. cbn.
        by destruct (decide (q = kcur k)) as [->|].
      - rewrite bool_decide_eq_true_2 //. cbn [andb]. rewrite /getp bind_gets.
        destruct (_ && _).
        + eexists. split; [reflexivity|]. intros q. apply updp_lookup.
        + exists (kproc k). split; [by destruct k|]. intros q. by destruct (decide (q = p)) as [->|]. }
    rewrite (bind_ret _ _ _ _ _ E1). destruct (IH (p + 1) (set_kproc P1 k)) as (P' & E & HP).
    exists P'. split; [exact E|]. intros q. rewrite HP. cbn [kproc kcur set_kproc].
    destruct (decide (q = p)) as [->|Hq].
    + rewrite decide_False; [|lia]. rewrite decide_True; [|lia]. rewrite H1. by rewrite decide_True.
    + assert (P1 !!! q = kproc k !!! q) as -> by (rewrite H1; by destruct (decide (q = p))).
      destruct (decide (p + 1 ≤ q < _)), (decide (p ≤ q < _)); lia || done.
Qed.

Lemma wakeup_run c k :
  ∃ P', wakeup c k = Ret tt (set_kproc P' k) ∧
    ∀ q, P' !!! q = if decide (0 ≤ q < NPROC) then
                      (if wakes c (kcur k) q (kproc k !!! q) then set_state RUNNABLE (kproc k !!! q) else kproc k !!! q)
                    else kproc k !!! q.
Proof. apply (wakeup_loop_run (Z.to_nat NPROC) 0). Qed.

Lemma wp_wakeup c k (Q : unit → kern S → Prop) :
  (∀ k', kframe k k' → kmemory k' = kmemory k → Q tt k') → wp (wakeup c) k Q.
Proof.
  intros HQ. destruct (wakeup_run c k) as (P' & E & HP). eexists tt, _. split; [exact E|].
  apply HQ; [|done]. split; try done. intros q. cbn. rewrite HP.
  destruct (decide _); [|by left]. destruct (wakes _ _ _ _) eqn:Hw; [|by left]. right.
  rewrite /wakes !andb_true_iff !bool_decide_eq_true in Hw. tauto.
Qed.
End kerninv.
