(* ===== verification/Pipe.v ===== *)
(** * kernel/pipe.c

    A struct pipe lives in a page of its own, from [kalloc]: its fields are
    read and written in kernel memory at their offsets.  A call that sleeps
    is modelled as the runs between its sleeps: [inr] is the local state with
    which it goes on when it is woken up. *)
From S2P Require Import Prelude Riscv CString Kalloc Vm Cache Log Fs Kern.

Definition PIPESIZE : Z := 512.

(** Offsets in struct pipe; the spin-lock takes the first 24 bytes. *)
Definition PI_data : Z := 24.
Definition PI_nread : Z := 536.
Definition PI_nwrite : Z := 540.
Definition PI_readopen : Z := 544.
Definition PI_writeopen : Z := 548.

Section pipe.
Context {S : Type} {BC : BlockCache S} {LK : Linker} {FR : Frames}.

Definition pi_get (pi off : Z) : M (kern S) Z := gets (λ k, ld32 (km (fmem (kfs k))) (pi + off)).
Definition pi_set (pi off v : Z) : M (kern S) unit := onmem (upd_mem (λ m, st32 m (pi + off) v)).

(** The fields as [pipealloc] sets them. *)
Definition pipe_init (pi : Z) : M (kern S) unit :=
  pi_set pi PI_readopen 1;;
  pi_set pi PI_writeopen 1;;
  pi_set pi PI_nwrite 0;;
  pi_set pi PI_nread 0.

Definition pipeclose (pi : Z) (writable : bool) : M (kern S) unit :=
  (if writable then
     pi_set pi PI_writeopen 0;;
     wakeup ("pipe.nread"%string, pi)
   else
     pi_set pi PI_readopen 0;;
     wakeup ("pipe.nwrite"%string, pi));;
  ro ← pi_get pi PI_readopen;
  wo ← pi_get pi PI_writeopen;
  if (ro =? 0) && (wo =? 0) then onmem (kfree pi) else mret tt.

(** [pipewrite] from [i] bytes written on: [inr i] when it sleeps on
    [&pi->nwrite]. *)
Fixpoint pipewrite_loop (fuel : nat) (pi addr n i : Z) : M (kern S) (Z + Z) :=
  match fuel with
  | O => mret (inr i)
  | Datatypes.S fuel' =>
      if negb (i <? n) then wakeup ("pipe.nread"%string, pi);; mret (inl i)
      else
        pr ← myproc;
        readopen ← pi_get pi PI_readopen;
        kl ← killed pr;
        if (readopen =? 0) || kl then mret (inl (-1))
        else
          nwrite ← pi_get pi PI_nwrite;
          nread ← pi_get pi PI_nread;
          if nwrite =? u32 (nread + PIPESIZE) then
            wakeup ("pipe.nread"%string, pi);; mret (inr i)
          else
            x ← getp pr;
            r ← onmem (copyin (p_pagetable x) (u64 (addr + i)) 1);
            if r.1 =? -1 then wakeup ("pipe.nread"%string, pi);; mret (inl i)
            else
              onmem (upd_mem (λ m, st8 m (pi + PI_data + nwrite mod PIPESIZE) (hd 0 r.2)));;
              pi_set pi PI_nwrite (u32 (nwrite + 1));;
              pipewrite_loop fuel' pi addr n (i + 1)
  end.
Definition pipewrite_run (pi addr n i : Z) : M (kern S) (Z + Z) :=
  pipewrite_loop (Datatypes.S (Z.to_nat (n - i))) pi addr n i.
Definition pipewrite (pi addr n : Z) : M (kern S) Z :=
  r ← pipewrite_run pi addr n 0;
  match r with
  | inl ret => mret ret
  | inr _ => sleep_on ("pipe.nwrite"%string, pi)
  end.

(** The copying loop of [piperead]. *)
Fixpoint piperead_loop (m : nat) (pi addr i : Z) : M (kern S) Z :=
  match m with
  | O => mret i
  | Datatypes.S m' =>
      nread ← pi_get pi PI_nread;
      nwrite ← pi_get pi PI_nwrite;
      if nread =? nwrite then mret i
      else
        ch ← gets (λ k, ld8 (km (fmem (kfs k))) (pi + PI_data + nread mod PIPESIZE));
        pi_set pi PI_nread (u32 (nread + 1));;
        pr ← myproc;
        x ← getp pr;
        r ← onmem (copyout (p_pagetable x) (u64 (addr + i)) [ch]);
        if r =? -1 then mret i
        else piperead_loop m' pi addr (i + 1)
  end.
(** One run of [piperead]; [inr] when it sleeps on [&pi->nread]. *)
Definition piperead_run (pi addr n : Z) : M (kern S) (Z + unit) :=
  nread ← pi_get pi PI_nread;
  nwrite ← pi_get pi PI_nwrite;
  writeopen ← pi_get pi PI_writeopen;
  if (nread =? nwrite) && negb (writeopen =? 0) then
    pr ← myproc;
    kl ← killed pr;
    if kl : bool then mret (inl (-1)) else mret (inr tt)
  else
    i ← piperead_loop (Z.to_nat n) pi addr 0;
    wakeup ("pipe.nwrite"%string, pi);;
    mret (inl i).
Definition piperead (pi addr n : Z) : M (kern S) Z :=
  r ← piperead_run pi addr n;
  match r with
  | inl ret => mret ret
  | inr _ => sleep_on ("pipe.nread"%string, pi)
  end.
End pipe.
