(* ===== verification/PipeInv.v ===== *)
(** * Pipes are bounded FIFO queues

    The bytes between [nread] and [nwrite] in the circular buffer of a struct
    pipe, whatever the wrap-around of the 32-bit counters, are a queue of at
    most PIPESIZE bytes: a run of [pipewrite] appends to it, a run of
    [piperead] takes from its front. *)
From S2P Require Import Prelude Riscv CString Kalloc Vm VmInv AddrSpace UserCopy Cache Bio BioInv Log Fs FsDemo Kern.
From S2P Require Import KernInv Pipe.

Section pipeinv.
Context {S : Type} {BC : BlockCache S} {LK : Linker} {FR : Frames}.
Implicit Types (k : kern S) (m : mem) (q : list Z).

(** The buffer cell of byte number [x] of the stream. *)
Definition slot (pi x : Z) : Z := pi + PI_data + x mod PIPESIZE.

Record pipe_rep m (pi nr : Z) q (ro wo : Z) : Prop := {
  pr_len : Z.of_nat (length q) ≤ PIPESIZE;
  pr_nr : 0 ≤ nr < 2 ^ 32;
  pr_nread : ld32 m (pi + PI_nread) = nr;
  pr_nwrite : ld32 m (pi + PI_nwrite) = u32 (nr + Z.of_nat (length q));
  pr_ro : ld32 m (pi + PI_readopen) = ro;
  pr_wo : ld32 m (pi + PI_writeopen) = wo;
  pr_data : ∀ j b, q !! j = Some b → ld8 m (slot pi (nr + Z.of_nat j)) = b;
}.

(** The page of the pipe is an allocated page, neither a page-table page nor
    a page of the running process. *)
Record pipe_env (G : gmap Z (nat * Z)) (pages : list Z) (s : kmem) (root pi : Z) : Prop := {
  pe_vm : vm_inv G s root pages;
  pe_user : user_ok G (km s) root pages;
  pe_page : page_ok pi;
  pe_alloc : pi ∉ pages;
  pe_notpt : G !! pi = None;
  pe_notuser : ∀ va, 0 ≤ va < MAXVA → uvalid (pte_at (km s) root va) = true →
    PTE2PA (pte_at (km s) root va) ≠ pi;
}.

Lemma u32_mod_slot x : u32 x mod PIPESIZE = x mod PIPESIZE.
Proof. rewrite /u32 /PIPESIZE. lia. Qed.
Lemma slot_range pi x : pi + PI_data ≤ slot pi x < pi + PI_nread.
Proof. rewrite /slot /PI_data /PI_nread /PIPESIZE. lia. Qed.
Lemma slot_inj pi x y : slot pi x = slot pi y → x ≤ y < x + PIPESIZE → x = y.
Proof. rewrite /slot /PIPESIZE. lia. Qed.

Lemma ld8_st32_ne m a v b : b < a ∨ a + 4 ≤ b → ld8 (st32 m a v) b = ld8 m b.
Proof. intros. apply (ld8_st_le_ne 4). lia. Qed.
Lemma ld32_st8_ne m a v b : a < b ∨ b + 4 ≤ a → ld32 (st8 m a v) b = ld32 m b.
Proof. intros. apply (ld_le_ext 4). intros. apply ld8_st8_ne. lia. Qed.
Lemma ld32_st32_eq' m a v : ld32 (st32 m a v) a = u32 v.
Proof. apply (ld_st_le_eq 4). Qed.
Lemma ld32_st32_ne' m a v b : b + 4 ≤ a ∨ a + 4 ≤ b → ld32 (st32 m a v) b = ld32 m b.
Proof. intros. apply (ld_st_le_ne 4 4). lia. Qed.

(** A store to the page of the pipe. *)
Lemma pipe_env_store G pages s root pi m' :
  pipe_env G pages s root pi → same_outside pi (km s) m' →
  pipe_env G pages (mk_kmem m' (freelist s)) root pi ∧
  ∀ va pa, uaddr (km s) root va = Some pa → uaddr m' root va = Some pa ∧ ld8 m' pa = ld8 (km s) pa.
Proof.
  intros [Hv Hu Hp Ha Hg Hn] Hs. destruct (frame_store G s root pages pi m' Hv Hp Ha Hg Hs) as [Hv' Ept].
  split.
  - split; try done; [by eapply user_ok_ext|]. cbn. intros va Hva. rewrite Ept //. by apply Hn.
  - intros va pa E. rewrite (uaddr_ext (km s)) // E. split; [done|]. apply Hs.
    apply uaddr_Some in E as (Hva & Hval & ->). destruct (Hu va Hva Hval) as (Hok & _).
    pose proof (Hn va Hva Hval). destruct (page_ok_sep pi _ Hp Hok); [done|klia|klia].
Qed.

Lemma uaddr_None_ext G pages s root pi m' va :
  pipe_env G pages s root pi → same_outside pi (km s) m' → uaddr m' root va = uaddr (km s) root va.
Proof.
  intros [Hv Hu Hp Ha Hg Hn] Hs. destruct (frame_store G s root pages pi m' Hv Hp Ha Hg Hs) as [_ Ept].
  by apply uaddr_ext.
Qed.

Lemma uread_ext G pages s root pi m' n va :
  pipe_env G pages s root pi → same_outside pi (km s) m' → uread n m' root va = uread n (km s) root va.
Proof.
  intros He Hs. revert va. induction n as [|n IH]; intros va; [done|]. cbn [uread].
  rewrite (uaddr_None_ext _ _ _ _ _ _ _ He Hs). destruct (uaddr (km s) root va) as [pa|] eqn:E; [|done].
  destruct (pipe_env_store _ _ _ _ _ _ He Hs) as [_ H]. destruct (H _ _ E) as [_ ->]. by rewrite IH.
Qed.

(** ** Pushing and popping *)

Lemma same_outside_pipe m pi a v :
  pi ≤ a → a + 4 ≤ pi + 552 → same_outside pi m (st32 m a v).
Proof. intros ?? b Hb. apply ld8_st32_ne. klia. Qed.

Definition push_mem m (pi nw b : Z) : mem :=
  st32 (st8 m (pi + PI_data + nw mod PIPESIZE) b) (pi + PI_nwrite) (u32 (nw + 1)).

Lemma same_outside_push m pi nw b : same_outside pi m (push_mem m pi nw b).
Proof.
  intros a Ha. pose proof (slot_range pi nw) as Hs. rewrite /slot in Hs.
  rewrite /push_mem /PI_data /PI_nread /PI_nwrite in Hs |- *. rewrite ld8_st32_ne; [|klia]. apply ld8_st8_ne. klia.
Qed.

Lemma push_rep m pi nr q ro wo b :
  pipe_rep m pi nr q ro wo → Z.of_nat (length q) < PIPESIZE → 0 ≤ b < 256 →
  pipe_rep (push_mem m pi (u32 (nr + Z.of_nat (length q))) b) pi nr (q ++ [b]) ro wo.
Proof.
  intros [Hl Hn H1 H2 H3 H4 Hd] Hroom Hb. set (nw := nr + Z.of_nat (length q)) in *.
  rewrite /push_mem u32_mod_slot. pose proof (slot_range pi nw) as Hs. rewrite /slot in Hs.
  assert (∀ off, 536 ≤ off → ld32 (st8 m (pi + PI_data + nw mod PIPESIZE) b) (pi + off) = ld32 m (pi + off)) as Hf.
  { intros off Ho. apply ld32_st8_ne. rewrite /PI_data /PI_nread in Hs |- *. lia. }
  rewrite /PI_nread /PI_nwrite /PI_readopen /PI_writeopen in H1, H2, H3, H4 |- *.
  split; rewrite /PI_nread /PI_nwrite /PI_readopen /PI_writeopen ?length_app /=; try done; [lia|..].
  - rewrite ld32_st32_ne'; [|lia]. by rewrite Hf.
  - rewrite ld32_st32_eq' /u32 /nw. lia.
  - rewrite ld32_st32_ne'; [|lia]. by rewrite Hf.
  - rewrite ld32_st32_ne'; [|lia]. by rewrite Hf.
  - intros j x Hj. pose proof (slot_range pi (nr + Z.of_nat j)) as Hsj. rewrite /PI_nread in Hsj.
    rewrite ld8_st32_ne; [|lia]. apply lookup_app_Some in Hj as [Hj|[Hle Hj]].
    + pose proof (lookup_lt_Some _ _ _ Hj). rewrite ld8_st8_ne; [by apply Hd|].
      intros E. assert (nr + Z.of_nat j = nw); [|lia]. apply (slot_inj pi); [exact E|lia].
    + apply list_lookup_singleton_Some in Hj as [Hj <-].
      replace (nr + Z.of_nat j) with nw by lia. rewrite /slot ld8_st8_eq. by apply u8_small.
Qed.

Definition pop_mem m (pi nr : Z) : mem := st32 m (pi + PI_nread) (u32 (nr + 1)).

Lemma pop_rep m pi nr b q ro wo :
  pipe_rep m pi nr (b :: q) ro wo →
  ld8 m (pi + PI_data + nr mod PIPESIZE) = b ∧ pipe_rep (pop_mem m pi nr) pi (u32 (nr + 1)) q ro wo.
Proof.
  intros [Hl Hn H1 H2 H3 H4 Hd]. cbn [length] in *. split.
  { rewrite -(Hd O b) // /slot. by rewrite Z.add_0_r. }
  rewrite /pop_mem. split; try done.
  - lia.
  - apply u32_range.
  - rewrite ld32_st32_eq' /u32. lia.
  - rewrite ld32_st32_ne'; [|rewrite /PI_nread /PI_nwrite; lia]. rewrite H2 /u32. lia.
  - rewrite ld32_st32_ne' //. rewrite /PI_nread /PI_readopen; lia.
  - rewrite ld32_st32_ne' //. rewrite /PI_nread /PI_writeopen; lia.
  - intros j x Hj. rewrite -(Hd (Datatypes.S j) x Hj). pose proof (slot_range pi (u32 (nr + 1) + Z.of_nat j)).
    rewrite ld8_st32_ne; [|rewrite /PI_nread in H |- *; lia]. f_equal. rewrite /slot. f_equal. rewrite /u32 /PIPESIZE. lia.
Qed.

(** ** [pipewrite] *)

Lemma copyin_byte G s root pages va :
  vm_inv G s root pages → 0 ≤ va < 2 ^ 64 →
  copyin root va 1 s =
  Ret (match uaddr (km s) root va with Some pa => (0, [ld8 (km s) pa]) | None => (-1, []) end) s.
Proof.
  intros Hv Hva. rewrite /copyin (copyin_loop_spec _ G s root pages) //.
  change (Z.to_nat 1) with 1%nat. cbn [uread]. by destruct (uaddr _ _ _).
Qed.

Lemma copyout_byte G s root pages va b :
  vm_inv G s root pages → user_ok G (km s) root pages → 0 ≤ va < 2 ^ 64 →
  copyout root va [b] s =
  (let '(m', ok) := uwrite [b] (km s) root va in Ret (if ok : bool then 0 else -1) (mk_kmem m' (freelist s))).
Proof. intros. by apply (copyout_loop_spec _ G s root pages). Qed.

Lemma wp_pi_get k pi off Q : Q (ld32 (km (kmemory k)) (pi + off)) k → wp (pi_get pi off) k Q.
Proof. intros HQ. by eexists _, k. Qed.

(** How a run of [pipewrite] ends after the bytes [w], with [room] bytes of
    room at its start. *)
Definition pw_result (n i room : Z) (w : list Z) : Z + Z :=
  let i' := i + Z.of_nat (length w) in
  if i' =? n then inl n
  else if Z.of_nat (length w) =? room then inr i'
  else inl i'.

Lemma pw_result_nil n i room :
  pw_result n i room [] = if i =? n then inl n else if 0 =? room then inr i else inl i.
Proof. rewrite /pw_result. cbn [length]. by rewrite Z.add_0_r. Qed.

Section write.
Context (G : gmap Z (nat * Z)) (pages : list Z) (root pi : Z).

Definition pw_post k (nr : Z) q ro wo (n i : Z) (bs : list Z) (r : Z + Z) (k' : kern S) : Prop :=
  let room := PIPESIZE - Z.of_nat (length q) in
  let w := take (Z.to_nat room) bs in
  kframe k k' ∧ pipe_env G pages (kmemory k') root pi ∧
  pipe_rep (km (kmemory k')) pi nr (q ++ w) ro wo ∧
  same_outside pi (km (kmemory k)) (km (kmemory k')) ∧ r = pw_result n i room w.

Lemma pipe_env_mem s s' : km s' = km s → freelist s' = freelist s → pipe_env G pages s root pi → pipe_env G pages s' root pi.
Proof. destruct s, s'. cbn. by intros -> ->. Qed.

(** The run stops here: nothing more to write, no room, or no more readable
    bytes. *)
Lemma pw_stop k k' nr q ro wo n i bs (e : Z + Z) :
  kframe k k' → kmemory k' = kmemory k → pipe_env G pages (kmemory k) root pi →
  pipe_rep (km (kmemory k)) pi nr q ro wo →
  take (Z.to_nat (PIPESIZE - Z.of_nat (length q))) bs = [] →
  e = pw_result n i (PIPESIZE - Z.of_nat (length q)) [] →
  pw_post k nr q ro wo n i bs e k'.
Proof.
  intros Hf Em He Hr Ew ->. rewrite /pw_post Ew app_nil_r Em. split_and!; done.
Qed.

(** One byte more. *)
Lemma pw_cons k k' k'' nr q ro wo n i b bs r :
  kframe k k' → same_outside pi (km (kmemory k)) (km (kmemory k')) → Z.of_nat (length q) < PIPESIZE →
  pw_post k' nr (q ++ [b]) ro wo n (i + 1) bs r k'' → pw_post k nr q ro wo n i (b :: bs) r k''.
Proof.
  intros Hf Hs Hroom (Hf2 & He & Hr & Hs2 & ->). rewrite length_app /= in Hr |- *.
  destruct (Z.to_nat (PIPESIZE - Z.of_nat (length q))) as [|rm] eqn:Erm; [lia|].
  assert (Z.to_nat (PIPESIZE - Z.of_nat (length q + 1)) = rm) as E1 by lia. rewrite E1 in Hr |- *.
  rewrite /pw_post Erm. cbn [take]. split_and!.
  - by eapply kframe_trans.
  - done.
  - by rewrite -app_assoc in Hr.
  - by eapply same_outside_trans.
  - rewrite /pw_result. cbn [length]. set (l := length (take rm bs)).
    replace (i + Z.of_nat (Datatypes.S l)) with (i + 1 + Z.of_nat l) by lia.
    destruct (_ =? n); [done|].
    destruct (Z.eqb_spec (Z.of_nat l) (PIPESIZE - Z.of_nat (length q + 1))),
      (Z.eqb_spec (Z.of_nat (Datatypes.S l)) (PIPESIZE - Z.of_nat (length q))); lia || done.
Qed.

Lemma pipewrite_loop_S fuel addr n i :
  pipewrite_loop (Datatypes.S fuel) pi addr n i =
  (if negb (i <? n) then wakeup ("pipe.nread"%string, pi);; mret (inl i)
   else
     pr ← myproc;
     readopen ← pi_get pi PI_readopen;
     kl ← killed pr;
     if (readopen =? 0) || kl then mret (inl (-1))
     else
       nwrite ← pi_get pi PI_nwrite;
       nread ← pi_get pi PI_nread;
       if nwrite =? u32 (nread + PIPESIZE) then wakeup ("pipe.nread"%string, pi);; mret (inr i)
       else
         x ← getp pr;
         r ← onmem (copyin (p_pagetable x) (u64 (addr + i)) 1);
         if r.1 =? -1 then wakeup ("pipe.nread"%string, pi);; mret (inl i)
         else
           onmem (upd_mem (λ m, st8 m (pi + PI_data + nwrite mod PIPESIZE) (hd 0 r.2)));;
           pi_set pi PI_nwrite (u32 (nwrite + 1));;
           pipewrite_loop (S := S) fuel pi addr n (i + 1)).
Proof. reflexivity. Qed.

Lemma pipewrite_loop_spec fuel k nr q ro wo addr n i :
  p_pagetable (kproc k !!! kcur k) = root → p_killed (kproc k !!! kcur k) = false → ro ≠ 0 →
  pipe_env G pages (kmemory k) root pi → pipe_rep (km (kmemory k)) pi nr q ro wo →
  0 ≤ addr → addr + n ≤ 2 ^ 64 → 0 ≤ i ≤ n → n - i < Z.of_nat fuel →
  wp (pipewrite_loop fuel pi addr n i) k
    (pw_post k nr q ro wo n i (fst (uread (Z.to_nat (n - i)) (km (kmemory k)) root (addr + i)))).
Proof.
  revert k q i. induction fuel as [|fuel IH]; intros k q i Hpt Hkl Hro He Hr Ha Han Hi Hfuel; [lia|].
  rewrite pipewrite_loop_S. destruct (Z.ltb_spec i n) as [Hin|Hin]; cbn [negb].
  2:{ assert (Z.to_nat (n - i) = O) as -> by lia. cbn [uread fst].
      apply wp_bind, wp_wakeup. intros k' Hf Em. apply wp_mret. eapply pw_stop; try done; [apply take_nil|].
      rewrite pw_result_nil. destruct (Z.eqb_spec i n); [by subst|lia]. }
  rewrite /myproc. apply wp_bind, wp_gets. apply wp_bind, wp_pi_get. rewrite (pr_ro _ _ _ _ _ _ Hr).
  rewrite /killed /getp. apply wp_bind, wp_bind, wp_gets, wp_mret. rewrite Hkl.
  destruct (Z.eqb_spec ro 0); [done|]. cbn [orb].
  apply wp_bind, wp_pi_get. apply wp_bind, wp_pi_get. rewrite (pr_nwrite _ _ _ _ _ _ Hr) (pr_nread _ _ _ _ _ _ Hr).
  pose proof (pr_len _ _ _ _ _ _ Hr) as Hlen.
  destruct (Z.eqb_spec (u32 (nr + Z.of_nat (length q))) (u32 (nr + PIPESIZE))) as [Efull|Enf].
  { assert (Z.of_nat (length q) = PIPESIZE) as Efl by (rewrite /u32 /PIPESIZE in Efull, Hlen |- *; lia).
    apply wp_bind, wp_wakeup. intros k' Hf Em. apply wp_mret. eapply pw_stop; try done.
    - by rewrite Efl Z.sub_diag.
    - rewrite pw_result_nil Efl. destruct (Z.eqb_spec i n); [lia|done]. }
  assert (Z.of_nat (length q) < PIPESIZE) as Hroom.
  { destruct (decide (Z.of_nat (length q) = PIPESIZE)) as [E|]; [by rewrite E in Enf|lia]. }
  apply wp_bind, wp_gets. rewrite Hpt. apply wp_bind. rewrite u64_small; [|lia].
  destruct (Z.to_nat (n - i)) as [|cnt] eqn:Ecnt; [lia|]. cbn [uread].
  eapply wp_onmem; [eapply copyin_byte; [apply He|lia]|done|]. intros k1 Hf1 Em1.
  destruct (uaddr (km (kmemory k)) root (addr + i)) as [pa|] eqn:Hua; cbn [fst snd hd].
  2:{ change (-1 =? -1) with true. cbv iota. apply wp_bind, wp_wakeup. intros k' Hf Em. apply wp_mret.
      eapply pw_stop; try done; [by eapply kframe_trans|by rewrite Em|apply take_nil|].
      rewrite pw_result_nil. destruct (Z.eqb_spec i n); [lia|].
      destruct (Z.eqb_spec 0 (PIPESIZE - Z.of_nat (length q))); [lia|done]. }
  change (0 =? -1) with false. cbv iota. set (b := ld8 (km (kmemory k)) pa).
  assert (0 ≤ b < 256) as Hb by apply ld8_range.
  apply wp_bind. eapply wp_onmem; [reflexivity|done|]. intros k2 Hf2 Em2.
  apply wp_bind. eapply wp_onmem; [reflexivity|done|]. intros k3 Hf3 Em3.
  set (nw := u32 (nr + Z.of_nat (length q))) in *.
  assert (kmemory k3 = mk_kmem (push_mem (km (kmemory k)) pi nw b) (freelist (kmemory k))) as Em.
  { by rewrite Em3 Em2 Em1. }
  assert (kframe k k3) as Hf by (eapply kframe_trans; [exact Hf1|]; by eapply kframe_trans).
  pose proof (same_outside_push (km (kmemory k)) pi nw b) as Hso.
  destruct (pipe_env_store _ _ _ _ _ _ He Hso) as [He3 _].
  destruct (uread cnt (km (kmemory k)) root (addr + i + 1)) as [bs ok] eqn:Hur. cbn [fst].
  eapply wp_mono.
  - apply (IH k3 (q ++ [b]) (i + 1)); try done; try lia.
    + by rewrite (kframe_me _ _ Hf).
    + by rewrite (kframe_me _ _ Hf).
    + by rewrite Em.
    + rewrite Em. by apply push_rep.
  - cbv beta. intros r k' Hpost. rewrite Em in Hpost. cbn [km] in Hpost.
    replace (Z.to_nat (n - (i + 1))) with cnt in Hpost by lia.
    rewrite (uread_ext _ _ _ _ _ _ _ _ He Hso) Z.add_assoc Hur in Hpost. cbn [fst] in Hpost.
    eapply pw_cons; [exact Hf|by rewrite Em|done|exact Hpost].
Qed.
End write.

(** C36. A run of [pipewrite], from [i] bytes written on, by a process that is
    not killed, into a pipe whose read end is open and which holds the queue
    [q]: it returns.  It appends to the queue the bytes of the user's buffer,
    in order and without a gap, up to the first that is not mapped and as far
    as there is room in PIPESIZE, whatever the wrap-around of the 32-bit
    counters; it returns [n] when all are written, sleeps with the number
    written so far when the pipe is full, and returns that number at an
    unmapped byte.  It changes memory only in the page of the pipe. *)
Theorem pipewrite_fifo G pages k pi nr q ro wo addr n i :
  let x := kproc k !!! kcur k in
  let bs := fst (uread (Z.to_nat (n - i)) (km (kmemory k)) (p_pagetable x) (addr + i)) in
  let room := PIPESIZE - Z.of_nat (length q) in
  let w := take (Z.to_nat room) bs in
  p_killed x = false → ro ≠ 0 → pipe_env G pages (kmemory k) (p_pagetable x) pi →
  pipe_rep (km (kmemory k)) pi nr q ro wo → 0 ≤ addr → addr + n ≤ 2 ^ 64 → 0 ≤ i ≤ n →
  ∃ k', pipewrite_run pi addr n i k = Ret (pw_result n i room w) k' ∧
    kframe k k' ∧ same_outside pi (km (kmemory k)) (km (kmemory k')) ∧
    pipe_env G pages (kmemory k') (p_pagetable x) pi ∧
    pipe_rep (km (kmemory k')) pi nr (q ++ w) ro wo.
Proof.
  intros x bs room w Hkl Hro He Hr Ha Han Hi.
  destruct (pipewrite_loop_spec G pages (p_pagetable x) pi (Datatypes.S (Z.to_nat (n - i))) k nr q ro wo addr n i)
    as (r & k' & E & Hf & He' & Hr' & Hs & ->); try done; [lia|].
  exists k'. done.
Qed.

(** ** [piperead] *)

(** The user may write at [va]; the number of consecutive such addresses. *)
Definition uwritable m (root va : Z) : bool :=
  bool_decide (0 ≤ va < MAXVA) && (uvalid (pte_at m root va) && has (pte_at m root va) PTE_W).
Fixpoint wcount (n : nat) m (root va : Z) : nat :=
  match n with
  | O => O
  | Datatypes.S n' => if uwritable m root va then Datatypes.S (wcount n' m root (va + 1)) else O
  end.

Lemma uwrite_byte m root va b :
  uwrite [b] m root va =
  if uwritable m root va then (st8 m (PTE2PA (pte_at m root va) + va mod PGSIZE) b, true) else (m, false).
Proof.
  cbn [uwrite]. rewrite /uwritable. destruct (decide (0 ≤ va < MAXVA)).
  - rewrite (bool_decide_eq_true_2 (0 ≤ va < MAXVA)) //.
  - rewrite (bool_decide_eq_false_2 (0 ≤ va < MAXVA)) //.
Qed.

Lemma pipe_rep_ext m m' pi nr q ro wo :
  (∀ a, pi ≤ a < pi + PGSIZE → ld8 m' a = ld8 m a) → pipe_rep m pi nr q ro wo → pipe_rep m' pi nr q ro wo.
Proof.
  intros Hm [Hl Hn H1 H2 H3 H4 Hd]. rewrite /PI_nread /PI_nwrite /PI_readopen /PI_writeopen in H1, H2, H3, H4.
  assert (∀ off, 0 ≤ off ≤ 4000 → ld32 m' (pi + off) = ld32 m (pi + off)) as E.
  { intros off Ho. apply (ld_le_ext 4). intros b Hb. apply Hm. klia. }
  split; rewrite /PI_nread /PI_nwrite /PI_readopen /PI_writeopen ?E //.
  intros j b Hj. rewrite Hm; [by apply Hd|]. pose proof (slot_range pi (nr + Z.of_nat j)) as Hs.
  rewrite /PI_data /PI_nread in Hs. klia.
Qed.

(** A byte stored for the user. *)
Lemma user_store G pages s root pi va b :
  pipe_env G pages s root pi → uwritable (km s) root va = true →
  let pa := PTE2PA (pte_at (km s) root va) + va mod PGSIZE in
  let s' := mk_kmem (st8 (km s) pa b) (freelist s) in
  pipe_env G pages s' root pi ∧ uaddr (km s) root va = Some pa ∧
  (∀ a, 0 ≤ a < MAXVA → pte_at (km s') root a = pte_at (km s) root a) ∧
  (∀ a, pi ≤ a < pi + PGSIZE → ld8 (km s') a = ld8 (km s) a).
Proof.
  intros He Hw pa s'. rewrite /uwritable in Hw.
  apply andb_true_iff in Hw as [Hva%bool_decide_eq_true [Hv _]%andb_true_iff].
  destruct He as [Hvm Hu Hp Ha Hg Hn]. destruct (Hu va Hva Hv) as (Hok & Hnin & HG & _).
  pose proof (Hn va Hva Hv) as Hne. set (f := PTE2PA (pte_at (km s) root va)) in *.
  destruct (frame_store G s root pages f (st8 (km s) pa b) Hvm Hok Hnin HG) as [Hvm' Ept].
  { intros a Hao. apply ld8_st8_ne. rewrite /pa. klia. }
  split_and!.
  - split; try done; [by eapply user_ok_ext|]. cbn. intros va' Hva'. rewrite Ept //. by apply Hn.
  - apply (uvalid_uaddr G _ _ pages); done.
  - exact Ept.
  - intros a Hap. apply ld8_st8_ne. rewrite /pa. destruct (page_ok_sep pi f Hp Hok); [done|klia|klia].
Qed.

Lemma uwritable_ext m m' root va :
  (∀ a, 0 ≤ a < MAXVA → pte_at m' root a = pte_at m root a) → uwritable m' root va = uwritable m root va.
Proof.
  intros E. rewrite /uwritable. destruct (decide (0 ≤ va < MAXVA)).
  - by rewrite E.
  - by rewrite !bool_decide_eq_false_2.
Qed.
Lemma wcount_ext n m m' root va :
  (∀ a, 0 ≤ a < MAXVA → pte_at m' root a = pte_at m root a) → wcount n m' root va = wcount n m root va.
Proof. intros E. revert va. induction n as [|n IH]; intros va; [done|]. cbn. by rewrite (uwritable_ext m) // IH. Qed.

Lemma wcount_le n m root va : (wcount n m root va ≤ n)%nat.
Proof. revert va. induction n as [|n IH]; intros va; cbn; [lia|]. destruct (uwritable _ _ _); [specialize (IH (va + 1))|]; lia. Qed.

(** The outcome of copying [avail] bytes out of the queue [q] to [va]: [c] of
    them arrive, and the byte whose copy failed is gone as well. *)
Definition popped (avail c : nat) : nat := if decide (c = avail) then avail else Datatypes.S c.

Record pr_post G pages k (root pi : Z) q ro wo (va : Z) (avail : nat) (k' : kern S) : Prop := {
  pp_frame : kframe k k';
  pp_env : pipe_env G pages (kmemory k') root pi;
  pp_rep : ∃ nr', pipe_rep (km (kmemory k')) pi nr' (drop (popped avail (wcount avail (km (kmemory k)) root va)) q) ro wo;
  pp_pte : ∀ a, 0 ≤ a < MAXVA → pte_at (km (kmemory k')) root a = pte_at (km (kmemory k)) root a;
  pp_in : ∀ j b, take (wcount avail (km (kmemory k)) root va) q !! j = Some b →
    ∃ pa, uaddr (km (kmemory k)) root (va + Z.of_nat j) = Some pa ∧ ld8 (km (kmemory k')) pa = b;
  pp_out : ∀ a pa, uaddr (km (kmemory k)) root a = Some pa →
    a < va ∨ va + Z.of_nat (wcount avail (km (kmemory k)) root va) ≤ a → ld8 (km (kmemory k')) pa = ld8 (km (kmemory k)) pa;
}.

Lemma popped_S avail c : popped (Datatypes.S avail) (Datatypes.S c) = Datatypes.S (popped avail c).
Proof. rewrite /popped. destruct (decide (Datatypes.S c = Datatypes.S avail)), (decide (c = avail)); lia. Qed.

Section read.
Context (G : gmap Z (nat * Z)) (pages : list Z) (root pi : Z).

Lemma pr_stop k k' nr q ro wo va avail c :
  kframe k k' → wcount avail (km (kmemory k)) root va = O → popped avail 0 = c →
  pipe_env G pages (kmemory k') root pi → pipe_rep (km (kmemory k')) pi nr (drop c q) ro wo →
  pipe_env G pages (kmemory k) root pi → same_outside pi (km (kmemory k)) (km (kmemory k')) →
  pr_post G pages k root pi q ro wo va avail k'.
Proof.
  intros Hf Ec Ep He Hr He0 Hs.
  destruct (pipe_env_store _ _ _ _ _ _ He0 Hs) as [_ Hu].
  split; try done.
  - exists nr. by rewrite Ec Ep.
  - destruct He0 as [Hv _ Hp Ha Hg _]. by destruct (frame_store G _ root pages pi _ Hv Hp Ha Hg Hs) as [_ Ept].
  - rewrite Ec. cbn. intros j b Hj. by rewrite lookup_nil in Hj.
  - intros a pa E _. by destruct (Hu a pa E).
Qed.

Lemma pop_outside m nr : same_outside pi m (pop_mem m pi nr).
Proof. apply same_outside_pipe; rewrite /PI_nread; lia. Qed.

(** One byte popped from the queue and stored at [va]. *)
Lemma pr_cons k k3 k' nr b q ro wo va avail :
  pipe_env G pages (kmemory k) root pi → uwritable (km (kmemory k)) root va = true → 0 ≤ b < 256 →
  kframe k k3 →
  kmemory k3 = mk_kmem (st8 (pop_mem (km (kmemory k)) pi nr)
    (PTE2PA (pte_at (km (kmemory k)) root va) + va mod PGSIZE) b) (freelist (kmemory k)) →
  pr_post G pages k3 root pi q ro wo (va + 1) avail k' →
  pr_post G pages k root pi (b :: q) ro wo va (Datatypes.S avail) k'.
Proof.
  intros He Hw Hb Hf Em Hpost. pose proof (pop_outside (km (kmemory k)) nr) as Hso.
  destruct (pipe_env_store _ _ _ _ _ _ He Hso) as [He1 Hu1]. set (s1 := mk_kmem _ _) in He1.
  assert (∀ a, 0 ≤ a < MAXVA → pte_at (km s1) root a = pte_at (km (kmemory k)) root a) as Ept1.
  { destruct He as [Hv _ Hp Ha Hg _]. by destruct (frame_store G _ root pages pi _ Hv Hp Ha Hg Hso). }
  assert (0 ≤ va < MAXVA) as Hva.
  { rewrite /uwritable in Hw. apply andb_true_iff in Hw as [Hva _]. by apply bool_decide_eq_true in Hva. }
  destruct (user_store G pages s1 root pi va b He1) as (He2 & Eua & Ept2 & _).
  { by rewrite (uwritable_ext (km (kmemory k))). }
  rewrite Ept1 // in He2, Eua, Ept2. set (pa := PTE2PA _ + _) in *. cbn [s1 km freelist] in He2, Ept2.
  assert (uaddr (km (kmemory k)) root va = Some pa) as Eua0 by (rewrite -Eua; symmetry; by apply uaddr_ext).
  assert (km (kmemory k3) = st8 (pop_mem (km (kmemory k)) pi nr) pa b) as Ek3 by (by rewrite Em).
  assert (∀ a, 0 ≤ a < MAXVA → pte_at (km (kmemory k3)) root a = pte_at (km (kmemory k)) root a) as Ept.
  { intros a Ha. rewrite Ek3 Ept2 // Ept1 //. }
  assert (∀ a, uaddr (km (kmemory k3)) root a = uaddr (km (kmemory k)) root a) as Eu by (intros; by apply uaddr_ext).
  assert (∀ a pa', uaddr (km (kmemory k)) root a = Some pa' → a ≠ va →
    ld8 (km (kmemory k3)) pa' = ld8 (km (kmemory k)) pa') as Hother.
  { intros a pa' Ea Hne. rewrite Ek3 ld8_st8_ne; [by destruct (Hu1 _ _ Ea)|]. intros ->. apply Hne.
    destruct (Hu1 _ _ Ea) as [Ea1 _]. by apply (uaddr_inj G (km s1) root pages a va pa); [apply He1| |]. }
  destruct Hpost as [Pf Pe (nr' & Pr) Pp Pi Po]. rewrite (wcount_ext _ (km (kmemory k))) // in Pr, Pi, Po.
  split.
  - by eapply kframe_trans.
  - done.
  - exists nr'. cbn [wcount]. rewrite Hw popped_S. exact Pr.
  - intros a Ha. by rewrite Pp // Ept.
  - cbn [wcount]. rewrite Hw. cbn [take]. intros [|j] x Hj; cbn [lookup list_lookup] in Hj.
    + injection Hj as <-. exists pa. rewrite Z.add_0_r. split; [done|].
      rewrite (Po va); [|by rewrite Eu|lia]. by rewrite Ek3 ld8_st8_eq u8_small.
    + destruct (Pi j x Hj) as (pa' & E & Ex). exists pa'. rewrite Eu in E. split; [|done]. rewrite -E. f_equal. lia.
  - cbn [wcount]. rewrite Hw. intros a pa' Ea Ha. rewrite (Po a pa'); [|by rewrite Eu|lia]. apply (Hother a); [done|lia].
Qed.

Lemma piperead_loop_spec n k nr q ro wo addr i :
  p_pagetable (kproc k !!! kcur k) = root → pipe_env G pages (kmemory k) root pi →
  pipe_rep (km (kmemory k)) pi nr q ro wo → 0 ≤ addr → 0 ≤ i → addr + i + Z.of_nat n ≤ 2 ^ 64 →
  Forall (λ b, 0 ≤ b < 256) q →
  let avail := (n `min` length q)%nat in
  wp (piperead_loop n pi addr i) k (λ r k',
    r = i + Z.of_nat (wcount avail (km (kmemory k)) root (addr + i)) ∧
    pr_post G pages k root pi q ro wo (addr + i) avail k').
Proof.
  revert k nr q i. induction n as [|n IH]; intros k nr q i Hpt He Hr Ha Hi Han Hq avail.
  { apply wp_mret. cbn. split; [lia|]. eapply pr_stop; try done. apply kframe_refl. }
  cbn [piperead_loop]. apply wp_bind, wp_pi_get. apply wp_bind, wp_pi_get.
  rewrite (pr_nread _ _ _ _ _ _ Hr) (pr_nwrite _ _ _ _ _ _ Hr). pose proof (pr_len _ _ _ _ _ _ Hr) as Hlen.
  pose proof (pr_nr _ _ _ _ _ _ Hr) as Hnr.
  destruct q as [|b q].
  { cbn [length]. rewrite Z.add_0_r u32_small // Z.eqb_refl. apply wp_mret.
    rewrite /avail Nat.min_0_r. cbn. split; [lia|]. eapply pr_stop; try done. apply kframe_refl. }
  apply Forall_cons in Hq as [Hb Hq]. destruct (pop_rep _ _ _ _ _ _ _ Hr) as [Eb Hr1].
  destruct (Z.eqb_spec nr (u32 (nr + Z.of_nat (length (b :: q))))) as [E|_].
  { cbn [length] in E, Hlen. rewrite /u32 /PIPESIZE in E, Hlen. lia. }
  apply wp_bind, wp_gets. rewrite -/(kmemory k) Eb. rewrite /pi_set. apply wp_bind.
  eapply wp_onmem; [reflexivity|done|]. intros k1 Hf1 Em1. cbn [upd_mem modify] in Em1.
  pose proof (pop_outside (km (kmemory k)) nr) as Hso. destruct (pipe_env_store _ _ _ _ _ _ He Hso) as [He1 Hu1].
  assert (kmemory k1 = mk_kmem (pop_mem (km (kmemory k)) pi nr) (freelist (kmemory k))) as E1 by done.
  rewrite -E1 in He1.
  assert (∀ a, 0 ≤ a < MAXVA → pte_at (km (kmemory k1)) root a = pte_at (km (kmemory k)) root a) as Ept.
  { rewrite E1. destruct He as [Hv _ Hp Hal Hg _]. by destruct (frame_store G _ root pages pi _ Hv Hp Hal Hg Hso). }
  rewrite /myproc. apply wp_bind, wp_gets. apply wp_bind, wp_gets. rewrite (kframe_me _ _ Hf1) Hpt.
  apply wp_bind. rewrite u64_small; [|lia]. cbn [length Nat.min] in avail.
  pose proof (copyout_byte G (kmemory k1) root pages (addr + i) b (pe_vm _ _ _ _ _ He1) (pe_user _ _ _ _ _ He1) ltac:(lia)) as Ec.
  rewrite uwrite_byte (uwritable_ext (km (kmemory k))) // in Ec.
  destruct (uwritable (km (kmemory k)) root (addr + i)) eqn:Hw.
  - eapply wp_onmem; [exact Ec|done|]. intros k3 Hf3 Em3. change (0 =? -1) with false. cbv iota.
    assert (0 ≤ addr + i < MAXVA) as Hva.
    { rewrite /uwritable in Hw. apply andb_true_iff in Hw as [Hva _]. by apply bool_decide_eq_true in Hva. }
    destruct (user_store G pages (kmemory k1) root pi (addr + i) b He1) as (He3 & _ & Ept3 & Hpg3).
    { by rewrite (uwritable_ext (km (kmemory k))). }
    rewrite -Em3 in He3, Ept3, Hpg3. assert (kframe k k3) as Hf by (by eapply kframe_trans).
    rewrite Ept // E1 in Em3. cbn [km freelist] in Em3.
    eapply wp_mono.
    + apply (IH k3 (u32 (nr + 1)) q (i + 1)); try done; try lia.
      * by rewrite (kframe_me _ _ Hf).
      * eapply pipe_rep_ext; [exact Hpg3|]. by rewrite E1.
    + cbv beta. intros r k' [-> Hpost]. rewrite Z.add_assoc in Hpost |- *.
      pose proof (pr_cons k k3 k' nr b q ro wo (addr + i) (n `min` length q) He Hw Hb Hf Em3 Hpost) as HP.
      split; [|exact HP]. cbn [avail wcount]. rewrite Hw.
      rewrite (wcount_ext _ (km (kmemory k))); [lia|]. intros a Hak. by rewrite Ept3 // Ept.
  - eapply wp_onmem; [exact Ec|done|]. intros k3 Hf3 Em3. change (-1 =? -1) with true. cbv iota. apply wp_mret.
    cbn [avail wcount]. rewrite Hw. split; [lia|].
    assert (kmemory k3 = kmemory k1) as E3 by (rewrite Em3; by destruct (kmemory k1)).
    eapply (pr_stop _ _ _ _ _ _ _ _ 1).
    + by eapply kframe_trans.
    + rewrite /avail. cbn [wcount]. by rewrite Hw.
    + done.
    + by rewrite E3.
    + rewrite E3 E1. exact Hr1.
    + done.
    + rewrite E3 E1. exact Hso.
Qed.
End read.

(** C37. A run of [piperead] on a pipe that holds the queue [q].  If [q] is
    empty and the write end is open it changes nothing, and returns -1 if the
    process is killed and sleeps otherwise.  Else it returns the number [c] of
    bytes delivered: the first [c] bytes of the queue are in the user's buffer
    in order, no other byte of the user changes, and they have left the queue;
    [c] is the least of [n], the length of the queue and the number of
    consecutive writable addresses.  In the last case the byte that could not
    be delivered has left the queue as well: it is lost. *)
Theorem piperead_fifo G pages k pi nr q ro wo addr n :
  let x := kproc k !!! kcur k in
  let root := p_pagetable x in
  let avail := (Z.to_nat n `min` length q)%nat in
  let c := wcount avail (km (kmemory k)) root addr in
  pipe_env G pages (kmemory k) root pi → pipe_rep (km (kmemory k)) pi nr q ro wo →
  Forall (λ b, 0 ≤ b < 256) q → 0 ≤ addr → 0 ≤ n → addr + n ≤ 2 ^ 64 →
  if decide (q = [] ∧ wo ≠ 0) then piperead_run pi addr n k = Ret (if p_killed x then inl (-1) else inr tt) k
  else ∃ k' nr', piperead_run pi addr n k = Ret (inl (Z.of_nat c)) k' ∧ kframe k k' ∧
    pipe_env G pages (kmemory k') root pi ∧
    pipe_rep (km (kmemory k')) pi nr' (drop (if decide (c = avail) then c else Datatypes.S c) q) ro wo ∧
    uread c (km (kmemory k')) root addr = (take c q, true) ∧
    (∀ a pa, uaddr (km (kmemory k)) root a = Some pa → a < addr ∨ addr + Z.of_nat c ≤ a →
       uaddr (km (kmemory k')) root a = Some pa ∧ ld8 (km (kmemory k')) pa = ld8 (km (kmemory k)) pa).
Proof.
  intros x root avail c He Hr Hq Ha Hn Han. pose proof Hr as [Hlen Hnr H1 H2 _ H4 _].
  assert (∀ b : bool, (nr =? u32 (nr + Z.of_nat (length q))) && b = bool_decide (q = []) && b) as Eemp.
  { intros b. f_equal. destruct q as [|b0 q]; [cbn [length]; by rewrite Z.add_0_r u32_small // Z.eqb_refl|].
    apply Z.eqb_neq. cbn [length] in Hlen |- *. rewrite /u32 /PIPESIZE in Hlen |- *. lia. }
  rewrite /piperead_run. unfold pi_get. rewrite !bind_gets. rewrite -/(kmemory k) H1 H2 H4 Eemp.
  destruct (decide (q = [] ∧ wo ≠ 0)) as [[-> Hwo]|Hne].
  { rewrite bool_decide_eq_true_2 //. destruct (Z.eqb_spec wo 0); [done|]. cbn [negb andb].
    rewrite /myproc bind_gets /killed /getp bind_assoc bind_gets bind_mret -/x. by destruct (p_killed x). }
  assert (bool_decide (q = []) && negb (wo =? 0) = false) as ->.
  { destruct (Z.eqb_spec wo 0); [by rewrite andb_false_r|]. rewrite bool_decide_eq_false_2 //. tauto. }
  destruct (piperead_loop_spec G pages root pi (Z.to_nat n) k nr q ro wo addr 0)
    as (r & k1 & E1 & -> & [Pf Pe (nr' & Pr) Pp Pi Po]); try done; try lia.
  rewrite (bind_ret _ _ _ _ _ E1). rewrite !Z.add_0_r in Pr, Pi, Po |- *. fold avail in Pr, Pi, Po |- *. fold c in Pr, Pi, Po |- *.
  destruct (wakeup_run ("pipe.nwrite"%string, pi) k1) as (P' & E2 & HP). rewrite (bind_ret _ _ _ _ _ E2).
  assert (wp (wakeup ("pipe.nwrite"%string, pi)) k1 (λ _ k', kframe k1 k' ∧ kmemory k' = kmemory k1)) as (u & k2 & E3 & Hf2 & Em2).
  { by apply wp_wakeup. }
  rewrite E2 in E3. apply Ret_inj in E3 as [_ <-]. eexists _, nr'. split; [reflexivity|].
  rewrite Em2. split_and!; [by eapply kframe_trans|done| | |].
  - rewrite /popped in Pr. destruct (decide (c = avail)) as [Eca|]; [by rewrite Eca|done].
  - apply uread_lookup.
    + rewrite length_take. pose proof (wcount_le avail (km (kmemory k)) root addr). rewrite -/c in H. lia.
    + intros j b Hj. destruct (Pi j b Hj) as (pa & Ea & Eb). exists pa. split; [|done]. by rewrite (uaddr_ext (km (kmemory k))).
  - intros a pa Ea Hout. split; [by rewrite (uaddr_ext (km (kmemory k)))|]. by apply (Po a).
Qed.

(** [pipealloc] makes an empty pipe. *)
Lemma pipe_init_spec G pages k root pi :
  pipe_env G pages (kmemory k) root pi →
  wp (pipe_init pi) k (λ _ k', kframe k k' ∧ pipe_env G pages (kmemory k') root pi ∧
    pipe_rep (km (kmemory k')) pi 0 [] 1 1).
Proof.
  intros He. rewrite /pipe_init /pi_set.
  apply wp_bind. eapply wp_onmem; [reflexivity|done|]. intros k1 Hf1 Em1.
  apply wp_bind. eapply wp_onmem; [reflexivity|done|]. intros k2 Hf2 Em2.
  apply wp_bind. eapply wp_onmem; [reflexivity|done|]. intros k3 Hf3 Em3.
  eapply wp_onmem; [reflexivity|done|]. intros k4 Hf4 Em4.
  set (m := km (kmemory k)).
  assert (kmemory k4 = mk_kmem (st32 (st32 (st32 (st32 m (pi + PI_readopen) 1) (pi + PI_writeopen) 1)
    (pi + PI_nwrite) 0) (pi + PI_nread) 0) (freelist (kmemory k))) as Em.
  { rewrite Em4 Em3 Em2 Em1. reflexivity. }
  rewrite Em. split_and!.
  - do 3 (eapply kframe_trans; [done|]). done.
  - apply (pipe_env_store _ _ _ _ _ _ He). do 3 (eapply same_outside_trans;
      [|apply same_outside_pipe; rewrite /PI_nread /PI_nwrite /PI_readopen /PI_writeopen; lia]).
    apply same_outside_pipe; rewrite /PI_nread /PI_nwrite /PI_readopen /PI_writeopen; lia.
  - split; cbn [km]; rewrite /PI_nread /PI_nwrite /PI_readopen /PI_writeopen /PIPESIZE; try (cbn; lia).
    + by rewrite ld32_st32_eq'.
    + rewrite ld32_st32_ne'; [|lia]. by rewrite ld32_st32_eq'.
    + do 3 (rewrite ld32_st32_ne'; [|lia]). by rewrite ld32_st32_eq'.
    + do 2 (rewrite ld32_st32_ne'; [|lia]). by rewrite ld32_st32_eq'.
    + intros j b Hj. by rewrite lookup_nil in Hj.
Qed.

(** A page fresh from [kalloc] can hold a pipe. *)
Lemma pipe_env_kalloc G s root p pages :
  vm_inv G s root (p :: pages) → user_ok G (km s) root (p :: pages) →
  ∃ s', kalloc s = Ret p s' ∧ pipe_env G pages s' root p.
Proof.
  intros (Hk & Hpt & Hdis) Hu. destruct (kalloc_cons _ _ _ Hk) as (s1 & E & Hk1 & Hs1 & _).
  pose proof Hk as ([Hnin _]%NoDup_cons & [Hok _]%Forall_cons & _). exists s1. split; [done|].
  assert (G !! p = None) as HG by (apply Hdis; by left).
  assert (vm_inv G (mk_kmem (km s) (freelist s1)) root pages) as Hinv1.
  { split_and!; [|done|intros; apply Hdis; by right]. destruct Hk1 as (? & ? & Hr1). split_and!; try done.
    cbn. eapply same_outside_rep; [done..| |exact Hr1]. intros a Ha. by rewrite Hs1. }
  destruct (frame_store G _ root pages p (km s1) Hinv1 Hok Hnin HG Hs1) as [Hinv2 Ept].
  destruct s1 as [m1 fl1]. cbn [km freelist] in *.
  assert (∀ va, 0 ≤ va < MAXVA → uvalid (pte_at m1 root va) = true →
    page_ok (PTE2PA (pte_at m1 root va)) ∧ PTE2PA (pte_at m1 root va) ∉ p :: pages ∧ G !! PTE2PA (pte_at m1 root va) = None ∧
    ∀ va', 0 ≤ va' < MAXVA → uvalid (pte_at m1 root va') = true →
      PTE2PA (pte_at m1 root va') = PTE2PA (pte_at m1 root va) → vpn va' = vpn va) as Hu1.
  { by apply (user_ok_ext G (km s)). }
  split; try done.
  - intros va Hva Hv. destruct (Hu1 va Hva Hv) as (? & Hn & ? & ?). split_and!; try done.
    intros Hin. apply Hn. by right.
  - intros va Hva Hv Epi. cbn in *. destruct (Hu1 va Hva Hv) as (_ & Hn & _). apply Hn. rewrite Epi. by left.
Qed.
End pipeinv.

(** ** Examples: the two-page process with a pipe *)

#[local] Existing Instance demo_linker.

Definition demo_console : console := mk_cons ∅ 0 0 0 ∅ 0 0 (mk_uart [] 0 []).
Definition demo_proc : proc := set_pagetable demo_top (set_sz 0x1800 (set_pid 1 (set_state RUNNING proc0))).
Definition demo_kern : kern bio :=
  mk_kern (mk_fs demo_flog demo_sb ∅ demo_as (mk_fproc 1 demo_top NULL)) {[0 := demo_proc]} 0 0 2 ∅ demo_console 0.

(** Its first free page holds a pipe. *)
Definition demo_pi : Z := Eval vm_compute in freelist demo_as.
Definition demo_alloc : kmem := ret_state (kalloc demo_as) demo_as.
Definition demo_pk0 : kern bio := set_kfs (mk_fs demo_flog demo_sb ∅ demo_alloc (mk_fproc 1 demo_top NULL)) demo_kern.
Definition demo_pk : kern bio := ret_state (pipe_init demo_pi demo_pk0) demo_pk0.

Lemma demo_alloc_env :
  ∃ G pages, pipe_env G pages demo_alloc demo_top demo_pi.
Proof.
  destruct demo_as_user as (G & pages & Hinv & Hu). exists G.
  assert (freelist demo_as = demo_pi) as Ef by (vm_compute; reflexivity).
  assert (∃ ps, pages = demo_pi :: ps) as [ps ->].
  { destruct Hinv as ((_ & _ & Hrep) & _). destruct pages as [|p ps]; cbn in Hrep.
    - rewrite Hrep in Ef. discriminate Ef.
    - destruct Hrep as [Hh _]. exists ps. by rewrite -Ef Hh. }
  destruct (pipe_env_kalloc G demo_as demo_top demo_pi ps Hinv Hu) as (s' & E & He).
  exists ps. assert (demo_alloc = s') as ->; [|exact He]. rewrite /demo_alloc E. reflexivity.
Qed.
#[global] Opaque demo_alloc.

Lemma demo_pk_env :
  ∃ G pages, pipe_env G pages (kmemory demo_pk) demo_top demo_pi ∧
    pipe_rep (km (kmemory demo_pk)) demo_pi 0 [] 1 1.
Proof.
  destruct demo_alloc_env as (G & pages & He). exists G, pages.
  destruct (pipe_init_spec G pages demo_pk0 demo_top demo_pi He) as (u & k' & E & _ & He' & Hr).
  assert (demo_pk = k') as -> by (rewrite /demo_pk E; reflexivity). done.
Qed.
#[global] Opaque demo_pk.

(** Three bytes from address 0x10 on. *)
Lemma pipewrite_fifo_witness :
  ∃ k', pipewrite_run demo_pi 0x10 3 0 demo_pk = Ret (inl 3) k' ∧
    pipe_rep (km (kmemory k')) demo_pi 0 [0; 0; 0] 1 1.
Proof.
  destruct demo_pk_env as (G & pages & He & Hr).
  destruct (pipewrite_fifo G pages demo_pk demo_pi 0 [] 1 1 0x10 3 0) as (k' & E & _ & _ & _ & Hr').
  - reflexivity.
  - lia.
  - exact He.
  - exact Hr.
  - lia.
  - lia.
  - lia.
  - exists k'. assert (fst (uread (Z.to_nat (3 - 0)) (km (kmemory demo_pk)) demo_top (0x10 + 0)) = [0; 0; 0]) as Eu
      by (vm_compute; reflexivity).
    change (p_pagetable (kproc demo_pk !!! kcur demo_pk)) with demo_top in E, Hr'. rewrite Eu in E, Hr'.
    split; [exact E|exact Hr'].
Defined.

Definition demo_pk3 : kern bio := ret_state (pipewrite_run demo_pi 0x10 3 0 demo_pk) demo_pk.

Lemma demo_pk3_env :
  ∃ G pages, pipe_env G pages (kmemory demo_pk3) demo_top demo_pi ∧
    pipe_rep (km (kmemory demo_pk3)) demo_pi 0 [0; 0; 0] 1 1.
Proof.
  destruct demo_pk_env as (G & pages & He & Hr). exists G, pages.
  destruct (pipewrite_loop_spec G pages demo_top demo_pi 4 demo_pk 0 [] 1 1 0x10 3 0)
    as (r & k' & E & _ & He' & Hr' & _); [reflexivity|reflexivity|lia|exact He|exact Hr|lia|lia|lia|lia|].
  assert (demo_pk3 = k') as -> by (rewrite /demo_pk3 /pipewrite_run E; reflexivity).
  assert (fst (uread (Z.to_nat (3 - 0)) (km (kmemory demo_pk)) demo_top (0x10 + 0)) = [0; 0; 0]) as Eu
    by (vm_compute; reflexivity).
  rewrite Eu in Hr'. split; [exact He'|exact Hr'].
Qed.
#[global] Opaque demo_pk3.

(** Two of them read to 0x1ffe, and the third attempted at an unmapped page. *)
Lemma piperead_fifo_witness :
  ∃ k', piperead_run demo_pi 0x1ffe 3 demo_pk3 = Ret (inl 2) k' ∧
    uread 2 (km (kmemory k')) demo_top 0x1ffe = ([0; 0], true).
Proof.
  destruct demo_pk3_env as (G & pages & He & Hr).
  pose proof (piperead_fifo G pages demo_pk3 demo_pi 0 [0; 0; 0] 1 1 0x1ffe 3) as H. cbv zeta in H.
  assert (p_pagetable (kproc demo_pk3 !!! kcur demo_pk3) = demo_top) as Ept by (vm_compute; reflexivity).
  rewrite Ept in H.
  assert (wcount (Z.to_nat 3 `min` length [0; 0; 0])%nat (km (kmemory demo_pk3)) demo_top 0x1ffe = 2%nat) as Ec
    by (vm_compute; reflexivity).
  rewrite Ec in H. destruct (decide ([0; 0; 0] = [] ∧ 1 ≠ 0)) as [[Hn _]|_]; [discriminate Hn|].
  assert (Forall (λ b, 0 ≤ b < 256) [0; 0; 0]) as Hq by (clear; repeat constructor; lia).
  specialize (H He Hr Hq ltac:(clear; lia) ltac:(clear; lia) ltac:(clear; lia)).
  destruct H as (k' & nr' & E & _ & _ & _ & Eu & _).
  exists k'. split; [exact E|exact Eu].
Defined.
