(* ===== verification/Console.v ===== *)
(** * kernel/console.c and kernel/uart.c

    The UART is a device with a queue of received bytes and room to transmit
    a number of bytes, which the hardware replenishes.  A loop that waits for
    the transmitter is over when the device has taken the byte.  The calls
    that sleep are modelled as the runs between their sleeps. *)
From S2P Require Import Prelude Riscv CString Kalloc Vm Cache Log Fs Kern.

Definition BACKSPACE : Z := 0x100.
Definition INPUT_BUF_SIZE : Z := 128.
Definition UART_TX_BUF_SIZE : Z := 32.
(** C(x): control-x *)
Definition ctl (x : Z) : Z := x - 64.
Definition CTL_D : Z := ctl 68.
Definition CTL_H : Z := ctl 72.
Definition CTL_P : Z := ctl 80.
Definition CTL_U : Z := ctl 85.
Definition DEL : Z := 0x7f.

Definition set_dev d c := mk_cons (c_buf c) (c_r c) (c_w c) (c_e c) (tx_buf c) (tx_w c) (tx_r c) d.
Definition set_rwe r w e c := mk_cons (c_buf c) r w e (tx_buf c) (tx_w c) (tx_r c) (c_dev c).
Definition set_cbuf b c := mk_cons b (c_r c) (c_w c) (c_e c) (tx_buf c) (tx_w c) (tx_r c) (c_dev c).
Definition set_tx b w r c := mk_cons (c_buf c) (c_r c) (c_w c) (c_e c) b w r (c_dev c).

(** ** uart.c *)

(** [WriteReg(THR, c)] *)
Definition thr (c : Z) : M console unit :=
  modify (λ s, set_dev (mk_uart (u_rx (c_dev s)) (pred (u_idle (c_dev s))) (u_sent (c_dev s) ++ [u8 c])) s).

(** [uartputc_sync] spins until the transmitter is idle, then writes. *)
Definition uartputc_sync (c : Z) : M console unit := thr c.

Definition uartgetc : M console Z :=
  s ← get;
  match u_rx (c_dev s) with
  | [] => mret (-1)
  | c :: rx =>
      modify (set_dev (mk_uart rx (u_idle (c_dev s)) (u_sent (c_dev s))));;
      mret (u8 c)
  end.

(** ** console.c, output *)

Definition consputc (c : Z) : M console unit :=
  if c =? BACKSPACE then
    uartputc_sync 8;; uartputc_sync 32;; uartputc_sync 8
  else uartputc_sync c.

(** ** console.c, input *)

(** Kill line: [fuel] bounds the characters between [w] and [e]. *)
Fixpoint killline_loop (fuel : nat) : M console unit :=
  match fuel with
  | O => mret tt
  | Datatypes.S fuel' =>
      s ← get;
      if negb (c_e s =? c_w s) && negb (default 0 (c_buf s !! (u32 (c_e s - 1) mod INPUT_BUF_SIZE)) =? 10) then
        modify (set_rwe (c_r s) (c_w s) (u32 (c_e s - 1)));;
        consputc BACKSPACE;;
        killline_loop fuel'
      else mret tt
  end.

(** [consoleintr] up to its [wakeup(&cons.r)]: whether it makes one. *)
Definition consoleintr_edit (c : Z) : M console bool :=
  s ← get;
  if c =? CTL_P then mret false
  else if c =? CTL_U then killline_loop (Z.to_nat INPUT_BUF_SIZE);; mret false
  else if (c =? CTL_H) || (c =? DEL) then
    (if negb (c_e s =? c_w s) then
       modify (set_rwe (c_r s) (c_w s) (u32 (c_e s - 1)));;
       consputc BACKSPACE
     else mret tt);;
    mret false
  else if negb (c =? 0) && (u32 (c_e s - c_r s) <? INPUT_BUF_SIZE) then
    let c := if c =? 13 then 10 else c in
    consputc c;;
    modify (λ s, set_cbuf (<[c_e s mod INPUT_BUF_SIZE := u8 c]> (c_buf s)) s);;
    modify (λ s, set_rwe (c_r s) (c_w s) (u32 (c_e s + 1)) s);;
    s ← get;
    if (c =? 10) || (c =? CTL_D) || (u32 (c_e s - c_r s) =? INPUT_BUF_SIZE) then
      modify (set_rwe (c_r s) (c_e s) (c_e s));;
      mret true
    else mret false
  else mret false.

Section console.
Context {S : Type} {BC : BlockCache S} {LK : Linker} {FR : Frames}.

Fixpoint uartstart_loop (fuel : nat) : M (kern S) unit :=
  match fuel with
  | O => mret tt
  | Datatypes.S fuel' =>
      s ← gets kcons;
      if tx_w s =? tx_r s then mret tt
      else match u_idle (c_dev s) with
           | O => mret tt
           | Datatypes.S _ =>
               let c := default 0 (tx_buf s !! (tx_r s mod UART_TX_BUF_SIZE)) in
               oncons (modify (λ s, set_tx (tx_buf s) (tx_w s) (u64 (tx_r s + 1)) s));;
               wakeup ("uart_tx_r"%string, 0);;
               oncons (thr c);;
               uartstart_loop fuel'
           end
  end.
Definition uartstart : M (kern S) unit := uartstart_loop (Datatypes.S (Z.to_nat UART_TX_BUF_SIZE)).

(** [uartputc]; false when it sleeps on [&uart_tx_r], the buffer being full. *)
Definition uartputc_run (c : Z) : M (kern S) bool :=
  s ← gets kcons;
  if tx_w s =? u64 (tx_r s + UART_TX_BUF_SIZE) then mret false
  else
    oncons (modify (λ s, set_tx (<[tx_w s mod UART_TX_BUF_SIZE := u8 c]> (tx_buf s)) (u64 (tx_w s + 1)) (tx_r s) s));;
    uartstart;;
    mret true.

(** [consolewrite] from byte [i] on; [inr i] when it sleeps at byte [i]. *)
Fixpoint consolewrite_loop (fuel : nat) (user_src : bool) (src i : Z) : M (kern S) (Z + Z) :=
  match fuel with
  | O => mret (inl i)
  | Datatypes.S fuel' =>
      r ← onf (either_copyin user_src (u64 (src + i)) 1);
      if r.1 =? -1 then mret (inl i)
      else
        ok ← uartputc_run (hd 0 r.2);
        if ok : bool then consolewrite_loop fuel' user_src src (i + 1)
        else mret (inr i)
  end.
Definition consolewrite (user_src : bool) (src n : Z) : M (kern S) Z :=
  r ← consolewrite_loop (Z.to_nat n) user_src src 0;
  match r with
  | inl i => mret i
  | inr _ => sleep_on ("uart_tx_r"%string, 0)
  end.

(** [consoleread] with [n] bytes still wanted; [inr (dst, n)] when it sleeps
    on [&cons.r]. *)
Fixpoint consoleread_loop (fuel : nat) (user_dst : bool) (dst target n : Z) : M (kern S) (Z + Z * Z) :=
  match fuel with
  | O => mret (inl (target - n))
  | Datatypes.S fuel' =>
      if negb (n >? 0) then mret (inl (target - n))
      else
        s ← gets kcons;
        if c_r s =? c_w s then
          me ← myproc;
          kl ← killed me;
          if kl : bool then mret (inl (-1)) else mret (inr (dst, n))
        else
          let c := default 0 (c_buf s !! (c_r s mod INPUT_BUF_SIZE)) in
          oncons (modify (λ s, set_rwe (u32 (c_r s + 1)) (c_w s) (c_e s) s));;
          if c =? CTL_D then
            (if n <? target then oncons (modify (λ s, set_rwe (u32 (c_r s - 1)) (c_w s) (c_e s) s)) else mret tt);;
            mret (inl (target - n))
          else
            r ← onf (either_copyout user_dst dst [c]);
            if r =? -1 then mret (inl (target - n))
            else if c =? 10 then mret (inl (target - (n - 1)))
            else consoleread_loop fuel' user_dst (u64 (dst + 1)) target (n - 1)
  end.
Definition consoleread (user_dst : bool) (dst n : Z) : M (kern S) Z :=
  r ← consoleread_loop (Datatypes.S (Z.to_nat n)) user_dst dst n n;
  match r with
  | inl ret => mret ret
  | inr _ => sleep_on ("cons.r"%string, 0)
  end.

Definition consoleintr (c : Z) : M (kern S) unit :=
  w ← oncons (consoleintr_edit c);
  if w : bool then wakeup ("cons.r"%string, 0) else mret tt.

(** [fuel] is more than the number of bytes received. *)
Fixpoint uartintr_loop (fuel : nat) : M (kern S) unit :=
  match fuel with
  | O => mret tt
  | Datatypes.S fuel' =>
      c ← oncons uartgetc;
      if c =? -1 then mret tt
      else consoleintr c;; uartintr_loop fuel'
  end.
Definition uartintr : M (kern S) unit :=
  s ← gets kcons;
  uartintr_loop (Datatypes.S (length (u_rx (c_dev s))));;
  uartstart.
End console.
