(* ===== verification/ConsoleInv.v ===== *)
(** * The line discipline of the console

    The circular buffer between [cons.r], [cons.w] and [cons.e] represents
    the bytes of complete lines that wait to be read and the line being
    edited; the interrupt handler is a line editor on them. *)
From S2P Require Import Prelude Riscv CString Kalloc Vm Cache Bio Log Fs FsDemo Kern KernInv PipeInv Console.

(** The bytes [r .. w) wait to be read, the bytes [w .. e) can be edited. *)
Record cons_rep (s : console) (lines edit : list Z) : Prop := {
  cr_r : 0 ≤ c_r s < 2 ^ 32;
  cr_w : c_w s = u32 (c_r s + Z.of_nat (length lines));
  cr_e : c_e s = u32 (c_r s + Z.of_nat (length (lines ++ edit)));
  cr_len : Z.of_nat (length (lines ++ edit)) ≤ INPUT_BUF_SIZE;
  cr_buf : ∀ j b, (lines ++ edit) !! j = Some b →
    default 0 (c_buf s !! ((c_r s + Z.of_nat j) mod INPUT_BUF_SIZE)) = b;
  cr_edit : 10 ∉ edit ∧ CTL_D ∉ edit;
  cr_full : Z.of_nat (length (lines ++ edit)) = INPUT_BUF_SIZE → edit = [];
}.

(** The line editor. *)
Definition line_edit (c : Z) (lines edit : list Z) : list Z * list Z * bool :=
  if c =? CTL_P then (lines, edit, false)
  else if c =? CTL_U then (lines, [], false)
  else if (c =? CTL_H) || (c =? DEL) then (lines, removelast edit, false)
  else if (c =? 0) || (INPUT_BUF_SIZE <=? Z.of_nat (length (lines ++ edit))) then (lines, edit, false)
  else
    let c := if c =? 13 then 10 else c in
    if (c =? 10) || (c =? CTL_D) || (Z.of_nat (length (lines ++ edit)) + 1 =? INPUT_BUF_SIZE)
    then (lines ++ edit ++ [c], [], true)
    else (lines, edit ++ [c], false).

(** What echoing does not touch. *)
Definition same_input (s s' : console) : Prop :=
  c_buf s' = c_buf s ∧ c_r s' = c_r s ∧ c_w s' = c_w s ∧ c_e s' = c_e s ∧
  tx_buf s' = tx_buf s ∧ tx_w s' = tx_w s ∧ tx_r s' = tx_r s ∧ u_rx (c_dev s') = u_rx (c_dev s).

Lemma consputc_run c s : ∃ s', consputc c s = Ret tt s' ∧ same_input s s'.
Proof. rewrite /consputc. destruct (c =? BACKSPACE); eexists; split; reflexivity || done. Qed.

Lemma rep_same s s' lines edit : same_input s s' → cons_rep s lines edit → cons_rep s' lines edit.
Proof. intros (E1 & E2 & E3 & E4 & _) []. split; rewrite ?E1 ?E2 ?E3 ?E4 //. Qed.

Lemma u32_index r x : u32 (r + x) mod INPUT_BUF_SIZE = (r + x) mod INPUT_BUF_SIZE.
Proof. rewrite /u32 /INPUT_BUF_SIZE. lia. Qed.

(** The last edited byte is erased. *)
Lemma rep_erase s lines edit b :
  cons_rep s lines (edit ++ [b]) →
  c_e s ≠ c_w s ∧ default 0 (c_buf s !! (u32 (c_e s - 1) mod INPUT_BUF_SIZE)) = b ∧
  cons_rep (set_rwe (c_r s) (c_w s) (u32 (c_e s - 1)) s) lines edit.
Proof.
  intros [Hr Hw He Hl Hb [Hn Hd] Hfl]. rewrite !length_app /= in He, Hl.
  assert (u32 (c_e s - 1) = u32 (c_r s + Z.of_nat (length (lines ++ edit)))) as E1.
  { rewrite He length_app /u32. lia. }
  split_and!.
  - rewrite He Hw /u32. rewrite /INPUT_BUF_SIZE in Hl. lia.
  - rewrite E1 u32_index. apply Hb. rewrite app_assoc lookup_app_r; [|lia]. by rewrite Nat.sub_diag.
  - split; cbn [c_r c_w c_e c_buf set_rwe]; try done.
    + rewrite length_app. lia.
    + intros j x Hj. apply Hb. rewrite app_assoc. by apply lookup_app_l_Some.
    + split; intros Hin; [apply Hn|apply Hd]; apply elem_of_app; by left.
    + rewrite length_app. lia.
Qed.

Lemma killline_spec fuel s lines edit :
  cons_rep s lines edit → (length edit < fuel)%nat →
  ∃ s', killline_loop fuel s = Ret tt s' ∧ cons_rep s' lines [].
Proof.
  revert s edit. induction fuel as [|fuel IH]; intros s edit Hrep Hf; [lia|].
  cbn [killline_loop]. rewrite bind_get. destruct edit as [|b edit _] using rev_ind.
  - exists s. split; [|done]. assert (c_e s = c_w s) as E.
    { destruct Hrep as [_ Hw He _ _ _ _]. rewrite He Hw app_nil_r //. }
    by rewrite E Z.eqb_refl.
  - destruct (rep_erase _ _ _ _ Hrep) as (Hne & Eb & Hrep'). rewrite Eb.
    assert (b ≠ 10) as Hb10.
    { intros ->. destruct Hrep as [_ _ _ _ _ [Hn _] _]. apply Hn, elem_of_app. right. by left. }
    destruct (Z.eqb_spec (c_e s) (c_w s)); [done|]. destruct (Z.eqb_spec b 10); [done|]. cbn [negb andb].
    rewrite bind_modify. destruct (consputc_run BACKSPACE (set_rwe (c_r s) (c_w s) (u32 (c_e s - 1)) s)) as (s1 & E1 & Hs1).
    rewrite (bind_ret _ _ _ _ _ E1). rewrite length_app /= in Hf.
    apply (IH s1 edit); [by eapply rep_same|lia].
Qed.

(** A byte is appended to the line being edited. *)
Lemma rep_append s lines edit b :
  cons_rep s lines edit → Z.of_nat (length (lines ++ edit)) + 1 < INPUT_BUF_SIZE → b ≠ 10 → b ≠ CTL_D →
  cons_rep (set_rwe (c_r s) (c_w s) (u32 (c_e s + 1)) (set_cbuf (<[c_e s mod INPUT_BUF_SIZE := b]> (c_buf s)) s))
    lines (edit ++ [b]).
Proof.
  intros [Hr Hw He Hl Hb [Hn Hd] _] Hroom H1 H2.
  assert (c_e s mod INPUT_BUF_SIZE = (c_r s + Z.of_nat (length (lines ++ edit))) mod INPUT_BUF_SIZE) as Ei.
  { by rewrite He u32_index. }
  split; cbn [c_r c_w c_e c_buf set_rwe set_cbuf]; rewrite ?app_assoc; try done.
  - rewrite length_app /= He /u32. lia.
  - rewrite length_app /=. lia.
  - intros j x Hj. rewrite Ei. apply lookup_app_Some in Hj as [Hj|[Hle Hj]].
    + pose proof (lookup_lt_Some _ _ _ Hj). rewrite lookup_insert_ne; [by apply Hb|].
      rewrite /INPUT_BUF_SIZE in Hroom |- *. lia.
    + apply list_lookup_singleton_Some in Hj as [Hj <-].
      replace j with (length (lines ++ edit)) by lia. by rewrite lookup_insert_eq.
  - split; intros [Hin|Hin%list_elem_of_singleton]%elem_of_app; congruence || by auto.
  - rewrite length_app /=. lia.
Qed.

(** The edited line, with one more byte, becomes a complete line. *)
Lemma rep_commit s lines edit b :
  cons_rep s lines edit → Z.of_nat (length (lines ++ edit)) < INPUT_BUF_SIZE →
  cons_rep (set_rwe (c_r s) (u32 (c_e s + 1)) (u32 (c_e s + 1)) (set_cbuf (<[c_e s mod INPUT_BUF_SIZE := b]> (c_buf s)) s))
    (lines ++ edit ++ [b]) [].
Proof.
  intros [Hr Hw He Hl Hb _ _] Hroom.
  assert (c_e s mod INPUT_BUF_SIZE = (c_r s + Z.of_nat (length (lines ++ edit))) mod INPUT_BUF_SIZE) as Ei.
  { by rewrite He u32_index. }
  split; cbn [c_r c_w c_e c_buf set_rwe set_cbuf]; rewrite ?app_nil_r ?app_assoc ?length_app /=; try done.
  - rewrite He length_app /u32. lia.
  - rewrite He length_app /u32. lia.
  - rewrite length_app in Hroom. lia.
  - intros j x Hj. rewrite Ei. apply lookup_app_Some in Hj as [Hj|[Hle Hj]].
    + pose proof (lookup_lt_Some _ _ _ Hj). rewrite lookup_insert_ne; [by apply Hb|].
      rewrite /INPUT_BUF_SIZE in Hroom |- *. lia.
    + apply list_lookup_singleton_Some in Hj as [Hj <-].
      replace j with (length (lines ++ edit)) by lia. by rewrite lookup_insert_eq.
  - split; apply not_elem_of_nil.
Qed.

Lemma rep_eq_we s lines edit : cons_rep s lines edit → (c_e s =? c_w s) = bool_decide (edit = []).
Proof.
  intros [_ Hw He Hl _ _ _]. rewrite He Hw length_app. rewrite length_app /INPUT_BUF_SIZE in Hl.
  destruct edit as [|b edit].
  - cbn [length]. rewrite Nat.add_0_r Z.eqb_refl. done.
  - rewrite bool_decide_eq_false_2; [|discriminate]. apply Z.eqb_neq. cbn [length] in *. rewrite /u32. lia.
Qed.
Lemma rep_used s lines edit :
  cons_rep s lines edit → u32 (c_e s - c_r s) = Z.of_nat (length (lines ++ edit)).
Proof. intros [Hr _ He Hl _ _ _]. rewrite He /u32. rewrite /INPUT_BUF_SIZE in Hl. lia. Qed.

Lemma intr_default s lines edit c :
  cons_rep s lines edit → 0 < c < 256 → Z.of_nat (length (lines ++ edit)) < INPUT_BUF_SIZE → c ≠ 13 →
  ∃ s', (consputc c;;
    modify (λ s, set_cbuf (<[c_e s mod INPUT_BUF_SIZE := u8 c]> (c_buf s)) s);;
    modify (λ s, set_rwe (c_r s) (c_w s) (u32 (c_e s + 1)) s);;
    s ← get;
    if (c =? 10) || (c =? CTL_D) || (u32 (c_e s - c_r s) =? INPUT_BUF_SIZE) then
      modify (set_rwe (c_r s) (c_e s) (c_e s));; mret true
    else mret false) s =
  Ret ((c =? 10) || (c =? CTL_D) || (Z.of_nat (length (lines ++ edit)) + 1 =? INPUT_BUF_SIZE)) s' ∧
  if (c =? 10) || (c =? CTL_D) || (Z.of_nat (length (lines ++ edit)) + 1 =? INPUT_BUF_SIZE)
  then cons_rep s' (lines ++ edit ++ [c]) [] else cons_rep s' lines (edit ++ [c]).
Proof.
  intros Hrep Hc Hroom H13. destruct (consputc_run c s) as (s1 & E1 & Hs1). rewrite (bind_ret _ _ _ _ _ E1).
  pose proof (rep_same _ _ _ _ Hs1 Hrep) as Hrep1. rewrite !bind_modify bind_get u8_small; [|lia].
  cbn [c_e c_r c_w set_rwe set_cbuf].
  assert (u32 (u32 (c_e s1 + 1) - c_r s1) = Z.of_nat (length (lines ++ edit)) + 1) as ->.
  { pose proof (rep_used _ _ _ Hrep1) as Eu. rewrite /INPUT_BUF_SIZE in Hroom. rewrite -Eu in Hroom |- *. rewrite /u32 in Hroom |- *.
    lia. }
  destruct (_ || _) eqn:Hcom.
  - eexists. split; [reflexivity|]. by apply (rep_commit s1).
  - eexists. split; [reflexivity|]. apply orb_false_iff in Hcom as [[?%Z.eqb_neq ?%Z.eqb_neq]%orb_false_iff ?%Z.eqb_neq].
    apply (rep_append s1); [done|lia|done|done].
Qed.

(** C38. The console's line discipline.  With the lines [lines] waiting to be
    read and [edit] being typed, the interrupt handler returns and does with
    a byte what the line editor [line_edit] does, whatever the wrap-around of
    the 32-bit indices: backspace and delete erase the last byte of [edit]
    but never of a complete line, control-u erases [edit], carriage return is
    newline, a byte for which there is no room is dropped, and a newline, a
    control-d or a full buffer completes the line.  It wakes the reader
    exactly when a line is complete. *)
Theorem consoleintr_line_edit s lines edit c :
  cons_rep s lines edit → 0 ≤ c < 256 →
  ∃ s', let '(lines', edit', wake) := line_edit c lines edit in
    consoleintr_edit c s = Ret wake s' ∧ cons_rep s' lines' edit'.
Proof.
  intros Hrep Hc. pose proof (cr_len _ _ _ Hrep) as Hlen. rewrite /consoleintr_edit bind_get /line_edit.
  rewrite (rep_eq_we _ _ _ Hrep) (rep_used _ _ _ Hrep).
  destruct (c =? CTL_P); [by exists s|]. destruct (c =? CTL_U).
  { destruct (killline_spec (Z.to_nat INPUT_BUF_SIZE) s lines edit) as (s' & E & Hr'); [done| |].
    { pose proof (cr_full _ _ _ Hrep) as Hfl. rewrite length_app in Hlen, Hfl.
      destruct edit; [rewrite /INPUT_BUF_SIZE /=; lia|]. destruct (decide (Z.of_nat (length lines + length (z :: edit)) = INPUT_BUF_SIZE)) as [E|].
      - discriminate (Hfl E).
      - lia. }
    exists s'. by rewrite (bind_ret _ _ _ _ _ E). }
  destruct ((c =? CTL_H) || (c =? DEL)).
  { destruct edit as [|b edit _] using rev_ind.
    - rewrite bool_decide_eq_true_2 //. by exists s.
    - rewrite bool_decide_eq_false_2; [|by destruct edit; discriminate]. rewrite removelast_last. cbn [negb].
      destruct (rep_erase _ _ _ _ Hrep) as (_ & _ & Hrep'). rewrite bind_assoc bind_modify.
      destruct (consputc_run BACKSPACE (set_rwe (c_r s) (c_w s) (u32 (c_e s - 1)) s)) as (s1 & E1 & Hs1).
      exists s1. rewrite (bind_ret _ _ _ _ _ E1). split; [done|]. by eapply rep_same. }
  destruct (Z.eqb_spec c 0); [by exists s|]. cbn [negb andb orb].
  destruct (Z.ltb_spec (Z.of_nat (length (lines ++ edit))) INPUT_BUF_SIZE),
    (Z.leb_spec INPUT_BUF_SIZE (Z.of_nat (length (lines ++ edit)))); try lia; [|by exists s].
  set (c' := if c =? 13 then 10 else c). assert (0 < c' < 256 ∧ c' ≠ 13) as [Hc' H13].
  { rewrite /c'. destruct (Z.eqb_spec c 13); lia. }
  destruct (intr_default s lines edit c' Hrep Hc' ltac:(done) H13) as (s' & E & Hrep'). exists s'. cbv zeta. fold c'. cbv zeta in E.
  set (b := (c' =? 10) || (c' =? CTL_D) || (Z.of_nat (length (lines ++ edit)) + 1 =? INPUT_BUF_SIZE)) in *.
  by destruct b.
Qed.

Definition demo_cons : console := mk_cons ∅ (2 ^ 32 - 1) (2 ^ 32 - 1) 0 ∅ 0 0 (mk_uart [] 0 []).

Lemma consoleintr_line_edit_witness :
  ∃ s', consoleintr_edit 13 (set_cbuf {[127 := 104]} demo_cons) = Ret true s' ∧ cons_rep s' [104; 10] [].
Proof.
  destruct (consoleintr_line_edit (set_cbuf {[127 := 104]} demo_cons) [] [104] 13) as (s' & E & Hr).
  - split; cbn; unfold INPUT_BUF_SIZE, CTL_D, ctl; try lia; try done.
    + intros [|j] b Hj; [|discriminate Hj]. injection Hj as <-. by vm_compute.
    + rewrite !list_elem_of_singleton. lia.
  - lia.
  - exists s'. split; [exact E|exact Hr].
Defined.

(** ** The transmit buffer *)

Section uart.
Context {S : Type} {BC : BlockCache S} {LK : Linker} {FR : Frames}.
Implicit Types k : kern S.

(** The bytes [pend] wait to be transmitted. *)
Record tx_rep (s : console) (pend : list Z) : Prop := {
  tr_r : 0 ≤ tx_r s < 2 ^ 64;
  tr_w : tx_w s = u64 (tx_r s + Z.of_nat (length pend));
  tr_len : Z.of_nat (length pend) ≤ UART_TX_BUF_SIZE;
  tr_buf : ∀ j b, pend !! j = Some b →
    default 0 (tx_buf s !! ((tx_r s + Z.of_nat j) mod UART_TX_BUF_SIZE)) = b;
}.

Lemma tx_pop s b pend :
  tx_rep s (b :: pend) →
  tx_w s ≠ tx_r s ∧ default 0 (tx_buf s !! (tx_r s mod UART_TX_BUF_SIZE)) = b ∧
  tx_rep (set_tx (tx_buf s) (tx_w s) (u64 (tx_r s + 1)) s) pend.
Proof.
  intros [Hr Hw Hl Hb]. cbn [length] in *. unfold UART_TX_BUF_SIZE in *. split_and!.
  - rewrite Hw /u64. lia.
  - rewrite -(Hb O b) // Z.add_0_r //.
  - split; cbn [tx_r tx_w tx_buf set_tx]; unfold UART_TX_BUF_SIZE; [apply u64_range| |lia|].
    + rewrite Hw /u64. lia.
    + intros j x Hj. rewrite -(Hb (Datatypes.S j) x Hj). do 2 f_equal. rewrite /u64. lia.
Qed.

Lemma tx_push s pend c :
  tx_rep s pend → Z.of_nat (length pend) < UART_TX_BUF_SIZE →
  tx_rep (set_tx (<[tx_w s mod UART_TX_BUF_SIZE := c]> (tx_buf s)) (u64 (tx_w s + 1)) (tx_r s) s) (pend ++ [c]).
Proof.
  intros [Hr Hw Hl Hb] Hroom. unfold UART_TX_BUF_SIZE in *.
  assert (tx_w s mod 32 = (tx_r s + Z.of_nat (length pend)) mod 32) as Ei by (rewrite Hw /u64; lia).
  split; cbn [tx_r tx_w tx_buf set_tx]; unfold UART_TX_BUF_SIZE; rewrite ?length_app /=; [done| |lia|].
  - rewrite Hw /u64. lia.
  - intros j x Hj. rewrite Ei. apply lookup_app_Some in Hj as [Hj|[Hle Hj]].
    + pose proof (lookup_lt_Some _ _ _ Hj). rewrite lookup_insert_ne; [by apply Hb|lia].
    + apply list_lookup_singleton_Some in Hj as [Hj <-]. replace j with (length pend) by lia. by rewrite lookup_insert_eq.
Qed.

(** Everything but the console, and but wakeups. *)
Lemma uartstart_spec fuel k pend :
  tx_rep (kcons k) pend → Forall (λ b, 0 ≤ b < 256) pend → (length pend < fuel)%nat →
  let n := (u_idle (c_dev (kcons k)) `min` length pend)%nat in
  ∃ k', uartstart_loop fuel k = Ret tt k' ∧ tx_rep (kcons k') (drop n pend) ∧
    u_sent (c_dev (kcons k')) = u_sent (c_dev (kcons k)) ++ take n pend ∧
    kfs k' = kfs k ∧ kfile k' = kfile k ∧ woken (kcur k) (kproc k) (kproc k') ∧ kcur k' = kcur k.
Proof.
  revert k pend. induction fuel as [|fuel IH]; intros k pend Hrep Hby Hf n; [lia|].
  cbn [uartstart_loop]. rewrite bind_gets. destruct pend as [|b pend].
  { assert (tx_w (kcons k) = tx_r (kcons k)) as ->.
    { destruct Hrep as [Hr -> _ _]. cbn [length]. by rewrite Z.add_0_r u64_small. }
    rewrite Z.eqb_refl. exists k. rewrite /n Nat.min_0_r /= app_nil_r. split_and!; try done. apply woken_refl. }
  apply Forall_cons in Hby as [Hb Hby]. destruct (tx_pop _ _ _ Hrep) as (Hne & Eb & Hrep1).
  destruct (Z.eqb_spec (tx_w (kcons k)) (tx_r (kcons k))); [done|]. rewrite Eb.
  destruct (u_idle (c_dev (kcons k))) as [|idle] eqn:Eid.
  { exists k. rewrite /n /= app_nil_r. split_and!; try done. apply woken_refl. }
  set (k1 := set_kcons (set_tx (tx_buf (kcons k)) (tx_w (kcons k)) (u64 (tx_r (kcons k) + 1)) (kcons k)) k).
  assert (oncons (modify (λ s, set_tx (tx_buf s) (tx_w s) (u64 (tx_r s + 1)) s)) k = Ret tt k1) as E1 by done.
  rewrite (bind_ret _ _ _ _ _ E1).
  assert (wp (wakeup ("uart_tx_r"%string, 0)) k1 (λ _ k2, kframe k1 k2 ∧ kfs k2 = kfs k1)) as (u & k2 & E2 & Hf2 & Efs).
  { destruct (wakeup_run ("uart_tx_r"%string, 0) k1) as (P' & E & _). eexists tt, _. split; [exact E|].
    assert (wp (wakeup ("uart_tx_r"%string, 0)) k1 (λ _ k2, kframe k1 k2)) as (u & k2 & E' & Hfr) by (by apply wp_wakeup).
    rewrite E in E'. by apply Ret_inj in E' as [_ <-]. }
  rewrite (bind_ret _ _ _ _ _ E2).
  set (k3 := set_kcons (set_dev (mk_uart (u_rx (c_dev (kcons k2))) (pred (u_idle (c_dev (kcons k2))))
    (u_sent (c_dev (kcons k2)) ++ [u8 b])) (kcons k2)) k2).
  assert (oncons (thr b) k2 = Ret tt k3) as E3 by done. rewrite (bind_ret _ _ _ _ _ E3).
  pose proof (kf_cons _ _ Hf2) as Ec2.
  destruct (IH k3 pend) as (k' & E & Hrep' & Es & E4 & E5 & E6 & E7).
  - cbn [k3 kcons set_kcons]. destruct Hrep1. by split; cbn; rewrite ?Ec2.
  - done.
  - cbn in Hf. lia.
  - exists k'. cbn [k3 kcons set_kcons c_dev set_dev u_idle u_sent] in Hrep', Es. rewrite Ec2 in Hrep', Es.
    cbn [k1 kcons set_kcons c_dev set_tx] in Hrep', Es. rewrite Eid in Hrep', Es. cbn [pred] in Hrep', Es.
    split_and!; [done|exact Hrep'| | | | |].
    + rewrite Es u8_small // -app_assoc. done.
    + by rewrite E4 Efs.
    + rewrite E5. cbn. by rewrite (kf_file _ _ Hf2).
    + cbn in E6. eapply woken_trans; [exact (kf_proc _ _ Hf2)|]. cbn in E6 |- *. by rewrite (kf_cur _ _ Hf2) in E6.
    + rewrite E7. cbn. by rewrite (kf_cur _ _ Hf2).
Qed.

(** The UART transmits what is written, in order.  With the bytes [pend]
    in the transmit buffer, [uartputc] of [c] either finds the buffer full,
    changes nothing and sleeps, or returns; then the bytes the device has
    been given followed by those still in the buffer are those from before
    followed by [c]. *)
Theorem uartputc_fifo k pend c :
  tx_rep (kcons k) pend → Forall (λ b, 0 ≤ b < 256) pend → 0 ≤ c < 256 →
  if decide (Z.of_nat (length pend) = UART_TX_BUF_SIZE) then uartputc_run c k = Ret false k
  else ∃ k' pend', uartputc_run c k = Ret true k' ∧ tx_rep (kcons k') pend' ∧
    u_sent (c_dev (kcons k')) ++ pend' = u_sent (c_dev (kcons k)) ++ pend ++ [c] ∧
    (0 < u_idle (c_dev (kcons k)) → u_sent (c_dev (kcons k')) ≠ u_sent (c_dev (kcons k)))%nat ∧
    kfs k' = kfs k ∧ kfile k' = kfile k ∧ woken (kcur k) (kproc k) (kproc k').
Proof.
  intros Hrep Hby Hc. rewrite /uartputc_run bind_gets.
  assert ((tx_w (kcons k) =? u64 (tx_r (kcons k) + UART_TX_BUF_SIZE)) =
    bool_decide (Z.of_nat (length pend) = UART_TX_BUF_SIZE)) as ->.
  { destruct Hrep as [Hr -> Hl _]. unfold UART_TX_BUF_SIZE in *. destruct (decide (Z.of_nat (length pend) = 32)) as [E|E].
    - rewrite E Z.eqb_refl bool_decide_eq_true_2 //.
    - rewrite bool_decide_eq_false_2 //. apply Z.eqb_neq. rewrite /u64. lia. }
  destruct (decide (Z.of_nat (length pend) = UART_TX_BUF_SIZE)) as [E|E].
  { by rewrite bool_decide_eq_true_2. }
  rewrite bool_decide_eq_false_2 //. pose proof (tr_len _ _ Hrep) as Hl.
  set (k1 := set_kcons (set_tx (<[tx_w (kcons k) mod UART_TX_BUF_SIZE := u8 c]> (tx_buf (kcons k)))
    (u64 (tx_w (kcons k) + 1)) (tx_r (kcons k)) (kcons k)) k).
  rewrite (bind_ret (oncons _) _ _ tt k1); [|done]. rewrite u8_small // in k1 *.
  destruct (uartstart_spec (Datatypes.S (Z.to_nat UART_TX_BUF_SIZE)) k1 (pend ++ [c])) as (k' & E1 & Hr' & Es & E2 & E3 & E4 & E5).
  - apply tx_push; [done|lia].
  - apply Forall_app. split; [done|by apply Forall_singleton].
  - rewrite length_app /=. unfold UART_TX_BUF_SIZE in *. lia.
  - exists k'. eexists. rewrite (bind_ret uartstart _ _ _ _ E1). split_and!; [done|exact Hr'| |..|done|done|done].
    + rewrite Es -app_assoc take_drop. done.
    + rewrite Es. intros Hid Heq. apply (f_equal length) in Heq. rewrite length_app length_take length_app /= in Heq.
      cbn in Heq. lia.
Qed.
End uart.

#[local] Existing Instance demo_linker.

(** A device that takes one byte, with [h] in the buffer. *)
Definition demo_uart : kern bio :=
  set_kcons (mk_cons ∅ 0 0 0 {[31 := 104]} 0 (2 ^ 64 - 1) (mk_uart [] 1 [])) demo_kern.

Lemma uartputc_fifo_witness :
  ∃ k' pend', uartputc_run 105 demo_uart = Ret true k' ∧ u_sent (c_dev (kcons k')) ++ pend' = [104; 105].
Proof.
  destruct (uartputc_fifo demo_uart [104] 105) as (k' & pend' & E & _ & Es & _).
  - split; cbn; unfold UART_TX_BUF_SIZE; try lia; try done.
    intros [|j] b Hj; [|discriminate Hj]. injection Hj as <-. by vm_compute.
  - constructor; [lia|constructor].
  - lia.
  - exists k', pend'. split; [exact E|exact Es].
Defined.
