(* ===== verification/File.v ===== *)
(** * kernel/file.c, and pipealloc of kernel/pipe.c

    Open files.  A pointer to a struct file is its index in ftable. *)
From S2P Require Import Prelude Riscv CString Kalloc Vm Cache Log Fs Kern Pipe Console.

Definition CONSOLE : Z := 1.

(** struct stat in memory: dev, ino, type, nlink, four bytes of padding the
    code does not write, size. *)
Definition STAT_SIZE : Z := 24.
Definition stat_store (a : Z) (st : stat) (m : mem) : mem :=
  let m := st32 m a (st_dev st) in
  let m := st32 m (a + 4) (st_ino st) in
  let m := st16 m (a + 8) (st_type st) in
  let m := st16 m (a + 10) (st_nlink st) in
  st64 m (a + 16) (st_size st).

Section file.
Context {S : Type} {BC : BlockCache S} {LK : Linker} {FR : Frames}.

(** A transaction of the file system, and the wakeup that ends it. *)
Definition kbegin_op : M (kern S) unit := onlog begin_op.
Definition kend_op : M (kern S) unit := onlog end_op;; wakeup ("log"%string, 0).

(** [devsw], which [consoleinit] fills in. *)
Record devsw := mk_devsw {
  dev_read : bool → Z → Z → M (kern S) Z;
  dev_write : bool → Z → Z → M (kern S) Z;
}.
Definition devsw_of (major : Z) : option devsw :=
  if major =? CONSOLE then Some (mk_devsw consoleread consolewrite) else None.

Fixpoint filealloc_loop (n : nat) (f : Z) : M (kern S) Z :=
  match n with
  | O => mret NULL
  | Datatypes.S n' =>
      x ← getf f;
      if f_ref x =? 0 then updf f (set_fref 1);; mret f
      else filealloc_loop n' (f + 1)
  end.
Definition filealloc : M (kern S) Z := filealloc_loop (Z.to_nat NFILE) 0.

Definition filedup (f : Z) : M (kern S) Z :=
  x ← getf f;
  if f_ref x <? 1 then panic "filedup"
  else updf f (λ x, set_fref (f_ref x + 1) x);; mret f.

(** What [fileclose] does with the copy [ff] of the last reference. *)
Definition fileclose_last (ff : file) : M (kern S) unit :=
  if bool_decide (f_type ff = FD_PIPE) then pipeclose (f_pipe ff) (f_writable ff)
  else if bool_decide (f_type ff = FD_INODE) || bool_decide (f_type ff = FD_DEVICE) then
    kbegin_op;;
    onf (iput (f_ip ff));;
    kend_op
  else mret tt.
Definition fileclose (f : Z) : M (kern S) unit :=
  x ← getf f;
  if f_ref x <? 1 then panic "fileclose"
  else
    updf f (λ x, set_fref (f_ref x - 1) x);;
    x ← getf f;
    if f_ref x >? 0 then mret tt
    else
      let ff := x in
      updf f (set_fref 0);;
      updf f (set_ftype FD_NONE);;
      fileclose_last ff.

Definition filestat (f addr : Z) : M (kern S) Z :=
  p ← myproc;
  x ← getf f;
  if bool_decide (f_type x = FD_INODE) || bool_decide (f_type x = FD_DEVICE) then
    onf (ilock (f_ip x));;
    st ← onf (stati (f_ip x));
    onmem (upd_mem (stat_store (local "filestat.st") st));;
    onf (iunlock (f_ip x));;
    bytes ← gets (λ k, ld_bytes (Z.to_nat STAT_SIZE) (km (fmem (kfs k))) (local "filestat.st"));
    pr ← getp p;
    r ← onmem (copyout (p_pagetable pr) addr bytes);
    if r <? 0 then mret (-1) else mret 0
  else mret (-1).

Definition fileread (f addr n : Z) : M (kern S) Z :=
  x ← getf f;
  if negb (f_readable x) then mret (-1)
  else match f_type x with
  | FD_PIPE => piperead (f_pipe x) addr n
  | FD_DEVICE =>
      if (f_major x <? 0) || (f_major x >=? NDEV) then mret (-1)
      else match devsw_of (f_major x) with
           | Some d => dev_read d true addr n
           | None => mret (-1)
           end
  | FD_INODE =>
      onf (ilock (f_ip x));;
      r ← onf (readi (f_ip x) true addr (f_off x) (u32 n));
      (if r >? 0 then updf f (λ x, set_foff (u32 (f_off x + r)) x) else mret tt);;
      onf (iunlock (f_ip x));;
      mret r
  | FD_NONE => panic "fileread"
  end.

(** The most [filewrite] writes in one transaction. *)
Definition filewrite_max : Z := (MAXOPBLOCKS - 1 - 1 - 2) / 2 * BSIZE.
Fixpoint filewrite_loop (fuel : nat) (f addr n i : Z) : M (kern S) Z :=
  match fuel with
  | O => mret i
  | Datatypes.S fuel' =>
      if negb (i <? n) then mret i
      else
        let n1 := n - i in
        let n1 := if n1 >? filewrite_max then filewrite_max else n1 in
        kbegin_op;;
        x ← getf f;
        onf (ilock (f_ip x));;
        r ← onf (writei (f_ip x) true (u64 (addr + i)) (f_off x) (u32 n1));
        (if r >? 0 then updf f (λ x, set_foff (u32 (f_off x + r)) x) else mret tt);;
        onf (iunlock (f_ip x));;
        kend_op;;
        if negb (r =? n1) then mret i
        else filewrite_loop fuel' f addr n (i + r)
  end.
Definition filewrite (f addr n : Z) : M (kern S) Z :=
  x ← getf f;
  if negb (f_writable x) then mret (-1)
  else match f_type x with
  | FD_PIPE => pipewrite (f_pipe x) addr n
  | FD_DEVICE =>
      if (f_major x <? 0) || (f_major x >=? NDEV) then mret (-1)
      else match devsw_of (f_major x) with
           | Some d => dev_write d true addr n
           | None => mret (-1)
           end
  | FD_INODE =>
      i ← filewrite_loop (Datatypes.S (Z.to_nat n)) f addr n 0;
      mret (if i =? n then n else -1)
  | FD_NONE => panic "filewrite"
  end.

(** ** pipealloc *)

(** [bad:] *)
Definition pipealloc_bad (pi f0 f1 : Z) : M (kern S) (option (Z * Z)) :=
  (if negb (pi =? 0) then onmem (kfree pi) else mret tt);;
  (if negb (f0 =? NULL) then fileclose f0 else mret tt);;
  (if negb (f1 =? NULL) then fileclose f1 else mret tt);;
  mret None.
(** Returns [*f0] and [*f1], or nothing for -1. *)
Definition pipealloc : M (kern S) (option (Z * Z)) :=
  f0 ← filealloc;
  if f0 =? NULL then pipealloc_bad 0 f0 NULL
  else
    f1 ← filealloc;
    if f1 =? NULL then pipealloc_bad 0 f0 f1
    else
      pi ← onmem kalloc;
      if pi =? 0 then pipealloc_bad 0 f0 f1
      else
        pipe_init pi;;
        updf f0 (λ x, set_fpipe pi (set_frw true false (set_ftype FD_PIPE x)));;
        updf f1 (λ x, set_fpipe pi (set_frw false true (set_ftype FD_PIPE x)));;
        mret (Some (f0, f1)).
End file.
