(* ===== verification/Proc.v ===== *)
(** * kernel/proc.c: processes

    A pointer to a struct proc is its index in proc[]; a trap frame is a page
    of kernel memory, its fields at the offsets of proc.h.  [p->lock],
    [wait_lock] and [pid_lock] make the critical sections atomic and are left
    out; [sched] ends the run of the current process on its hart. *)
From S2P Require Import Prelude Riscv CString Kalloc Vm Cache Log Fs Kern Pipe Console File.

(** struct trapframe *)
Definition TF_kernel_satp : Z := 0.
Definition TF_kernel_sp : Z := 8.
Definition TF_kernel_trap : Z := 16.
Definition TF_epc : Z := 24.
Definition TF_kernel_hartid : Z := 32.
Definition TF_sp : Z := 48.
Definition TF_a0 : Z := 112.
Definition TF_a1 : Z := 120.
Definition TF_a7 : Z := 168.
Definition TF_SIZE : Z := 288.

(** The addresses of code the kernel stores in registers. *)
Class Text := { text : string → Z }.

(** initcode.S, assembled *)
Definition initcode : list Z :=
  [0x17; 0x05; 0x00; 0x00; 0x13; 0x05; 0x45; 0x02;
   0x97; 0x05; 0x00; 0x00; 0x93; 0x85; 0x35; 0x02;
   0x93; 0x08; 0x70; 0x00; 0x73; 0x00; 0x00; 0x00;
   0x93; 0x08; 0x20; 0x00; 0x73; 0x00; 0x00; 0x00;
   0xef; 0xf0; 0x9f; 0xff; 0x2f; 0x69; 0x6e; 0x69;
   0x74; 0x00; 0x00; 0x24; 0x00; 0x00; 0x00; 0x00;
   0x00; 0x00; 0x00; 0x00].

(** [safestrcpy(dst, src, sizeof(p->name))] on the bytes of the names. *)
Definition copy_name (dst src : list Z) : list Z :=
  ld_bytes 16 (safestrcpy (st_bytes (st_bytes ∅ 0 dst) 16 src) 0 16 16) 0.

(** ** The page table of a process *)
Section pagetable.
Context {LK : Linker}.

Definition proc_pagetable (trapframe : Z) : M kmem Z :=
  pagetable ← uvmcreate;
  if pagetable =? 0 then mret 0
  else
    r ← mappages pagetable TRAMPOLINE PGSIZE trampoline (Z.lor PTE_R PTE_X);
    if r <? 0 then uvmfree pagetable 0;; mret 0
    else
      r ← mappages pagetable TRAPFRAME PGSIZE trapframe (Z.lor PTE_R PTE_W);
      if r <? 0 then
        uvmunmap pagetable TRAMPOLINE 1 false;;
        uvmfree pagetable 0;;
        mret 0
      else mret pagetable.

Definition proc_freepagetable (pagetable sz : Z) : M kmem unit :=
  uvmunmap pagetable TRAMPOLINE 1 false;;
  uvmunmap pagetable TRAPFRAME 1 false;;
  uvmfree pagetable sz.
End pagetable.

Section proc.
Context {S : Type} {BC : BlockCache S} {LK : Linker} {FR : Frames} {TX : Text}.

Fixpoint procinit_loop (n : nat) (p : Z) : M (kern S) unit :=
  match n with
  | O => mret tt
  | Datatypes.S n' =>
      updp p (λ x, set_kstack (KSTACK p) (set_state UNUSED x));;
      procinit_loop n' (p + 1)
  end.
Definition procinit : M (kern S) unit := procinit_loop (Z.to_nat NPROC) 0.

Definition allocpid : M (kern S) Z :=
  pid ← gets knextpid;
  modify (set_knextpid (s32 (pid + 1)));;
  mret pid.

Definition freeproc (p : Z) : M (kern S) unit :=
  x ← getp p;
  (if negb (p_trapframe x =? 0) then onmem (kfree (p_trapframe x)) else mret tt);;
  updp p (set_trapframe 0);;
  (if negb (p_pagetable x =? 0) then onmem (proc_freepagetable (p_pagetable x) (p_sz x)) else mret tt);;
  updp p (set_pagetable 0);;
  updp p (set_sz 0);;
  updp p (set_pid 0);;
  updp p (set_parent NULL);;
  updp p (λ x, set_name (<[0%nat := 0]> (p_name x)) x);;
  updp p (set_chan None);;
  updp p (set_killed false);;
  updp p (set_xstate 0);;
  updp p (set_state UNUSED).

(** The scan of [allocproc] for an UNUSED slot. *)
Fixpoint allocproc_scan (n : nat) (p : Z) : M (kern S) Z :=
  match n with
  | O => mret NULL
  | Datatypes.S n' =>
      x ← getp p;
      if bool_decide (p_state x = UNUSED) then mret p else allocproc_scan n' (p + 1)
  end.
(** [found:] *)
Definition allocproc_found (p : Z) : M (kern S) Z :=
  pid ← allocpid;
  updp p (set_pid pid);;
  updp p (set_state USED);;
  tf ← onmem kalloc;
  updp p (set_trapframe tf);;
  if tf =? 0 then freeproc p;; mret NULL
  else
    pt ← onmem (proc_pagetable tf);
    updp p (set_pagetable pt);;
    if pt =? 0 then freeproc p;; mret NULL
    else
      updp p (λ x, set_context (mk_context (text "forkret") (p_kstack x + PGSIZE) (replicate 12 0)) x);;
      mret p.
Definition allocproc : M (kern S) Z :=
  p ← allocproc_scan (Z.to_nat NPROC) 0;
  if p =? NULL then mret NULL else allocproc_found p.

(** The fields of a trap frame. *)
Definition tf_get (tf off : Z) : M (kern S) Z := gets (λ k, ld64 (km (fmem (kfs k))) (tf + off)).
Definition tf_set (tf off v : Z) : M (kern S) unit := onmem (store64 (tf + off) v).

Definition userinit : M (kern S) unit :=
  p ← allocproc;
  modify (set_kinitproc p);;
  x ← getp p;
  onmem (uvmfirst (p_pagetable x) initcode);;
  updp p (set_sz PGSIZE);;
  tf_set (p_trapframe x) TF_epc 0;;
  tf_set (p_trapframe x) TF_sp PGSIZE;;
  updp p (λ x, set_name (copy_name (p_name x) [105; 110; 105; 116; 99; 111; 100; 101; 0]) x);;
  ip ← onf (namei (local "userinit.slash"));
  updp p (set_cwd ip);;
  updp p (set_state RUNNABLE).

(** [n] is an int. *)
Definition growproc (n : Z) : M (kern S) Z :=
  p ← myproc;
  x ← getp p;
  if n >? 0 then
    sz ← onmem (uvmalloc (p_pagetable x) (p_sz x) (u64 (p_sz x + n)) PTE_W);
    if sz =? 0 then mret (-1)
    else updp p (set_sz sz);; mret 0
  else if n <? 0 then
    sz ← onmem (uvmdealloc (p_pagetable x) (p_sz x) (u64 (p_sz x + n)));
    updp p (set_sz sz);; mret 0
  else updp p (set_sz (p_sz x));; mret 0.

(** [for(i = 0; i < NOFILE; i++) if(p->ofile[i]) np->ofile[i] = filedup(p->ofile[i]);] *)
Fixpoint fork_files (n : nat) (i : nat) (p np : Z) : M (kern S) unit :=
  match n with
  | O => mret tt
  | Datatypes.S n' =>
      x ← getp p;
      let f := p_ofile x !!! i in
      (if negb (f =? NULL) then
         f ← filedup f;
         updp np (λ x, set_ofile (<[i := f]> (p_ofile x)) x)
       else mret tt);;
      fork_files n' (Datatypes.S i) p np
  end.

Definition fork : M (kern S) Z :=
  p ← myproc;
  np ← allocproc;
  if np =? NULL then mret (-1)
  else
    x ← getp p;
    nx ← getp np;
    r ← onmem (uvmcopy (p_pagetable x) (p_pagetable nx) (p_sz x));
    if r <? 0 then freeproc np;; mret (-1)
    else
      updp np (set_sz (p_sz x));;
      onmem (upd_mem (λ m, memmove m (p_trapframe nx) (p_trapframe x) TF_SIZE));;
      tf_set (p_trapframe nx) TF_a0 0;;
      fork_files (Z.to_nat NOFILE) 0 p np;;
      cwd ← onf (idup (p_cwd x));
      updp np (set_cwd cwd);;
      updp np (λ y, set_name (copy_name (p_name y) (p_name x)) y);;
      pid ← gets (λ k, p_pid (kproc k !!! np));
      updp np (set_parent p);;
      updp np (set_state RUNNABLE);;
      mret pid.

(** ** Giving up the processor *)

(** [sched] of a process that holds only its lock, with interrupts off. *)
Definition sched {A} : M (kern S) A :=
  p ← myproc;
  x ← getp p;
  if bool_decide (p_state x = RUNNING) then panic "sched running"
  else sleep ("sched"%string, p).

Definition yield {A} : M (kern S) A :=
  p ← myproc;
  updp p (set_state RUNNABLE);;
  sched.

(** One turn of the loop of [scheduler]: whether it switches to [p]. *)
Definition scheduler_pick (p : Z) : M (kern S) bool :=
  x ← getp p;
  if bool_decide (p_state x = RUNNABLE) then
    updp p (set_state RUNNING);;
    modify (set_kcur p);;
    mret true
  else mret false.
(** What [scheduler] does when [swtch] returns to it. *)
Definition scheduler_back : M (kern S) unit := modify (set_kcur NULL).

(** The processes from [p] on, up to the first the scheduler switches to. *)
Fixpoint scheduler_scan (n : nat) (p : Z) : M (kern S) Z :=
  match n with
  | O => mret NULL
  | Datatypes.S n' =>
      b ← scheduler_pick p;
      if b : bool then mret p else scheduler_scan n' (p + 1)
  end.

(** ** exit and wait *)

Fixpoint reparent_loop (n : nat) (pp p : Z) : M (kern S) unit :=
  match n with
  | O => mret tt
  | Datatypes.S n' =>
      x ← getp pp;
      (if p_parent x =? p then
         init ← gets kinitproc;
         updp pp (set_parent init);;
         wakeup ("proc"%string, init)
       else mret tt);;
      reparent_loop n' (pp + 1) p
  end.
Definition reparent (p : Z) : M (kern S) unit := reparent_loop (Z.to_nat NPROC) 0 p.

Fixpoint exit_files (n : nat) (fd : nat) (p : Z) : M (kern S) unit :=
  match n with
  | O => mret tt
  | Datatypes.S n' =>
      x ← getp p;
      let f := p_ofile x !!! fd in
      (if negb (f =? NULL) then
         fileclose f;;
         updp p (λ x, set_ofile (<[fd := NULL]> (p_ofile x)) x)
       else mret tt);;
      exit_files n' (Datatypes.S fd) p
  end.

(** [exit] up to its call of [sched], which does not return. *)
Definition exit_run (status : Z) : M (kern S) unit :=
  p ← myproc;
  init ← gets kinitproc;
  if p =? init then panic "init exiting"
  else
    exit_files (Z.to_nat NOFILE) 0 p;;
    kbegin_op;;
    cwd ← gets (λ k, p_cwd (kproc k !!! p));
    onf (iput cwd);;
    kend_op;;
    updp p (set_cwd NULL);;
    reparent p;;
    parent ← gets (λ k, p_parent (kproc k !!! p));
    wakeup ("proc"%string, parent);;
    updp p (set_xstate status);;
    updp p (set_state ZOMBIE).
Definition exit {A} (status : Z) : M (kern S) A := exit_run status;; sched.

(** The scan of [wait]: the result if there is one, or else [havekids]. *)
Fixpoint wait_scan (n : nat) (pp p addr : Z) (havekids : bool) : M (kern S) (Z + bool) :=
  match n with
  | O => mret (inr havekids)
  | Datatypes.S n' =>
      x ← getp pp;
      if p_parent x =? p then
        if bool_decide (p_state x = ZOMBIE) then
          let pid := p_pid x in
          r ← (if negb (addr =? 0) then
                 me ← getp p;
                 onmem (copyout (p_pagetable me) addr (ld_bytes 4 (st32 ∅ 0 (p_xstate x)) 0))
               else mret 0);
          if r <? 0 then mret (inl (-1))
          else freeproc pp;; mret (inl pid)
        else wait_scan n' (pp + 1) p addr true
      else wait_scan n' (pp + 1) p addr havekids
  end.
(** One run of [wait]; [inr] when it sleeps on [p]. *)
Definition wait_run (addr : Z) : M (kern S) (Z + unit) :=
  p ← myproc;
  r ← wait_scan (Z.to_nat NPROC) 0 p addr false;
  match r with
  | inl ret => mret (inl ret)
  | inr havekids =>
      kl ← killed p;
      if negb havekids || kl then mret (inl (-1)) else mret (inr tt)
  end.
Definition wait (addr : Z) : M (kern S) Z :=
  p ← myproc;
  r ← wait_run addr;
  match r with
  | inl ret => mret ret
  | inr _ => sleep_on ("proc"%string, p)
  end.

(** [forkret] before [usertrapret]; [first] is its static variable. *)
Definition forkret_run (first : bool) : M (kern S) unit :=
  if first then onf (fsinit ROOTDEV) else mret tt.
End proc.
