(* ===== verification/Args.v ===== *)
(** * kernel/syscall.c: fetching system call arguments

    The arguments of a system call are in the trap frame of the current
    process; pointers among them are addresses of its user memory. *)
From S2P Require Import Prelude Riscv CString Kalloc Vm Cache Log Fs Kern Pipe Console File Proc.

(** A little-endian word of bytes. *)
Definition le_word (bytes : list Z) : Z := ld_le (length bytes) (st_bytes ∅ 0 bytes) 0.

Section args.
Context {S : Type} {BC : BlockCache S} {LK : Linker} {FR : Frames}.

(** Returns the value stored in [*ip], or nothing for -1. *)
Definition fetchaddr (addr : Z) : M (kern S) (option Z) :=
  p ← myproc;
  x ← getp p;
  if (addr >=? p_sz x) || (u64 (addr + 8) >? p_sz x) then mret None
  else
    r ← onmem (copyin (p_pagetable x) addr 8);
    if negb (r.1 =? 0) then mret None else mret (Some (le_word r.2)).

(** A string of at most [max] bytes, its NUL included, is in [buf] when
    [copyinstr] succeeds: [max] bounds the loop of [strlen]. *)
Definition fetchstr (addr buf max : Z) : M (kern S) Z :=
  p ← myproc;
  x ← getp p;
  r ← onmem (copyinstr (p_pagetable x) addr max);
  onmem (upd_mem (λ m, st_bytes m buf r.2));;
  if r.1 <? 0 then mret (-1)
  else
    m ← gets (λ k, km (fmem (kfs k)));
    mret (default (-1) (strlen (Z.to_nat max) m buf)).

Definition argraw (n : Z) : M (kern S) Z :=
  p ← myproc;
  x ← getp p;
  if (0 <=? n) && (n <=? 5) then tf_get (p_trapframe x) (TF_a0 + 8 * n)
  else panic "argraw".
Definition argint (n : Z) : M (kern S) Z := v ← argraw n; mret (s32 v).
Definition argaddr (n : Z) : M (kern S) Z := argraw n.
Definition argstr (n buf max : Z) : M (kern S) Z := addr ← argaddr n; fetchstr addr buf max.
End args.
