(* ===== verification/Exec.v ===== *)
(** * kernel/exec.c: replacing the image of a process

    [exec] builds a new page table beside the old one and frees one of the
    two at the end.  The ELF headers it reads are in its stack frame. *)
From S2P Require Import Prelude Riscv CString Kalloc Vm Cache Log Fs Kern Pipe Console File Proc.

Definition ELF_MAGIC : Z := 0x464C457F.
Definition ELF_PROG_LOAD : Z := 1.
Definition ELFHDR_SIZE : Z := 64.
Definition PROGHDR_SIZE : Z := 56.

(** The fields of struct elfhdr and of struct proghdr that are used. *)
Record elfhdr := mk_elfhdr { elf_magic : Z; elf_entry : Z; elf_phoff : Z; elf_phnum : Z }.
Definition ld_elfhdr (m : mem) (a : Z) : elfhdr :=
  mk_elfhdr (ld32 m a) (ld64 m (a + 24)) (ld64 m (a + 32)) (ld16 m (a + 56)).
Record proghdr := mk_proghdr {
  ph_type : Z; ph_flags : Z; ph_off : Z; ph_vaddr : Z; ph_filesz : Z; ph_memsz : Z }.
Definition ld_proghdr (m : mem) (a : Z) : proghdr :=
  mk_proghdr (ld32 m a) (ld32 m (a + 4)) (ld64 m (a + 8)) (ld64 m (a + 16)) (ld64 m (a + 32)) (ld64 m (a + 40)).

Definition flags2perm (flags : Z) : Z :=
  let perm := if has flags 1 then PTE_X else 0 in
  if has flags 2 then Z.lor perm PTE_W else perm.

(** [for(last=s=path; *s; s++) if( *s == '/') last = s+1;] *)
Fixpoint last_elem (fuel : nat) (m : mem) (s last : Z) : Z :=
  match fuel with
  | O => last
  | Datatypes.S fuel' =>
      if ld8 m s =? 0 then last
      else last_elem fuel' m (s + 1) (if ld8 m s =? 47 then s + 1 else last)
  end.

Section exec.
Context {S : Type} {BC : BlockCache S} {LK : Linker} {FR : Frames} {TX : Text}.

Definition memory : M (kern S) mem := gets (λ k, km (fmem (kfs k))).

(** [fuel] is more than the number of pages of the segment. *)
Fixpoint loadseg_loop (fuel : nat) (pagetable va ip offset sz i : Z) : M (kern S) Z :=
  match fuel with
  | O => mret 0
  | Datatypes.S fuel' =>
      if negb (i <? sz) then mret 0
      else
        pa ← onmem (walkaddr pagetable (u64 (va + i)));
        if pa =? 0 then panic "loadseg: address should exist"
        else
          let n := if sz - i <? PGSIZE then sz - i else PGSIZE in
          r ← onf (readi ip false pa (u32 (offset + i)) n);
          if negb (u32 r =? n) then mret (-1)
          else loadseg_loop fuel' pagetable va ip offset sz (u32 (i + PGSIZE))
  end.
Definition loadseg (pagetable va ip offset sz : Z) : M (kern S) Z :=
  loadseg_loop (Datatypes.S (Z.to_nat (sz / PGSIZE + 1))) pagetable va ip offset sz 0.

(** The loop over the program headers: false for [goto bad], and [sz]. *)
Fixpoint exec_load (n : nat) (pagetable ip off sz : Z) : M (kern S) (bool * Z) :=
  match n with
  | O => mret (true, sz)
  | Datatypes.S n' =>
      let a := local "exec.ph" in
      r ← onf (readi ip false a (u32 off) PROGHDR_SIZE);
      if negb (r =? PROGHDR_SIZE) then mret (false, sz)
      else
        m ← memory;
        let ph := ld_proghdr m a in
        if negb (ph_type ph =? ELF_PROG_LOAD) then exec_load n' pagetable ip (s32 (off + PROGHDR_SIZE)) sz
        else if ph_memsz ph <? ph_filesz ph then mret (false, sz)
        else if u64 (ph_vaddr ph + ph_memsz ph) <? ph_vaddr ph then mret (false, sz)
        else if negb (ph_vaddr ph mod PGSIZE =? 0) then mret (false, sz)
        else
          sz1 ← onmem (uvmalloc pagetable sz (u64 (ph_vaddr ph + ph_memsz ph)) (flags2perm (ph_flags ph)));
          if sz1 =? 0 then mret (false, sz)
          else
            r ← loadseg pagetable (ph_vaddr ph) ip (u32 (ph_off ph)) (u32 (ph_filesz ph));
            if r <? 0 then mret (false, sz1)
            else exec_load n' pagetable ip (s32 (off + PROGHDR_SIZE)) sz1
  end.

(** [sp -= sp % 16] *)
Definition align16 (sp : Z) : Z := sp - sp mod 16.

(** Pushing the argument strings [argv] (a list of addresses): [sp] and
    [ustack] so far, or nothing for [goto bad]. *)
Fixpoint exec_args (argv : list Z) (pagetable stackbase sp : Z) (ustack : list Z) : M (kern S) (option (Z * list Z)) :=
  match argv with
  | [] => mret (Some (sp, ustack))
  | a :: argv' =>
      if Z.of_nat (length ustack) >=? MAXARG then mret None
      else
        m ← memory;
        let len := default 0 (strlen (Z.to_nat PGSIZE) m a) in
        let sp := align16 (u64 (sp - (len + 1))) in
        if sp <? stackbase then mret None
        else
          r ← onmem (copyout pagetable sp (ld_bytes (Z.to_nat (len + 1)) m a));
          if r <? 0 then mret None
          else exec_args argv' pagetable stackbase sp (ustack ++ [sp])
  end.

(** The words of [ustack] as bytes. *)
Definition words_bytes (l : list Z) : list Z := l ≫= λ w, ld_bytes 8 (st64 ∅ 0 w) 0.

(** [bad:], with [ip] locked or null. *)
Definition exec_bad (pagetable sz ip : Z) : M (kern S) Z :=
  (if negb (pagetable =? 0) then onmem (proc_freepagetable pagetable sz) else mret tt);;
  (if negb (ip =? NULL) then onf (iunlockput ip);; kend_op else mret tt);;
  mret (-1).

(** From the commitment to the new image on. *)
Definition exec_commit (path pagetable sz sp entry argc oldsz : Z) : M (kern S) Z :=
  p ← myproc;
  x ← getp p;
  tf_set (p_trapframe x) TF_a1 sp;;
  m ← memory;
  let last := last_elem (Z.to_nat MAXPATH) m path path in
  updp p (λ x, set_name (copy_name (p_name x) (ld_bytes 16 m last)) x);;
  let oldpagetable := p_pagetable x in
  updp p (set_pagetable pagetable);;
  updp p (set_sz sz);;
  tf_set (p_trapframe x) TF_epc entry;;
  tf_set (p_trapframe x) TF_sp sp;;
  onmem (proc_freepagetable oldpagetable oldsz);;
  mret argc.

(** From the allocation of the user stack on. *)
Definition exec_stack (path : Z) (argv : list Z) (pagetable sz entry : Z) : M (kern S) Z :=
  p ← myproc;
  oldsz ← gets (λ k, p_sz (kproc k !!! p));
  let sz := PGROUNDUP sz in
  sz1 ← onmem (uvmalloc pagetable sz (u64 (sz + (USERSTACK + 1) * PGSIZE)) PTE_W);
  if sz1 =? 0 then exec_bad pagetable sz NULL
  else
    let sz := sz1 in
    onmem (uvmclear pagetable (u64 (sz - (USERSTACK + 1) * PGSIZE)));;
    let stackbase := u64 (sz - USERSTACK * PGSIZE) in
    r ← exec_args argv pagetable stackbase sz [];
    match r with
    | None => exec_bad pagetable sz NULL
    | Some (sp, ustack) =>
        let argc := Z.of_nat (length ustack) in
        let sp := align16 (u64 (sp - (argc + 1) * 8)) in
        if sp <? stackbase then exec_bad pagetable sz NULL
        else
          r ← onmem (copyout pagetable sp (words_bytes (ustack ++ [0])));
          if r <? 0 then exec_bad pagetable sz NULL
          else exec_commit path pagetable sz sp entry argc oldsz
    end.

Definition exec (path : Z) (argv : list Z) : M (kern S) Z :=
  p ← myproc;
  kbegin_op;;
  ip ← onf (namei path);
  if ip =? NULL then kend_op;; mret (-1)
  else
    onf (ilock ip);;
    let a := local "exec.elf" in
    r ← onf (readi ip false a 0 ELFHDR_SIZE);
    if negb (r =? ELFHDR_SIZE) then exec_bad 0 0 ip
    else
      m ← memory;
      let elf := ld_elfhdr m a in
      if negb (elf_magic elf =? ELF_MAGIC) then exec_bad 0 0 ip
      else
        x ← getp p;
        pagetable ← onmem (proc_pagetable (p_trapframe x));
        if pagetable =? 0 then exec_bad 0 0 ip
        else
          r ← exec_load (Z.to_nat (elf_phnum elf)) pagetable ip (s32 (elf_phoff elf)) 0;
          let '(ok, sz) := r in
          if negb ok then exec_bad pagetable sz ip
          else
            onf (iunlockput ip);;
            kend_op;;
            exec_stack path argv pagetable sz (elf_entry elf).
End exec.
