(* ===== verification/Sysfile.v ===== *)
(** * kernel/sysfile.c: the system calls on files

    Buffers on the kernel stack and the string literals are at the addresses
    [local] gives. *)
From S2P Require Import Prelude Riscv CString Kalloc Vm Cache Log Fs Kern Pipe Console File Proc Args Exec.

Section sysfile.
Context {S : Type} {BC : BlockCache S} {LK : Linker} {FR : Frames} {TX : Text}.

Definition geti_k (ip : Z) : M (kern S) inode := onf (geti ip).
Definition updi_k (ip : Z) (f : inode → inode) : M (kern S) unit := onf (updi ip f).

(** [*pfd] and [*pf], or nothing for -1. *)
Definition argfd (n : Z) : M (kern S) (option (Z * Z)) :=
  fd ← argint n;
  p ← myproc;
  x ← getp p;
  if (fd <? 0) || (fd >=? NOFILE) then mret None
  else
    let f := p_ofile x !!! Z.to_nat fd in
    if f =? NULL then mret None else mret (Some (fd, f)).

Fixpoint fdalloc_loop (n : nat) (fd : nat) (p f : Z) : M (kern S) Z :=
  match n with
  | O => mret (-1)
  | Datatypes.S n' =>
      x ← getp p;
      if p_ofile x !!! fd =? NULL then
        updp p (λ x, set_ofile (<[fd := f]> (p_ofile x)) x);;
        mret (Z.of_nat fd)
      else fdalloc_loop n' (Datatypes.S fd) p f
  end.
Definition fdalloc (f : Z) : M (kern S) Z :=
  p ← myproc;
  fdalloc_loop (Z.to_nat NOFILE) 0 p f.

(** [p->ofile[fd] = 0] *)
Definition clear_fd (p fd : Z) : M (kern S) unit :=
  updp p (λ x, set_ofile (<[Z.to_nat fd := NULL]> (p_ofile x)) x).

Definition sys_dup : M (kern S) Z :=
  r ← argfd 0;
  match r with
  | None => mret (-1)
  | Some (_, f) =>
      fd ← fdalloc f;
      if fd <? 0 then mret (-1)
      else filedup f;; mret fd
  end.

Definition sys_read : M (kern S) Z :=
  p ← argaddr 1;
  n ← argint 2;
  r ← argfd 0;
  match r with
  | None => mret (-1)
  | Some (_, f) => fileread f p n
  end.

Definition sys_write : M (kern S) Z :=
  p ← argaddr 1;
  n ← argint 2;
  r ← argfd 0;
  match r with
  | None => mret (-1)
  | Some (_, f) => filewrite f p n
  end.

Definition sys_close : M (kern S) Z :=
  r ← argfd 0;
  match r with
  | None => mret (-1)
  | Some (fd, f) =>
      p ← myproc;
      clear_fd p fd;;
      fileclose f;;
      mret 0
  end.

Definition sys_fstat : M (kern S) Z :=
  st ← argaddr 1;
  r ← argfd 0;
  match r with
  | None => mret (-1)
  | Some (_, f) => filestat f st
  end.

(** ** link and unlink *)

(** [bad:] of [sys_link] *)
Definition sys_link_bad (ip : Z) : M (kern S) Z :=
  onf (ilock ip);;
  updi_k ip (λ x, with_nlink (s16 (i_nlink x - 1)) x);;
  onf (iupdate ip);;
  onf (iunlockput ip);;
  kend_op;;
  mret (-1).

Definition sys_link : M (kern S) Z :=
  let name := local "sys_link.name" in
  let new := local "sys_link.new" in
  let old := local "sys_link.old" in
  r ← argstr 0 old MAXPATH;
  if r <? 0 then mret (-1)
  else
    r ← argstr 1 new MAXPATH;
    if r <? 0 then mret (-1)
    else
      kbegin_op;;
      ip ← onf (namei old);
      if ip =? NULL then kend_op;; mret (-1)
      else
        onf (ilock ip);;
        x ← geti_k ip;
        if i_type x =? T_DIR then onf (iunlockput ip);; kend_op;; mret (-1)
        else
          updi_k ip (λ x, with_nlink (s16 (i_nlink x + 1)) x);;
          onf (iupdate ip);;
          onf (iunlock ip);;
          dp ← onf (nameiparent new name);
          if dp =? NULL then sys_link_bad ip
          else
            onf (ilock dp);;
            d ← geti_k dp;
            x ← geti_k ip;
            r ← (if negb (i_dev d =? i_dev x) then mret (-1) else onf (dirlink dp name (i_inum x)));
            if r <? 0 then onf (iunlockput dp);; sys_link_bad ip
            else
              onf (iunlockput dp);;
              onf (iput ip);;
              kend_op;;
              mret 0.

(** [for(off=2*sizeof(de); off<dp->size; off+=sizeof(de))] *)
Fixpoint isdirempty_loop (fuel : nat) (dp off : Z) : M (fs S) bool :=
  match fuel with
  | O => mret true
  | Datatypes.S fuel' =>
      x ← geti dp;
      if negb (u32 off <? i_size x) then mret true
      else
        let de := local "isdirempty.de" in
        r ← readi dp false de off DIRENT_SIZE;
        if negb (r =? DIRENT_SIZE) then panic "isdirempty: readi"
        else
          m ← gets (λ s, km (fmem s));
          if negb (ld16 m de =? 0) then mret false
          else isdirempty_loop fuel' dp (off + DIRENT_SIZE)
  end.
Definition isdirempty (dp : Z) : M (fs S) bool :=
  x ← geti dp;
  isdirempty_loop (Z.to_nat (i_size x / DIRENT_SIZE + 1)) dp (2 * DIRENT_SIZE).

(** [bad:] of [sys_unlink] *)
Definition sys_unlink_bad (dp : Z) : M (kern S) Z :=
  onf (iunlockput dp);;
  kend_op;;
  mret (-1).

(** [sys_unlink] with both inodes locked. *)
Definition sys_unlink_locked (dp ip off : Z) : M (kern S) Z :=
  x ← geti_k ip;
  if i_nlink x <? 1 then panic "unlink: nlink < 1"
  else
    nonempty ← (if i_type x =? T_DIR then e ← onf (isdirempty ip); mret (negb e) else mret false);
    if nonempty : bool then onf (iunlockput ip);; sys_unlink_bad dp
    else
      let de := local "sys_unlink.de" in
      onmem (kmemset de 0 DIRENT_SIZE);;
      r ← onf (writei dp false de off DIRENT_SIZE);
      if negb (r =? DIRENT_SIZE) then panic "unlink: writei"
      else
        x ← geti_k ip;
        (if i_type x =? T_DIR then
           updi_k dp (λ x, with_nlink (s16 (i_nlink x - 1)) x);;
           onf (iupdate dp)
         else mret tt);;
        onf (iunlockput dp);;
        updi_k ip (λ x, with_nlink (s16 (i_nlink x - 1)) x);;
        onf (iupdate ip);;
        onf (iunlockput ip);;
        kend_op;;
        mret 0.

Definition sys_unlink : M (kern S) Z :=
  let name := local "sys_unlink.name" in
  let path := local "sys_unlink.path" in
  r ← argstr 0 path MAXPATH;
  if r <? 0 then mret (-1)
  else
    kbegin_op;;
    dp ← onf (nameiparent path name);
    if dp =? NULL then kend_op;; mret (-1)
    else
      onf (ilock dp);;
      m ← memory;
      if (namecmp m name (local "dot") =? 0) || (namecmp m name (local "dotdot") =? 0) then sys_unlink_bad dp
      else
        r ← onf (dirlookup dp name);
        let '(ip, off) := r in
        if ip =? NULL then sys_unlink_bad dp
        else
          onf (ilock ip);;
          sys_unlink_locked dp ip off.

(** ** create *)

(** [fail:] *)
Definition create_fail (ip dp : Z) : M (fs S) Z :=
  updi ip (with_nlink 0);;
  iupdate ip;;
  iunlockput ip;;
  iunlockput dp;;
  mret NULL.

Definition create (path type major minor : Z) : M (fs S) Z :=
  let name := local "create.name" in
  dp ← nameiparent path name;
  if dp =? NULL then mret NULL
  else
    ilock dp;;
    r ← dirlookup dp name;
    let ip := r.1 in
    if negb (ip =? NULL) then
      iunlockput dp;;
      ilock ip;;
      x ← geti ip;
      if (type =? T_FILE) && ((i_type x =? T_FILE) || (i_type x =? T_DEVICE)) then mret ip
      else iunlockput ip;; mret NULL
    else
      d ← geti dp;
      ip ← ialloc (i_dev d) type;
      if ip =? NULL then iunlockput dp;; mret NULL
      else
        ilock ip;;
        updi ip (λ x, with_nlink 1 (with_devno major minor x));;
        iupdate ip;;
        x ← geti ip;
        r ← (if type =? T_DIR then
               r ← dirlink ip (local "dot") (i_inum x);
               if r <? 0 then mret r else dirlink ip (local "dotdot") (i_inum d)
             else mret 0);
        if r <? 0 then create_fail ip dp
        else
          r ← dirlink dp name (i_inum x);
          if r <? 0 then create_fail ip dp
          else
            (if type =? T_DIR then
               updi dp (λ x, with_nlink (s16 (i_nlink x + 1)) x);;
               iupdate dp
             else mret tt);;
            iunlockput dp;;
            mret ip.

(** ** open *)

(** [iunlockput(ip); end_op(); return -1;] *)
Definition sys_open_bad (ip : Z) : M (kern S) Z :=
  onf (iunlockput ip);;
  kend_op;;
  mret (-1).

(** The struct file for [ip], which is locked, and the rest. *)
Definition sys_open_file (ip omode : Z) : M (kern S) Z :=
  f ← filealloc;
  fd ← (if f =? NULL then mret (-1) else fdalloc f);
  if fd <? 0 then
    (if negb (f =? NULL) then fileclose f else mret tt);;
    sys_open_bad ip
  else
    x ← geti_k ip;
    (if i_type x =? T_DEVICE then
       updf f (λ y, set_fmajor (i_major x) (set_ftype FD_DEVICE y))
     else
       updf f (λ y, set_foff 0 (set_ftype FD_INODE y)));;
    updf f (set_fip ip);;
    updf f (set_frw (negb (has omode O_WRONLY)) (has omode O_WRONLY || has omode O_RDWR));;
    (if has omode O_TRUNC && (i_type x =? T_FILE) then onf (itrunc ip) else mret tt);;
    onf (iunlock ip);;
    kend_op;;
    mret fd.

(** [sys_open] with the inode locked. *)
Definition sys_open_locked (ip omode : Z) : M (kern S) Z :=
  x ← geti_k ip;
  if (i_type x =? T_DEVICE) && ((i_major x <? 0) || (i_major x >=? NDEV)) then sys_open_bad ip
  else sys_open_file ip omode.

Definition sys_open : M (kern S) Z :=
  let path := local "sys_open.path" in
  omode ← argint 1;
  n ← argstr 0 path MAXPATH;
  if n <? 0 then mret (-1)
  else
    kbegin_op;;
    if has omode O_CREATE then
      ip ← onf (create path T_FILE 0 0);
      if ip =? NULL then kend_op;; mret (-1) else sys_open_locked ip omode
    else
      ip ← onf (namei path);
      if ip =? NULL then kend_op;; mret (-1)
      else
        onf (ilock ip);;
        x ← geti_k ip;
        if (i_type x =? T_DIR) && negb (omode =? O_RDONLY) then sys_open_bad ip
        else sys_open_locked ip omode.

(** ** Directories and devices *)

Definition sys_mkdir : M (kern S) Z :=
  let path := local "sys_mkdir.path" in
  kbegin_op;;
  r ← argstr 0 path MAXPATH;
  ip ← (if r <? 0 then mret NULL else onf (create path T_DIR 0 0));
  if ip =? NULL then kend_op;; mret (-1)
  else
    onf (iunlockput ip);;
    kend_op;;
    mret 0.

(** [create] takes shorts. *)
Definition sys_mknod : M (kern S) Z :=
  let path := local "sys_mknod.path" in
  kbegin_op;;
  major ← argint 1;
  minor ← argint 2;
  r ← argstr 0 path MAXPATH;
  ip ← (if r <? 0 then mret NULL else onf (create path T_DEVICE (s16 major) (s16 minor)));
  if ip =? NULL then kend_op;; mret (-1)
  else
    onf (iunlockput ip);;
    kend_op;;
    mret 0.

Definition sys_chdir : M (kern S) Z :=
  let path := local "sys_chdir.path" in
  p ← myproc;
  kbegin_op;;
  r ← argstr 0 path MAXPATH;
  ip ← (if r <? 0 then mret NULL else onf (namei path));
  if ip =? NULL then kend_op;; mret (-1)
  else
    onf (ilock ip);;
    x ← geti_k ip;
    if negb (i_type x =? T_DIR) then sys_open_bad ip
    else
      onf (iunlock ip);;
      pr ← getp p;
      onf (iput (p_cwd pr));;
      kend_op;;
      updp p (set_cwd ip);;
      mret 0.

(** ** exec and pipe *)

(** The loop of [sys_exec] over [uargv] from index [i] on, with [argv] the
    pages filled so far: whether it reached the null pointer, and [argv]. *)
Fixpoint sys_exec_args (n : nat) (uargv i : Z) (argv : list Z) : M (kern S) (bool * list Z) :=
  match n with
  | O => mret (false, argv)
  | Datatypes.S n' =>
      r ← fetchaddr (u64 (uargv + 8 * i));
      match r with
      | None => mret (false, argv)
      | Some uarg =>
          if uarg =? 0 then mret (true, argv)
          else
            a ← onmem kalloc;
            if a =? 0 then mret (false, argv)
            else
              r ← fetchstr uarg a PGSIZE;
              if r <? 0 then mret (false, argv ++ [a])
              else sys_exec_args n' uargv (i + 1) (argv ++ [a])
      end
  end.
Fixpoint kfree_all (l : list Z) : M (kern S) unit :=
  match l with
  | [] => mret tt
  | a :: l' => onmem (kfree a);; kfree_all l'
  end.
Definition sys_exec : M (kern S) Z :=
  let path := local "sys_exec.path" in
  uargv ← argaddr 1;
  r ← argstr 0 path MAXPATH;
  if r <? 0 then mret (-1)
  else
    r ← sys_exec_args (Z.to_nat MAXARG) uargv 0 [];
    let '(ok, argv) := r in
    if negb ok then kfree_all argv;; mret (-1)
    else
      ret ← exec path argv;
      kfree_all argv;;
      mret ret.

(** [fileclose(rf); fileclose(wf); return -1;] *)
Definition sys_pipe_bad (rf wf : Z) : M (kern S) Z :=
  fileclose rf;;
  fileclose wf;;
  mret (-1).
Definition int_bytes (v : Z) : list Z := ld_bytes 4 (st32 ∅ 0 v) 0.
Definition sys_pipe : M (kern S) Z :=
  p ← myproc;
  fdarray ← argaddr 0;
  r ← pipealloc;
  match r with
  | None => mret (-1)
  | Some (rf, wf) =>
      fd0 ← fdalloc rf;
      fd1 ← (if fd0 <? 0 then mret (-1) else fdalloc wf);
      if fd1 <? 0 then
        (if fd0 >=? 0 then clear_fd p fd0 else mret tt);;
        sys_pipe_bad rf wf
      else
        x ← getp p;
        r ← onmem (copyout (p_pagetable x) fdarray (int_bytes fd0));
        r ← (if r <? 0 then mret r
             else onmem (copyout (p_pagetable x) (u64 (fdarray + 4)) (int_bytes fd1)));
        if r <? 0 then
          clear_fd p fd0;;
          clear_fd p fd1;;
          sys_pipe_bad rf wf
        else mret 0
  end.
End sysfile.
