(* ===== verification/Virtio.v ===== *)
(** * kernel/virtio_disk.c: the driver of the disk

    The driver's struct disk, the descriptors and the two rings it shares
    with the device, and the buffers in flight.  The pointers in descriptors
    are symbolic.  [virtio_disk_rw] is modelled as the runs between its
    sleeps, each under vdisk_lock; the wakeups of a run are collected in
    [v_wake]. *)
From S2P Require Import Prelude Riscv CString Kalloc Cache.

Definition NUM : Z := 8.
Definition VRING_DESC_F_NEXT : Z := 1.
Definition VRING_DESC_F_WRITE : Z := 2.
Definition VIRTIO_BLK_T_IN : Z := 0.
Definition VIRTIO_BLK_T_OUT : Z := 1.

(** The registers. *)
Definition VIRTIO_MMIO_MAGIC_VALUE : Z := 0x000.
Definition VIRTIO_MMIO_VERSION : Z := 0x004.
Definition VIRTIO_MMIO_DEVICE_ID : Z := 0x008.
Definition VIRTIO_MMIO_VENDOR_ID : Z := 0x00c.
Definition VIRTIO_MMIO_DEVICE_FEATURES : Z := 0x010.
Definition VIRTIO_MMIO_DRIVER_FEATURES : Z := 0x020.
Definition VIRTIO_MMIO_QUEUE_SEL : Z := 0x030.
Definition VIRTIO_MMIO_QUEUE_NUM_MAX : Z := 0x034.
Definition VIRTIO_MMIO_QUEUE_NUM : Z := 0x038.
Definition VIRTIO_MMIO_QUEUE_READY : Z := 0x044.
Definition VIRTIO_MMIO_QUEUE_NOTIFY : Z := 0x050.
Definition VIRTIO_MMIO_INTERRUPT_STATUS : Z := 0x060.
Definition VIRTIO_MMIO_INTERRUPT_ACK : Z := 0x064.
Definition VIRTIO_MMIO_STATUS : Z := 0x070.
Definition VIRTIO_MMIO_QUEUE_DESC_LOW : Z := 0x080.
Definition VIRTIO_MMIO_QUEUE_DESC_HIGH : Z := 0x084.
Definition VIRTIO_MMIO_DRIVER_DESC_LOW : Z := 0x090.
Definition VIRTIO_MMIO_DRIVER_DESC_HIGH : Z := 0x094.
Definition VIRTIO_MMIO_DEVICE_DESC_LOW : Z := 0x0a0.
Definition VIRTIO_MMIO_DEVICE_DESC_HIGH : Z := 0x0a4.
Definition VIRTIO_CONFIG_S_ACKNOWLEDGE : Z := 1.
Definition VIRTIO_CONFIG_S_DRIVER : Z := 2.
Definition VIRTIO_CONFIG_S_DRIVER_OK : Z := 4.
Definition VIRTIO_CONFIG_S_FEATURES_OK : Z := 8.
Definition VIRTIO_BLK_F_RO : Z := 5.
Definition VIRTIO_BLK_F_SCSI : Z := 7.
Definition VIRTIO_BLK_F_CONFIG_WCE : Z := 11.
Definition VIRTIO_BLK_F_MQ : Z := 12.
Definition VIRTIO_F_ANY_LAYOUT : Z := 27.
Definition VIRTIO_RING_F_INDIRECT_DESC : Z := 28.
Definition VIRTIO_RING_F_EVENT_IDX : Z := 29.

(** What a descriptor points to: nothing, &disk.ops[i], b->data, or
    &disk.info[i].status. *)
Inductive daddr := ANull | AOps (i : Z) | AData (b : Z) | AStatus (i : Z).

Record virtq_desc := mk_desc { d_addr : daddr; d_len : Z; d_flags : Z; d_next : Z }.
#[global] Instance desc_inhabited : Inhabited virtq_desc := populate (mk_desc ANull 0 0 0).

Record virtio_blk_req := mk_req { r_type : Z; r_reserved : Z; r_sector : Z }.
#[global] Instance req_inhabited : Inhabited virtio_blk_req := populate (mk_req 0 0 0).

(** disk.info[i]; a null [b] is -1. *)
Record vinfo := mk_info { in_b : Z; in_status : Z }.
#[global] Instance info_inhabited : Inhabited vinfo := populate (mk_info (-1) 0).

(** The fields of struct buf the driver uses. *)
Record vbuf := mk_vbuf { vb_blockno : Z; vb_disk : bool; vb_data : mem }.
#[global] Instance vbuf_inhabited : Inhabited vbuf := populate (mk_vbuf 0 false ∅).

Record virtio := mk_virtio {
  v_desc : gmap Z virtq_desc;
  v_free : gmap Z bool;
  v_used_idx : Z;
  v_info : gmap Z vinfo;
  v_ops : gmap Z virtio_blk_req;
  avail_idx : Z;
  avail_ring : gmap Z Z;
  used_idx : Z; (* the device's used->idx *)
  used_ring : gmap Z Z;
  v_buf : gmap Z vbuf;
  v_wake : list chan;
}.

Definition set_desc x v := mk_virtio x (v_free v) (v_used_idx v) (v_info v) (v_ops v) (avail_idx v) (avail_ring v)
  (used_idx v) (used_ring v) (v_buf v) (v_wake v).
Definition set_free x v := mk_virtio (v_desc v) x (v_used_idx v) (v_info v) (v_ops v) (avail_idx v) (avail_ring v)
  (used_idx v) (used_ring v) (v_buf v) (v_wake v).
Definition set_used_idx x v := mk_virtio (v_desc v) (v_free v) x (v_info v) (v_ops v) (avail_idx v) (avail_ring v)
  (used_idx v) (used_ring v) (v_buf v) (v_wake v).
Definition set_info x v := mk_virtio (v_desc v) (v_free v) (v_used_idx v) x (v_ops v) (avail_idx v) (avail_ring v)
  (used_idx v) (used_ring v) (v_buf v) (v_wake v).
Definition set_reqs x v := mk_virtio (v_desc v) (v_free v) (v_used_idx v) (v_info v) x (avail_idx v) (avail_ring v)
  (used_idx v) (used_ring v) (v_buf v) (v_wake v).
Definition set_avail i r v := mk_virtio (v_desc v) (v_free v) (v_used_idx v) (v_info v) (v_ops v) i r
  (used_idx v) (used_ring v) (v_buf v) (v_wake v).
Definition set_dused i r v := mk_virtio (v_desc v) (v_free v) (v_used_idx v) (v_info v) (v_ops v) (avail_idx v)
  (avail_ring v) i r (v_buf v) (v_wake v).
Definition set_vbuf x v := mk_virtio (v_desc v) (v_free v) (v_used_idx v) (v_info v) (v_ops v) (avail_idx v)
  (avail_ring v) (used_idx v) (used_ring v) x (v_wake v).
Definition set_wake x v := mk_virtio (v_desc v) (v_free v) (v_used_idx v) (v_info v) (v_ops v) (avail_idx v)
  (avail_ring v) (used_idx v) (used_ring v) (v_buf v) x.

(** [wakeup(chan)] *)
Definition vwakeup (c : chan) : M virtio unit := modify (λ v, set_wake (v_wake v ++ [c]) v).
(** The channels &disk.free[0] and b. *)
Definition chan_free : chan := ("disk.free"%string, 0).
Definition chan_buf (b : Z) : chan := ("buf"%string, b).

Definition upd_desc (i : Z) (d : virtq_desc) : M virtio unit := modify (λ v, set_desc (<[i := d]> (v_desc v)) v).
Definition upd_info (i : Z) (f : vinfo → vinfo) : M virtio unit :=
  modify (λ v, set_info (<[i := f (v_info v !!! i)]> (v_info v)) v).
Definition upd_vbuf (b : Z) (f : vbuf → vbuf) : M virtio unit :=
  modify (λ v, set_vbuf (<[b := f (v_buf v !!! b)]> (v_buf v)) v).
Definition with_disk (x : bool) (b : vbuf) : vbuf := mk_vbuf (vb_blockno b) x (vb_data b).
Definition is_free (v : virtio) (i : Z) : bool := default false (v_free v !! i).

(** ** Descriptors *)

Fixpoint alloc_desc_loop (n : nat) (i : Z) : M virtio Z :=
  match n with
  | O => mret (-1)
  | S n' =>
      f ← gets (λ v, is_free v i);
      if f : bool then
        modify (λ v, set_free (<[i := false]> (v_free v)) v);;
        mret i
      else alloc_desc_loop n' (i + 1)
  end.
Definition alloc_desc : M virtio Z := alloc_desc_loop (Z.to_nat NUM) 0.

Definition free_desc (i : Z) : M virtio unit :=
  if i >=? NUM then panic "free_desc 1"
  else
    f ← gets (λ v, is_free v i);
    if f : bool then panic "free_desc 2"
    else
      upd_desc i (mk_desc ANull 0 0 0);;
      modify (λ v, set_free (<[i := true]> (v_free v)) v);;
      vwakeup chan_free.

(** A chain has at most NUM descriptors: [free_desc] panics on the second
    visit of one. *)
Fixpoint free_chain_loop (fuel : nat) (i : Z) : M virtio unit :=
  match fuel with
  | O => panic "loop bound"
  | S fuel' =>
      d ← gets (λ v, v_desc v !!! i);
      free_desc i;;
      if negb (Z.land (d_flags d) VRING_DESC_F_NEXT =? 0) then free_chain_loop fuel' (d_next d)
      else mret tt
  end.
Definition free_chain (i : Z) : M virtio unit := free_chain_loop (S (Z.to_nat NUM)) i.

(** [for(int j = 0; j < i; j++) free_desc(idx[j]);] *)
Fixpoint free_descs (l : list Z) : M virtio unit :=
  match l with
  | [] => mret tt
  | i :: l' => free_desc i;; free_descs l'
  end.
(** The remaining [n] of the three descriptors, with [idx] taken so far. *)
Fixpoint alloc3_loop (n : nat) (idx : list Z) : M virtio (option (list Z)) :=
  match n with
  | O => mret (Some idx)
  | S n' =>
      i ← alloc_desc;
      if i <? 0 then free_descs idx;; mret None
      else alloc3_loop n' (idx ++ [i])
  end.
Definition alloc3_desc : M virtio (option (list Z)) := alloc3_loop 3 [].

(** ** virtio_disk_rw *)

(** From the three descriptors on, to the notification of the device. *)
Definition virtio_submit (b : Z) (write : bool) (i0 i1 i2 : Z) : M virtio unit :=
  blockno ← gets (λ v, vb_blockno (v_buf v !!! b));
  let sector := u32 (blockno * (BSIZE / 512)) in
  modify (λ v, set_reqs (<[i0 := mk_req (if write then VIRTIO_BLK_T_OUT else VIRTIO_BLK_T_IN) 0 sector]> (v_ops v)) v);;
  upd_desc i0 (mk_desc (AOps i0) 16 VRING_DESC_F_NEXT i1);;
  upd_desc i1 (mk_desc (AData b) BSIZE (Z.lor (if write then 0 else VRING_DESC_F_WRITE) VRING_DESC_F_NEXT) i2);;
  upd_info i0 (λ x, mk_info (in_b x) 0xff);;
  upd_desc i2 (mk_desc (AStatus i0) 1 VRING_DESC_F_WRITE 0);;
  upd_vbuf b (with_disk true);;
  upd_info i0 (λ x, mk_info b (in_status x));;
  modify (λ v, set_avail (avail_idx v) (<[avail_idx v mod NUM := i0]> (avail_ring v)) v);;
  modify (λ v, set_avail (u16 (avail_idx v + 1)) (avail_ring v) v).

(** The run that allocates descriptors: nothing when it sleeps on
    &disk.free[0]; after submitting, it sleeps on [b] as b->disk is 1. *)
Definition virtio_disk_rw_start (b : Z) (write : bool) : M virtio (option (Z * Z * Z)) :=
  r ← alloc3_desc;
  match r with
  | Some [i0; i1; i2] => virtio_submit b write i0 i1 i2;; mret (Some (i0, i1, i2))
  | _ => mret None
  end.
(** A run after a wakeup: false when it sleeps on [b] again. *)
Definition virtio_disk_rw_finish (b i0 : Z) : M virtio bool :=
  x ← gets (λ v, v_buf v !!! b);
  if vb_disk x then mret false
  else
    upd_info i0 (λ x, mk_info (-1) (in_status x));;
    free_chain i0;;
    mret true.

(** ** virtio_disk_intr *)

Fixpoint virtio_intr_loop (fuel : nat) : M virtio unit :=
  match fuel with
  | O => mret tt
  | S fuel' =>
      v ← get;
      if v_used_idx v =? used_idx v then mret tt
      else
        let id := default 0 (used_ring v !! (v_used_idx v mod NUM)) in
        let x := v_info v !!! id in
        if negb (in_status x =? 0) then panic "virtio_disk_intr status"
        else
          upd_vbuf (in_b x) (with_disk false);;
          vwakeup (chan_buf (in_b x));;
          modify (λ v, set_used_idx (u16 (v_used_idx v + 1)) v);;
          virtio_intr_loop fuel'
  end.
(** [fuel] is the number of entries the device has added. *)
Definition virtio_disk_intr : M virtio unit :=
  v ← get;
  virtio_intr_loop (Z.to_nat (u16 (used_idx v - v_used_idx v))).

(** ** virtio_disk_init

    [R] gives the registers' values, [w] collects the writes.  Returns the
    writes and the pages of the queue. *)
Definition clear_bits (features : Z) (l : list Z) : Z :=
  fold_left (λ f b, Z.land f (Z.lnot (Z.shiftl 1 b))) l features.

Section init.
Context {LK : Linker} (R : Z → Z).

Definition virtio_found : bool :=
  (R VIRTIO_MMIO_MAGIC_VALUE =? 0x74726976) && (R VIRTIO_MMIO_VERSION =? 2) &&
  (R VIRTIO_MMIO_DEVICE_ID =? 2) && (R VIRTIO_MMIO_VENDOR_ID =? 0x554d4551).

Definition virtio_queue_writes (desc avail used : Z) : list (Z * Z) :=
  [(VIRTIO_MMIO_QUEUE_NUM, NUM);
   (VIRTIO_MMIO_QUEUE_DESC_LOW, u32 desc); (VIRTIO_MMIO_QUEUE_DESC_HIGH, Z.shiftr desc 32);
   (VIRTIO_MMIO_DRIVER_DESC_LOW, u32 avail); (VIRTIO_MMIO_DRIVER_DESC_HIGH, Z.shiftr avail 32);
   (VIRTIO_MMIO_DEVICE_DESC_LOW, u32 used); (VIRTIO_MMIO_DEVICE_DESC_HIGH, Z.shiftr used 32);
   (VIRTIO_MMIO_QUEUE_READY, 1)].

Definition virtio_disk_init : M kmem (list (Z * Z) * (Z * Z * Z)) :=
  if negb virtio_found then panic "could not find virtio disk"
  else
    let status0 := 0 in
    let status1 := Z.lor status0 VIRTIO_CONFIG_S_ACKNOWLEDGE in
    let status2 := Z.lor status1 VIRTIO_CONFIG_S_DRIVER in
    let features := clear_bits (R VIRTIO_MMIO_DEVICE_FEATURES)
      [VIRTIO_BLK_F_RO; VIRTIO_BLK_F_SCSI; VIRTIO_BLK_F_CONFIG_WCE; VIRTIO_BLK_F_MQ; VIRTIO_F_ANY_LAYOUT;
       VIRTIO_RING_F_EVENT_IDX; VIRTIO_RING_F_INDIRECT_DESC] in
    let status3 := Z.lor status2 VIRTIO_CONFIG_S_FEATURES_OK in
    let w := [(VIRTIO_MMIO_STATUS, status0); (VIRTIO_MMIO_STATUS, status1); (VIRTIO_MMIO_STATUS, status2);
              (VIRTIO_MMIO_DRIVER_FEATURES, u32 features); (VIRTIO_MMIO_STATUS, status3)] in
    let status := R VIRTIO_MMIO_STATUS in
    if Z.land status VIRTIO_CONFIG_S_FEATURES_OK =? 0 then panic "virtio disk FEATURES_OK unset"
    else
      let w := w ++ [(VIRTIO_MMIO_QUEUE_SEL, 0)] in
      if negb (R VIRTIO_MMIO_QUEUE_READY =? 0) then panic "virtio disk should not be ready"
      else
        let max := R VIRTIO_MMIO_QUEUE_NUM_MAX in
        if max =? 0 then panic "virtio disk has no queue 0"
        else if max <? NUM then panic "virtio disk max queue too short"
        else
          desc ← kalloc;
          avail ← kalloc;
          used ← kalloc;
          if (desc =? 0) || (avail =? 0) || (used =? 0) then panic "virtio disk kalloc"
          else
            kmemset desc 0 PGSIZE;;
            kmemset avail 0 PGSIZE;;
            kmemset used 0 PGSIZE;;
            mret (w ++ virtio_queue_writes desc avail used ++
                    [(VIRTIO_MMIO_STATUS, Z.lor status VIRTIO_CONFIG_S_DRIVER_OK)],
                  (desc, avail, used)).
End init.

(** The driver's state after [virtio_disk_init]: zeroed queue memory, all
    descriptors free. *)
Definition virtio_boot (bufs : gmap Z vbuf) : virtio :=
  mk_virtio ∅ (list_to_map ((λ i, (i, true)) <$> seqZ 0 NUM)) 0 ∅ ∅ 0 ∅ 0 ∅ bufs [].
