(* ===== verification/Syscall.v ===== *)
(** * kernel/sysproc.c and the dispatcher of kernel/syscall.c *)
From S2P Require Import Prelude Riscv CString Kalloc Vm Cache Log Fs Kern Pipe Console File Proc Args Exec Sysfile.

(** ** kernel/syscall.h *)
Definition SYS_fork : Z := 1.
Definition SYS_exit : Z := 2.
Definition SYS_wait : Z := 3.
Definition SYS_pipe : Z := 4.
Definition SYS_read : Z := 5.
Definition SYS_kill : Z := 6.
Definition SYS_exec : Z := 7.
Definition SYS_fstat : Z := 8.
Definition SYS_chdir : Z := 9.
Definition SYS_dup : Z := 10.
Definition SYS_getpid : Z := 11.
Definition SYS_sbrk : Z := 12.
Definition SYS_sleep : Z := 13.
Definition SYS_uptime : Z := 14.
Definition SYS_open : Z := 15.
Definition SYS_write : Z := 16.
Definition SYS_mknod : Z := 17.
Definition SYS_unlink : Z := 18.
Definition SYS_link : Z := 19.
Definition SYS_mkdir : Z := 20.
Definition SYS_close : Z := 21.

Section syscall.
Context {S : Type} {BC : BlockCache S} {LK : Linker} {FR : Frames} {TX : Text}.

(** ** kernel/sysproc.c *)

Definition sys_exit : M (kern S) Z := n ← argint 0; exit n.
Definition sys_getpid : M (kern S) Z := p ← myproc; x ← getp p; mret (p_pid x).
Definition sys_fork : M (kern S) Z := fork.
Definition sys_wait : M (kern S) Z := p ← argaddr 0; wait p.
Definition sys_sbrk : M (kern S) Z :=
  n ← argint 0;
  p ← myproc;
  addr ← gets (λ k, p_sz (kproc k !!! p));
  r ← growproc n;
  if r <? 0 then mret (-1) else mret addr.

(** One turn of the loop of [sys_sleep]; [inr] when it sleeps on &ticks. *)
Definition sys_sleep_run (n ticks0 : Z) : M (kern S) (Z + unit) :=
  t ← gets kticks;
  if u32 (t - ticks0) <? u32 n then
    p ← myproc;
    kl ← killed p;
    if kl : bool then mret (inl (-1)) else mret (inr tt)
  else mret (inl 0).
Definition sys_sleep : M (kern S) Z :=
  n ← argint 0;
  let n := if n <? 0 then 0 else n in
  ticks0 ← gets kticks;
  r ← sys_sleep_run n ticks0;
  match r with
  | inl ret => mret ret
  | inr _ => sleep_on ("ticks"%string, 0)
  end.
Definition sys_kill : M (kern S) Z := pid ← argint 0; kill pid.
Definition sys_uptime : M (kern S) Z := gets kticks.

(** ** The dispatcher *)

Definition syscalls (num : Z) : option (M (kern S) Z) :=
  match num with
  | 1 => Some sys_fork
  | 2 => Some sys_exit
  | 3 => Some sys_wait
  | 4 => Some sys_pipe
  | 5 => Some sys_read
  | 6 => Some sys_kill
  | 7 => Some sys_exec
  | 8 => Some sys_fstat
  | 9 => Some sys_chdir
  | 10 => Some sys_dup
  | 11 => Some sys_getpid
  | 12 => Some sys_sbrk
  | 13 => Some sys_sleep
  | 14 => Some sys_uptime
  | 15 => Some sys_open
  | 16 => Some sys_write
  | 17 => Some sys_mknod
  | 18 => Some sys_unlink
  | 19 => Some sys_link
  | 20 => Some sys_mkdir
  | 21 => Some sys_close
  | _ => None
  end.

(** The results are uint64. *)
Definition syscall : M (kern S) unit :=
  p ← myproc;
  x ← getp p;
  a7 ← tf_get (p_trapframe x) TF_a7;
  let num := s32 a7 in
  match syscalls num with
  | Some f =>
      r ← f;
      x ← getp p;
      tf_set (p_trapframe x) TF_a0 (u64 r)
  | None => tf_set (p_trapframe x) TF_a0 (u64 (-1))
  end.
End syscall.
