(* ===== verification/Trap.v ===== *)
(** * kernel/trap.c and kernel/plic.c: traps and interrupts

    The control and status registers of the hart that takes the trap, the
    interrupt controller and the disk driver, beside the kernel's state. *)
From S2P Require Import Prelude Riscv CString Kalloc Vm Cache Log Fs Kern Pipe Console File Proc Args Exec Sysfile Syscall.
From S2P Require Import Virtio.

(** The registers of a hart in supervisor mode, and the PLIC as it sees it:
    the interrupts pending and those being served. *)
Record hregs := mk_hregs {
  h_sstatus : Z;
  h_stvec : Z;
  h_sepc : Z;
  h_scause : Z;
  h_satp : Z;
  h_tp : Z;
  h_time : Z;
  h_stimecmp : Z;
  h_pending : list Z;
  h_claimed : list Z;
}.
Definition w_sstatus v h := mk_hregs v (h_stvec h) (h_sepc h) (h_scause h) (h_satp h) (h_tp h) (h_time h)
  (h_stimecmp h) (h_pending h) (h_claimed h).
Definition w_stvec v h := mk_hregs (h_sstatus h) v (h_sepc h) (h_scause h) (h_satp h) (h_tp h) (h_time h)
  (h_stimecmp h) (h_pending h) (h_claimed h).
Definition w_sepc v h := mk_hregs (h_sstatus h) (h_stvec h) v (h_scause h) (h_satp h) (h_tp h) (h_time h)
  (h_stimecmp h) (h_pending h) (h_claimed h).
Definition w_stimecmp v h := mk_hregs (h_sstatus h) (h_stvec h) (h_sepc h) (h_scause h) (h_satp h) (h_tp h) (h_time h)
  v (h_pending h) (h_claimed h).
Definition set_plic p c h := mk_hregs (h_sstatus h) (h_stvec h) (h_sepc h) (h_scause h) (h_satp h) (h_tp h) (h_time h)
  (h_stimecmp h) p c.

(** scause of an ecall from user mode, of a timer and of an external
    interrupt *)
Definition CAUSE_ecall : Z := 8.
Definition CAUSE_timer : Z := 0x8000000000000005.
Definition CAUSE_external : Z := 0x8000000000000009.

Section trap.
Context {S : Type} {BC : BlockCache S} {LK : Linker} {FR : Frames} {TX : Text}.

Record machine := mk_machine { mk : kern S; mh : hregs; mv : virtio }.
Definition set_mk k s := mk_machine k (mh s) (mv s).
Definition set_mh h s := mk_machine (mk s) h (mv s).
Definition set_mv v s := mk_machine (mk s) (mh s) v.
Definition onk {A} (m : M (kern S) A) : M machine A := lift mk set_mk m.
Definition onv {A} (m : M virtio A) : M machine A := lift mv set_mv m.
Definition csr (f : hregs → Z) : M machine Z := gets (λ s, f (mh s)).
Definition wcsr (f : hregs → hregs) : M machine unit := modify (λ s, set_mh (f (mh s)) s).

(** ** plic.c *)

(** The PLIC gives out an interrupt once, until it is completed. *)
Definition plic_claim : M machine Z :=
  h ← gets mh;
  match h_pending h with
  | [] => mret 0
  | irq :: l => wcsr (set_plic l (irq :: h_claimed h));; mret irq
  end.
Definition plic_complete (irq : Z) : M machine unit :=
  wcsr (λ h, set_plic (h_pending h) (filter (λ i, i ≠ irq) (h_claimed h)) h).

(** ** trap.c *)

Definition trapinithart : M machine unit := wcsr (w_stvec (text "kernelvec")).

Definition clockintr : M machine unit :=
  tp ← csr h_tp;
  (if tp =? 0 then
     onk (modify (λ k, set_kticks (u32 (kticks k + 1)) k);; wakeup ("ticks"%string, 0))
   else mret tt);;
  wcsr (λ h, w_stimecmp (u64 (h_time h + 1000000)) h).

(** The wakeups of the disk interrupt. *)
Fixpoint wakeups (l : list chan) : M (kern S) unit :=
  match l with
  | [] => mret tt
  | c :: l' => wakeup c;; wakeups l'
  end.
Definition disk_intr : M machine unit :=
  onv (modify (set_wake []));;
  onv virtio_disk_intr;;
  w ← gets (λ s, v_wake (mv s));
  onk (wakeups w).

Definition devintr : M machine Z :=
  scause ← csr h_scause;
  if scause =? CAUSE_external then
    irq ← plic_claim;
    (if irq =? UART0_IRQ then onk uartintr
     else if irq =? VIRTIO0_IRQ then disk_intr
     else mret tt);;
    (if negb (irq =? 0) then plic_complete irq else mret tt);;
    mret 1
  else if scause =? CAUSE_timer then clockintr;; mret 2
  else mret 0.

(** The jump to [userret] in the trampoline: its address and its argument. *)
Definition usertrapret : M machine (Z * Z) :=
  p ← onk myproc;
  x ← onk (getp p);
  wcsr (λ h, w_sstatus (Z.land (h_sstatus h) (Z.lnot SSTATUS_SIE)) h);;
  wcsr (w_stvec (u64 (TRAMPOLINE + (text "uservec" - trampoline))));;
  satp ← csr h_satp;
  tp ← csr h_tp;
  let tf := p_trapframe x in
  onk (tf_set tf TF_kernel_satp satp);;
  onk (tf_set tf TF_kernel_sp (p_kstack x + PGSIZE));;
  onk (tf_set tf TF_kernel_trap (text "usertrap"));;
  onk (tf_set tf TF_kernel_hartid tp);;
  s ← csr h_sstatus;
  let s := Z.land s (Z.lnot SSTATUS_SPP) in
  let s := Z.lor s SSTATUS_SPIE in
  wcsr (w_sstatus s);;
  epc ← onk (tf_get tf TF_epc);
  wcsr (w_sepc epc);;
  mret (u64 (TRAMPOLINE + (text "userret" - trampoline)), MAKE_SATP (p_pagetable x)).

(** [usertrap] up to the last check of [killed]: which device interrupted. *)
Definition usertrap_handle : M machine Z :=
  sstatus ← csr h_sstatus;
  if has sstatus SSTATUS_SPP then panic "usertrap: not from user mode"
  else
    wcsr (w_stvec (text "kernelvec"));;
    p ← onk myproc;
    x ← onk (getp p);
    sepc ← csr h_sepc;
    onk (tf_set (p_trapframe x) TF_epc sepc);;
    scause ← csr h_scause;
    if scause =? CAUSE_ecall then
      kl ← onk (killed p);
      (if kl : bool then onk (exit (-1)) else mret tt);;
      epc ← onk (tf_get (p_trapframe x) TF_epc);
      onk (tf_set (p_trapframe x) TF_epc (u64 (epc + 4)));;
      wcsr (λ h, w_sstatus (Z.lor (h_sstatus h) SSTATUS_SIE) h);;
      onk syscall;;
      mret 0
    else
      which_dev ← devintr;
      (if which_dev =? 0 then onk (setkilled p) else mret tt);;
      mret which_dev.
Definition usertrap : M machine (Z * Z) :=
  which_dev ← usertrap_handle;
  p ← onk myproc;
  kl ← onk (killed p);
  (if kl : bool then onk (exit (-1)) else mret tt);;
  if which_dev =? 2 then onk yield else usertrapret.

Definition kerneltrap : M machine unit :=
  sepc ← csr h_sepc;
  sstatus ← csr h_sstatus;
  if negb (has sstatus SSTATUS_SPP) then panic "kerneltrap: not from supervisor mode"
  else if has sstatus SSTATUS_SIE then panic "kerneltrap: interrupts enabled"
  else
    which_dev ← devintr;
    if which_dev =? 0 then panic "kerneltrap"
    else
      p ← onk myproc;
      if (which_dev =? 2) && negb (p =? NULL) then onk yield
      else
        wcsr (w_sepc sepc);;
        wcsr (w_sstatus sstatus).
End trap.
