(* ===== verification/Printf.v ===== *)
(** * kernel/printf.c: formatted output

    The functions return the bytes they pass to [consputc]; [None] is a
    store beyond the end of [buf].  Variadic arguments are 64-bit slots. *)
From S2P Require Import Prelude Riscv CString Kern Console.

Definition digits : list Z :=
  [48; 49; 50; 51; 52; 53; 54; 55; 56; 57; 97; 98; 99; 100; 101; 102].
Definition digit (d : Z) : Z := digits !!! Z.to_nat d.

(** char buf[16] of [printint] *)
Definition PRINTINT_BUF : nat := 16.

(** The loop that fills [buf], least significant digit first.  A 64-bit
    number has at most 64 digits. *)
Fixpoint printint_loop (fuel : nat) (x base : Z) (buf : list Z) : option (list Z) :=
  match fuel with
  | O => None
  | S fuel' =>
      if decide (length buf < PRINTINT_BUF)%nat then
        let buf := buf ++ [digit (x mod base)] in
        let x := x / base in
        if negb (x =? 0) then printint_loop fuel' x base buf else Some buf
      else None
  end.
(** [xx] is a long long. *)
Definition printint (xx base : Z) (sign : bool) : option (list Z) :=
  let neg := sign && (xx <? 0) in
  let x := if neg then u64 (- xx) else u64 xx in
  buf ← printint_loop 64 x base [];
  if neg then
    if decide (length buf < PRINTINT_BUF)%nat then Some (rev (buf ++ [45])) else None
  else Some (rev buf).

Fixpoint printptr_loop (n : nat) (x : Z) : list Z :=
  match n with
  | O => []
  | S n' => digit (Z.shiftr x 60) :: printptr_loop n' (u64 (Z.shiftl x 4))
  end.
Definition printptr (x : Z) : list Z := 48 :: 120 :: printptr_loop 16 x.

(** [va_arg(ap, int)], [va_arg(ap, uint64)] as long long *)
Definition arg_int (a : Z) : Z := s32 a.
Definition arg_u64 (a : Z) : Z := s64 a.

(** A conversion: how many more characters of the format it takes, and its
    output on an argument. *)
Definition null_string : list Z := [40; 110; 117; 108; 108; 41].
Definition conversion (m : mem) (c0 c1 c2 : Z) : option (Z * (Z → option (list Z))) :=
  if c0 =? 100 then Some (0, λ a, printint (arg_int a) 10 true)
  else if (c0 =? 108) && (c1 =? 100) then Some (1, λ a, printint (arg_u64 a) 10 true)
  else if (c0 =? 108) && (c1 =? 108) && (c2 =? 100) then Some (2, λ a, printint (arg_u64 a) 10 true)
  else if c0 =? 117 then Some (0, λ a, printint (arg_int a) 10 false)
  else if (c0 =? 108) && (c1 =? 117) then Some (1, λ a, printint (arg_u64 a) 10 false)
  else if (c0 =? 108) && (c1 =? 108) && (c2 =? 117) then Some (2, λ a, printint (arg_u64 a) 10 false)
  else if c0 =? 120 then Some (0, λ a, printint (arg_int a) 16 false)
  else if (c0 =? 108) && (c1 =? 120) then Some (1, λ a, printint (arg_u64 a) 16 false)
  else if (c0 =? 108) && (c1 =? 108) && (c2 =? 120) then Some (2, λ a, printint (arg_u64 a) 16 false)
  else if c0 =? 112 then Some (0, λ a, Some (printptr (u64 a)))
  else if c0 =? 115 then
    Some (0, λ a, if a =? 0 then Some null_string
                  else len ← strlen 4096 m a; Some (ld_bytes (Z.to_nat len) m a))
  else None.

(** The loop of [printf] from character [i] of the format on.  [fuel] is
    more than the length of the format; the strings printed are shorter than
    a page. *)
Fixpoint printf_loop (fuel : nat) (m : mem) (fmt i : Z) (args : list Z) : option (list Z) :=
  match fuel with
  | O => Some []
  | S fuel' =>
      let cx := ld8 m (fmt + i) in
      if cx =? 0 then Some []
      else if negb (cx =? 37) then
        out ← printf_loop fuel' m fmt (i + 1) args; Some (cx :: out)
      else
        let i := i + 1 in
        let c0 := ld8 m (fmt + i) in
        let c1 := if negb (c0 =? 0) then ld8 m (fmt + i + 1) else 0 in
        let c2 := if negb (c1 =? 0) then ld8 m (fmt + i + 2) else 0 in
        match conversion m c0 c1 c2 with
        | Some (skip, conv) =>
            out1 ← conv (hd 0 args);
            out ← printf_loop fuel' m fmt (i + skip + 1) (tl args); Some (out1 ++ out)
        | None =>
            if c0 =? 37 then out ← printf_loop fuel' m fmt (i + 1) args; Some (37 :: out)
            else if c0 =? 0 then Some []
            else out ← printf_loop fuel' m fmt (i + 1) args; Some (37 :: c0 :: out)
        end
  end.
Definition printf (m : mem) (fmt : Z) (args : list Z) : option (list Z) := printf_loop 4096 m fmt 0 args.

(** The bytes on the console. *)
Fixpoint consputs (l : list Z) : M console unit :=
  match l with
  | [] => mret tt
  | c :: l' => consputc c;; consputs l'
  end.
