(* ===== verification/PrintfInv.v ===== *)
(** * What printf prints

    [printint] prints the number in its base, or overflows its buffer: which
    of the two is decided exactly. *)
From S2P Require Import Prelude Riscv CString Kern Console Printf.

(** The number a list of digits denotes, most significant first. *)
Definition undigit (c : Z) : Z := if c <=? 57 then c - 48 else c - 87.
Definition value (base : Z) (l : list Z) : Z := fold_left (λ a c, a * base + undigit c) l 0.

(** Digits of the base, without a leading zero unless the number is zero. *)
Definition canonical (base : Z) (l : list Z) : Prop :=
  Forall (λ c, 0 ≤ undigit c < base) l ∧ l ≠ [] ∧ (hd_error l = Some 48 → l = [48]).

Lemma undigit_digit d : 0 ≤ d < 16 → undigit (digit d) = d.
Proof.
  intros Hd. assert (forallb (λ d, undigit (digit d) =? d) (seqZ 0 16) = true) as H by (vm_compute; reflexivity).
  rewrite forallb_forall in H. apply Z.eqb_eq, H, list_elem_of_In, elem_of_seqZ. lia.
Qed.

Lemma digit_zero d : 0 ≤ d < 16 → digit d = 48 → d = 0.
Proof. intros Hd E. rewrite -(undigit_digit d) // E. reflexivity. Qed.

Lemma value_app base l c : value base (l ++ [c]) = value base l * base + undigit c.
Proof. by rewrite /value fold_left_app. Qed.

(** The loop with [k] cells of the buffer left. *)
Lemma printint_loop_spec k fuel x base buf :
  (length buf + k = PRINTINT_BUF)%nat → (k < fuel)%nat → 2 ≤ base ≤ 16 → 0 ≤ x → 0 < x ∨ (0 < k)%nat →
  if decide (x < base ^ Z.of_nat k) then
    ∃ ds, printint_loop fuel x base buf = Some (buf ++ ds) ∧
      (∀ n, (0 < n)%nat → (length ds ≤ n)%nat ↔ x < base ^ Z.of_nat n) ∧
      value base (rev ds) = x ∧ canonical base (rev ds)
  else printint_loop fuel x base buf = None.
Proof.
  revert fuel x buf. induction k as [|k IH]; intros fuel x buf Hl Hf Hb Hx Hxk;
    (destruct fuel as [|fuel]; [lia|]); cbn [printint_loop].
  - destruct (decide (x < base ^ Z.of_nat 0)) as [H|_]; [cbn in H; lia|].
    destruct (decide (length buf < PRINTINT_BUF)%nat); [lia|done].
  - destruct (decide (length buf < PRINTINT_BUF)%nat); [|lia].
    pose proof (Z.mod_pos_bound x base ltac:(lia)) as Hm. pose proof (Z.div_mod x base ltac:(lia)) as Hdm.
    pose proof (Z.div_pos x base Hx ltac:(lia)) as Hq.
    rewrite Nat2Z.inj_succ Z.pow_succ_r; [|lia].
    destruct (Z.eqb_spec (x / base) 0) as [E|E]; cbn [negb].
    { destruct (decide _) as [_|H].
      - exists [digit (x mod base)]. cbn [rev app length]. unfold value, canonical. cbn.
        rewrite undigit_digit; [|lia]. split_and!; [done| |lia| |discriminate|by intros [= ->]].
        + intros n Hn. split; [|lia]. intros _. apply Z.lt_le_trans with (base ^ 1); [lia|].
          apply Z.pow_le_mono_r; lia.
        + constructor; [rewrite undigit_digit; lia|constructor].
      - exfalso. apply H. assert (0 < base ^ Z.of_nat k) by (apply Z.pow_pos_nonneg; lia). nia. }
    specialize (IH fuel (x / base) (buf ++ [digit (x mod base)])). rewrite length_app /= in IH.
    specialize (IH ltac:(lia) ltac:(lia) Hb Hq ltac:(lia)).
    assert (x < base * base ^ Z.of_nat k ↔ x / base < base ^ Z.of_nat k) as Hiff.
    { split; intros H; [apply Z.div_lt_upper_bound; lia|]. nia. }
    destruct (decide (x / base < _)) as [H|H].
    + rewrite decide_True; [|by apply Hiff]. destruct IH as (ds & -> & Hld & Hv & Hc1 & Hc2 & Hc3).
      exists (digit (x mod base) :: ds). rewrite -app_assoc. cbn [rev length].
      rewrite value_app Hv undigit_digit; [|lia]. split_and!; [done| |rewrite -(Z.mul_comm base); lia|].
      { intros [|n] Hn; [lia|]. rewrite Nat2Z.inj_succ Z.pow_succ_r; [|lia]. destruct n as [|n].
        - cbn. split; [destruct ds; [done|cbn; lia]|]. intros Hlt. exfalso. apply E, Z.div_small. lia.
        - etransitivity; [|etransitivity; [exact (Hld (S n) ltac:(lia))|]]; [lia|].
          split; intros Hlt; [nia|apply Z.div_lt_upper_bound; lia]. }
      unfold canonical. split_and!.
      * apply Forall_app. split; [done|]. apply Forall_singleton. rewrite undigit_digit; lia.
      * destruct (rev ds); discriminate.
      * destruct (rev ds) as [|c l2] eqn:Er; [done|]. cbn in Hc3 |- *. intros Hc. rewrite (Hc3 Hc) in Hv.
        cbn in Hv. lia.
    + rewrite decide_False; [|by rewrite Hiff]. exact IH.
Qed.

(** The number [printint] prints the digits of, and whether it puts a sign. *)
Definition magnitude (xx : Z) (sign : bool) : Z := if sign && (xx <? 0) then - xx else u64 xx.

(** [printint] of a 64-bit number in base 10 or 16 prints exactly its
    digits, most significant first and without leading zeros, after a minus
    sign for a negative number when [sign] is set, if these fit in the 16
    bytes of its buffer; otherwise it stores beyond the end of the buffer. *)
Theorem printint_correct xx base sign :
  base = 10 ∨ base = 16 → - 2 ^ 63 ≤ xx < 2 ^ 63 →
  let neg := sign && (xx <? 0) in
  if decide (magnitude xx sign < base ^ (if neg then 15 else 16)) then
    ∃ ds, printint xx base sign = Some ((if neg then [45] else []) ++ ds) ∧
      value base ds = magnitude xx sign ∧ canonical base ds
  else printint xx base sign = None.
Proof.
  intros Hbase Hxx neg. rewrite /printint -/neg.
  assert ((if neg then u64 (- xx) else u64 xx) = magnitude xx sign) as ->.
  { rewrite /magnitude -/neg. destruct neg eqn:En; [|done]. apply andb_true_iff in En as [_ En].
    apply Z.ltb_lt in En. apply u64_small. lia. }
  assert (0 ≤ magnitude xx sign) as H0.
  { rewrite /magnitude -/neg. destruct neg eqn:En; [|apply u64_range].
    apply andb_true_iff in En as [_ En%Z.ltb_lt]. lia. }
  pose proof (printint_loop_spec 16 64 (magnitude xx sign) base [] eq_refl ltac:(lia) ltac:(lia) H0 ltac:(lia)) as Hs.
  change (Z.of_nat 16) with 16 in Hs. set (x := magnitude xx sign) in *. clearbody x. clear Hxx.
  destruct neg.
  - destruct (decide (x < base ^ 16)) as [H|H].
    + destruct Hs as (ds & -> & Hl & Hv & Hc). cbn [app mbind option_bind].
      assert (x < base ^ 15 ↔ (length ds < PRINTINT_BUF)%nat) as Hiff.
      { rewrite -(Hl 15%nat); [|lia]. rewrite /PRINTINT_BUF. lia. }
      destruct (decide (length ds < PRINTINT_BUF)%nat).
      * rewrite decide_True; [|by apply Hiff]. exists (rev ds). rewrite rev_app_distr. done.
      * rewrite decide_False; [done|by rewrite Hiff].
    + rewrite decide_False; [by rewrite Hs|]. destruct Hbase as [->| ->]; lia.
  - destruct (decide (x < base ^ 16)) as [H|H]; [|by rewrite Hs].
    destruct Hs as (ds & -> & Hl & Hv & Hc). exists (rev ds). done.
Qed.

Lemma printint_correct_witness :
  (∃ ds, printint (-42) 10 true = Some ([45] ++ ds) ∧ value 10 ds = 42) ∧ printint (- 2 ^ 63) 10 true = None.
Proof.
  split.
  - destruct (printint_correct (-42) 10 true ltac:(by left) ltac:(lia)) as (ds & E & Hv & _). by exists ds.
  - exact (printint_correct (- 2 ^ 63) 10 true ltac:(by left) ltac:(lia)).
Defined.

(** 'u' *)
Definition char_u : Z := 117.

(** C39. The conversion [%u] of printf reads an int and prints it as a
    64-bit unsigned number: for an unsigned argument of 2^31 or more, which
    it takes for a negative number, it overflows the buffer of [printint]. *)
Theorem percent_u_overflows m c1 c2 a conv skip :
  conversion m char_u c1 c2 = Some (skip, conv) → 2 ^ 31 ≤ a < 2 ^ 32 → conv a = None.
Proof.
  intros E Ha. change (conversion m char_u c1 c2) with (Some (0, λ a, printint (arg_int a) 10 false)) in E.
  apply (inj Some), pair_equal_spec in E as [_ <-].
  assert (arg_int a = a - 2 ^ 32) as -> by (rewrite /arg_int /s32; lia).
  pose proof (printint_loop_spec 16 64 (u64 (a - 2 ^ 32)) 10 [] eq_refl ltac:(lia) ltac:(lia)
    ltac:(apply u64_range) ltac:(lia)) as Hs.
  rewrite decide_False in Hs; [|rewrite /u64; lia]. rewrite /printint. cbn [andb]. by rewrite Hs.
Qed.

Lemma percent_u_overflows_witness : conversion ∅ char_u 0 0 = Some (0, λ a, printint (arg_int a) 10 false) ∧
  printint (arg_int 4000000000) 10 false = None.
Proof.
  split; [reflexivity|]. apply (percent_u_overflows ∅ 0 0 4000000000 (λ a, printint (arg_int a) 10 false) 0); [reflexivity|lia].
Defined.
