(* ===== verification/VirtioSys.v ===== *)
(** * The disk driver, its clients and the device together

    Processes call [virtio_disk_rw] on buffers they have locked; each runs
    alone under vdisk_lock up to where it sleeps.  The device takes requests
    from the avail ring, completes them in any order, and puts them in the
    used ring (virtio 1.1, sections 2.6 and 5.2); the interrupt handler runs
    at any time.  [exec_ev] performs one event of this system. *)
From S2P Require Import Prelude Riscv CString Kalloc Cache Bio Virtio.

(** Where a process is in [virtio_disk_rw]: not in it, before the three
    descriptors are allocated, or waiting for the chain [i0, i1, i2]. *)
Inductive tpc := TIdle | TAlloc | TWait (i0 i1 i2 : Z).
#[global] Instance tpc_eq_dec : EqDecision tpc.
Proof. solve_decision. Defined.

Record thread := mk_thread { t_buf : Z; t_write : bool; t_pc : tpc; t_asleep : bool }.
#[global] Instance thread_inhabited : Inhabited thread := populate (mk_thread (-1) false TIdle false).

Record sys := mk_sys {
  s_v : virtio;
  s_disk : gmap Z mem;
  s_seen : Z; (* how far the device has read the avail ring *)
  s_inflight : list Z; (* the chains the device is working on *)
  s_thr : gmap Z thread;
}.

(** The channel a sleeping process sleeps on. *)
Definition t_chan (th : thread) : chan :=
  match t_pc th with TWait _ _ _ => chan_buf (t_buf th) | _ => chan_free end.
Definition wake (l : list chan) (th : thread) : thread :=
  mk_thread (t_buf th) (t_write th) (t_pc th) (t_asleep th && negb (bool_decide (t_chan th ∈ l))).

(** A run of the driver: its wakeups take effect on the sleeping processes. *)
Definition drive {A} (m : M virtio A) (s : sys) : outcome sys A :=
  match m (set_wake [] (s_v s)) with
  | Ret a v => Ret a (mk_sys v (s_disk s) (s_seen s) (s_inflight s) (wake (v_wake v) <$> s_thr s))
  | Panic e => Panic e
  | Sleep c v => Sleep c (mk_sys v (s_disk s) (s_seen s) (s_inflight s) (s_thr s))
  end.

Definition set_thr (t : Z) (pc : tpc) (asleep : bool) (s : sys) : sys :=
  let th := s_thr s !!! t in
  mk_sys (s_v s) (s_disk s) (s_seen s) (s_inflight s) (<[t := mk_thread (t_buf th) (t_write th) pc asleep]> (s_thr s)).

(** ** The device *)

(** The device completes the chain that starts at descriptor [h]: it reads
    the request, transfers the data, writes the status and the used ring.
    Nothing, if the chain is not a request. *)
Definition dev_complete (h : Z) (v : virtio) (disk : gmap Z mem) : option (virtio * gmap Z mem) :=
  let d0 := v_desc v !!! h in
  let d1 := v_desc v !!! d_next d0 in
  let d2 := v_desc v !!! d_next d1 in
  match d_addr d0, d_addr d1, d_addr d2 with
  | AOps i, AData b, AStatus j =>
      let op := v_ops v !!! i in
      let bn := r_sector op / 2 in
      if negb (has (d_flags d0) VRING_DESC_F_NEXT) || negb (has (d_flags d1) VRING_DESC_F_NEXT)
         || has (d_flags d2) VRING_DESC_F_NEXT || negb (has (d_flags d2) VRING_DESC_F_WRITE)
         || negb (d_len d0 =? 16) || negb (d_len d1 =? BSIZE) || negb (d_len d2 =? 1)
         || negb (r_sector op mod 2 =? 0) then None
      else
        let fin (v : virtio) : virtio :=
          let v := set_info (<[j := mk_info (in_b (v_info v !!! j)) 0]> (v_info v)) v in
          set_dused (u16 (used_idx v + 1)) (<[used_idx v mod NUM := h]> (used_ring v)) v in
        if (r_type op =? VIRTIO_BLK_T_OUT) && negb (has (d_flags d1) VRING_DESC_F_WRITE) then
          Some (fin v, <[bn := vb_data (v_buf v !!! b)]> disk)
        else if (r_type op =? VIRTIO_BLK_T_IN) && has (d_flags d1) VRING_DESC_F_WRITE then
          let x := v_buf v !!! b in
          Some (fin (set_vbuf (<[b := mk_vbuf (vb_blockno x) (vb_disk x) (blk disk bn)]> (v_buf v)) v), disk)
        else None
  | _, _, _ => None
  end.

(** ** Events *)

Inductive ev :=
| EStart (t b bn : Z) (data : mem) (write : bool) (* a process calls virtio_disk_rw *)
| ETry (t : Z) (* it tries to allocate descriptors *)
| EFinish (t : Z) (* it checks b->disk *)
| EWake (t : Z) (* it is woken up for another reason *)
| EIntr (* virtio_disk_intr *)
| ETake (* the device takes a request *)
| EDone (h : Z). (* the device completes a request *)

(** A process may use a buffer no other call uses: it holds its lock. *)
Definition free_for (s : sys) (t b : Z) : bool :=
  bool_decide (map_Forall (λ t' th, t' = t ∨ t_pc th = TIdle ∨ t_buf th ≠ b) (s_thr s)).

Definition ev_start (t b bn : Z) (data : mem) (write : bool) (s : sys) : option (outcome sys unit) :=
  match t_pc (s_thr s !!! t) with
  | TIdle =>
      if free_for s t b && (0 <=? bn) && (bn <? 2 ^ 31) then
        let v := s_v s in
        Some (Ret tt (mk_sys (set_vbuf (<[b := mk_vbuf bn (vb_disk (v_buf v !!! b)) data]> (v_buf v)) v)
          (s_disk s) (s_seen s) (s_inflight s) (<[t := mk_thread b write TAlloc false]> (s_thr s))))
      else None
  | _ => None
  end.

(** A run of [virtio_disk_rw] that allocates: it ends asleep. *)
Definition ev_try (t : Z) (s : sys) : option (outcome sys unit) :=
  let th := s_thr s !!! t in
  match t_pc th, t_asleep th with
  | TAlloc, false =>
      Some (match drive (virtio_disk_rw_start (t_buf th) (t_write th)) s with
            | Ret (Some (i0, i1, i2)) s' => Ret tt (set_thr t (TWait i0 i1 i2) true s')
            | Ret None s' => Ret tt (set_thr t TAlloc true s')
            | Panic e => Panic e
            | Sleep c s' => Sleep c s'
            end)
  | _, _ => None
  end.

(** A run of [virtio_disk_rw] that waits: it returns or sleeps again. *)
Definition ev_finish (t : Z) (s : sys) : option (outcome sys unit) :=
  let th := s_thr s !!! t in
  match t_pc th, t_asleep th with
  | TWait i0 i1 i2, false =>
      Some (match drive (virtio_disk_rw_finish (t_buf th) i0) s with
            | Ret true s' => Ret tt (set_thr t TIdle false s')
            | Ret false s' => Ret tt (set_thr t (TWait i0 i1 i2) true s')
            | Panic e => Panic e
            | Sleep c s' => Sleep c s'
            end)
  | _, _ => None
  end.

Definition ev_take (s : sys) : option (outcome sys unit) :=
  if s_seen s =? avail_idx (s_v s) then None
  else
    let h := default 0 (avail_ring (s_v s) !! (s_seen s mod NUM)) in
    Some (Ret tt (mk_sys (s_v s) (s_disk s) (u16 (s_seen s + 1)) (s_inflight s ++ [h]) (s_thr s))).

Definition ev_done (h : Z) (s : sys) : option (outcome sys unit) :=
  if decide (h ∈ s_inflight s) then
    Some (match dev_complete h (s_v s) (s_disk s) with
          | Some (v, disk) =>
              Ret tt (mk_sys v disk (s_seen s) (filter (λ x, x ≠ h) (s_inflight s)) (s_thr s))
          | None => Panic "device error"
          end)
  else None.

(** Nothing when the event cannot happen. *)
Definition exec_ev (e : ev) (s : sys) : option (outcome sys unit) :=
  match e with
  | EStart t b bn data write => ev_start t b bn data write s
  | ETry t => ev_try t s
  | EFinish t => ev_finish t s
  | EWake t => Some (Ret tt (set_thr t (t_pc (s_thr s !!! t)) false s))
  | EIntr => Some (drive virtio_disk_intr s)
  | ETake => ev_take s
  | EDone h => ev_done h s
  end.

(** The states the system can be in, from boot on. *)
Inductive vreach : sys → Prop :=
| vreach_boot bufs disk : vreach (mk_sys (virtio_boot bufs) disk 0 [] ∅)
| vreach_ev s e s' : vreach s → exec_ev e s = Some (Ret tt s') → vreach s'.

(** ** The abstract disk

    A call is pending until, at one point in time, it has its effect. *)

(** The effect of a transfer on the disk and on the buffer. *)
Definition rw_effect (write : bool) (bn : Z) (data : mem) (disk : gmap Z mem) : gmap Z mem * mem :=
  if write then (<[bn := data]> disk, data) else (disk, blk disk bn).

Inductive areq := AIdle | APend (write : bool) (bn : Z) (data : mem) | ADone (write : bool) (bn : Z) (data : mem).

Record aspec := mk_aspec { a_disk : gmap Z mem; a_req : Z → areq }.

Inductive astep (a a' : aspec) : Prop :=
| astep_start t write bn data :
    a_req a t = AIdle → a_req a' t = APend write bn data → a_disk a' = a_disk a →
    (∀ t', t' ≠ t → a_req a' t' = a_req a t') → astep a a'
| astep_rw t write bn data :
    a_req a t = APend write bn data →
    a_req a' t = ADone write bn (rw_effect write bn data (a_disk a)).2 →
    a_disk a' = (rw_effect write bn data (a_disk a)).1 →
    (∀ t', t' ≠ t → a_req a' t' = a_req a t') → astep a a'
| astep_return t write bn data :
    a_req a t = ADone write bn data → a_req a' t = AIdle → a_disk a' = a_disk a →
    (∀ t', t' ≠ t → a_req a' t' = a_req a t') → astep a a'.
Definition astutter (a a' : aspec) : Prop := a_disk a' = a_disk a ∧ ∀ t, a_req a' t = a_req a t.

(** The request of process [t]: it is done when the device has written its
    status. *)
Definition abs_req (s : sys) (t : Z) : areq :=
  let th := s_thr s !!! t in
  let x := v_buf (s_v s) !!! t_buf th in
  match t_pc th with
  | TIdle => AIdle
  | TAlloc => APend (t_write th) (vb_blockno x) (vb_data x)
  | TWait i0 _ _ =>
      if in_status (v_info (s_v s) !!! i0) =? 0 then ADone (t_write th) (vb_blockno x) (vb_data x)
      else APend (t_write th) (vb_blockno x) (vb_data x)
  end.
Definition abs (s : sys) : aspec := mk_aspec (s_disk s) (abs_req s).

(** [disk_rw], which the buffer cache uses, has that effect at once. *)
Lemma disk_rw_effect i write s :
  ∃ s', disk_rw i write s = Ret tt s' ∧
    (dsk s', data (bufs s' !!! i)) = rw_effect write (blockno (bufs s !!! i)) (data (bufs s !!! i)) (dsk s).
Proof.
  rewrite /disk_rw /getb bind_gets. destruct write; cbn.
  - eexists. split; reflexivity.
  - rewrite bind_gets /updb. eexists. split; [reflexivity|]. cbn. by rewrite lookup_total_insert_eq.
Qed.
