(* ===== verification/VirtioInv.v ===== *)
(** * The invariant of the disk driver

    Which descriptor belongs to which process, and where each request is:
    in the avail ring, with the device, in the used ring, or acknowledged. *)
From S2P Require Import Prelude Riscv CString Kalloc Cache Bio Virtio VirtioSys.

(** ** Descriptors *)

Definition nfree (v : virtio) : nat := length (filter (λ i, is_free v i = true) (seqZ 0 NUM)).
Definition take_desc (i : Z) (v : virtio) : virtio := set_free (<[i := false]> (v_free v)) v.
Definition free1 (i : Z) (v : virtio) : virtio :=
  set_wake (v_wake v ++ [chan_free])
    (set_free (<[i := true]> (v_free v)) (set_desc (<[i := mk_desc ANull 0 0 0]> (v_desc v)) v)).

Lemma is_free_insert i x f v j :
  is_free (set_free (<[i := x]> f) v) j = if decide (j = i) then x else default false (f !! j).
Proof. rewrite /is_free /=. case_decide as H; [subst; by rewrite lookup_insert_eq|by rewrite lookup_insert_ne]. Qed.
Lemma is_free_take i v j : is_free (take_desc i v) j = if decide (j = i) then false else is_free v j.
Proof. apply is_free_insert. Qed.
Lemma is_free_free1 i v j : is_free (free1 i v) j = if decide (j = i) then true else is_free v j.
Proof.
  rewrite /is_free /=. case_decide as H; [subst; by rewrite lookup_insert_eq|by rewrite lookup_insert_ne].
Qed.

Lemma filter_iff_in {A} (P Q : A → Prop) `{∀ x, Decision (P x), ∀ x, Decision (Q x)} (l : list A) :
  (∀ x, x ∈ l → P x ↔ Q x) → filter P l = filter Q l.
Proof.
  induction l as [|x l IH]; intros HPQ; [done|]. rewrite !filter_cons (IH ltac:(intros y Hy; apply HPQ; by right)).
  pose proof (HPQ x ltac:(by left)). destruct (decide (P x)), (decide (Q x)); done || tauto.
Qed.

Lemma filter_length_remove {A} `{EqDecision A} (P Q : A → Prop) `{∀ x, Decision (P x), ∀ x, Decision (Q x)} (i : A) (l : list A) :
  NoDup l → i ∈ l → P i → (∀ x, Q x ↔ P x ∧ x ≠ i) → length (filter P l) = S (length (filter Q l)).
Proof.
  intros Hnd Hin Hi HQ. induction Hnd as [|x l Hx Hnd IH]; [by apply elem_of_nil in Hin|].
  destruct (decide (x = i)) as [->|Hne].
  - rewrite filter_cons_True // filter_cons_False; [|rewrite HQ; tauto]. cbn. do 2 f_equal.
    apply filter_iff_in. intros y Hy. rewrite HQ. assert (y ≠ i); [by intros ->|tauto].
  - apply elem_of_cons in Hin as [->|Hin]; [done|]. rewrite !filter_cons.
    destruct (decide (P x)), (decide (Q x)); cbn; rewrite ?IH //; rewrite HQ in n || rewrite HQ in q; tauto.
Qed.

Lemma nfree_take i v : 0 ≤ i < NUM → is_free v i = true → nfree v = S (nfree (take_desc i v)).
Proof.
  intros Hi Hf. apply (filter_length_remove _ _ i); [apply NoDup_seqZ|by apply elem_of_seqZ; unfold NUM in *; lia|done|].
  intros x. rewrite is_free_take. case_decide; naive_solver.
Qed.
Lemma nfree_none v : (∀ i, 0 ≤ i < NUM → is_free v i = false) → nfree v = 0%nat.
Proof.
  intros H. rewrite /nfree. destruct (filter _ _) as [|x l] eqn:E; [done|].
  assert (x ∈ x :: l) as Hx by left. rewrite -E list_elem_of_filter elem_of_seqZ in Hx. destruct Hx as [Hx ?].
  rewrite H in Hx; [done|unfold NUM in *; lia].
Qed.
Lemma nfree_all v : (∀ i, 0 ≤ i < NUM → is_free v i = true) → nfree v = 8%nat.
Proof.
  intros H. rewrite /nfree (filter_iff_in _ (λ _, True)).
  - by vm_compute.
  - intros x Hx. apply elem_of_seqZ in Hx. rewrite H; [done|unfold NUM in *; lia].
Qed.
Lemma nfree_ext v v' : (∀ i, is_free v' i = is_free v i) → nfree v' = nfree v.
Proof. intros H. rewrite /nfree. f_equal. apply list_filter_iff. intros x. by rewrite H. Qed.

(** The first free descriptor is taken, if there is one. *)
Lemma alloc_desc_spec v :
  (∃ i, 0 ≤ i < NUM ∧ is_free v i = true ∧ alloc_desc v = Ret i (take_desc i v)) ∨
  ((∀ i, 0 ≤ i < NUM → is_free v i = false) ∧ alloc_desc v = Ret (-1) v).
Proof.
  assert (∀ n i0, (∃ i, i0 ≤ i < i0 + Z.of_nat n ∧ is_free v i = true ∧ alloc_desc_loop n i0 v = Ret i (take_desc i v)) ∨
    ((∀ i, i0 ≤ i < i0 + Z.of_nat n → is_free v i = false) ∧ alloc_desc_loop n i0 v = Ret (-1) v)) as H.
  { induction n as [|n IH]; intros i0; cbn [alloc_desc_loop].
    - right. split; [lia|done].
    - rewrite bind_gets. destruct (is_free v i0) eqn:Ef.
      + left. exists i0. split_and!; [lia..|done|reflexivity].
      + destruct (IH (i0 + 1)) as [(i & Hi & Hf & E)|[Hf E]].
        * left. exists i. split_and!; [lia..|done|done].
        * right. split; [|done]. intros i Hi. destruct (decide (i = i0)) as [->|]; [done|]. apply Hf. lia. }
  destruct (H (Z.to_nat NUM) 0) as [(i & Hi & Hf & E)|[Hf E]]; unfold NUM in *.
  - left. exists i. split_and!; [lia..|done|done].
  - right. split; [|done]. intros i Hi. apply Hf. lia.
Qed.

Lemma free_desc_spec i v : 0 ≤ i < NUM → is_free v i = false → free_desc i v = Ret tt (free1 i v).
Proof.
  intros Hi Hf. rewrite /free_desc. assert (i >=? NUM = false) as -> by lia. by rewrite bind_gets Hf.
Qed.

Lemma bind_free_desc {B} i v (f : unit → M virtio B) :
  0 ≤ i < NUM → is_free v i = false → (free_desc i ≫= f) v = f tt (free1 i v).
Proof. intros Hi Hf. by rewrite (bind_ret _ _ _ _ _ (free_desc_spec i v Hi Hf)). Qed.

(** All but the contents of free descriptors, and wakeups. *)
Record same_busy (v v' : virtio) : Prop := {
  sb_free : ∀ i, is_free v' i = is_free v i;
  sb_desc : ∀ i, is_free v i = false → v_desc v' !!! i = v_desc v !!! i;
  sb_used : v_used_idx v' = v_used_idx v;
  sb_info : v_info v' = v_info v;
  sb_ops : v_ops v' = v_ops v;
  sb_ai : avail_idx v' = avail_idx v;
  sb_ar : avail_ring v' = avail_ring v;
  sb_ui : used_idx v' = used_idx v;
  sb_ur : used_ring v' = used_ring v;
  sb_buf : v_buf v' = v_buf v;
}.

Definition take3 (i0 i1 i2 : Z) (v : virtio) : virtio := take_desc i2 (take_desc i1 (take_desc i0 v)).

(** Three free descriptors, or fewer than three are free and none is taken. *)
Lemma alloc3_spec v :
  (∃ i0 i1 i2, 0 ≤ i0 < NUM ∧ 0 ≤ i1 < NUM ∧ 0 ≤ i2 < NUM ∧ i0 ≠ i1 ∧ i0 ≠ i2 ∧ i1 ≠ i2 ∧
     is_free v i0 = true ∧ is_free v i1 = true ∧ is_free v i2 = true ∧
     alloc3_desc v = Ret (Some [i0; i1; i2]) (take3 i0 i1 i2 v)) ∨
  ((nfree v < 3)%nat ∧ ∃ v', alloc3_desc v = Ret None v' ∧ same_busy v v').
Proof.
  rewrite /alloc3_desc. cbn [alloc3_loop app].
  destruct (alloc_desc_spec v) as [(i0 & Hi0 & Hf0 & E0)|[Hn E0]]; rewrite (bind_ret _ _ _ _ _ E0).
  2:{ right. rewrite nfree_none //. split; [lia|]. exists v. split; [reflexivity|]. by split. }
  assert (i0 <? 0 = false) as -> by lia.
  destruct (alloc_desc_spec (take_desc i0 v)) as [(i1 & Hi1 & Hf1 & E1)|[Hn E1]]; rewrite (bind_ret _ _ _ _ _ E1).
  2:{ right. rewrite (nfree_take i0) // nfree_none //. split; [lia|]. cbn [Z.ltb Z.compare free_descs].
      rewrite bind_assoc bind_free_desc; [|done|by rewrite is_free_take decide_True].
      eexists. split; [reflexivity|]. split; try done.
      - intros i. rewrite is_free_free1 is_free_take. case_decide; [by subst|done].
      - intros i Hi. cbn. apply lookup_total_insert_ne. intros <-. by rewrite Hf0 in Hi. }
  assert (i1 <? 0 = false) as -> by lia. rewrite is_free_take in Hf1. case_decide as H01; [done|].
  destruct (alloc_desc_spec (take_desc i1 (take_desc i0 v))) as [(i2 & Hi2 & Hf2 & E2)|[Hn E2]]; rewrite (bind_ret _ _ _ _ _ E2).
  2:{ right. rewrite (nfree_take i0) // (nfree_take i1) //; [|by rewrite is_free_take decide_False]. rewrite nfree_none //.
      split; [lia|]. cbn [Z.ltb Z.compare free_descs].
      rewrite bind_assoc bind_free_desc; [|done|rewrite !is_free_take; repeat case_decide; done].
      rewrite bind_assoc bind_free_desc; [|done|rewrite is_free_free1 !is_free_take; repeat case_decide; done].
      eexists. split; [reflexivity|]. split; try done.
      - intros i. rewrite !is_free_free1 !is_free_take. repeat case_decide; by subst.
      - intros i Hi. cbn. rewrite !lookup_total_insert_ne //; intros <-; congruence. }
  assert (i2 <? 0 = false) as -> by lia. rewrite !is_free_take in Hf2. repeat case_decide; try done.
  left. exists i0, i1, i2. split_and!; try done; lia.
Qed.

(** ** The invariant *)

(** The entries of a ring from index [start] on. *)
Definition ring_ok (ring : gmap Z Z) (start : Z) (l : list Z) : Prop :=
  ∀ k h, l !! k = Some h → ring !! ((start + Z.of_nat k) mod NUM) = Some h.

(** The chain of a request on buffer [b]. *)
Record chain_ok (v : virtio) (b : Z) (w : bool) (i0 i1 i2 : Z) : Prop := {
  ck_0 : 0 ≤ i0 < NUM;
  ck_1 : 0 ≤ i1 < NUM;
  ck_2 : 0 ≤ i2 < NUM;
  ck_01 : i0 ≠ i1;
  ck_02 : i0 ≠ i2;
  ck_12 : i1 ≠ i2;
  ck_f0 : is_free v i0 = false;
  ck_f1 : is_free v i1 = false;
  ck_f2 : is_free v i2 = false;
  ck_d0 : v_desc v !!! i0 = mk_desc (AOps i0) 16 VRING_DESC_F_NEXT i1;
  ck_d1 : v_desc v !!! i1 =
    mk_desc (AData b) BSIZE (Z.lor (if w then 0 else VRING_DESC_F_WRITE) VRING_DESC_F_NEXT) i2;
  ck_d2 : v_desc v !!! i2 = mk_desc (AStatus i0) 1 VRING_DESC_F_WRITE 0;
  ck_op : v_ops v !!! i0 =
    mk_req (if w then VIRTIO_BLK_T_OUT else VIRTIO_BLK_T_IN) 0 (2 * vb_blockno (v_buf v !!! b));
  ck_b : in_b (v_info v !!! i0) = b;
  ck_st : vb_disk (v_buf v !!! b) = false → in_status (v_info v !!! i0) = 0;
}.

Definition in_chain (th : thread) (i : Z) : Prop :=
  match t_pc th with TWait i0 i1 i2 => i = i0 ∨ i = i1 ∨ i = i2 | _ => False end.
(** The device still owns the buffer of the process. *)
Definition t_busy (v : virtio) (th : thread) : bool := vb_disk (v_buf v !!! t_buf th).

(** [A], [D] and [U] are the heads of the chains in the avail ring, with the
    device, and in the used ring. *)
Record core (v : virtio) (seen : Z) (A D U : list Z) (T : Z → thread) : Prop := {
  co_seen : 0 ≤ seen < 2 ^ 16;
  co_avail : avail_idx v = u16 (seen + Z.of_nat (length A));
  co_aring : ring_ok (avail_ring v) seen A;
  co_vused : 0 ≤ v_used_idx v < 2 ^ 16;
  co_used : used_idx v = u16 (v_used_idx v + Z.of_nat (length U));
  co_uring : ring_ok (used_ring v) (v_used_idx v) U;
  co_nodup : NoDup (A ++ D ++ U);
  co_heads : ∀ h, h ∈ A ++ D ++ U → ∃ t i1 i2, t_pc (T t) = TWait h i1 i2 ∧ t_busy v (T t) = true;
  co_busy : ∀ t h i1 i2, t_pc (T t) = TWait h i1 i2 → t_busy v (T t) = true → h ∈ A ++ D ++ U;
  co_chain : ∀ t i0 i1 i2, t_pc (T t) = TWait i0 i1 i2 → chain_ok v (t_buf (T t)) (t_write (T t)) i0 i1 i2;
  co_stA : ∀ h, h ∈ A ++ D → in_status (v_info v !!! h) = 0xff;
  co_stU : ∀ h, h ∈ U → in_status (v_info v !!! h) = 0;
  co_disj : ∀ t t' i, t ≠ t' → in_chain (T t) i → in_chain (T t') i → False;
  co_free : ∀ i, 0 ≤ i < NUM → is_free v i = true ∨ ∃ t, in_chain (T t) i;
  co_bufs : ∀ t t', t ≠ t' → t_pc (T t) ≠ TIdle → t_pc (T t') ≠ TIdle → t_buf (T t) ≠ t_buf (T t');
  co_bn : ∀ t, t_pc (T t) ≠ TIdle → 0 ≤ vb_blockno (v_buf v !!! t_buf (T t)) < 2 ^ 31;
}.

(** No wakeup is lost: a process that sleeps on its buffer waits for the
    device; one that sleeps for descriptors finds fewer than three free. *)
Record sleepers (v : virtio) (T : Z → thread) : Prop := {
  sl_buf : ∀ t i0 i1 i2, t_asleep (T t) = true → t_pc (T t) = TWait i0 i1 i2 → t_busy v (T t) = true;
  sl_free : ∀ t, t_asleep (T t) = true → t_pc (T t) = TAlloc → (nfree v < 3)%nat;
}.

Abbreviation thr_of s := (λ t, s_thr s !!! t).
Definition vinv (s : sys) : Prop :=
  ∃ A U, core (s_v s) (s_seen s) A (s_inflight s) U (thr_of s) ∧ sleepers (s_v s) (thr_of s).

(** ** The parts of the state the invariant depends on *)

Definition same_req (th th' : thread) : Prop :=
  t_buf th' = t_buf th ∧ t_write th' = t_write th ∧ t_pc th' = t_pc th.

Lemma core_ext v seen A D U T T' :
  (∀ t, same_req (T t) (T' t)) → core v seen A D U T → core v seen A D U T'.
Proof.
  intros Hs []. assert (∀ t, t_buf (T' t) = t_buf (T t)) as Hb by apply Hs.
  assert (∀ t, t_write (T' t) = t_write (T t)) as Hw by apply Hs.
  assert (∀ t, t_pc (T' t) = t_pc (T t)) as Hp by apply Hs.
  assert (∀ t, t_busy v (T' t) = t_busy v (T t)) as Hy by (intros t; by rewrite /t_busy Hb).
  assert (∀ t i, in_chain (T' t) i = in_chain (T t) i) as Hc by (intros t i; by rewrite /in_chain Hp).
  split; try done.
  - intros h Hh. destruct (co_heads0 h Hh) as (t & i1 & i2 & E). exists t, i1, i2. by rewrite Hp Hy.
  - intros t h i1 i2. rewrite Hp Hy. apply co_busy0.
  - intros t i0 i1 i2. rewrite Hp Hb Hw. apply co_chain0.
  - intros t t' i. rewrite !Hc. apply co_disj0.
  - intros i Hi. destruct (co_free0 i Hi) as [|[t Ht]]; [by left|]. right. exists t. by rewrite Hc.
  - intros t t'. rewrite !Hp !Hb. apply co_bufs0.
  - intros t. rewrite Hp Hb. apply co_bn0.
Qed.

Lemma chain_same_busy v v' b w i0 i1 i2 : same_busy v v' → chain_ok v b w i0 i1 i2 → chain_ok v' b w i0 i1 i2.
Proof.
  intros [] []. split; rewrite ?sb_free0 ?sb_ops0 ?sb_info0 ?sb_buf0 //; rewrite sb_desc0 //.
Qed.

Lemma core_same_busy v v' seen A D U T : same_busy v v' → core v seen A D U T → core v' seen A D U T.
Proof.
  intros Hs []. assert (∀ th, t_busy v' th = t_busy v th) as Hy.
  { intros th. by rewrite /t_busy (sb_buf _ _ Hs). }
  pose proof Hs as [Hf _ Eu Ei Eo Eai Ear Eui Eur Eb].
  split; rewrite ?Eu ?Ei ?Eai ?Ear ?Eui ?Eur ?Eb //.
  - intros h Hh. destruct (co_heads0 h Hh) as (t & i1 & i2 & E). exists t, i1, i2. by rewrite Hy.
  - intros t h i1 i2. rewrite Hy. apply co_busy0.
  - intros t i0 i1 i2 Hp. eapply chain_same_busy; [exact Hs|]. by apply co_chain0.
  - intros i Hi. rewrite Hf. by apply co_free0.
Qed.

Lemma same_busy_wake l v : same_busy v (set_wake l v).
Proof. by split. Qed.
Lemma same_busy_trans v1 v2 v3 : same_busy v1 v2 → same_busy v2 v3 → same_busy v1 v3.
Proof.
  intros [] []. split; try congruence. intros i Hi. rewrite sb_desc1; [by apply sb_desc0|]. by rewrite sb_free0.
Qed.

(** Processes after the wakeups [l], and after [t] has changed its place. *)
Lemma lookup_wake l (thr : gmap Z thread) t : (wake l <$> thr) !!! t = wake l (thr !!! t).
Proof. rewrite !lookup_total_alt lookup_fmap. by destruct (thr !! t). Qed.
Lemma same_req_wake l th : same_req th (wake l th).
Proof. done. Qed.
Lemma lookup_insert_thr (t t' : Z) (x : thread) (m : gmap Z thread) :
  <[t := x]> m !!! t' = if decide (t' = t) then x else m !!! t'.
Proof. case_decide as H; [subst; by rewrite lookup_total_insert_eq|by rewrite lookup_total_insert_ne]. Qed.

(** ** Consequences *)

Lemma vhead_range v seen A D U T h : core v seen A D U T → h ∈ A ++ D ++ U → 0 ≤ h < NUM.
Proof. intros H Hh. destruct (co_heads _ _ _ _ _ _ H h Hh) as (t & i1 & i2 & E & _). by eapply ck_0, (co_chain _ _ _ _ _ _ H). Qed.

Lemma nodup_range_length (l : list Z) : NoDup l → (∀ h, h ∈ l → 0 ≤ h < NUM) → (length l ≤ 8)%nat.
Proof.
  intros Hnd Hr. change 8%nat with (length (seqZ 0 NUM)). apply submseteq_length, NoDup_submseteq; [done|].
  intros h Hh. apply elem_of_seqZ. specialize (Hr h Hh). unfold NUM in *. lia.
Qed.

Lemma heads_length v seen A D U T : core v seen A D U T → (length A + length D + length U ≤ 8)%nat.
Proof.
  intros H. assert (length (A ++ D ++ U) ≤ 8)%nat as Hl.
  { apply nodup_range_length; [by eapply co_nodup|]. intros h. by apply (vhead_range v seen A D U T). }
  rewrite !length_app in Hl. lia.
Qed.

(** The process whose chain starts at [h] is unique. *)
Lemma head_unique v seen A D U T t t' h i1 i2 i1' i2' :
  core v seen A D U T → t_pc (T t) = TWait h i1 i2 → t_pc (T t') = TWait h i1' i2' → t = t'.
Proof.
  intros H E E'. destruct (decide (t = t')) as [|Hne]; [done|]. exfalso. apply (co_disj _ _ _ _ _ _ H t t' h Hne).
  - rewrite /in_chain E. by left.
  - rewrite /in_chain E'. by left.
Qed.
