(* ===== verification/VirtioStep.v ===== *)
(** * The disk driver implements the abstract disk

    Every event preserves the invariant and is a step of the abstract disk,
    or changes nothing of it. *)
From S2P Require Import Prelude Riscv CString Kalloc Cache Bio Virtio VirtioSys VirtioInv.

Lemma vchain_ext v v' b w i0 i1 i2 :
  (∀ i, i = i0 ∨ i = i1 ∨ i = i2 → is_free v' i = is_free v i ∧ v_desc v' !!! i = v_desc v !!! i) →
  v_ops v' !!! i0 = v_ops v !!! i0 → v_info v' !!! i0 = v_info v !!! i0 → v_buf v' !!! b = v_buf v !!! b →
  chain_ok v b w i0 i1 i2 → chain_ok v' b w i0 i1 i2.
Proof.
  intros Hi Eo En Eb []. destruct (Hi i0 ltac:(tauto)) as [F0 D0], (Hi i1 ltac:(tauto)) as [F1 D1], (Hi i2 ltac:(tauto)) as [F2 D2].
  split; rewrite ?F0 ?F1 ?F2 ?D0 ?D1 ?D2 ?Eo ?En ?Eb //.
Qed.

Lemma in_chain_idle th i : in_chain th i → t_pc th ≠ TIdle.
Proof. rewrite /in_chain. destruct (t_pc th); [done..|discriminate]. Qed.
Lemma waits_not_idle th i0 i1 i2 : t_pc th = TWait i0 i1 i2 → t_pc th ≠ TIdle.
Proof. intros ->. discriminate. Qed.
#[local] Hint Resolve in_chain_idle waits_not_idle : xv6.

Lemma abs_req_ext s s' t :
  let th := s_thr s !!! t in
  same_req th (s_thr s' !!! t) →
  (t_pc th ≠ TIdle → vb_blockno (v_buf (s_v s') !!! t_buf th) = vb_blockno (v_buf (s_v s) !!! t_buf th) ∧
                     vb_data (v_buf (s_v s') !!! t_buf th) = vb_data (v_buf (s_v s) !!! t_buf th)) →
  (∀ i0 i1 i2, t_pc th = TWait i0 i1 i2 → in_status (v_info (s_v s') !!! i0) = in_status (v_info (s_v s) !!! i0)) →
  abs_req s' t = abs_req s t.
Proof.
  intros th (Eb & Ew & Ep) Hbuf Hst. rewrite /abs_req Eb Ew Ep -/th.
  destruct (t_pc th) as [| |i0 i1 i2] eqn:E; [done|..]; (destruct Hbuf as [-> ->]; [done|]).
  - done.
  - by rewrite (Hst i0 i1 i2).
Qed.

(** ** A call starts *)

Lemma free_for_spec s t b :
  free_for s t b = true → ∀ t', t' ≠ t → t_pc (s_thr s !!! t') ≠ TIdle → t_buf (s_thr s !!! t') ≠ b.
Proof.
  rewrite /free_for bool_decide_eq_true. intros H t' Hne Hp. rewrite lookup_total_alt in Hp |- *.
  destruct (s_thr s !! t') as [th|] eqn:E; [|done]. specialize (H t' th E). cbn in *. tauto.
Qed.

Section start.
Context (s : sys) (t b bn : Z) (dat : mem) (write : bool).
Let v := s_v s.
Let s1 := mk_sys (set_vbuf (<[b := mk_vbuf bn (vb_disk (v_buf v !!! b)) dat]> (v_buf v)) v)
  (s_disk s) (s_seen s) (s_inflight s) (<[t := mk_thread b write TAlloc false]> (s_thr s)).
Context (Hidle : t_pc (s_thr s !!! t) = TIdle) (Hbn : 0 ≤ bn < 2 ^ 31).
Context (Hff : ∀ t', t' ≠ t → t_pc (s_thr s !!! t') ≠ TIdle → t_buf (s_thr s !!! t') ≠ b).

Lemma start_thr t' : s_thr s1 !!! t' = if decide (t' = t) then mk_thread b write TAlloc false else s_thr s !!! t'.
Proof. apply lookup_insert_thr. Qed.
Lemma start_buf t' : t' ≠ t → t_pc (s_thr s !!! t') ≠ TIdle → v_buf (s_v s1) !!! t_buf (s_thr s !!! t') = v_buf v !!! t_buf (s_thr s !!! t').
Proof. intros Hne Hp. cbn. rewrite lookup_total_insert_ne //. intros E. by apply (Hff t' Hne Hp). Qed.
(** A process that waits is another one. *)
Lemma start_waits t' i0 i1 i2 : t_pc (s_thr s1 !!! t') = TWait i0 i1 i2 → t' ≠ t ∧ s_thr s1 !!! t' = s_thr s !!! t'.
Proof. rewrite start_thr. case_decide; [discriminate|done]. Qed.

Lemma start_core A U :
  core v (s_seen s) A (s_inflight s) U (thr_of s) → core (s_v s1) (s_seen s1) A (s_inflight s1) U (thr_of s1).
Proof.
  intros []. split; cbv beta; try done.
  - intros h Hh. destruct (co_heads h Hh) as (t' & i1 & i2 & E & Hb). exists t', i1, i2.
    assert (t' ≠ t) as Hne by (intros ->; congruence). rewrite start_thr decide_False //. split; [done|].
    rewrite /t_busy start_buf //. by rewrite E.
  - intros t' h i1 i2 E. destruct (start_waits _ _ _ _ E) as [Hne Et]. rewrite Et in E |- *.
    rewrite /t_busy start_buf //; [|by rewrite E]. by apply co_busy with i1 i2.
  - intros t' i0 i1 i2 E. destruct (start_waits _ _ _ _ E) as [Hne Et]. rewrite Et in E |- *.
    eapply vchain_ext; [..|by apply co_chain]; try done. apply start_buf; [done|by rewrite E].
  - intros t1 t2 i Hne H1 H2. apply (co_disj t1 t2 i Hne).
    + rewrite start_thr in H1. by case_decide.
    + rewrite start_thr in H2. by case_decide.
  - intros i Hi. destruct (co_free i Hi) as [|[t' Ht]]; [by left|]. right. exists t'. rewrite start_thr decide_False //.
    intros ->. by rewrite /in_chain Hidle in Ht.
  - intros t1 t2 Hne. rewrite !start_thr. repeat case_decide; cbn; intros H1 H2; [congruence| | |by apply co_bufs].
    + intros E. by apply (Hff t2).
    + by apply Hff.
  - intros t'. rewrite start_thr. case_decide; cbn [t_pc t_buf]; intros Hp.
    + cbn. by rewrite lookup_total_insert_eq.
    + rewrite start_buf //. by apply co_bn.
Qed.

Lemma start_ok : vinv s → vinv s1 ∧ astep (abs s) (abs s1).
Proof.
  intros (A & U & Hc & [Hsb Hsf]). split.
  - exists A, U. split; [by apply start_core|]. split; cbv beta.
    + intros t' i0 i1 i2 Ha E. destruct (start_waits _ _ _ _ E) as [Hne Et]. rewrite Et in E Ha |- *.
      rewrite /t_busy start_buf //; [|by rewrite E]. by apply (Hsb t' i0 i1 i2).
    + intros t'. rewrite start_thr. case_decide; [discriminate|]. apply Hsf.
  - apply (astep_start _ _ t write bn dat); cbn.
    + by rewrite /abs_req Hidle.
    + rewrite /abs_req start_thr decide_True //. cbn. by rewrite lookup_total_insert_eq.
    + done.
    + intros t' Hne. apply abs_req_ext; [|by intros; rewrite start_buf|done].
      cbv beta. rewrite start_thr decide_False //.
Qed.
End start.

(** ** A call allocates descriptors *)

Lemma wake_asleep l th : t_asleep (wake l th) = true → t_asleep th = true ∧ t_chan th ∉ l.
Proof. cbn. rewrite andb_true_iff negb_true_iff bool_decide_eq_false. done. Qed.

Lemma ev_start_ok s t b bn dat w o :
  vinv s → ev_start t b bn dat w s = Some o → ∃ s', o = Ret tt s' ∧ vinv s' ∧ astep (abs s) (abs s').
Proof.
  intros Hinv. rewrite /ev_start. destruct (t_pc _) eqn:Ep; [|discriminate..].
  destruct (_ && _) eqn:Hg; [|discriminate]. intros E. apply (inj Some) in E as <-. eexists. split; [reflexivity|].
  apply andb_true_iff in Hg as [Hg Hb2]. apply andb_true_iff in Hg as [Hf Hb1].
  apply start_ok; [done|lia|by apply free_for_spec|done].
Qed.

(** The processes other than [t] after a run of the driver in which [t] goes
    to [pc]. *)
Definition after_run (l : list chan) (t : Z) (pc : tpc) (asleep : bool) (s : sys) (t' : Z) : thread :=
  if decide (t' = t) then mk_thread (t_buf (s_thr s !!! t)) (t_write (s_thr s !!! t)) pc asleep
  else wake l (s_thr s !!! t').
Lemma after_run_eq l t pc a v d n i s t' :
  s_thr (set_thr t pc a (mk_sys v d n i (wake l <$> s_thr s))) !!! t' = after_run l t pc a s t'.
Proof. rewrite /set_thr /= lookup_insert_thr /after_run !lookup_wake. by case_decide. Qed.

Lemma try_fail s t v' :
  vinv s → t_pc (s_thr s !!! t) = TAlloc → same_busy (s_v s) v' → (nfree (s_v s) < 3)%nat →
  let s' := set_thr t TAlloc true (mk_sys v' (s_disk s) (s_seen s) (s_inflight s) (wake (v_wake v') <$> s_thr s)) in
  vinv s' ∧ astutter (abs s) (abs s').
Proof.
  intros (A & U & Hc & [Hsb Hsf]) Ep Hs Hn s'.
  assert (∀ t', same_req (s_thr s !!! t') (s_thr s' !!! t')) as Hreq.
  { intros t'. rewrite after_run_eq /after_run. case_decide; [by subst|done]. }
  pose proof (sb_buf _ _ Hs) as Eb. pose proof (sb_info _ _ Hs) as Ei. split.
  - exists A, U. split; [eapply core_ext; [exact Hreq|]; by eapply core_same_busy|]. split; cbv beta.
    + intros t' i0 i1 i2 Ha Ew. rewrite after_run_eq /after_run in Ha, Ew |- *. case_decide; [discriminate|].
      apply wake_asleep in Ha as [Ha _]. rewrite /t_busy /= Eb. by apply (Hsb t' i0 i1 i2).
    + intros t' _ _. change (s_v s') with v'. rewrite (nfree_ext (s_v s)); [done|]. apply Hs.
  - split; [done|]. intros t'. apply abs_req_ext; [done|..]; change (s_v s') with v'; by rewrite ?Eb ?Ei.
Qed.

(** The state after [virtio_submit]. *)
Record submitted (b : Z) (w : bool) (i0 i1 i2 : Z) (v v' : virtio) : Prop := {
  su_free : v_free v' = v_free v;
  su_wake : v_wake v' = v_wake v;
  su_vused : v_used_idx v' = v_used_idx v;
  su_used : used_idx v' = used_idx v;
  su_uring : used_ring v' = used_ring v;
  su_d0 : v_desc v' !!! i0 = mk_desc (AOps i0) 16 VRING_DESC_F_NEXT i1;
  su_d1 : v_desc v' !!! i1 =
    mk_desc (AData b) BSIZE (Z.lor (if w then 0 else VRING_DESC_F_WRITE) VRING_DESC_F_NEXT) i2;
  su_d2 : v_desc v' !!! i2 = mk_desc (AStatus i0) 1 VRING_DESC_F_WRITE 0;
  su_desc : ∀ i, i ≠ i0 → i ≠ i1 → i ≠ i2 → v_desc v' !!! i = v_desc v !!! i;
  su_op : v_ops v' !!! i0 = mk_req (if w then VIRTIO_BLK_T_OUT else VIRTIO_BLK_T_IN) 0
            (u32 (vb_blockno (v_buf v !!! b) * (BSIZE / 512)));
  su_ops : ∀ i, i ≠ i0 → v_ops v' !!! i = v_ops v !!! i;
  su_i0 : v_info v' !!! i0 = mk_info b 0xff;
  su_info : ∀ i, i ≠ i0 → v_info v' !!! i = v_info v !!! i;
  su_b : v_buf v' !!! b = with_disk true (v_buf v !!! b);
  su_buf : ∀ b', b' ≠ b → v_buf v' !!! b' = v_buf v !!! b';
  su_ai : avail_idx v' = u16 (avail_idx v + 1);
  su_ar : avail_ring v' = <[avail_idx v mod NUM := i0]> (avail_ring v);
}.

Lemma submit_spec b w i0 i1 i2 v :
  i0 ≠ i1 → i0 ≠ i2 → i1 ≠ i2 → ∃ v', virtio_submit b w i0 i1 i2 v = Ret tt v' ∧ submitted b w i0 i1 i2 v v'.
Proof.
  intros H01 H02 H12. rewrite /virtio_submit bind_gets. cbv zeta. rewrite /upd_desc /upd_info /upd_vbuf !bind_modify.
  eexists. split; [reflexivity|]. split; cbn; try done.
  - do 2 (rewrite lookup_total_insert_ne; [|done]). by rewrite lookup_total_insert_eq.
  - rewrite lookup_total_insert_ne // lookup_total_insert_eq //.
  - by rewrite lookup_total_insert_eq.
  - intros i ???. by rewrite !lookup_total_insert_ne.
  - by rewrite lookup_total_insert_eq.
  - intros i ?. by rewrite lookup_total_insert_ne.
  - by rewrite !lookup_total_insert_eq.
  - intros i ?. by rewrite !lookup_total_insert_ne.
  - by rewrite lookup_total_insert_eq.
  - intros b' ?. by rewrite lookup_total_insert_ne.
Qed.

Section try.
Context (s : sys) (t i0 i1 i2 : Z) (v2 : virtio).
Let b := t_buf (s_thr s !!! t).
Let w := t_write (s_thr s !!! t).
Let v := s_v s.
Let v1 := take3 i0 i1 i2 (set_wake [] v).
Let s2 := set_thr t (TWait i0 i1 i2) true (mk_sys v2 (s_disk s) (s_seen s) (s_inflight s) (wake (v_wake v2) <$> s_thr s)).
Context (Ep : t_pc (s_thr s !!! t) = TAlloc) (Hsu : submitted b w i0 i1 i2 v1 v2).
Context (R0 : 0 ≤ i0 < NUM) (R1 : 0 ≤ i1 < NUM) (R2 : 0 ≤ i2 < NUM) (H01 : i0 ≠ i1) (H02 : i0 ≠ i2) (H12 : i1 ≠ i2).
Context (F0 : is_free v i0 = true) (F1 : is_free v i1 = true) (F2 : is_free v i2 = true).

Lemma try_thr t' :
  s_thr s2 !!! t' = if decide (t' = t) then mk_thread b w (TWait i0 i1 i2) true else wake [] (s_thr s !!! t').
Proof. rewrite after_run_eq /after_run (su_wake _ _ _ _ _ _ _ Hsu). by case_decide. Qed.

Lemma try_free i : is_free v2 i = if decide (i = i0 ∨ i = i1 ∨ i = i2) then false else is_free v i.
Proof.
  rewrite {1}/is_free (su_free _ _ _ _ _ _ _ Hsu) -/(is_free v1 i) /v1 /take3 !is_free_take.
  repeat case_decide; try done; tauto.
Qed.

(** The other processes: their requests are not touched. *)
Lemma try_other A D U t' :
  core v (s_seen s) A D U (thr_of s) → t' ≠ t → t_pc (s_thr s !!! t') ≠ TIdle →
  v_buf v2 !!! t_buf (s_thr s !!! t') = v_buf v !!! t_buf (s_thr s !!! t').
Proof.
  intros Hc Hne Hp. rewrite (su_buf _ _ _ _ _ _ _ Hsu) //.
  apply (co_bufs _ _ _ _ _ _ Hc t' t); [done|done|]. cbv beta. by rewrite Ep.
Qed.
Lemma try_chain A D U t' j :
  core v (s_seen s) A D U (thr_of s) → in_chain (s_thr s !!! t') j → j ≠ i0 ∧ j ≠ i1 ∧ j ≠ i2.
Proof.
  intros Hc Hj. assert (is_free v j = false) as Hf; [|split_and!; intros ->; congruence].
  rewrite /in_chain in Hj. destruct (t_pc (s_thr s !!! t')) as [| |j0 j1 j2] eqn:E; [done..|].
  pose proof (co_chain _ _ _ _ _ _ Hc t' j0 j1 j2 E) as []. by destruct Hj as [-> | [-> | ->]].
Qed.
Lemma try_head A D U h : core v (s_seen s) A D U (thr_of s) → h ∈ A ++ D ++ U → h ≠ i0.
Proof.
  intros Hc Hh. destruct (co_heads _ _ _ _ _ _ Hc h Hh) as (t' & j1 & j2 & E & _).
  eapply (try_chain A D U t' h Hc). rewrite /in_chain E. by left.
Qed.

Lemma try_nodup A D U : core v (s_seen s) A D U (thr_of s) → NoDup (i0 :: A ++ D ++ U) ∧ (length A < 8)%nat.
Proof.
  intros Hc. assert (NoDup (i0 :: A ++ D ++ U)) as Hnd.
  { constructor; [|by eapply co_nodup]. intros Hin. by apply (try_head A D U i0 Hc Hin). }
  split; [done|]. apply nodup_range_length in Hnd.
  - cbn in Hnd. rewrite length_app in Hnd. lia.
  - intros h Hh. apply elem_of_cons in Hh as [->|Hh]; [done|]. by eapply vhead_range.
Qed.

Lemma try_rings A D U :
  core v (s_seen s) A D U (thr_of s) →
  avail_idx v2 = u16 (s_seen s + Z.of_nat (length (A ++ [i0]))) ∧ ring_ok (avail_ring v2) (s_seen s) (A ++ [i0]).
Proof.
  intros Hc. destruct (try_nodup A D U Hc) as [_ Hl]. pose proof (co_seen _ _ _ _ _ _ Hc) as Hs.
  pose proof (co_avail _ _ _ _ _ _ Hc) as Ha. change (avail_idx v) with (avail_idx v1) in Ha. split.
  - rewrite (su_ai _ _ _ _ _ _ _ Hsu) Ha length_app /u16 /=. lia.
  - intros k h Hk. rewrite (su_ar _ _ _ _ _ _ _ Hsu) Ha.
    assert (u16 (s_seen s + Z.of_nat (length A)) mod NUM = (s_seen s + Z.of_nat (length A)) mod NUM) as ->
      by (rewrite /u16 /NUM; lia).
    apply lookup_app_Some in Hk as [Hk|[Hle Hk]].
    + pose proof (lookup_lt_Some _ _ _ Hk). rewrite lookup_insert_ne; [by apply (co_aring _ _ _ _ _ _ Hc)|].
      rewrite /NUM. lia.
    + apply list_lookup_singleton_Some in Hk as [Hk <-]. replace k with (length A) by lia. apply lookup_insert_eq.
Qed.

Lemma try_chain_ok A D U t' j0 j1 j2 :
  core v (s_seen s) A D U (thr_of s) → t' ≠ t → t_pc (s_thr s !!! t') = TWait j0 j1 j2 →
  chain_ok v2 (t_buf (s_thr s !!! t')) (t_write (s_thr s !!! t')) j0 j1 j2.
Proof.
  intros Hc Hne E. assert (∀ j, j = j0 ∨ j = j1 ∨ j = j2 → j ≠ i0 ∧ j ≠ i1 ∧ j ≠ i2) as Hj.
  { intros j Hj. apply (try_chain A D U t' j Hc). by rewrite /in_chain E. }
  destruct (Hj j0 ltac:(tauto)) as (? & ? & ?).
  eapply vchain_ext; [..|by apply (co_chain _ _ _ _ _ _ Hc t')].
  - intros j Hjj. destruct (Hj j Hjj) as (? & ? & ?). rewrite try_free decide_False; [|tauto].
    split; [done|]. by rewrite (su_desc _ _ _ _ _ _ _ Hsu).
  - by rewrite (su_ops _ _ _ _ _ _ _ Hsu).
  - by rewrite (su_info _ _ _ _ _ _ _ Hsu).
  - apply (try_other A D U); [done|done|]. cbv beta. by rewrite E.
Qed.

Lemma try_new_chain A D U : core v (s_seen s) A D U (thr_of s) → chain_ok v2 b w i0 i1 i2.
Proof.
  intros Hc. pose proof Hsu as []. split; try done; rewrite ?try_free ?decide_True; try tauto; try done.
  - rewrite su_op0. f_equal. change (v_buf v1) with (v_buf v). rewrite su_b0. cbn.
    pose proof (co_bn _ _ _ _ _ _ Hc t) as Hbn. cbv beta in Hbn. rewrite Ep in Hbn. specialize (Hbn ltac:(discriminate)).
    rewrite -/b in Hbn. change (v_buf v1) with (v_buf v). assert (BSIZE / 512 = 2) as -> by reflexivity. rewrite u32_small; lia.
  - by rewrite (su_i0 _ _ _ _ _ _ _ Hsu).
  - rewrite su_b0. discriminate.
Qed.
(** A process that waits is [t], or waited before. *)
Lemma try_pc t' : t' ≠ t → same_req (s_thr s !!! t') (s_thr s2 !!! t').
Proof. intros Hne. by rewrite try_thr decide_False. Qed.
Lemma try_busy A D U t' j0 j1 j2 :
  core v (s_seen s) A D U (thr_of s) → t' ≠ t → t_pc (s_thr s !!! t') = TWait j0 j1 j2 →
  t_busy v2 (s_thr s2 !!! t') = t_busy v (s_thr s !!! t').
Proof.
  intros Hc Hne E. rewrite try_thr decide_False // /t_busy. cbn [wake t_buf].
  rewrite (try_other A D U t' Hc Hne) //. by rewrite E.
Qed.
Lemma try_in_chain t' i : in_chain (s_thr s2 !!! t') i ↔ if decide (t' = t) then i = i0 ∨ i = i1 ∨ i = i2 else in_chain (s_thr s !!! t') i.
Proof. rewrite try_thr. by case_decide. Qed.

Lemma try_core A D U :
  core v (s_seen s) A D U (thr_of s) → core v2 (s_seen s) (A ++ [i0]) D U (thr_of s2).
Proof.
  intros Hc. destruct (try_nodup A D U Hc) as [Hnd _]. destruct (try_rings A D U Hc) as [Hai Har].
  assert (∀ h, h ∈ (A ++ [i0]) ++ D ++ U ↔ h = i0 ∨ h ∈ A ++ D ++ U) as Hin by (intros h; set_solver).
  assert (∀ t' j0 j1 j2, t_pc (s_thr s2 !!! t') = TWait j0 j1 j2 → (t' = t ∧ j0 = i0 ∧ j1 = i1 ∧ j2 = i2) ∨
     (t' ≠ t ∧ t_pc (s_thr s !!! t') = TWait j0 j1 j2)) as Hw.
  { intros t' j0 j1 j2. rewrite try_thr. case_decide; [|by right]. intros [= -> -> ->]. by left. }
  assert (t_busy v2 (s_thr s2 !!! t) = true) as Hbt.
  { rewrite try_thr decide_True // /t_busy. cbn [t_buf]. by rewrite (su_b _ _ _ _ _ _ _ Hsu). }
  pose proof Hc as []. split; cbv beta; try done.
  - by rewrite (su_vused _ _ _ _ _ _ _ Hsu).
  - by rewrite (su_used _ _ _ _ _ _ _ Hsu) (su_vused _ _ _ _ _ _ _ Hsu).
  - by rewrite (su_uring _ _ _ _ _ _ _ Hsu) (su_vused _ _ _ _ _ _ _ Hsu).
  - rewrite -app_assoc. by rewrite -Permutation_middle.
  - intros h Hh. apply Hin in Hh as [->|Hh].
    + exists t, i1, i2. split; [|done]. by rewrite try_thr decide_True.
    + destruct (co_heads h Hh) as (t' & j1 & j2 & E & Hb). exists t', j1, j2.
      assert (t' ≠ t) as Hne by (intros ->; congruence). rewrite (try_busy A D U t' h j1 j2) //.
      by rewrite try_thr decide_False.
  - intros t' h j1 j2 E Hb. apply Hin. destruct (Hw _ _ _ _ E) as [(-> & -> & _)|[Hne E']]; [by left|right].
    rewrite (try_busy A D U t' h j1 j2) // in Hb. by apply (co_busy t' h j1 j2).
  - intros t' j0 j1 j2 E. destruct (Hw _ _ _ _ E) as [(-> & -> & -> & ->)|[Hne E']].
    + rewrite try_thr decide_True //. by apply (try_new_chain A D U).
    + rewrite try_thr decide_False //. by apply (try_chain_ok A D U).
  - intros h. rewrite -app_assoc. intros [Hh|[->%list_elem_of_singleton|Hh]%elem_of_app]%elem_of_app.
    + rewrite (su_info _ _ _ _ _ _ _ Hsu); [apply co_stA; set_solver|]. apply (try_head A D U h Hc). set_solver.
    + by rewrite (su_i0 _ _ _ _ _ _ _ Hsu).
    + rewrite (su_info _ _ _ _ _ _ _ Hsu); [apply co_stA; set_solver|]. apply (try_head A D U h Hc). set_solver.
  - intros h Hh. rewrite (su_info _ _ _ _ _ _ _ Hsu); [by apply co_stU|]. apply (try_head A D U h Hc). set_solver.
  - intros t1 t2 i Hne. rewrite !try_in_chain. do 2 case_decide; subst; [done|..]; intros H1 H2.
    + destruct (try_chain A D U t2 i Hc H2). tauto.
    + destruct (try_chain A D U t1 i Hc H1). tauto.
    + by apply (co_disj t1 t2 i).
  - intros i Hi. rewrite try_free. case_decide as Hd.
    + right. exists t. by rewrite try_in_chain decide_True.
    + destruct (co_free i Hi) as [|[t' Ht]]; [by left|]. right. exists t'. rewrite try_in_chain.
      destruct (decide (t' = t)) as [->|]; [|done]. by rewrite /in_chain Ep in Ht.
  - intros t1 t2 Hne. rewrite !try_thr. do 2 case_decide; subst; cbn [t_pc t_buf wake]; [done|..]; intros H1 H2.
    + apply co_bufs; [done|by rewrite Ep|done].
    + apply co_bufs; [done|done|by rewrite Ep].
    + by apply co_bufs.
  - intros t'. rewrite try_thr. case_decide; subst; cbn [t_pc t_buf wake]; intros Hp.
    + rewrite (su_b _ _ _ _ _ _ _ Hsu). cbn. change (v_buf v1) with (v_buf v). apply co_bn. by rewrite Ep.
    + rewrite (try_other A D U t' Hc) //. by apply co_bn.
Qed.

Lemma try_sleepers A D U :
  core v (s_seen s) A D U (thr_of s) → sleepers v (thr_of s) → sleepers v2 (thr_of s2).
Proof.
  intros Hc [Hsb Hsf]. split; cbv beta.
  - intros t' j0 j1 j2 Ha E. destruct (decide (t' = t)) as [->|Hne].
    + rewrite try_thr decide_True // /t_busy /=. by rewrite (su_b _ _ _ _ _ _ _ Hsu).
    + rewrite try_thr decide_False // in Ha, E. apply wake_asleep in Ha as [Ha _].
      rewrite (try_busy A D U t' j0 j1 j2) //. by apply (Hsb t' j0 j1 j2).
  - intros t'. rewrite try_thr. case_decide; [discriminate|]. intros [Ha _]%wake_asleep Hp.
    specialize (Hsf t' Ha Hp). apply Nat.le_lt_trans with (nfree v); [|done].
    rewrite /nfree. apply submseteq_length, NoDup_submseteq; [apply NoDup_filter, NoDup_seqZ|].
    intros i. rewrite !list_elem_of_filter. rewrite try_free. case_decide; [by intros []|done].
Qed.

Lemma try_ok : vinv s → vinv s2 ∧ astutter (abs s) (abs s2).
Proof.
  intros (A & U & Hc & Hsl). split.
  - exists (A ++ [i0]), U. split; [by apply try_core|by eapply try_sleepers].
  - split; [done|]. intros t'. destruct (decide (t' = t)) as [->|Hne].
    + cbn [abs a_req]. rewrite /abs_req try_thr decide_True // Ep. cbn [t_pc t_buf t_write]. change (s_v s2) with v2.
      rewrite (su_i0 _ _ _ _ _ _ _ Hsu) (su_b _ _ _ _ _ _ _ Hsu). done.
    + apply abs_req_ext; [by apply try_pc|..]; change (s_v s2) with v2.
      * intros Hp. by rewrite (try_other A (s_inflight s) U t' Hc).
      * intros j0 j1 j2 E. rewrite (su_info _ _ _ _ _ _ _ Hsu) //.
        apply (try_chain A (s_inflight s) U t' j0 Hc). rewrite /in_chain E. by left.
Qed.
End try.

Lemma ev_try_ok s t o :
  vinv s → ev_try t s = Some o → ∃ s', o = Ret tt s' ∧ vinv s' ∧ astutter (abs s) (abs s').
Proof.
  intros Hinv. rewrite /ev_try. destruct (t_pc (s_thr s !!! t)) eqn:Ep; [discriminate| |discriminate].
  destruct (t_asleep _); [discriminate|]. intros E. apply (inj Some) in E as <-.
  rewrite /drive /virtio_disk_rw_start.
  destruct (alloc3_spec (set_wake [] (s_v s))) as [(i0 & i1 & i2 & R0 & R1 & R2 & H01 & H02 & H12 & F0 & F1 & F2 & E)|(Hn & v' & E & Hs)].
  - rewrite (bind_ret _ _ _ _ _ E). destruct (submit_spec (t_buf (s_thr s !!! t)) (t_write (s_thr s !!! t)) i0 i1 i2
      (take3 i0 i1 i2 (set_wake [] (s_v s))) H01 H02 H12) as (v2 & E2 & Hsu).
    rewrite (bind_ret _ _ _ _ _ E2). eexists. split; [reflexivity|]. by apply try_ok.
  - rewrite (bind_ret _ _ _ _ _ E). eexists. split; [reflexivity|]. apply try_fail; try done.
    by eapply same_busy_trans; [apply same_busy_wake|].
Qed.
