(* ===== verification/VirtioRefine.v ===== *)
(** * The disk driver implements the abstract disk, continued

    Calls that return, the interrupt handler and the device; then the
    theorems about every reachable state. *)
From S2P Require Import Prelude Riscv CString Kalloc Cache Bio Virtio VirtioSys VirtioInv VirtioStep.

(** ** A call returns *)

Lemma free_chain_spec v i0 i1 i2 d0 d1 d2 :
  0 ≤ i0 < NUM → 0 ≤ i1 < NUM → 0 ≤ i2 < NUM → i0 ≠ i1 → i0 ≠ i2 → i1 ≠ i2 →
  is_free v i0 = false → is_free v i1 = false → is_free v i2 = false →
  v_desc v !!! i0 = d0 → v_desc v !!! i1 = d1 → v_desc v !!! i2 = d2 →
  Z.land (d_flags d0) 1 ≠ 0 → Z.land (d_flags d1) 1 ≠ 0 → Z.land (d_flags d2) 1 = 0 → d_next d0 = i1 → d_next d1 = i2 →
  free_chain i0 v = Ret tt (free1 i2 (free1 i1 (free1 i0 v))).
Proof.
  intros R0 R1 R2 H01 H02 H12 F0 F1 F2 E0 E1 E2 L0 L1 L2 N0 N1.
  rewrite /free_chain. change (S (Z.to_nat NUM)) with 9%nat. cbn [free_chain_loop]. rewrite /VRING_DESC_F_NEXT.
  rewrite bind_gets bind_free_desc //. rewrite E0. apply Z.eqb_neq in L0, L1. rewrite L0 N0. cbn [negb].
  rewrite bind_gets bind_free_desc //; [|rewrite is_free_free1; by case_decide].
  assert (v_desc (free1 i0 v) !!! i1 = d1) as -> by (cbn; by rewrite lookup_total_insert_ne).
  rewrite L1 N1. cbn [negb]. rewrite bind_gets bind_free_desc //; [|rewrite !is_free_free1; repeat case_decide; done].
  assert (v_desc (free1 i1 (free1 i0 v)) !!! i2 = d2) as -> by (cbn; by rewrite !lookup_total_insert_ne).
  by rewrite L2.
Qed.

Lemma free_chain_ok v b w i0 i1 i2 x l :
  chain_ok v b w i0 i1 i2 →
  let v1 := set_info x (set_wake l v) in free_chain i0 v1 = Ret tt (free1 i2 (free1 i1 (free1 i0 v1))).
Proof.
  intros [] v1. apply (free_chain_spec v1 i0 i1 i2 (v_desc v !!! i0) (v_desc v !!! i1) (v_desc v !!! i2)); try done;
    rewrite ?ck_d0 ?ck_d1 ?ck_d2; try done; destruct w; discriminate.
Qed.

Section finish.
Context (s : sys) (t i0 i1 i2 : Z).
Let b := t_buf (s_thr s !!! t).
Let v := s_v s.
Let v1 := set_info (<[i0 := mk_info (-1) (in_status (v_info v !!! i0))]> (v_info v)) (set_wake [] v).
Let v2 := free1 i2 (free1 i1 (free1 i0 v1)).
Let l := [chan_free; chan_free; chan_free].
Let s2 := set_thr t TIdle false (mk_sys v2 (s_disk s) (s_seen s) (s_inflight s) (wake l <$> s_thr s)).
Context (Ep : t_pc (s_thr s !!! t) = TWait i0 i1 i2) (Hd : vb_disk (v_buf v !!! b) = false).

Lemma fin_thr t' : s_thr s2 !!! t' = if decide (t' = t) then mk_thread b (t_write (s_thr s !!! t)) TIdle false
  else wake l (s_thr s !!! t').
Proof. rewrite after_run_eq /after_run. by case_decide. Qed.
Lemma fin_waits t' j0 j1 j2 : t_pc (s_thr s2 !!! t') = TWait j0 j1 j2 → t' ≠ t ∧ t_pc (s_thr s !!! t') = TWait j0 j1 j2.
Proof. rewrite fin_thr. case_decide; [discriminate|done]. Qed.
Lemma fin_free i : is_free v2 i = if decide (i = i0 ∨ i = i1 ∨ i = i2) then true else is_free v i.
Proof. rewrite /v2 !is_free_free1. repeat case_decide; try done; tauto. Qed.
Lemma fin_in_chain t' i : in_chain (s_thr s2 !!! t') i ↔ t' ≠ t ∧ in_chain (s_thr s !!! t') i.
Proof. rewrite fin_thr /in_chain. case_decide; cbn [t_pc wake]; tauto. Qed.
(** The chain is disjoint from those of the others, and not in a ring. *)
Lemma fin_other A D U t' j :
  core v (s_seen s) A D U (thr_of s) → t' ≠ t → in_chain (s_thr s !!! t') j → j ≠ i0 ∧ j ≠ i1 ∧ j ≠ i2.
Proof.
  intros Hc Hne Hj. assert (∀ i, i = i0 ∨ i = i1 ∨ i = i2 → j ≠ i) as H; [|split_and!; apply H; tauto].
  intros i Hi ->. apply (co_disj _ _ _ _ _ _ Hc t' t i Hne Hj). by rewrite /in_chain Ep.
Qed.
Lemma fin_head A D U h : core v (s_seen s) A D U (thr_of s) → h ∈ A ++ D ++ U → h ≠ i0.
Proof.
  intros Hc Hh ->. destruct (co_heads _ _ _ _ _ _ Hc i0 Hh) as (t' & j1 & j2 & E & Hb).
  assert (t' = t) as -> by (by eapply head_unique). unfold t_busy in Hb. rewrite -/b Hd in Hb. discriminate Hb.
Qed.

Lemma fin_chain A D U t' j0 j1 j2 :
  core v (s_seen s) A D U (thr_of s) → t' ≠ t → t_pc (s_thr s !!! t') = TWait j0 j1 j2 →
  chain_ok v2 (t_buf (s_thr s !!! t')) (t_write (s_thr s !!! t')) j0 j1 j2.
Proof.
  intros Hc Hne E. assert (∀ j, j = j0 ∨ j = j1 ∨ j = j2 → j ≠ i0 ∧ j ≠ i1 ∧ j ≠ i2) as Hj.
  { intros j Hj. apply (fin_other A D U t' j Hc Hne). by rewrite /in_chain E. }
  destruct (Hj j0 ltac:(tauto)) as (? & ? & ?).
  eapply vchain_ext; [..|by apply (co_chain _ _ _ _ _ _ Hc t')]; try done.
  - intros j Hjj. destruct (Hj j Hjj) as (? & ? & ?). rewrite fin_free decide_False; [|tauto].
    split; [done|]. cbn. by rewrite !lookup_total_insert_ne.
  - cbn. by rewrite lookup_total_insert_ne.
Qed.

Lemma fin_core A D U :
  core v (s_seen s) A D U (thr_of s) → core v2 (s_seen s) A D U (thr_of s2).
Proof.
  intros Hc. pose proof Hc as []. split; cbv beta; try done.
  - intros h Hh. destruct (co_heads h Hh) as (t' & j1 & j2 & E & Hb). exists t', j1, j2.
    assert (t' ≠ t) as Hne; [|by rewrite fin_thr decide_False]. intros ->. rewrite Ep in E. injection E as <- <- <-.
    by apply (fin_head A D U i0 Hc).
  - intros t' h j1 j2 E. destruct (fin_waits _ _ _ _ E) as [Hne E']. rewrite fin_thr decide_False //.
    intros Hb. by apply (co_busy t' h j1 j2).
  - intros t' j0 j1 j2 E. destruct (fin_waits _ _ _ _ E) as [Hne E']. rewrite fin_thr decide_False //.
    by apply (fin_chain A D U).
  - intros h Hh. cbn. rewrite lookup_total_insert_ne; [by apply co_stA|]. intros <-.
    apply (fin_head A D U i0 Hc); set_solver.
  - intros h Hh. cbn. rewrite lookup_total_insert_ne; [by apply co_stU|]. intros <-.
    apply (fin_head A D U i0 Hc); set_solver.
  - intros t1 t2 i Hne. rewrite !fin_in_chain. intros [_ H1] [_ H2]. by apply (co_disj t1 t2 i).
  - intros i Hi. rewrite fin_free. case_decide as Hdi; [by left|].
    destruct (co_free i Hi) as [|[t' Ht]]; [by left|]. right. exists t'. rewrite fin_in_chain. split; [|done].
    intros ->. by rewrite /in_chain Ep in Ht.
  - intros t1 t2 Hne. rewrite !fin_thr. repeat case_decide; cbn; try done. apply co_bufs. done.
  - intros t'. rewrite fin_thr. case_decide; [done|]. apply co_bn.
Qed.

Lemma fin_sleepers : sleepers v (thr_of s) → sleepers v2 (thr_of s2).
Proof.
  intros [Hsb Hsf]. split; cbv beta.
  - intros t' j0 j1 j2 Ha E. destruct (fin_waits _ _ _ _ E) as [Hne E']. rewrite fin_thr decide_False // in Ha |- *.
    apply wake_asleep in Ha as [Ha _]. by apply (Hsb t' j0 j1 j2).
  - intros t'. rewrite fin_thr. case_decide; [discriminate|]. intros [_ Hn]%wake_asleep Hp. exfalso. apply Hn.
    rewrite /t_chan. cbn in Hp. rewrite Hp. by left.
Qed.

Lemma fin_ok : vinv s → vinv s2 ∧ astep (abs s) (abs s2).
Proof.
  intros (A & U & Hc & Hsl). split.
  - exists A, U. split; [by apply fin_core|by apply fin_sleepers].
  - apply (astep_return _ _ t (t_write (s_thr s !!! t)) (vb_blockno (v_buf v !!! b)) (vb_data (v_buf v !!! b))).
    + cbn [abs a_req]. rewrite /abs_req Ep -/v -/b. pose proof (co_chain _ _ _ _ _ _ Hc t i0 i1 i2 Ep) as Hck.
      by rewrite (ck_st _ _ _ _ _ _ Hck Hd).
    + cbn [abs a_req]. by rewrite /abs_req fin_thr decide_True.
    + done.
    + intros t' Hne. apply abs_req_ext; [by rewrite fin_thr decide_False|intros _; split; reflexivity|].
      intros j0 j1 j2 E. cbn. rewrite lookup_total_insert_ne //. intros <-.
      destruct (fin_other A (s_inflight s) U t' i0 Hc Hne) as [H _]; [rewrite /in_chain E; by left|by apply H].
Qed.
End finish.

Lemma fin_again s t i0 i1 i2 :
  vinv s → t_pc (s_thr s !!! t) = TWait i0 i1 i2 → t_busy (s_v s) (s_thr s !!! t) = true →
  let s' := set_thr t (TWait i0 i1 i2) true
    (mk_sys (set_wake [] (s_v s)) (s_disk s) (s_seen s) (s_inflight s) (wake [] <$> s_thr s)) in
  vinv s' ∧ astutter (abs s) (abs s').
Proof.
  intros (A & U & Hc & [Hsb Hsf]) Ep Hb s'.
  assert (∀ t', same_req (s_thr s !!! t') (s_thr s' !!! t')) as Hreq.
  { intros t'. rewrite after_run_eq /after_run. case_decide; [by subst|done]. }
  split.
  - exists A, U. split.
    { eapply core_ext; [exact Hreq|]. eapply core_same_busy; [apply same_busy_wake|done]. }
    split; cbv beta.
    + intros t' j0 j1 j2 Ha E. destruct (Hreq t') as (Eb & _ & Ep'). rewrite Ep' in E. rewrite /t_busy Eb.
      destruct (decide (t' = t)) as [->|Hne]; [done|]. rewrite after_run_eq /after_run decide_False // in Ha.
      apply wake_asleep in Ha as [Ha _]. by apply (Hsb t' j0 j1 j2).
    + intros t' Ha E. rewrite after_run_eq /after_run in Ha, E. case_decide; [discriminate|].
      apply wake_asleep in Ha as [Ha _]. by apply (Hsf t').
  - split; [done|]. intros t'. by apply abs_req_ext.
Qed.

Lemma ev_finish_ok s t o :
  vinv s → ev_finish t s = Some o →
  ∃ s', o = Ret tt s' ∧ vinv s' ∧ (astutter (abs s) (abs s') ∨ astep (abs s) (abs s')).
Proof.
  intros Hinv. rewrite /ev_finish. destruct (t_pc (s_thr s !!! t)) as [| |i0 i1 i2] eqn:Ep; [discriminate..|].
  destruct (t_asleep _); [discriminate|]. intros E. apply (inj Some) in E as <-.
  rewrite /drive /virtio_disk_rw_finish bind_gets. change (v_buf (set_wake [] (s_v s))) with (v_buf (s_v s)).
  destruct (vb_disk (v_buf (s_v s) !!! t_buf (s_thr s !!! t))) eqn:Hd.
  - eexists. split; [reflexivity|]. destruct (fin_again s t i0 i1 i2 Hinv Ep Hd). auto.
  - rewrite /upd_info bind_modify. pose proof Hinv as (A & U & Hc & _). pose proof (co_chain _ _ _ _ _ _ Hc t i0 i1 i2 Ep) as Hck.
    rewrite (bind_ret (free_chain i0) _ _ _ _ (free_chain_ok _ _ _ _ _ _ _ _ Hck)).
    eexists. split; [reflexivity|]. destruct (fin_ok s t i0 i1 i2 Ep Hd Hinv). auto.
Qed.

(** ** The interrupt handler *)

(** The first completed request is acknowledged. *)
Definition ack (h : Z) (v : virtio) : virtio :=
  let b := in_b (v_info v !!! h) in
  set_used_idx (u16 (v_used_idx v + 1))
    (set_wake (v_wake v ++ [chan_buf b]) (set_vbuf (<[b := with_disk false (v_buf v !!! b)]> (v_buf v)) v)).

Lemma head_perm (A D U : list Z) h : A ++ D ++ h :: U ≡ₚ h :: A ++ D ++ U.
Proof. by rewrite !app_assoc -Permutation_middle. Qed.

Lemma ack_core v seen A D h U T :
  core v seen A D (h :: U) T → core (ack h v) seen A D U T.
Proof.
  intros Hc. destruct (co_heads _ _ _ _ _ _ Hc h ltac:(set_solver)) as (t & i1 & i2 & Et & Hbt).
  pose proof (co_chain _ _ _ _ _ _ Hc t h i1 i2 Et) as Hck. pose proof (ck_b _ _ _ _ _ _ Hck) as Eb.
  assert (h ∉ A ++ D ++ U ∧ NoDup (A ++ D ++ U)) as [Hh Hnd].
  { apply NoDup_cons. rewrite -head_perm. by eapply co_nodup. }
  assert (∀ t' j0 j1 j2, t_pc (T t') = TWait j0 j1 j2 → j0 ≠ h → v_buf (ack h v) !!! t_buf (T t') = v_buf v !!! t_buf (T t')) as Hbuf.
  { intros t' j0 j1 j2 E Hne. cbn. rewrite lookup_total_insert_ne // Eb. apply (co_bufs _ _ _ _ _ _ Hc t t').
    - intros ->. congruence.
    - by rewrite Et.
    - by rewrite E. }
  assert (∀ b, vb_blockno (v_buf (ack h v) !!! b) = vb_blockno (v_buf v !!! b)) as Hbn.
  { intros b. cbn. destruct (decide (b = in_b (v_info v !!! h))) as [->|];
      [by rewrite lookup_total_insert_eq|by rewrite lookup_total_insert_ne]. }
  assert (vb_disk (v_buf (ack h v) !!! t_buf (T t)) = false) as Hdt.
  { cbn. by rewrite Eb lookup_total_insert_eq. }
  assert (∀ h', h' ∈ A ++ D ++ U → h' ∈ A ++ D ++ h :: U) as Hincl by (intros h'; set_solver).
  pose proof Hc as []. cbn [length] in *. split; try done.
  - cbn. rewrite /u16. lia.
  - cbn. rewrite co_used /u16. lia.
  - intros k x Hk. cbn. rewrite -(co_uring (S k) x Hk). f_equal. rewrite /u16 /NUM. lia.
  - intros h' Hh'. destruct (co_heads h' (Hincl h' Hh')) as (t' & j1 & j2 & E & Hb). exists t', j1, j2. split; [done|].
    rewrite /t_busy (Hbuf t' h' j1 j2) //. by intros ->.
  - intros t' h' j1 j2 E Hb. assert (h' ≠ h) as Hne.
    { intros ->. assert (t' = t) as -> by (by eapply head_unique). rewrite /t_busy Hdt in Hb. discriminate Hb. }
    rewrite /t_busy (Hbuf t' h' j1 j2) // in Hb. pose proof (co_busy t' h' j1 j2 E Hb) as H. set_solver.
  - intros t' j0 j1 j2 E. destruct (decide (j0 = h)) as [->|Hne].
    + assert (t' = t) as -> by (by eapply head_unique). destruct (co_chain t h j1 j2 E).
      split; try done; [by rewrite Hbn|]. intros _. apply co_stU. by left.
    + eapply vchain_ext; [..|by apply co_chain]; try done. by apply (Hbuf t' j0 j1 j2).
  - intros h' Hh'. apply co_stU. by right.
  - intros t' Hp. rewrite Hbn. by apply co_bn.
Qed.

(** What the handler leaves alone; the buffers it hands back are woken. *)
Record acked (v v' : virtio) : Prop := {
  ac_free : v_free v' = v_free v;
  ac_info : v_info v' = v_info v;
  ac_buf : ∀ b, vb_blockno (v_buf v' !!! b) = vb_blockno (v_buf v !!! b) ∧ vb_data (v_buf v' !!! b) = vb_data (v_buf v !!! b);
  ac_disk : ∀ b, vb_disk (v_buf v' !!! b) = vb_disk (v_buf v !!! b) ∨ chan_buf b ∈ v_wake v';
  ac_wake : ∃ l, v_wake v' = v_wake v ++ l;
}.

Lemma intr_loop_spec U v seen A D T :
  core v seen A D U T → ∃ v', virtio_intr_loop (length U) v = Ret tt v' ∧ core v' seen A D [] T ∧ acked v v'.
Proof.
  revert v. induction U as [|h U IH]; intros v Hc; cbn [length virtio_intr_loop].
  - exists v. split_and!; [done|done|]. split; try done; [by left|]. exists []. by rewrite app_nil_r.
  - rewrite bind_get. pose proof (co_used _ _ _ _ _ _ Hc) as Hu. pose proof (co_vused _ _ _ _ _ _ Hc) as Hv.
    pose proof (heads_length _ _ _ _ _ _ Hc) as Hl. cbn [length] in Hu, Hl.
    destruct (Z.eqb_spec (v_used_idx v) (used_idx v)) as [E|_]; [rewrite Hu /u16 in E; lia|].
    pose proof (co_uring _ _ _ _ _ _ Hc O h eq_refl) as Er. rewrite Z.add_0_r in Er. rewrite Er. cbn [default].
    rewrite (co_stU _ _ _ _ _ _ Hc h ltac:(by left)). cbn [negb Z.eqb]. rewrite /upd_vbuf /vwakeup !bind_modify.
    destruct (IH (ack h v) (ack_core _ _ _ _ _ _ _ Hc)) as (v' & E & Hc' & [Hf Hi Hb Hd [l Hw]]).
    exists v'. split_and!; [exact E|done|]. split; [done..| | |].
    + intros b. destruct (Hb b) as [-> ->]. cbn. destruct (decide (b = in_b (v_info v !!! h))) as [->|];
        [by rewrite lookup_total_insert_eq|by rewrite lookup_total_insert_ne].
    + intros b. destruct (Hd b) as [E'|]; [|by right]. rewrite E'. cbn.
      destruct (decide (b = in_b (v_info v !!! h))) as [->|]; [|left; by rewrite lookup_total_insert_ne].
      right. rewrite Hw. cbn. set_solver.
    + exists ([chan_buf (in_b (v_info v !!! h))] ++ l). by rewrite Hw /= -app_assoc.
Qed.

Lemma intr_spec v seen A D U T :
  core v seen A D U T → ∃ v', virtio_disk_intr v = Ret tt v' ∧ core v' seen A D [] T ∧ acked v v'.
Proof.
  intros Hc. rewrite /virtio_disk_intr bind_get.
  assert (Z.to_nat (u16 (used_idx v - v_used_idx v)) = length U) as ->; [|by apply intr_loop_spec].
  rewrite (co_used _ _ _ _ _ _ Hc). pose proof (co_vused _ _ _ _ _ _ Hc). pose proof (heads_length _ _ _ _ _ _ Hc).
  rewrite /u16. lia.
Qed.

Lemma chan_buf_inj b b' : chan_buf b = chan_buf b' → b = b'.
Proof. by intros [= ->]. Qed.

Lemma ev_intr_ok s A U :
  core (s_v s) (s_seen s) A (s_inflight s) U (thr_of s) → sleepers (s_v s) (thr_of s) →
  ∃ s', drive virtio_disk_intr s = Ret tt s' ∧ astutter (abs s) (abs s') ∧
    core (s_v s') (s_seen s') A (s_inflight s') [] (thr_of s') ∧ sleepers (s_v s') (thr_of s') ∧
    (∀ t, same_req (s_thr s !!! t) (s_thr s' !!! t)) ∧ s_inflight s' = s_inflight s.
Proof.
  intros Hc [Hsb Hsf]. rewrite /drive.
  destruct (intr_spec (set_wake [] (s_v s)) (s_seen s) A (s_inflight s) U (thr_of s)) as (v' & E & Hc' & [Hf Hi Hb Hd _]).
  { by eapply core_same_busy; [apply same_busy_wake|]. }
  rewrite E. eexists. split; [reflexivity|]. set (s' := mk_sys _ _ _ _ _).
  assert (∀ t, same_req (s_thr s !!! t) (s_thr s' !!! t)) as Hreq by (intros t; by rewrite lookup_wake).
  split_and!; [| | |done|done].
  - split; [done|]. intros t. apply abs_req_ext; [done|intros _; apply Hb|]. intros. cbn. by rewrite Hi.
  - eapply core_ext; [exact Hreq|exact Hc'].
  - split; cbv beta; intros t *; cbn [s' s_thr s_v]; rewrite lookup_wake; intros [Ha Hn]%wake_asleep Hp; cbn in Hp.
    + rewrite /t_busy. cbn [wake t_buf]. destruct (Hd (t_buf (s_thr s !!! t))) as [->|Hin].
      * by apply (Hsb t i0 i1 i2).
      * exfalso. apply Hn. by rewrite /t_chan Hp.
    + rewrite (nfree_ext (s_v s)); [by apply (Hsf t)|]. intros i. by rewrite /is_free Hf.
Qed.

(** ** The device *)

Lemma take_core v seen h A D U T :
  core v seen (h :: A) D U T → core v (u16 (seen + 1)) A (D ++ [h]) U T.
Proof.
  intros Hc. assert ((h :: A) ++ D ++ U ≡ₚ A ++ (D ++ [h]) ++ U) as Hp.
  { by rewrite -(app_assoc D [h] U) /= head_perm. }
  assert (∀ x, x ∈ A ++ (D ++ [h]) ++ U ↔ x ∈ (h :: A) ++ D ++ U) as Hin by (intros x; by rewrite Hp).
  pose proof Hc as []. split; try done.
  - rewrite /u16. lia.
  - rewrite co_avail /u16. cbn [length]. lia.
  - intros k x Hk. rewrite -(co_aring (S k) x Hk). f_equal. rewrite /u16 /NUM. lia.
  - by rewrite -Hp.
  - intros x Hx%Hin. by apply co_heads.
  - intros t x i1 i2 E Hb. apply Hin. by apply (co_busy t x i1 i2).
  - intros x Hx. apply co_stA. set_solver.
Qed.

Lemma ev_take_ok s o :
  vinv s → ev_take s = Some o → ∃ s', o = Ret tt s' ∧ vinv s' ∧ astutter (abs s) (abs s').
Proof.
  intros (A & U & Hc & Hsl). rewrite /ev_take. destruct (Z.eqb_spec (s_seen s) (avail_idx (s_v s))) as [|Hne]; [discriminate|].
  intros E. apply (inj Some) in E as <-. eexists. split; [reflexivity|]. split; [|done].
  destruct A as [|h A].
  { exfalso. apply Hne. rewrite (co_avail _ _ _ _ _ _ Hc). cbn. rewrite Z.add_0_r u16_small //. by eapply co_seen. }
  pose proof (co_aring _ _ _ _ _ _ Hc O h eq_refl) as Er. rewrite Z.add_0_r in Er. rewrite Er.
  exists A, U. split; [|done]. by apply take_core.
Qed.

(** The state after the device has completed the request on buffer [b] with
    the data [dat]. *)
Record completed (h b : Z) (dat : mem) (v v' : virtio) : Prop := {
  cm_desc : v_desc v' = v_desc v;
  cm_free : v_free v' = v_free v;
  cm_vused : v_used_idx v' = v_used_idx v;
  cm_ops : v_ops v' = v_ops v;
  cm_ai : avail_idx v' = avail_idx v;
  cm_ar : avail_ring v' = avail_ring v;
  cm_info : v_info v' = <[h := mk_info (in_b (v_info v !!! h)) 0]> (v_info v);
  cm_used : used_idx v' = u16 (used_idx v + 1);
  cm_ring : used_ring v' = <[used_idx v mod NUM := h]> (used_ring v);
  cm_b : v_buf v' !!! b = mk_vbuf (vb_blockno (v_buf v !!! b)) (vb_disk (v_buf v !!! b)) dat;
  cm_buf : ∀ b', b' ≠ b → v_buf v' !!! b' = v_buf v !!! b';
}.

Lemma dev_complete_spec v b w h i1 i2 disk :
  chain_ok v b w h i1 i2 →
  let r := rw_effect w (vb_blockno (v_buf v !!! b)) (vb_data (v_buf v !!! b)) disk in
  ∃ v', dev_complete h v disk = Some (v', r.1) ∧ completed h b r.2 v v'.
Proof.
  intros [] r. rewrite /dev_complete ck_d0. cbn [d_next d_addr d_flags d_len]. rewrite ck_d1. cbn [d_next d_addr d_flags d_len].
  rewrite ck_d2 ck_op. cbn [d_next d_addr d_flags d_len r_sector r_type].
  assert ((2 * vb_blockno (v_buf v !!! b)) mod 2 = 0) as -> by lia.
  assert ((2 * vb_blockno (v_buf v !!! b)) / 2 = vb_blockno (v_buf v !!! b)) as -> by lia.
  destruct w; eexists; (split; [reflexivity|]); split; try done.
  - cbn. by destruct (v_buf v !!! b).
  - cbn. by rewrite lookup_total_insert_eq.
  - intros b' Hb'. cbn. by rewrite lookup_total_insert_ne.
Qed.

Lemma elem_filter_perm (h : Z) (D : list Z) : NoDup D → h ∈ D → D ≡ₚ h :: filter (λ x, x ≠ h) D.
Proof.
  intros Hnd Hin. apply NoDup_Permutation; [done|constructor|].
  - rewrite list_elem_of_filter. tauto.
  - by apply NoDup_filter.
  - intros x. rewrite elem_of_cons list_elem_of_filter. destruct (decide (x = h)) as [->|]; naive_solver.
Qed.

Section done.
Context (s : sys) (h t i1 i2 : Z) (A U : list Z) (v2 : virtio) (dat : mem).
Let v := s_v s.
Let b := t_buf (s_thr s !!! t).
Let D := s_inflight s.
Let D' := filter (λ x, x ≠ h) D.
Context (Hc : core v (s_seen s) A D U (thr_of s)) (Hh : h ∈ D).
Context (Et : t_pc (s_thr s !!! t) = TWait h i1 i2) (Hcm : completed h b dat v v2).

Lemma done_perm : A ++ D ++ U ≡ₚ A ++ D' ++ U ++ [h].
Proof.
  pose proof (co_nodup _ _ _ _ _ _ Hc) as Hnd. apply NoDup_app in Hnd as (_ & _ & Hnd). apply NoDup_app in Hnd as (Hnd & _).
  rewrite {1}(elem_filter_perm h D Hnd Hh). f_equiv. rewrite (Permutation_app_comm U [h]) /=. by rewrite -Permutation_middle.
Qed.

Lemma done_buf t' : t' ≠ t → t_pc (s_thr s !!! t') ≠ TIdle → v_buf v2 !!! t_buf (s_thr s !!! t') = v_buf v !!! t_buf (s_thr s !!! t').
Proof.
  intros Hne Hp. apply (cm_buf _ _ _ _ _ Hcm). apply (co_bufs _ _ _ _ _ _ Hc t' t); [done|done|]. cbv beta. by rewrite Et.
Qed.
Lemma done_bufs x : vb_blockno (v_buf v2 !!! x) = vb_blockno (v_buf v !!! x) ∧ vb_disk (v_buf v2 !!! x) = vb_disk (v_buf v !!! x).
Proof.
  destruct (decide (x = b)) as [->|Hne]; [by rewrite (cm_b _ _ _ _ _ Hcm)|by rewrite (cm_buf _ _ _ _ _ Hcm)].
Qed.
Lemma done_free i : is_free v2 i = is_free v i.
Proof. by rewrite /is_free (cm_free _ _ _ _ _ Hcm). Qed.
Lemma done_info i : v_info v2 !!! i = if decide (i = h) then mk_info (in_b (v_info v !!! h)) 0 else v_info v !!! i.
Proof.
  rewrite (cm_info _ _ _ _ _ Hcm). case_decide as E; [subst; by rewrite lookup_total_insert_eq|by rewrite lookup_total_insert_ne].
Qed.

Lemma done_ring : ring_ok (used_ring v2) (v_used_idx v2) (U ++ [h]).
Proof.
  intros k x Hk. rewrite (cm_ring _ _ _ _ _ Hcm) (cm_vused _ _ _ _ _ Hcm) (co_used _ _ _ _ _ _ Hc).
  pose proof (heads_length _ _ _ _ _ _ Hc) as Hl. pose proof (co_vused _ _ _ _ _ _ Hc) as Hv.
  assert (0 < length D)%nat by (destruct D; [by apply elem_of_nil in Hh|cbn; lia]).
  assert (u16 (v_used_idx v + Z.of_nat (length U)) mod NUM = (v_used_idx v + Z.of_nat (length U)) mod NUM) as ->
    by (rewrite /u16 /NUM; lia).
  apply lookup_app_Some in Hk as [Hk|[Hle Hk]].
  - pose proof (lookup_lt_Some _ _ _ Hk). rewrite lookup_insert_ne; [by apply (co_uring _ _ _ _ _ _ Hc)|]. rewrite /NUM. lia.
  - apply list_lookup_singleton_Some in Hk as [Hk <-]. replace k with (length U) by lia. apply lookup_insert_eq.
Qed.

Lemma done_chain t' j0 j1 j2 :
  t_pc (s_thr s !!! t') = TWait j0 j1 j2 → chain_ok v2 (t_buf (s_thr s !!! t')) (t_write (s_thr s !!! t')) j0 j1 j2.
Proof.
  intros E. destruct (co_chain _ _ _ _ _ _ Hc t' j0 j1 j2 E). destruct (done_bufs (t_buf (s_thr s !!! t'))) as [Ebn Edk].
  split; try done; rewrite ?done_free ?(cm_desc _ _ _ _ _ Hcm) ?(cm_ops _ _ _ _ _ Hcm) ?Ebn ?Edk //.
  - rewrite done_info. by case_decide; subst.
  - intros Hd. rewrite done_info. case_decide; [done|]. by apply ck_st.
Qed.

Lemma done_core : core v2 (s_seen s) A D' (U ++ [h]) (thr_of s).
Proof.
  assert (∀ x, x ∈ A ++ D' ++ U ++ [h] ↔ x ∈ A ++ D ++ U) as Hin by (intros x; by rewrite done_perm).
  assert (∀ th, t_busy v2 th = t_busy v th) as Hy by (intros th; apply done_bufs).
  assert (NoDup (A ++ D' ++ U ++ [h])) as Hnd by (rewrite -done_perm; by eapply co_nodup).
  assert (∀ x, x ∈ A ++ D' ++ U → x ≠ h) as Hne.
  { intros x Hx ->. rewrite !app_assoc in Hnd. apply NoDup_app in Hnd as (_ & Hd & _).
    apply (Hd h); [|by left]. by rewrite -app_assoc. }
  pose proof Hc as []. split; cbv beta; try done.
  - by rewrite (cm_ai _ _ _ _ _ Hcm).
  - by rewrite (cm_ar _ _ _ _ _ Hcm).
  - by rewrite (cm_vused _ _ _ _ _ Hcm).
  - rewrite (cm_used _ _ _ _ _ Hcm) (cm_vused _ _ _ _ _ Hcm) co_used length_app /u16 /=. lia.
  - apply done_ring.
  - intros x Hx%Hin. destruct (co_heads x Hx) as (t' & j1 & j2 & E). exists t', j1, j2. by rewrite Hy.
  - intros t' x j1 j2 E. rewrite Hy. intros Hb. by apply Hin, (co_busy t' x j1 j2).
  - apply done_chain.
  - intros x Hx. rewrite done_info decide_False; [|apply Hne; set_solver]. apply co_stA.
    apply elem_of_app in Hx as [Hx|Hx]; [set_solver|]. apply list_elem_of_filter in Hx as [_ Hx]. set_solver.
  - intros x Hx. rewrite done_info. case_decide; [done|]. apply co_stU. set_solver.
  - intros i Hi. rewrite done_free. by apply co_free.
  - intros t' Hp. destruct (done_bufs (t_buf (s_thr s !!! t'))) as [-> _]. by apply co_bn.
Qed.

Lemma done_abs disk' :
  (disk', dat) = rw_effect (t_write (s_thr s !!! t)) (vb_blockno (v_buf v !!! b)) (vb_data (v_buf v !!! b)) (s_disk s) →
  astep (abs s) (abs (mk_sys v2 disk' (s_seen s) D' (s_thr s))).
Proof.
  intros Er. apply (astep_rw _ _ t (t_write (s_thr s !!! t)) (vb_blockno (v_buf v !!! b)) (vb_data (v_buf v !!! b)));
    cbn [abs a_req a_disk s_disk].
  - rewrite /abs_req Et -/v -/b. by rewrite (co_stA _ _ _ _ _ _ Hc h ltac:(set_solver)).
  - rewrite /abs_req. cbn [s_thr s_v]. rewrite Et done_info decide_True //. cbn [in_status Z.eqb]. rewrite -/b -Er.
    by rewrite (cm_b _ _ _ _ _ Hcm).
  - by rewrite -Er.
  - intros t' Hne. apply abs_req_ext; [done|..]; cbn [s_v s_thr].
    + intros Hp. by rewrite done_buf.
    + intros j0 j1 j2 E. rewrite done_info. case_decide; [|done]. subst j0. exfalso. apply Hne. by eapply head_unique.
Qed.
End done.

Lemma ev_done_ok s h o :
  vinv s → ev_done h s = Some o → ∃ s', o = Ret tt s' ∧ vinv s' ∧ astep (abs s) (abs s').
Proof.
  intros (A & U & Hc & [Hsb Hsf]). rewrite /ev_done. destruct (decide (h ∈ s_inflight s)) as [Hh|]; [|discriminate].
  intros E. apply (inj Some) in E as <-.
  destruct (co_heads _ _ _ _ _ _ Hc h ltac:(set_solver)) as (t & i1 & i2 & Et & Hb).
  destruct (dev_complete_spec _ _ _ _ _ _ (s_disk s) (co_chain _ _ _ _ _ _ Hc t h i1 i2 Et)) as (v2 & E & Hcm).
  rewrite E. eexists. split; [reflexivity|]. split.
  - exists A, (U ++ [h]). cbn [s_v s_seen s_inflight s_thr]. split; [by eapply done_core|]. split; cbv beta.
    + intros t' j0 j1 j2 Ha Ep. rewrite /t_busy. destruct (done_bufs _ _ _ _ _ Hcm (t_buf (s_thr s !!! t'))) as [_ ->].
      by apply (Hsb t' j0 j1 j2).
    + intros t' Ha Ep. rewrite (nfree_ext (s_v s)); [by apply (Hsf t')|]. intros i. by eapply done_free.
  - eapply done_abs; [exact Hc|exact Hh|exact Et|exact Hcm|]. by rewrite -surjective_pairing.
Qed.
