(* ===== verification/VirtioLive.v ===== *)
(** * The disk driver: theorems about every reachable state

    The driver is safe, refines the abstract disk, loses no wakeup, and, when
    it is scheduled fairly, completes every call. *)
From S2P Require Import Prelude Riscv CString Kalloc Cache Bio Virtio VirtioSys VirtioInv VirtioStep VirtioRefine.

(** ** The invariant holds *)

Lemma vboot_inv bufs disk : vinv (mk_sys (virtio_boot bufs) disk 0 [] ∅).
Proof.
  assert (∀ i, 0 ≤ i < NUM → is_free (virtio_boot bufs) i = true) as Hf.
  { intros i Hi. assert (forallb (λ i, is_free (virtio_boot ∅) i) (seqZ 0 NUM) = true) as H by (vm_compute; reflexivity).
    rewrite forallb_forall in H. apply H, list_elem_of_In, elem_of_seqZ. unfold NUM in *. lia. }
  assert (∀ t, (∅ : gmap Z thread) !!! t = mk_thread (-1) false TIdle false) as Ht.
  { intros t. by rewrite lookup_total_empty. }
  exists [], []. cbn [s_v s_seen s_inflight s_thr]. split.
  - split; cbv beta; cbn [app length]; try done; try (intros; rewrite Ht in *; done).
    all: try (intros h Hh; by apply elem_of_nil in Hh).
    all: try (intros t *; rewrite ?Ht; discriminate).
    + constructor.
    + intros i Hi. left. by apply Hf.
  - split; cbv beta; intros t *; rewrite Ht; discriminate.
Qed.

Lemma ev_wake_ok s t : vinv s → let s' := set_thr t (t_pc (s_thr s !!! t)) false s in vinv s' ∧ astutter (abs s) (abs s').
Proof.
  intros (A & U & Hc & [Hsb Hsf]) s'.
  assert (∀ t', s_thr s' !!! t' = if decide (t' = t) then mk_thread (t_buf (s_thr s !!! t)) (t_write (s_thr s !!! t))
    (t_pc (s_thr s !!! t)) false else s_thr s !!! t') as Ht by (intros t'; apply lookup_insert_thr).
  assert (∀ t', same_req (s_thr s !!! t') (s_thr s' !!! t')) as Hreq.
  { intros t'. rewrite Ht. case_decide; [by subst|done]. }
  split.
  - exists A, U. split; [eapply core_ext; [exact Hreq|exact Hc]|]. split; cbv beta; intros t' *; rewrite Ht;
      (case_decide; [discriminate|]); [apply Hsb|apply Hsf].
  - split; [done|]. intros t'. by apply abs_req_ext.
Qed.

Lemma exec_ev_ok s e o :
  vinv s → exec_ev e s = Some o →
  ∃ s', o = Ret tt s' ∧ vinv s' ∧ (astutter (abs s) (abs s') ∨ astep (abs s) (abs s')).
Proof.
  intros Hinv E. destruct e; cbn [exec_ev] in E.
  - destruct (ev_start_ok _ _ _ _ _ _ _ Hinv E) as (s' & ? & ? & ?). eauto.
  - destruct (ev_try_ok _ _ _ Hinv E) as (s' & ? & ? & ?). eauto.
  - by apply ev_finish_ok in E.
  - apply (inj Some) in E as <-. destruct (ev_wake_ok s t Hinv). eauto.
  - apply (inj Some) in E as <-. destruct Hinv as (A & U & Hc & Hsl).
    destruct (ev_intr_ok s A U Hc Hsl) as (s' & E & Ha & Hc' & Hsl' & _). exists s'. split; [done|]. split; [|by left].
    by exists A, [].
  - destruct (ev_take_ok _ _ Hinv E) as (s' & ? & ? & ?). eauto.
  - destruct (ev_done_ok _ _ _ Hinv E) as (s' & ? & ? & ?). eauto.
Qed.

Lemma vreach_inv s : vreach s → vinv s.
Proof.
  induction 1 as [|s e s' _ IH E]; [apply vboot_inv|].
  destruct (exec_ev_ok s e _ IH E) as (s1 & E1 & Hinv & _). by apply Ret_inj in E1 as [_ ->].
Qed.

(** Seen from the abstract disk: nothing, or a step. *)
Definition refines (s s' : sys) : Prop := astutter (abs s) (abs s') ∨ astep (abs s) (abs s').

(** What a sleeping process waits for. *)
Definition sleeps_for (s : sys) (th : thread) : Prop :=
  match t_pc th with
  | TIdle => True
  | TAlloc => ∃ v, alloc3_desc (s_v s) = Ret None v
  | TWait i0 _ _ => vb_disk (v_buf (s_v s) !!! t_buf th) = true ∧ in_b (v_info (s_v s) !!! i0) = t_buf th
  end.

(** C3. The disk driver refines atomic transfers.  In every reachable state
    of the system of processes, interrupt handler and device, whatever
    happens next neither panics nor gives the device a malformed request,
    and, seen from the abstract disk, either nothing changes, or a call of
    [virtio_disk_rw] starts, has at once exactly the effect of [disk_rw] on
    the disk and on its buffer, or returns after it had that effect. *)
Theorem virtio_refines_disk_rw s e o :
  vreach s → exec_ev e s = Some o →
  ∃ s', o = Ret tt s' ∧ refines s s'.
Proof.
  intros Hr E. destruct (exec_ev_ok s e o (vreach_inv s Hr) E) as (s' & ? & _ & ?). eauto.
Qed.

(** The disk driver loses no wakeup: a process that sleeps in
    [virtio_disk_rw] on its buffer has a request the interrupt handler has
    yet to acknowledge, and one that sleeps on the free descriptors would
    not find three. *)
Theorem virtio_no_lost_wakeup s t :
  vreach s → t_asleep (s_thr s !!! t) = true →
  sleeps_for s (s_thr s !!! t).
Proof.
  intros Hr Ha. destruct (vreach_inv s Hr) as (A & U & Hc & [Hsb Hsf]).
  rewrite /sleeps_for. destruct (t_pc (s_thr s !!! t)) as [| |i0 i1 i2] eqn:E; [done| |].
  - specialize (Hsf t Ha E).
    destruct (alloc3_spec (s_v s)) as [(i0 & i1 & i2 & R0 & R1 & R2 & H01 & H02 & H12 & F0 & F1 & F2 & _)|(_ & v' & E' & _)];
      [exfalso|by eauto].
    rewrite (nfree_take i0) // (nfree_take i1) // in Hsf; [|by rewrite is_free_take decide_False].
    rewrite (nfree_take i2) // in Hsf; [lia|]. rewrite !is_free_take. repeat case_decide; done.
  - split; [by apply (Hsb t i0 i1 i2)|]. apply (ck_b _ _ _ _ _ _ (co_chain _ _ _ _ _ _ Hc t i0 i1 i2 E)).
Qed.

(** ** Every call completes

    In a fair run without new calls.  The work that is left: a call is first to
    get its descriptors, then its request is in the avail ring, with the device,
    in the used ring, acknowledged, and then the call returns. *)

(** The number of requests in the avail ring, and of those in the used ring
    that are not acknowledged *)
Definition q_avail (s : sys) : nat := Z.to_nat (u16 (avail_idx (s_v s) - s_seen s)).
Definition q_used (s : sys) : nat := Z.to_nat (u16 (used_idx (s_v s) - v_used_idx (s_v s))).
Definition weight (pc : tpc) : nat := match pc with TIdle => 0 | TAlloc => 5 | TWait _ _ _ => 1 end.
Fixpoint calls (L : list Z) (s : sys) : nat :=
  match L with [] => 0 | t :: L' => weight (t_pc (s_thr s !!! t)) + calls L' s end.
Definition work (L : list Z) (s : sys) : nat := 3 * q_avail s + 2 * length (s_inflight s) + q_used s + calls L s.

(** Nothing has moved but processes that sleep or wake up. *)
Definition still (s s' : sys) : Prop :=
  q_avail s' = q_avail s ∧ s_inflight s' = s_inflight s ∧ q_used s' = q_used s ∧ ∀ t, t_pc (s_thr s' !!! t) = t_pc (s_thr s !!! t).
(** No request is on its way. *)
Definition quiet (s : sys) : Prop := q_avail s = 0%nat ∧ s_inflight s = [] ∧ q_used s = 0%nat.
Definition is_waiting (th : thread) : bool := match t_pc th with TWait _ _ _ => true | _ => false end.
(** The event makes the work smaller. *)
Definition helpful (e : ev) (s : sys) : Prop :=
  match e with
  | ETake => q_avail s ≠ 0%nat
  | EDone h => h ∈ s_inflight s
  | EIntr => q_used s ≠ 0%nat
  | EFinish t => quiet s ∧ is_waiting (s_thr s !!! t) = true
  | ETry t => quiet s ∧ (∀ t', is_waiting (s_thr s !!! t') = false) ∧ t_pc (s_thr s !!! t) = TAlloc
  | _ => False
  end.
Definition is_start (e : ev) : bool := match e with EStart _ _ _ _ _ => true | _ => false end.

Lemma q_core s A D U T : core (s_v s) (s_seen s) A D U T → q_avail s = length A ∧ q_used s = length U.
Proof.
  intros Hc. pose proof (heads_length _ _ _ _ _ _ Hc). pose proof (co_seen _ _ _ _ _ _ Hc). pose proof (co_vused _ _ _ _ _ _ Hc).
  rewrite /q_avail /q_used (co_avail _ _ _ _ _ _ Hc) (co_used _ _ _ _ _ _ Hc) /u16. lia.
Qed.
Lemma calls_ext L s s' : (∀ t, t_pc (s_thr s' !!! t) = t_pc (s_thr s !!! t)) → calls L s' = calls L s.
Proof. intros H. induction L as [|t L IH]; [done|]. cbn [calls]. by rewrite H IH. Qed.
Lemma calls_move L s s' t :
  NoDup L → t ∈ L → (∀ t', t' ≠ t → t_pc (s_thr s' !!! t') = t_pc (s_thr s !!! t')) →
  (calls L s' + weight (t_pc (s_thr s !!! t)) = calls L s + weight (t_pc (s_thr s' !!! t)))%nat.
Proof.
  intros Hnd Hin H. induction L as [|x L IH]; [by apply elem_of_nil in Hin|]. apply NoDup_cons in Hnd as [Hx Hnd]. cbn [calls].
  apply elem_of_cons in Hin as [->|Hin].
  - assert (calls L s' = calls L s) as ->; [|lia]. clear IH Hnd. induction L as [|y L IH]; [done|]. rewrite not_elem_of_cons in Hx.
    destruct Hx as [Hy Hx]. cbn [calls]. rewrite H; [|congruence]. by rewrite IH.
  - rewrite (H x); [|by intros ->]. specialize (IH Hnd Hin). lia.
Qed.
Lemma still_helpful s s' e : still s s' → helpful e s → helpful e s'.
Proof.
  intros (Ea & Ei & Eu & Ep). assert (∀ t, is_waiting (s_thr s' !!! t) = is_waiting (s_thr s !!! t)) as Ew by (intros t; by rewrite /is_waiting Ep).
  destruct e; cbn [helpful]; rewrite /quiet ?Ea ?Ei ?Eu ?Ep ?Ew //. setoid_rewrite Ew. done.
Qed.

(** Every event but a new call: it makes the work smaller, or leaves it as it
    was and was not helpful. *)
Definition progresses (L : list Z) (e : ev) (s s' : sys) : Prop :=
  (work L s' < work L s)%nat ∨ (still s s' ∧ ¬ helpful e s).

Section progress.
Context (L : list Z) (s : sys).
Hypothesis (HL : NoDup L) (Hin : ∀ t, t_pc (s_thr s !!! t) ≠ TIdle → t ∈ L) (Hinv : vinv s).

Lemma quiet_rings A U : core (s_v s) (s_seen s) A (s_inflight s) U (thr_of s) → quiet s → A = [] ∧ s_inflight s = [] ∧ U = [].
Proof using Type. intros Hc (Ha & Hi & Hu). destruct (q_core s _ _ _ _ Hc) as [EA EU]. rewrite EA in Ha. rewrite EU in Hu. apply nil_length_inv in Ha, Hu. done. Qed.
Lemma quiet_idle_bufs t : quiet s → is_waiting (s_thr s !!! t) = true → t_busy (s_v s) (s_thr s !!! t) = false.
Proof using Hinv.
  intros Hq Hw. destruct Hinv as (A & U & Hc & _). destruct (quiet_rings A U Hc Hq) as (-> & Ei & ->). rewrite Ei in Hc.
  rewrite /is_waiting in Hw. destruct (t_pc (s_thr s !!! t)) as [| |i0 i1 i2] eqn:Ep; [discriminate Hw..|].
  destruct (t_busy _ _) eqn:Hb; [|done]. pose proof (co_busy _ _ _ _ _ _ Hc t i0 i1 i2 Ep Hb) as H. by apply elem_of_nil in H.
Qed.
Lemma quiet_all_free : quiet s → (∀ t, is_waiting (s_thr s !!! t) = false) → nfree (s_v s) = 8%nat.
Proof using Hinv.
  intros Hq Hw. destruct Hinv as (A & U & Hc & _). apply nfree_all. intros i Hi. destruct (co_free _ _ _ _ _ _ Hc i Hi) as [|[t' Ht]]; [done|]. exfalso.
  specialize (Hw t'). rewrite /is_waiting in Hw. rewrite /in_chain in Ht. by destruct (t_pc (s_thr s !!! t')).
Qed.

Lemma try_progress t s' : exec_ev (ETry t) s = Some (Ret tt s') → progresses L (ETry t) s s'.
Proof using All.
  cbn [exec_ev]. rewrite /ev_try. destruct (t_pc (s_thr s !!! t)) eqn:Ep; [discriminate| |discriminate].
  destruct (t_asleep _); [discriminate|]. intros E. apply (inj Some) in E. revert E. rewrite /drive /virtio_disk_rw_start.
  destruct (alloc3_spec (set_wake [] (s_v s))) as [(i0 & i1 & i2 & R0 & R1 & R2 & H01 & H02 & H12 & F0 & F1 & F2 & E)|(Hn & v' & E & Hs)]; rewrite (bind_ret _ _ _ _ _ E).
  - destruct (submit_spec (t_buf (s_thr s !!! t)) (t_write (s_thr s !!! t)) i0 i1 i2 (take3 i0 i1 i2 (set_wake [] (s_v s))) H01 H02 H12) as (v2 & E2 & Hsu).
    rewrite (bind_ret _ _ _ _ _ E2). intros Er. apply Ret_inj in Er as [_ <-]. left. destruct Hinv as (A & U & Hc & _).
    pose proof (try_core s t i0 i1 i2 v2 Ep Hsu R0 R1 R2 H01 H02 H12 F0 F1 F2 A (s_inflight s) U Hc) as Hc'.
    destruct (q_core s _ _ _ _ Hc) as [EA EU]. set (s2 := set_thr _ _ _ _) in *. destruct (q_core s2 _ _ _ _ Hc') as [EA' EU'].
    pose proof (calls_move L s s2 t HL (Hin t ltac:(by rewrite Ep))) as Hcm. rewrite Ep after_run_eq /after_run decide_True // in Hcm. cbn [weight t_pc] in Hcm.
    specialize (Hcm ltac:(intros t' Hne; by rewrite after_run_eq /after_run decide_False)).
    rewrite /work EA EU EA' EU' length_app. change (s_inflight s2) with (s_inflight s). cbn [length]. lia.
  - intros Er. apply Ret_inj in Er as [_ <-]. right. split.
    + split_and!; [by rewrite /q_avail /= (sb_ai _ _ Hs)|done|by rewrite /q_used /= (sb_ui _ _ Hs) (sb_used _ _ Hs)|].
      intros t'. rewrite after_run_eq /after_run. case_decide; [by subst|done].
    + intros (Hq & Hw & _). rewrite (nfree_ext (s_v s)) // in Hn. rewrite (quiet_all_free Hq Hw) in Hn. lia.
Qed.

Lemma finish_progress t s' : exec_ev (EFinish t) s = Some (Ret tt s') → progresses L (EFinish t) s s'.
Proof using All.
  cbn [exec_ev]. rewrite /ev_finish. destruct (t_pc (s_thr s !!! t)) as [| |i0 i1 i2] eqn:Ep; [discriminate..|].
  destruct (t_asleep _); [discriminate|]. intros E. apply (inj Some) in E. revert E. rewrite /drive /virtio_disk_rw_finish bind_gets.
  change (v_buf (set_wake [] (s_v s))) with (v_buf (s_v s)). destruct (vb_disk (v_buf (s_v s) !!! t_buf (s_thr s !!! t))) eqn:Hb.
  - intros Er. apply Ret_inj in Er as [_ <-]. right. split.
    + split_and!; [done..|]. intros t'. rewrite after_run_eq /after_run. case_decide; [by subst|done].
    + intros [Hq Hw]. pose proof (quiet_idle_bufs t Hq Hw) as Hb'. rewrite /t_busy in Hb'. congruence.
  - destruct Hinv as (A & U & Hc & _). pose proof (co_chain _ _ _ _ _ _ Hc t i0 i1 i2 Ep) as Hck. rewrite /upd_info bind_modify.
    rewrite (bind_ret (free_chain i0) _ _ _ _ (free_chain_ok _ _ _ _ _ _ _ _ Hck)). intros Er. apply Ret_inj in Er as [_ <-]. left.
    pose proof (fin_core s t i0 i1 i2 Ep Hb A (s_inflight s) U Hc) as Hc'. set (s2 := set_thr _ _ _ _).
    destruct (q_core s _ _ _ _ Hc) as [EA EU]. destruct (q_core s2 _ _ _ _ Hc') as [EA' EU'].
    pose proof (calls_move L s s2 t HL (Hin t ltac:(by rewrite Ep))) as Hcm. rewrite Ep after_run_eq /after_run decide_True // in Hcm. cbn [weight t_pc] in Hcm.
    specialize (Hcm ltac:(intros t' Hne; by rewrite after_run_eq /after_run decide_False)).
    rewrite /work EA EU EA' EU'. change (s_inflight s2) with (s_inflight s). lia.
Qed.

Lemma intr_progress s' : exec_ev EIntr s = Some (Ret tt s') → progresses L EIntr s s'.
Proof using All.
  cbn [exec_ev]. intros E. apply (inj Some) in E. destruct Hinv as (A & U & Hc & Hsl).
  destruct (ev_intr_ok s A U Hc Hsl) as (s2 & E2 & _ & Hc2 & _ & Hreq & Ei). rewrite E in E2. apply Ret_inj in E2 as [_ <-].
  assert (∀ t, t_pc (s_thr s' !!! t) = t_pc (s_thr s !!! t)) as Hpc by (intros t; apply (Hreq t)).
  destruct (q_core s _ _ _ _ Hc) as [EA EU]. destruct (q_core s' _ _ _ _ Hc2) as [EA' EU']. destruct U as [|u U].
  - right. split; [split_and!; congruence|]. cbn [helpful]. rewrite EU. intros H. by apply H.
  - left. rewrite /work EA EA' EU EU' Ei (calls_ext L s s' Hpc). cbn [length]. lia.
Qed.

Lemma take_progress s' : exec_ev ETake s = Some (Ret tt s') → progresses L ETake s s'.
Proof using All.
  cbn [exec_ev]. rewrite /ev_take. destruct (Z.eqb_spec (s_seen s) (avail_idx (s_v s))) as [|Hne]; [discriminate|].
  intros E. apply (inj Some) in E. apply Ret_inj in E as [_ <-]. destruct Hinv as (A & U & Hc & _).
  destruct (q_core s _ _ _ _ Hc) as [EA EU]. destruct A as [|h A].
  { exfalso. apply Hne. rewrite (co_avail _ _ _ _ _ _ Hc). cbn. rewrite Z.add_0_r u16_small //. by eapply co_seen. }
  set (s2 := mk_sys _ _ _ _ _). destruct (q_core s2 _ _ _ _ (take_core _ _ _ _ _ _ _ Hc)) as [EA' EU'].
  left. rewrite /work EA EU EA' EU' (calls_ext L s s2) //. cbn [s2 s_inflight]. rewrite length_app. cbn [length]. lia.
Qed.

Lemma done_progress h s' : exec_ev (EDone h) s = Some (Ret tt s') → progresses L (EDone h) s s'.
Proof using All.
  cbn [exec_ev]. rewrite /ev_done. destruct (decide (h ∈ s_inflight s)) as [Hh|]; [|discriminate]. intros E. apply (inj Some) in E.
  destruct Hinv as (A & U & Hc & _). destruct (co_heads _ _ _ _ _ _ Hc h ltac:(set_solver)) as (t & i1 & i2 & Et & Hb).
  destruct (dev_complete_spec _ _ _ _ _ _ (s_disk s) (co_chain _ _ _ _ _ _ Hc t h i1 i2 Et)) as (v2 & E2 & Hcm). rewrite E2 in E.
  apply Ret_inj in E as [_ <-]. pose proof (done_core s h t i1 i2 A U v2 _ Hc Hh Et Hcm) as Hc'. set (s2 := mk_sys _ _ _ _ _).
  destruct (q_core s _ _ _ _ Hc) as [EA EU]. destruct (q_core s2 _ _ _ _ Hc') as [EA' EU'].
  pose proof (length_filter_lt (λ x, x ≠ h) (s_inflight s) h Hh ltac:(tauto)) as Hlt.
  left. rewrite /work EA EU EA' EU' (calls_ext L s s2) // length_app. cbn [s2 s_inflight length]. lia.
Qed.

Lemma ev_progress e s' : is_start e = false → exec_ev e s = Some (Ret tt s') → progresses L e s s'.
Proof using All.
  destruct e; [discriminate|intros _..]; [apply try_progress|apply finish_progress| |apply intr_progress|apply take_progress|apply done_progress].
  intros E. cbn [exec_ev] in E. apply (inj Some) in E. apply Ret_inj in E as [_ <-]. right. split; [|by intros []].
  split_and!; [done..|]. intros t'. rewrite /set_thr. cbn [s_thr]. rewrite lookup_insert_thr. case_decide; [by subst|done].
Qed.

(** There is always something helpful to do, ... *)
Lemma helpful_exists t : t_pc (s_thr s !!! t) ≠ TIdle → ∃ e, helpful e s ∧ is_start e = false.
Proof using Hin.
  intros Ht. destruct (decide (q_avail s = 0%nat)) as [Ea|Ea]; [|by exists ETake].
  destruct (s_inflight s) as [|h D] eqn:Ei; [|exists (EDone h); cbn [helpful]; rewrite Ei; split; [by left|done]].
  destruct (decide (q_used s = 0%nat)) as [Eu|Eu]; [|by exists EIntr]. assert (quiet s) as Hq by done.
  destruct (decide (Exists (λ t, is_waiting (s_thr s !!! t) = true) L)) as [Hw|Hw].
  - apply Exists_exists in Hw as (t' & _ & Hw). by exists (EFinish t').
  - assert (∀ t', is_waiting (s_thr s !!! t') = false) as Hno.
    { intros t'. destruct (is_waiting (s_thr s !!! t')) eqn:Ew; [|done]. exfalso. apply Hw, Exists_exists. exists t'. split; [|done].
      apply Hin. rewrite /is_waiting in Ew. by destruct (t_pc (s_thr s !!! t')). }
    exists (ETry t). split; [|done]. split_and!; [done..|]. specialize (Hno t). rewrite /is_waiting in Hno. by destruct (t_pc (s_thr s !!! t)).
Qed.
End progress.

(** ... and it can happen: the processes that could go on are awake. *)
Lemma helpful_enabled s e : vinv s → helpful e s → exec_ev e s ≠ None.
Proof.
  intros Hinv. pose proof Hinv as (A & U & Hc & Hsl). destruct e; cbn [helpful exec_ev]; [done| | |done|done| |].
  - intros (Hq & Hw & Ep). rewrite /ev_try Ep. destruct (t_asleep _) eqn:Ha; [|done]. exfalso.
    pose proof (sl_free _ _ Hsl t Ha Ep) as Hn. cbv beta in Hn. rewrite (quiet_all_free s Hinv Hq Hw) in Hn. lia.
  - intros (Hq & Hw). pose proof (quiet_idle_bufs s Hinv t Hq Hw) as Hb. rewrite /ev_finish. rewrite /is_waiting in Hw.
    destruct (t_pc (s_thr s !!! t)) as [| |i0 i1 i2] eqn:Ep; [discriminate Hw..|]. destruct (t_asleep _) eqn:Ha; [|done]. exfalso.
    pose proof (sl_buf _ _ Hsl t i0 i1 i2 Ha Ep) as Hb'. cbv beta in Hb'. congruence.
  - intros Hq. rewrite /ev_take. destruct (Z.eqb_spec (s_seen s) (avail_idx (s_v s))) as [E|]; [|done]. exfalso. apply Hq.
    by rewrite /q_avail -E Z.sub_diag.
  - intros Hh. by rewrite /ev_done decide_True.
Qed.
(** An idle process stays idle without a new call. *)
Lemma stays_idle s e s' t :
  is_start e = false → exec_ev e s = Some (Ret tt s') → t_pc (s_thr s !!! t) = TIdle → t_pc (s_thr s' !!! t) = TIdle.
Proof.
  assert (∀ t' pc a v d n i l, t_pc (s_thr s !!! t') ≠ TIdle → t_pc (s_thr s !!! t) = TIdle →
    t_pc (s_thr (set_thr t' pc a (mk_sys v d n i (wake l <$> s_thr s))) !!! t) = TIdle) as Hset.
  { intros t' pc a v d n i l Hne Hi. rewrite after_run_eq /after_run. case_decide; [by subst|done]. }
  destruct e as [| t' | t' | t' | | | h]; [discriminate|intros _..]; cbn [exec_ev].
  - rewrite /ev_try. destruct (t_pc (s_thr s !!! t')) eqn:Ep; [discriminate| |discriminate]. destruct (t_asleep _); [discriminate|].
    intros E. apply (inj Some) in E. revert E. rewrite /drive. destruct (virtio_disk_rw_start _ _ _) as [[[[i0 i1] i2]|] v| |]; [..|discriminate|discriminate];
      intros E; apply Ret_inj in E as [_ <-]; apply Hset; by rewrite Ep.
  - rewrite /ev_finish. destruct (t_pc (s_thr s !!! t')) eqn:Ep; [discriminate..|]. destruct (t_asleep _); [discriminate|].
    intros E. apply (inj Some) in E. revert E. rewrite /drive. destruct (virtio_disk_rw_finish _ _ _) as [[] v| |]; [..|discriminate|discriminate];
      intros E; apply Ret_inj in E as [_ <-]; apply Hset; by rewrite Ep.
  - intros E. apply (inj Some) in E. apply Ret_inj in E as [_ <-]. rewrite /set_thr. cbn [s_thr]. rewrite lookup_insert_thr. case_decide; [by subst|done].
  - intros E. apply (inj Some) in E. revert E. rewrite /drive. destruct (virtio_disk_intr _) as [[] v| |]; [|discriminate..].
    intros E. apply Ret_inj in E as [_ <-]. cbn [s_thr]. by rewrite lookup_wake.
  - rewrite /ev_take. destruct (_ =? _); [discriminate|]. intros E. apply (inj Some) in E. by apply Ret_inj in E as [_ <-].
  - rewrite /ev_done. destruct (decide _); [|discriminate]. intros E. apply (inj Some) in E. revert E.
    destruct (dev_complete _ _ _) as [[v d]|]; [|discriminate]. intros E. by apply Ret_inj in E as [_ <-].
Qed.

(** What has to happen some time, unless it becomes impossible: a process
    that can run runs, the device goes on with the requests it has been given,
    and it interrupts for the used ones.  Nobody has to be woken up but by the
    driver's own calls of [wakeup]. *)
Definition due (e : ev) (s : sys) : Prop :=
  match e with
  | EStart _ _ _ _ _ | EWake _ => False
  | EIntr => v_used_idx (s_v s) ≠ used_idx (s_v s)
  | _ => exec_ev e s ≠ None
  end.

(** An infinite run of the system without new calls, in which every event that
    stays due happens. *)
Record fair_run (σ : nat → sys) (ε : nat → ev) : Prop := {
  fr_step : ∀ n, exec_ev (ε n) (σ n) = Some (Ret tt (σ (S n)));
  fr_calls : ∀ n, is_start (ε n) = false;
  fr_fair : ∀ e n, ∃ m, (n ≤ m)%nat ∧ (ε m = e ∨ ¬ due e (σ m));
}.

Lemma helpful_due s e : vinv s → helpful e s → due e s.
Proof.
  intros Hinv Hh. destruct e; try (exact (helpful_enabled _ _ Hinv Hh)); try (by destruct Hh). cbn [due helpful] in *.
  intros E. apply Hh. by rewrite /q_used -E Z.sub_diag.
Qed.

Section run.
Context (σ : nat → sys) (ε : nat → ev) (Hr : vreach (σ 0%nat)) (Hfr : fair_run σ ε).
Let L := elements (dom (s_thr (σ 0%nat))).

Lemma run_inv n : vinv (σ n).
Proof using All. apply vreach_inv. induction n as [|n IH]; [done|]. eapply vreach_ev; [exact IH|by eapply fr_step]. Qed.
Lemma run_idle n m t : (n ≤ m)%nat → t_pc (s_thr (σ n) !!! t) = TIdle → t_pc (s_thr (σ m) !!! t) = TIdle.
Proof using Hfr.
  induction 1 as [|m _ IH]; [done|]. intros Hi. eapply stays_idle; [by eapply fr_calls|by eapply fr_step|by apply IH].
Qed.
Lemma run_calls n t : t_pc (s_thr (σ n) !!! t) ≠ TIdle → t ∈ L.
Proof using Hfr.
  intros Hn. rewrite elem_of_elements elem_of_dom. destruct (s_thr (σ 0%nat) !! t) eqn:E; [by eauto|]. exfalso. apply Hn.
  apply (run_idle 0 n); [lia|]. by rewrite lookup_total_alt E.
Qed.
Lemma run_progress n : progresses L (ε n) (σ n) (σ (S n)).
Proof using All.
  apply ev_progress; [apply NoDup_elements|apply run_calls|apply run_inv|by eapply fr_calls|by eapply fr_step].
Qed.
(** A helpful event stays so until some work is done. *)
Lemma run_helpful e n m :
  (n ≤ m)%nat → helpful e (σ n) →
  (∃ p, (n ≤ p ≤ m)%nat ∧ (work L (σ p) < work L (σ n))%nat) ∨ (helpful e (σ m) ∧ work L (σ m) = work L (σ n)).
Proof using All.
  induction 1 as [|m Hm IH]; intros Hh; [by right|]. destruct (IH Hh) as [(p & Hp & Hw)|[Hh' Hw]]; [left; exists p; split; [lia|done]|].
  destruct (run_progress m) as [Hlt|[Hs _]]; [left; exists (S m); split; [lia|lia]|right]. split; [by eapply still_helpful|].
  destruct Hs as (Ea & Ei & Eu & Ep). by rewrite -Hw /work Ea Ei Eu (calls_ext L (σ m) (σ (S m)) Ep).
Qed.
Lemma run_works n t : t_pc (s_thr (σ n) !!! t) ≠ TIdle → ∃ m, (n ≤ m)%nat ∧ (work L (σ m) < work L (σ n))%nat.
Proof using All.
  intros Ht. destruct (helpful_exists L (σ n) (run_calls n) t Ht) as (e & Hh & _). destruct (fr_fair _ _ Hfr e n) as (m & Hm & He).
  destruct (run_helpful e n m Hm Hh) as [(p & Hp & Hw)|[Hh' Hw]]; [exists p; split; [lia|done]|].
  destruct He as [He|He]; [|exfalso; apply He, helpful_due; [apply run_inv|done]].
  destruct (run_progress m) as [Hlt|[_ Hno]]; [exists (S m); split; lia|]. exfalso. apply Hno. by rewrite He.
Qed.
Lemma run_busy n : (∀ t, t_pc (s_thr (σ n) !!! t) = TIdle) ∨ ∃ t, t_pc (s_thr (σ n) !!! t) ≠ TIdle.
Proof using All.
  destruct (decide (Exists (λ t, weight (t_pc (s_thr (σ n) !!! t)) ≠ 0%nat) L)) as [He|He].
  - apply Exists_exists in He as (t & _ & Ht). right. exists t. intros E. apply Ht. by rewrite E.
  - left. intros t. destruct (t_pc (s_thr (σ n) !!! t)) eqn:Et; [done|exfalso; apply He, Exists_exists; exists t..];
      (split; [apply (run_calls n); by rewrite Et|rewrite Et; cbn; lia]).
Qed.
Lemma run_completes k n : (work L (σ n) < k)%nat → ∃ m, (n ≤ m)%nat ∧ ∀ t, t_pc (s_thr (σ m) !!! t) = TIdle.
Proof using All.
  revert n. induction k as [|k IH]; intros n Hk; [lia|]. destruct (run_busy n) as [Hi|[t Ht]]; [by exists n|].
  destruct (run_works n t Ht) as (m & Hm & Hw). destruct (IH m) as (m' & Hm' & Hi); [lia|]. exists m'. split; [lia|done].
Qed.
End run.

(** C4. Every call of [virtio_disk_rw] returns.  In a run of processes,
    interrupt handler and device from any reachable state, without new calls
    and in which a process that can run, a device with requests and a pending
    interrupt are not put off for ever, from some point on no process is in
    [virtio_disk_rw].  A process that sleeps runs again only when the driver
    wakes it up: nothing else is assumed to. *)
Theorem virtio_completes σ ε :
  vreach (σ 0%nat) → fair_run σ ε →
  ∃ n, ∀ m t, (n ≤ m)%nat → t_pc (s_thr (σ m) !!! t) = TIdle.
Proof.
  intros Hr Hfr. destruct (run_completes σ ε Hr Hfr _ 0 (Nat.lt_succ_diag_r _)) as (n & _ & Hn). exists n. intros m t Hm.
  by apply (run_idle σ ε Hfr n m).
Qed.

(** ** An example *)

Fixpoint run_evs (l : list ev) (s : sys) : option sys :=
  match l with
  | [] => Some s
  | e :: l' => match exec_ev e s with Some (Ret _ s') => run_evs l' s' | _ => None end
  end.
Lemma run_evs_reach l s s' : vreach s → run_evs l s = Some s' → vreach s'.
Proof.
  revert s. induction l as [|e l IH]; intros s Hr E; [by injection E as <-|]. cbn in E.
  destruct (exec_ev e s) as [[[] s1| |]|] eqn:Ee; [|discriminate E..]. apply (IH s1); [|done]. by eapply vreach_ev.
Qed.

(** Process 1 reads block 5 into buffer 7, process 2 writes buffer 8 to block
    6; process 3 finds no descriptors; the device has taken both requests. *)
Definition demo_vboot : sys := mk_sys (virtio_boot ∅) {[5 := {[0 := 42]}]} 0 [] ∅.
Definition demo_events : list ev :=
  [EStart 1 7 5 ∅ false; EStart 2 8 6 {[1 := 43]} true; EStart 3 9 5 ∅ false; ETry 1; ETry 2; ETry 3; ETake; ETake].
Definition demo_vsys : sys := default demo_vboot (run_evs demo_events demo_vboot).

Lemma demo_vsys_reach : vreach demo_vsys.
Proof.
  rewrite /demo_vsys. destruct (run_evs demo_events demo_vboot) as [s|] eqn:E; cbn; [|constructor].
  eapply run_evs_reach; [constructor|exact E].
Qed.

Lemma virtio_refines_disk_rw_witness :
  ∃ s', exec_ev (EDone 3) demo_vsys = Some (Ret tt s') ∧ s_disk s' !! 6 = Some {[1 := 43]} ∧ refines demo_vsys s'.
Proof.
  destruct (exec_ev (EDone 3) demo_vsys) as [o|] eqn:E; [|exfalso; revert E; vm_compute; discriminate].
  destruct (virtio_refines_disk_rw demo_vsys (EDone 3) o demo_vsys_reach E) as (s' & -> & H).
  exists s'. split_and!; [done| |exact H].
  assert (option_map (λ o, match o with Ret _ s => s_disk s !! 6 | _ => None end) (exec_ev (EDone 3) demo_vsys)
    = Some (Some {[1 := 43]})) as Ed by (vm_compute; reflexivity).
  rewrite E in Ed. by apply (inj Some) in Ed.
Defined.

Lemma virtio_no_lost_wakeup_witness :
  t_asleep (s_thr demo_vsys !!! 3) = true ∧ (∃ v, alloc3_desc (s_v demo_vsys) = Ret None v) ∧
  t_asleep (s_thr demo_vsys !!! 1) = true ∧ vb_disk (v_buf (s_v demo_vsys) !!! 7) = true.
Proof.
  assert (t_asleep (s_thr demo_vsys !!! 3) = true ∧ t_pc (s_thr demo_vsys !!! 3) = TAlloc ∧
    t_asleep (s_thr demo_vsys !!! 1) = true ∧ t_pc (s_thr demo_vsys !!! 1) = TWait 0 1 2 ∧ t_buf (s_thr demo_vsys !!! 1) = 7)
    as (A3 & P3 & A1 & P1 & B1) by (vm_compute; done).
  pose proof (virtio_no_lost_wakeup demo_vsys 3 demo_vsys_reach A3) as H3. rewrite /sleeps_for P3 in H3.
  pose proof (virtio_no_lost_wakeup demo_vsys 1 demo_vsys_reach A1) as H1. rewrite /sleeps_for P1 B1 in H1.
  split_and!; [exact A3|exact H3|exact A1|apply H1].
Defined.

(** The example goes on until all calls have returned, and then there are only
    spurious interrupts. *)
Definition demo_rest : list ev :=
  [EDone 0; EDone 3; EIntr; EFinish 1; EFinish 2; ETry 3; ETake; EDone 0; EIntr; EFinish 3; EIntr].
Definition step_ev (e : ev) (s : sys) : sys := match exec_ev e s with Some (Ret _ s') => s' | _ => s end.
Definition demo_ev (n : nat) : ev := nth n demo_rest EIntr.
Fixpoint run_from (s : sys) (ε : nat → ev) (n : nat) : sys :=
  match n with O => s | S n' => step_ev (ε n') (run_from s ε n') end.
Lemma run_from_end s ε k s' :
  run_from s ε k = s' → (∀ n, (k ≤ n)%nat → ε n = EIntr) → exec_ev EIntr s' = Some (Ret tt s') →
  ∀ n, (k ≤ n)%nat → run_from s ε n = s'.
Proof. intros E He Hi n. induction 1 as [|n Hn IH]; [done|]. cbn [run_from]. by rewrite IH (He n Hn) /step_ev Hi. Qed.
Definition demo_run : nat → sys := run_from demo_vsys demo_ev.
Definition demo_end : sys := demo_run 11.

Lemma demo_end_intr : exec_ev EIntr demo_end = Some (Ret tt demo_end).
Proof. vm_compute. reflexivity. Qed.
Lemma demo_ev_end n : (11 ≤ n)%nat → demo_ev n = EIntr.
Proof. intros Hn. apply nth_overflow. exact Hn. Qed.
Lemma demo_run_end n : (11 ≤ n)%nat → demo_run n = demo_end.
Proof. intros Hn. exact (run_from_end demo_vsys demo_ev 11 demo_end eq_refl demo_ev_end demo_end_intr n Hn). Qed.
Lemma demo_end_idle t : t_pc (s_thr demo_end !!! t) = TIdle.
Proof.
  assert (bool_decide (map_Forall (λ _ th, weight (t_pc th) = 0%nat) (s_thr demo_end)) = true) as H by (vm_compute; reflexivity).
  apply bool_decide_eq_true_1 in H. rewrite lookup_total_alt. destruct (s_thr demo_end !! t) as [th|] eqn:E; [|reflexivity].
  specialize (H t th E). cbv beta in H. cbn [default from_option id]. destruct (t_pc th); [reflexivity|discriminate H..].
Qed.
Lemma demo_end_dev : s_inflight demo_end = [].
Proof. vm_compute. reflexivity. Qed.
Lemma demo_step n : exec_ev (demo_ev n) (demo_run n) = Some (Ret tt (demo_run (S n))).
Proof.
  do 11 (destruct n as [|n]; [vm_compute; reflexivity|]). rewrite demo_ev_end; [|lia]. rewrite !demo_run_end; [exact demo_end_intr|lia..].
Qed.
Lemma demo_fair : fair_run demo_run demo_ev.
Proof.
  split; [exact demo_step| |].
  - intros n. do 11 (destruct n as [|n]; [reflexivity|]). rewrite demo_ev_end; [reflexivity|lia].
  - intros e n. exists (n + 11)%nat. split; [lia|]. rewrite demo_run_end; [|lia].
    destruct e as [| t | t | | | | h]; [right..|left|right|right]; cbn [due]; [by intros []| | |by intros []| | |].
    + cbn [exec_ev]. rewrite /ev_try demo_end_idle. intros H. by apply H.
    + cbn [exec_ev]. rewrite /ev_finish demo_end_idle. intros H. by apply H.
    + apply demo_ev_end. lia.
    + intros H. apply H. vm_compute. reflexivity.
    + cbn [exec_ev]. rewrite /ev_done demo_end_dev. intros H. by apply H.
Qed.

Lemma virtio_completes_witness :
  fair_run demo_run demo_ev ∧ t_asleep (s_thr (demo_run 0) !!! 3) = true ∧
  ∃ n, ∀ m t, (n ≤ m)%nat → t_pc (s_thr (demo_run m) !!! t) = TIdle.
Proof.
  split; [exact demo_fair|]. split; [vm_compute; reflexivity|].
  apply (virtio_completes demo_run demo_ev); [exact demo_vsys_reach|exact demo_fair].
Defined.
