(* ===== verification/Keeps.v ===== *)
(** * What most of the kernel leaves alone

    Reasoning about one run of a kernel function, from the call to the return
    or to the point where the process sleeps, and the functions that keep a
    relation between the states before and after: every relation that
    ignores memory, the file system, the console and the fields of processes
    and open files that only their owners use is kept by all functions but
    the few that open and close files and create and destroy processes. *)
From S2P Require Import Prelude Riscv CString Kalloc Vm Cache Log Fs Kern KernInv Pipe Console File Proc Args Exec Sysfile.
From S2P Require Import Syscall.

(** ** Outcomes

    Where a run returns, its result satisfies [Q]; where it sleeps, the
    state satisfies [W]. *)
Definition holds {S A} (m : M S A) (s : S) (Q : A → S → Prop) (W : S → Prop) : Prop :=
  match m s with Ret a s' => Q a s' | Sleep _ s' => W s' | Panic _ => True end.

Lemma holds_bind {S A B} (m : M S A) (f : A → M S B) s Q Q' W :
  holds m s Q' W → (∀ a s', Q' a s' → holds (f a) s' Q W) → holds (m ≫= f) s Q W.
Proof. rewrite /holds /mbind /M_bind. destruct (m s); [|done..]. intros H Hf. by apply Hf. Qed.
Lemma holds_mono {S A} (m : M S A) s (Q Q' : A → S → Prop) (W W' : S → Prop) :
  holds m s Q W → (∀ a s', Q a s' → Q' a s') → (∀ s', W s' → W' s') → holds m s Q' W'.
Proof. rewrite /holds. destruct (m s); auto. Qed.

(** ** Relations that are kept *)

(** A process whose identity does not change, and which runs on or is woken. *)
Record quiet (x y : proc) : Prop := {
  q_pid : p_pid y = p_pid x;
  q_parent : p_parent y = p_parent x;
  q_ofile : p_ofile y = p_ofile x;
  q_killed : p_killed x = true → p_killed y = true;
  q_state : p_state y = p_state x ∨ p_state x = SLEEPING ∧ p_state y = RUNNABLE;
}.
Lemma quiet_refl x : quiet x x.
Proof. split; auto. Qed.

(** The relations: the current process may go to sleep. *)
Class Framing {S} (R : kern S → kern S → Prop) : Prop := {
  fr_refl k : R k k;
  fr_trans k1 k2 k3 : R k1 k2 → R k2 k3 → R k1 k3;
  fr_kfs f k : R k (set_kfs f k);
  fr_kcons c k : R k (set_kcons c k);
  fr_procs P k : (∀ p, quiet (kproc k !!! p) (P !!! p)) → R k (set_kproc P k);
  fr_sleep k : R k (set_kproc (<[kcur k := set_state SLEEPING (kproc k !!! kcur k)]> (kproc k)) k);
  fr_file f g k : (∀ x, f_ref (g x) = f_ref x ∧ f_type (g x) = f_type x) →
    R k (set_kfile (<[f := g (kfile k !!! f)]> (kfile k)) k);
}.

Definition keeps {S A} (R : kern S → kern S → Prop) (m : M (kern S) A) : Prop := ∀ k, holds m k (λ _, R k) (R k).

Section keeps.
Context {S : Type} {BC : BlockCache S} {LK : Linker} {FR : Frames} {TX : Text}.
Context (R : kern S → kern S → Prop) {FM : Framing R}.
Implicit Types k : kern S.

Lemma keeps_ret {A} (a : A) : keeps R (mret a).
Proof. intros k. exact (fr_refl (R:=R) k). Qed.
Lemma keeps_bind {A B} (m : M (kern S) A) (f : A → M (kern S) B) : keeps R m → (∀ a, keeps R (f a)) → keeps R (m ≫= f).
Proof.
  intros Hm Hf k. eapply holds_bind; [apply Hm|]. intros a k' Hs. eapply holds_mono; [apply Hf|..]; cbn.
  - intros _ k'' Hs'. exact (fr_trans _ _ _ Hs Hs').
  - intros k'' Hs'. exact (fr_trans _ _ _ Hs Hs').
Qed.
Lemma keeps_gets {A} (f : kern S → A) : keeps R (gets f).
Proof. intros k. exact (fr_refl (R:=R) k). Qed.
Lemma keeps_panic {A} e : keeps R (@panic (kern S) A e).
Proof. intros k. exact I. Qed.
Lemma keeps_sleep {A} c : keeps R (@sleep (kern S) A c).
Proof. intros k. exact (fr_refl (R:=R) k). Qed.
Lemma keeps_modify f : (∀ k, R k (f k)) → keeps R (modify f).
Proof. intros H k. apply H. Qed.
Lemma keeps_onf {A} (m : M (fs S) A) : keeps R (onf m).
Proof. intros k. rewrite /holds /onf /lift. destruct (m _); [apply (fr_kfs (R:=R))|exact I|apply (fr_kfs (R:=R))]. Qed.
Lemma keeps_oncons {A} (m : M console A) : keeps R (oncons m).
Proof. intros k. rewrite /holds /oncons /lift. destruct (m _); [apply (fr_kcons (R:=R))|exact I|apply (fr_kcons (R:=R))]. Qed.
Lemma fr_proc p y k : quiet (kproc k !!! p) y → R k (set_kproc (<[p := y]> (kproc k)) k).
Proof.
  intros Hg. apply (fr_procs (R:=R)). intros q. destruct (decide (q = p)) as [->|]; [by rewrite lookup_total_insert_eq|].
  rewrite lookup_total_insert_ne //. apply quiet_refl.
Qed.
Lemma keeps_updp p g : (∀ x, quiet x (g x)) → keeps R (updp p g).
Proof. intros Hg. apply keeps_modify. intros k. by apply fr_proc. Qed.
Lemma keeps_updf f g : (∀ x, f_ref (g x) = f_ref x ∧ f_type (g x) = f_type x) → keeps R (updf f g).
Proof. intros Hg. apply keeps_modify. intros k. by apply fr_file. Qed.
Lemma keeps_if {A} (b : bool) (m1 m2 : M (kern S) A) : keeps R m1 → keeps R m2 → keeps R (if b then m1 else m2).
Proof. by destruct b. Qed.
End keeps.

Create HintDb keeps discriminated.
#[export] Hint Extern 0 (Framing _) => typeclasses eauto : keeps.
#[export] Hint Resolve keeps_ret keeps_gets keeps_panic keeps_sleep keeps_onf keeps_oncons : keeps.

(** [keeps_tac] goes through a program; the calls of the functions below are
    in the hint database. *)
Ltac keeps_tac :=
  repeat first
    [ progress (cbv zeta beta)
    | progress intros
    | solve [eauto with keeps nocore]
    | apply keeps_bind; [typeclasses eauto|..]
    | match goal with
      | |- keeps _ (updp _ _) => apply keeps_updp; [typeclasses eauto|intros []; split; [reflexivity..|tauto|left; reflexivity]]
      | |- keeps _ (updf _ _) => apply keeps_updf; [typeclasses eauto|intros []; split; reflexivity]
      | |- keeps _ (if ?b then _ else _) => apply keeps_if
      | |- keeps _ (match ?x with _ => _ end) => destruct x
      end ].

Section keeps_code.
Context {S : Type} {BC : BlockCache S} {LK : Linker} {FR : Frames} {TX : Text}.
Context (R : kern S → kern S → Prop) {FM : Framing R}.
Implicit Types k : kern S.
Abbreviation K A := (M (kern S) A).

Lemma keeps_getp p : keeps R (getp p : K _).
Proof. exact: keeps_gets. Qed.
Lemma keeps_getf f : keeps R (getf f : K _).
Proof. exact: keeps_gets. Qed.
Lemma keeps_myproc : keeps R (myproc : K _).
Proof. exact: keeps_gets. Qed.
Lemma keeps_onmem {A} (m : M kmem A) : keeps R (onmem m : K A).
Proof. exact: keeps_onf. Qed.
Lemma keeps_onlog {A} (m : M (logst S) A) : keeps R (onlog m : K A).
Proof. exact: keeps_onf. Qed.
Hint Resolve keeps_getp keeps_getf keeps_myproc keeps_onmem keeps_onlog : keeps.

Lemma keeps_wakeup c : keeps R (wakeup c : K _).
Proof.
  intros k. destruct (wakeup_run c k) as (P' & E & HP). rewrite /holds E. apply (fr_procs (R:=R)). intros p. rewrite HP.
  case_decide; [|apply quiet_refl]. destruct (wakes _ _ _ _) eqn:Hw; [|apply quiet_refl]. split; [done..|]. right.
  rewrite /wakes !andb_true_iff !bool_decide_eq_true in Hw. tauto.
Qed.
Lemma keeps_killed p : keeps R (killed p : K _).
Proof. rewrite /killed. keeps_tac. Qed.
Lemma keeps_setkilled p : keeps R (setkilled p : K _).
Proof. rewrite /setkilled. keeps_tac. Qed.
Lemma keeps_sleep_on {A} c : keeps R (sleep_on c : K A).
Proof.
  intros k. rewrite /sleep_on /holds /myproc bind_gets /updp !bind_modify. cbn [sleep].
  set (k1 := set_kproc (<[kcur k := set_chan (Some c) (kproc k !!! kcur k)]> (kproc k)) k).
  apply (fr_trans (R:=R) k k1); [|apply (fr_sleep (R:=R) k1)]. apply fr_proc; [done|]. by split; auto.
Qed.
Hint Resolve keeps_wakeup keeps_killed keeps_setkilled keeps_sleep_on : keeps.
Lemma keeps_kill pid : keeps R (kill pid : K _).
Proof.
  rewrite /kill. generalize 0. induction (Z.to_nat NPROC) as [|n IH]; intros p; cbn [kill_loop]; [keeps_tac|].
  intros k. rewrite /holds /getp bind_gets. destruct (_ =? _); [|apply IH].
  set (k1 := set_kproc (<[p := set_killed true (kproc k !!! p)]> (kproc k)) k).
  assert (R k k1) as H1 by (apply fr_proc; [done|]; by split; auto).
  rewrite /updp bind_modify bind_gets. fold k1. case_bool_decide as Hs; [|exact H1].
  apply (fr_trans (R:=R) k k1 _ H1). apply (fr_proc R p). by split; auto.
Qed.
Lemma keeps_pi_get pi off : keeps R (pi_get pi off : K _).
Proof. exact: keeps_gets. Qed.
Lemma keeps_pi_set pi off v : keeps R (pi_set pi off v : K _).
Proof. exact: keeps_onmem. Qed.
Hint Resolve keeps_kill keeps_pi_get keeps_pi_set : keeps.
Lemma keeps_pipe_init pi : keeps R (pipe_init pi : K _).
Proof. rewrite /pipe_init. keeps_tac. Qed.
Lemma keeps_pipeclose pi w : keeps R (pipeclose pi w : K _).
Proof. rewrite /pipeclose. keeps_tac. Qed.
Lemma keeps_pipewrite pi addr n : keeps R (pipewrite pi addr n : K _).
Proof.
  rewrite /pipewrite /pipewrite_run. apply keeps_bind; [done| |keeps_tac]. generalize 0 at 2. generalize (Datatypes.S (Z.to_nat (n - 0))).
  intros fuel. induction fuel; intros i; cbn [pipewrite_loop]; keeps_tac.
Qed.
Lemma keeps_piperead_loop m pi addr i : keeps R (piperead_loop m pi addr i : K _).
Proof. revert i. induction m; intros i; cbn [piperead_loop]; keeps_tac. Qed.
Hint Resolve keeps_pipe_init keeps_pipeclose keeps_pipewrite keeps_piperead_loop : keeps.
Lemma keeps_piperead pi addr n : keeps R (piperead pi addr n : K _).
Proof. rewrite /piperead /piperead_run. keeps_tac. Qed.
Hint Resolve keeps_piperead : keeps.

Lemma keeps_uartstart : keeps R (uartstart : K _).
Proof. rewrite /uartstart. induction (Datatypes.S (Z.to_nat UART_TX_BUF_SIZE)); cbn [uartstart_loop]; keeps_tac. Qed.
Hint Resolve keeps_uartstart : keeps.
Lemma keeps_uartputc c : keeps R (uartputc_run c : K _).
Proof. rewrite /uartputc_run. keeps_tac. Qed.
Hint Resolve keeps_uartputc : keeps.
Lemma keeps_consolewrite u src n : keeps R (consolewrite u src n : K _).
Proof.
  rewrite /consolewrite. apply keeps_bind; [done| |keeps_tac]. generalize 0. induction (Z.to_nat n); intros i; cbn [consolewrite_loop]; keeps_tac.
Qed.
Lemma keeps_consoleread u dst n : keeps R (consoleread u dst n : K _).
Proof.
  rewrite /consoleread. apply keeps_bind; [done| |keeps_tac]. generalize (Datatypes.S (Z.to_nat n)). intros fuel.
  generalize n at 1. revert n dst. induction fuel; intros; cbn [consoleread_loop]; keeps_tac.
Qed.
Hint Resolve keeps_consolewrite keeps_consoleread : keeps.

Lemma keeps_begin : keeps R (kbegin_op : K _).
Proof. exact: keeps_onlog. Qed.
Lemma keeps_end : keeps R (kend_op : K _).
Proof. rewrite /kend_op. keeps_tac. Qed.
Hint Resolve keeps_begin keeps_end : keeps.
Lemma keeps_fileclose_last ff : keeps R (fileclose_last ff : K _).
Proof. rewrite /fileclose_last. keeps_tac. Qed.
Lemma keeps_filestat f addr : keeps R (filestat f addr : K _).
Proof. rewrite /filestat. keeps_tac. Qed.
Lemma keeps_dev_read m addr n : keeps R (match devsw_of m with Some d => dev_read d true addr n | None => mret (-1) end : K _).
Proof. rewrite /devsw_of. destruct (m =? CONSOLE); cbn [dev_read]; keeps_tac. Qed.
Lemma keeps_dev_write m addr n : keeps R (match devsw_of m with Some d => dev_write d true addr n | None => mret (-1) end : K _).
Proof. rewrite /devsw_of. destruct (m =? CONSOLE); cbn [dev_write]; keeps_tac. Qed.
Hint Resolve keeps_dev_read keeps_dev_write : keeps.
Lemma keeps_fileread f addr n : keeps R (fileread f addr n : K _).
Proof. rewrite /fileread. keeps_tac. Qed.
Lemma keeps_filewrite_loop fuel f addr n i : keeps R (filewrite_loop fuel f addr n i : K _).
Proof. revert i. induction fuel; intros i; cbn [filewrite_loop]; keeps_tac. Qed.
Hint Resolve keeps_fileclose_last keeps_filestat keeps_fileread keeps_filewrite_loop : keeps.
Lemma keeps_filewrite f addr n : keeps R (filewrite f addr n : K _).
Proof. rewrite /filewrite. keeps_tac. Qed.
Hint Resolve keeps_filewrite : keeps.

(** Arguments, exec, and the calls that only use inodes. *)
Lemma keeps_tf_get tf off : keeps R (tf_get tf off : K _).
Proof. exact: keeps_gets. Qed.
Lemma keeps_tf_set tf off v : keeps R (tf_set tf off v : K _).
Proof. exact: keeps_onmem. Qed.
Lemma keeps_memory : keeps R (memory : K _).
Proof. exact: keeps_gets. Qed.
Hint Resolve keeps_tf_get keeps_tf_set keeps_memory : keeps.
Lemma keeps_fetchaddr addr : keeps R (fetchaddr addr : K _).
Proof. rewrite /fetchaddr. keeps_tac. Qed.
Lemma keeps_fetchstr addr buf max : keeps R (fetchstr addr buf max : K _).
Proof. rewrite /fetchstr. keeps_tac. Qed.
Lemma keeps_argraw n : keeps R (argraw n : K _).
Proof. rewrite /argraw. keeps_tac. Qed.
Hint Resolve keeps_fetchaddr keeps_fetchstr keeps_argraw : keeps.
Lemma keeps_argint n : keeps R (argint n : K _).
Proof. rewrite /argint. keeps_tac. Qed.
Lemma keeps_argaddr n : keeps R (argaddr n : K _).
Proof. rewrite /argaddr. keeps_tac. Qed.
Hint Resolve keeps_argint keeps_argaddr : keeps.
Lemma keeps_argstr n buf max : keeps R (argstr n buf max : K _).
Proof. rewrite /argstr. keeps_tac. Qed.
Lemma keeps_argfd n : keeps R (argfd n : K _).
Proof. rewrite /argfd. keeps_tac. Qed.
Lemma keeps_geti ip : keeps R (geti_k ip : K _).
Proof. exact: keeps_onf. Qed.
Lemma keeps_updi ip f : keeps R (updi_k ip f : K _).
Proof. exact: keeps_onf. Qed.
Hint Resolve keeps_argstr keeps_argfd keeps_geti keeps_updi : keeps.

Lemma keeps_loadseg pt va ip off sz : keeps R (loadseg pt va ip off sz : K _).
Proof.
  rewrite /loadseg. generalize (Datatypes.S (Z.to_nat (sz / PGSIZE + 1))). intros fuel. generalize 0.
  induction fuel; intros i; cbn [loadseg_loop]; keeps_tac.
Qed.
Hint Resolve keeps_loadseg : keeps.
Lemma keeps_exec_load n pt ip off sz : keeps R (exec_load n pt ip off sz : K _).
Proof. revert off sz. induction n; intros; cbn [exec_load]; keeps_tac. Qed.
Lemma keeps_exec_args argv pt sb sp us : keeps R (exec_args argv pt sb sp us : K _).
Proof. revert sp us. induction argv; intros; cbn [exec_args]; keeps_tac. Qed.
Lemma keeps_exec_bad pt sz ip : keeps R (exec_bad pt sz ip : K _).
Proof. rewrite /exec_bad. keeps_tac. Qed.
Lemma keeps_exec_commit path pt sz sp entry argc oldsz : keeps R (exec_commit path pt sz sp entry argc oldsz : K _).
Proof. rewrite /exec_commit. keeps_tac. Qed.
Hint Resolve keeps_exec_load keeps_exec_args keeps_exec_bad keeps_exec_commit : keeps.
Lemma keeps_exec_stack path argv pt sz entry : keeps R (exec_stack path argv pt sz entry : K _).
Proof. rewrite /exec_stack. keeps_tac. Qed.
Hint Resolve keeps_exec_stack : keeps.
Lemma keeps_exec path argv : keeps R (exec path argv : K _).
Proof. rewrite /exec. keeps_tac. Qed.
Lemma keeps_sys_exec_args n uargv i argv : keeps R (sys_exec_args n uargv i argv : K _).
Proof. revert i argv. induction n; intros; cbn [sys_exec_args]; keeps_tac. Qed.
Lemma keeps_kfree_all l : keeps R (kfree_all l : K _).
Proof. induction l; cbn [kfree_all]; keeps_tac. Qed.
Hint Resolve keeps_exec keeps_sys_exec_args keeps_kfree_all : keeps.
Lemma keeps_sys_exec : keeps R (sys_exec : K _).
Proof. rewrite /sys_exec. keeps_tac. Qed.

Lemma keeps_sys_read : keeps R (sys_read : K _).
Proof. rewrite /sys_read. keeps_tac. Qed.
Lemma keeps_sys_write : keeps R (sys_write : K _).
Proof. rewrite /sys_write. keeps_tac. Qed.
Lemma keeps_sys_fstat : keeps R (sys_fstat : K _).
Proof. rewrite /sys_fstat. keeps_tac. Qed.
Lemma keeps_sys_link : keeps R (sys_link : K _).
Proof. rewrite /sys_link /sys_link_bad. keeps_tac. Qed.
Lemma keeps_sys_unlink : keeps R (sys_unlink : K _).
Proof. rewrite /sys_unlink /sys_unlink_locked /sys_unlink_bad. keeps_tac. Qed.
Lemma keeps_sys_open_bad ip : keeps R (sys_open_bad ip : K _).
Proof. rewrite /sys_open_bad. keeps_tac. Qed.
Hint Resolve keeps_sys_open_bad : keeps.
Lemma keeps_sys_mkdir : keeps R (sys_mkdir : K _).
Proof. rewrite /sys_mkdir. keeps_tac. Qed.
Lemma keeps_sys_mknod : keeps R (sys_mknod : K _).
Proof. rewrite /sys_mknod. keeps_tac. Qed.
Lemma keeps_sys_chdir : keeps R (sys_chdir : K _).
Proof. rewrite /sys_chdir. keeps_tac. Qed.

Lemma keeps_growproc n : keeps R (growproc n : K _).
Proof. rewrite /growproc. keeps_tac. Qed.
Hint Resolve keeps_growproc : keeps.
Lemma keeps_sys_getpid : keeps R (sys_getpid : K _).
Proof. rewrite /sys_getpid. keeps_tac. Qed.
Lemma keeps_sys_sbrk : keeps R (sys_sbrk : K _).
Proof. rewrite /sys_sbrk. keeps_tac. Qed.
Lemma keeps_sys_sleep : keeps R (sys_sleep : K _).
Proof. rewrite /sys_sleep /sys_sleep_run. keeps_tac. Qed.
Lemma keeps_sys_kill : keeps R (sys_kill : K _).
Proof. rewrite /sys_kill. keeps_tac. Qed.
Lemma keeps_sys_uptime : keeps R (sys_uptime : K _).
Proof. rewrite /sys_uptime. keeps_tac. Qed.
End keeps_code.

#[export] Hint Resolve keeps_getp keeps_getf keeps_myproc keeps_onmem keeps_onlog keeps_wakeup keeps_killed
  keeps_setkilled keeps_sleep_on keeps_kill keeps_pi_get keeps_pi_set keeps_pipe_init keeps_pipeclose
  keeps_pipewrite keeps_piperead_loop keeps_piperead keeps_uartstart keeps_uartputc keeps_consolewrite keeps_consoleread
  keeps_begin keeps_end keeps_fileclose_last keeps_filestat keeps_dev_read keeps_dev_write keeps_fileread
  keeps_filewrite_loop keeps_filewrite keeps_tf_get keeps_tf_set keeps_memory keeps_fetchaddr keeps_fetchstr
  keeps_argraw keeps_argint keeps_argaddr keeps_argstr keeps_argfd keeps_geti keeps_updi
  keeps_loadseg keeps_exec_load keeps_exec_args keeps_exec_bad keeps_exec_commit keeps_exec_stack keeps_exec
  keeps_sys_exec_args keeps_kfree_all keeps_sys_exec keeps_sys_read keeps_sys_write keeps_sys_fstat keeps_sys_link
  keeps_sys_unlink keeps_sys_open_bad keeps_sys_mkdir keeps_sys_mknod keeps_sys_chdir keeps_growproc keeps_sys_getpid
  keeps_sys_sbrk keeps_sys_sleep keeps_sys_kill keeps_sys_uptime : keeps.

(** The scan of [allocproc] returns a free slot. *)
Section scan.
Context {S : Type} {BC : BlockCache S} {LK : Linker} {FR : Frames} {TX : Text}.
Implicit Types k : kern S.
Lemma allocproc_scan_run n p k :
  ∃ q, allocproc_scan n p k = Ret q k ∧ (q = NULL ∨ p ≤ q < p + Z.of_nat n ∧ p_state (kproc k !!! q) = UNUSED).
Proof.
  revert p. induction n as [|n IH]; intros p; cbn [allocproc_scan]; [exists NULL; split; [done|by left]|].
  rewrite /getp bind_gets. case_bool_decide as E.
  - exists p. split; [done|]. right. split; [lia|done].
  - destruct (IH (p + 1)) as (q & Eq & [->|[Hq Hs]]); [exists NULL; split; [done|by left]|]. exists q. split; [done|]. right.
    split; [lia|done].
Qed.
End scan.
