(* ===== verification/FileInv.v ===== *)
(** * Open files are counted

    The reference count of an open file is the number of file descriptors
    that refer to it, through every system call and at every point where a
    process sleeps in one. *)
From S2P Require Import Prelude Riscv CString Kalloc Vm Cache Log Fs Kern KernInv Pipe Console File Proc Args Exec Sysfile.
From S2P Require Import Syscall Keeps.

(** ** Counting *)

Definition occ (f : Z) (l : list Z) : Z := Z.of_nat (length (filter (λ x, x = f) l)).
Fixpoint sumZ (g : Z → Z) (n : nat) (p : Z) : Z :=
  match n with O => 0 | Datatypes.S n' => g p + sumZ g n' (p + 1) end.

Lemma occ_cons f x l : occ f (x :: l) = (if decide (x = f) then 1 else 0) + occ f l.
Proof. rewrite /occ filter_cons. case_decide; cbn; lia. Qed.
Lemma occ_insert f l i x y :
  l !! i = Some y → occ f (<[i := x]> l) = occ f l - (if decide (y = f) then 1 else 0) + (if decide (x = f) then 1 else 0).
Proof.
  revert i. induction l as [|z l IH]; intros [|i] Hi; [discriminate Hi..| |]; cbn in Hi |- *; rewrite !occ_cons.
  - injection Hi as ->. lia.
  - rewrite (IH i Hi). lia.
Qed.
Lemma occ_nonneg f l : 0 ≤ occ f l.
Proof. rewrite /occ. lia. Qed.
Lemma occ_pos f l i : l !! i = Some f → 1 ≤ occ f l.
Proof. intros Hi. pose proof (occ_insert f l i (f - 1) f Hi). pose proof (occ_nonneg f (<[i := f - 1]> l)). repeat case_decide; lia. Qed.
Lemma occ_replicate f n : f ≠ NULL → occ f (replicate n NULL) = 0.
Proof. intros Hf. induction n; [done|]. cbn [replicate]. rewrite occ_cons decide_False; [lia|done]. Qed.

Lemma sumZ_ext g g' n p : (∀ q, p ≤ q < p + Z.of_nat n → g' q = g q) → sumZ g' n p = sumZ g n p.
Proof. revert p. induction n as [|n IH]; intros p H; [done|]. cbn [sumZ]. rewrite (H p); [|lia]. rewrite IH; [done|]. intros; apply H; lia. Qed.
Lemma sumZ_upd g g' n p q :
  p ≤ q < p + Z.of_nat n → (∀ r, r ≠ q → g' r = g r) → sumZ g' n p = sumZ g n p - g q + g' q.
Proof.
  revert p. induction n as [|n IH]; intros p Hq H; [lia|]. cbn [sumZ]. destruct (decide (q = p)) as [->|Hne].
  - rewrite (sumZ_ext g g'); [lia|]. intros r Hr. apply H. lia.
  - rewrite (IH (p + 1)); [|lia|done]. rewrite (H p); [lia|done].
Qed.
Lemma sumZ_ge g n p q : p ≤ q < p + Z.of_nat n → (∀ r, 0 ≤ g r) → g q ≤ sumZ g n p.
Proof.
  revert p. induction n as [|n IH]; intros p Hq H; [lia|]. cbn [sumZ]. assert (∀ n p, 0 ≤ sumZ g n p) as Hnn.
  { clear IH Hq. intros n'. induction n' as [|n' IH]; intros p'; cbn; [lia|]. specialize (H p'). specialize (IH (p' + 1)). lia. }
  destruct (decide (q = p)) as [->|Hne]; [specialize (Hnn n (p + 1)); lia|].
  specialize (IH (p + 1) ltac:(lia) H). specialize (H p). lia.
Qed.

Section fileinv.
Context {S : Type} {BC : BlockCache S} {LK : Linker} {FR : Frames} {TX : Text}.
Implicit Types k : kern S.

Abbreviation ofile k p := (p_ofile (kproc k !!! p)).
Definition dead (st : procstate) : bool := match st with UNUSED | ZOMBIE => true | _ => false end.

(** The file descriptors that refer to [f]. *)
Definition refs k (f : Z) : Z := sumZ (λ p, occ f (ofile k p)) (Z.to_nat NPROC) 0.

(** [e f] references to [f] are held by the running process itself. *)
Record files_ok k (e : Z → Z) : Prop := {
  fo_len : ∀ p, length (ofile k p) = 16%nat;
  fo_range : ∀ p i f, ofile k p !! i = Some f → f = NULL ∨ 0 ≤ f < NFILE;
  fo_ref : ∀ f, 0 ≤ f < NFILE → f_ref (kfile k !!! f) = refs k f + e f;
  fo_none : ∀ f, 0 ≤ f < NFILE → f_ref (kfile k !!! f) = 0 → f_type (kfile k !!! f) = FD_NONE;
  fo_dead : ∀ p, dead (p_state (kproc k !!! p)) = true → ofile k p = replicate 16 NULL;
}.
(** The current process. *)
Definition alive k : Prop := 0 ≤ kcur k < NPROC ∧ dead (p_state (kproc k !!! kcur k)) = false.
Definition none : Z → Z := λ _, 0.
Definition plus (f d : Z) (e : Z → Z) : Z → Z := λ g, e g + (if decide (g = f) then d else 0).

(** ** What leaves the counts alone *)

Record same_files k k' : Prop := {
  sf_cur : kcur k' = kcur k;
  sf_file : ∀ f, f_ref (kfile k' !!! f) = f_ref (kfile k !!! f) ∧ f_type (kfile k' !!! f) = f_type (kfile k !!! f);
  sf_proc : ∀ p, ofile k' p = ofile k p ∧ (dead (p_state (kproc k' !!! p)) = true → dead (p_state (kproc k !!! p)) = true);
}.

Lemma same_files_refl k : same_files k k.
Proof. by split. Qed.
Lemma same_files_trans k1 k2 k3 : same_files k1 k2 → same_files k2 k3 → same_files k1 k3.
Proof.
  intros [C1 F1 P1] [C2 F2 P2]. split; [congruence|..].
  - intros f. destruct (F1 f) as [A1 A2], (F2 f) as [B1 B2]. split; congruence.
  - intros p. destruct (P1 p) as [E1 D1], (P2 p) as [E2 D2]. split; [congruence|auto].
Qed.

Lemma files_ok_same k k' e : same_files k k' → files_ok k e → files_ok k' e.
Proof.
  intros [C F P] []. assert (∀ p, ofile k' p = ofile k p) as Ho by (intros p; apply P).
  assert (∀ f, refs k' f = refs k f) as Hr by (intros f; apply sumZ_ext; intros; by rewrite Ho).
  split.
  - intros p. by rewrite Ho.
  - intros p i f. rewrite Ho. apply fo_range0.
  - intros f Hf. destruct (F f) as [-> _]. rewrite Hr. by apply fo_ref0.
  - intros f Hf. destruct (F f) as [-> ->]. by apply fo_none0.
  - intros p Hd. rewrite Ho. apply fo_dead0. by apply P.
Qed.
Lemma alive_same k k' : same_files k k' → alive k → alive k'.
Proof.
  intros [C F P] [Hc Hd]. rewrite /alive C. split; [done|]. destruct (dead (p_state (kproc k' !!! kcur k))) eqn:E; [|done].
  apply P in E. congruence.
Qed.

#[export] Instance same_files_framing : Framing same_files.
Proof.
  split; [apply same_files_refl|apply same_files_trans|done|done|..].
  - intros P k HP. split; [done|done|]. intros p. destruct (HP p) as [_ _ Ho _ Hs]. split; [done|]. cbn.
    destruct Hs as [->|[_ ->]]; [done|discriminate].
  - intros k. split; [done|done|]. intros p. cbn. rewrite updp_lookup. case_decide; [subst; split; [done|discriminate]|done].
  - intros f g k Hg. split; [done| |done]. intros q. cbn.
    destruct (decide (q = f)) as [->|]; [rewrite lookup_total_insert_eq; apply Hg|by rewrite lookup_total_insert_ne].
Qed.

(** Changing the other fields of a process, and keeping it alive. *)
Lemma keeps_updp_files p g :
  (∀ x, p_ofile (g x) = p_ofile x ∧ (dead (p_state (g x)) = true → dead (p_state x) = true)) → keeps same_files (updp p g).
Proof.
  intros Hg. apply keeps_modify. intros k. split; [done|done|]. intros q. cbn. rewrite updp_lookup.
  case_decide; [subst; apply Hg|done].
Qed.
Lemma keeps_nextpid f : keeps same_files (modify (λ k, set_knextpid (f k) k)).
Proof. apply keeps_modify. by split. Qed.
End fileinv.

#[export] Hint Extern 1 (keeps same_files (updp _ _)) =>
  apply keeps_updp_files; intros []; cbn; split; [reflexivity|discriminate || tauto] : keeps.
#[export] Hint Resolve keeps_nextpid : keeps.
