(* ===== verification/FileRefs.v ===== *)
(** * Every system call keeps the reference counts of open files right *)
From S2P Require Import Prelude Riscv CString Kalloc Vm Cache Log Fs Kern KernInv Pipe Console File Proc Args Exec Sysfile.
From S2P Require Import Syscall Keeps FileInv.

Section filerefs.
Context {S : Type} {BC : BlockCache S} {LK : Linker} {FR : Frames} {TX : Text}.
Implicit Types k : kern S.
Abbreviation ofile k p := (p_ofile (kproc k !!! p)).

Lemma files_ok_ext k e e' : (∀ f, 0 ≤ f < NFILE → e' f = e f) → files_ok k e → files_ok k e'.
Proof. intros He []. split; try done. intros f Hf. rewrite He //. by apply fo_ref. Qed.

Lemma refs_nonneg k f : 0 ≤ refs k f.
Proof.
  rewrite /refs. assert (∀ n p, 0 ≤ sumZ (λ p, occ f (ofile k p)) n p) as H; [|apply H].
  induction n as [|n IH]; intros p; cbn; [lia|]. pose proof (occ_nonneg f (ofile k p)). specialize (IH (p + 1)). lia.
Qed.
Lemma refs_pos k p i f : 0 ≤ p < NPROC → ofile k p !! i = Some f → 1 ≤ refs k f.
Proof.
  intros Hp Hi. pose proof (occ_pos _ _ _ Hi) as H1.
  pose proof (sumZ_ge (λ p, occ f (ofile k p)) (Z.to_nat NPROC) 0 p) as H. cbv beta in H.
  specialize (H ltac:(unfold NPROC in *; lia) ltac:(intros; apply occ_nonneg)). rewrite /refs. lia.
Qed.

(** ** Steps that change a count *)

Lemma ok_updf k e f g d :
  files_ok k e → 0 ≤ f < NFILE → f_ref (g (kfile k !!! f)) = f_ref (kfile k !!! f) + d →
  (f_ref (g (kfile k !!! f)) = 0 → f_type (g (kfile k !!! f)) = FD_NONE) →
  files_ok (set_kfile (<[f := g (kfile k !!! f)]> (kfile k)) k) (plus f d e).
Proof.
  intros [] Hf Hr Ht. split; try done.
  - intros h Hh. cbn. rewrite /plus. change (refs _ h) with (refs k h). case_decide as E.
    + subst. rewrite lookup_total_insert_eq Hr fo_ref //. lia.
    + rewrite lookup_total_insert_ne // fo_ref //. lia.
  - intros h Hh. cbn. destruct (decide (h = f)) as [->|]; [by rewrite lookup_total_insert_eq|].
    rewrite lookup_total_insert_ne //. by apply fo_none.
Qed.

(** The state after [p->ofile[i] = x]. *)
Definition set_fd k (p : Z) (i : nat) (x : Z) : kern S :=
  set_kproc (<[p := set_ofile (<[i := x]> (ofile k p)) (kproc k !!! p)]> (kproc k)) k.

Lemma set_fd_ofile k p i x q : ofile (set_fd k p i x) q = if decide (q = p) then <[i := x]> (ofile k p) else ofile k q.
Proof. rewrite /set_fd /=. destruct (decide (q = p)) as [->|]; [by rewrite lookup_total_insert_eq|by rewrite lookup_total_insert_ne]. Qed.
Lemma set_fd_state k p i x q : p_state (kproc (set_fd k p i x) !!! q) = p_state (kproc k !!! q).
Proof. rewrite /set_fd /=. destruct (decide (q = p)) as [->|]; [by rewrite lookup_total_insert_eq|by rewrite lookup_total_insert_ne]. Qed.
Lemma set_fd_alive k p i x : alive k → alive (set_fd k p i x).
Proof. intros [Hc Hd]. split; [done|]. by rewrite set_fd_state. Qed.

Lemma ok_set_fd k e p i x old :
  files_ok k e → 0 ≤ p < NPROC → ofile k p !! i = Some old → x = NULL ∨ 0 ≤ x < NFILE →
  dead (p_state (kproc k !!! p)) = false → files_ok (set_fd k p i x) (plus old 1 (plus x (-1) e)).
Proof.
  intros [] Hp Hi Hx Hd. split; try done.
  - intros q. rewrite set_fd_ofile. case_decide; [by rewrite length_insert|done].
  - intros q j h. rewrite set_fd_ofile. case_decide; [|apply fo_range]. intros [(-> & -> & _)|[_ Hj]]%list_lookup_insert_Some; [done|].
    by apply fo_range in Hj.
  - intros h Hh. rewrite fo_ref // /plus. cbn [kfile set_fd set_kproc].
    assert (refs (set_fd k p i x) h = refs k h - occ h (ofile k p) + occ h (<[i := x]> (ofile k p))) as ->.
    { rewrite /refs. rewrite (sumZ_upd (λ p, occ h (ofile k p)) _ _ _ p); [|unfold NPROC in *; lia|].
      - rewrite set_fd_ofile decide_True //.
      - intros r Hr. by rewrite set_fd_ofile decide_False. }
    rewrite (occ_insert _ _ _ _ _ Hi). repeat case_decide; subst; try done; lia.
  - intros q. rewrite set_fd_state set_fd_ofile. intros Hq. case_decide; [subst; congruence|by apply fo_dead].
Qed.

(** ** The functions *)

(** Running [m] after steps that leave the counts alone. *)
Definition from {A} k0 (m : M (kern S) A) (Q : A → kern S → Prop) (W : kern S → Prop) : Prop :=
  ∀ k, same_files k0 k → holds m k Q W.
Lemma from_bind {A B} k0 (m : M (kern S) A) (f : A → M (kern S) B) Q (W : kern S → Prop) :
  keeps same_files m → (∀ k, same_files k0 k → W k) → (∀ a, from k0 (f a) Q W) → from k0 (m ≫= f) Q W.
Proof.
  intros Hm HW Hf k Hs. eapply holds_bind.
  - eapply holds_mono; [apply Hm| |]; cbn.
    + intros a k' Hs'. exact (same_files_trans _ _ _ Hs Hs').
    + intros k' Hs'. apply HW. exact (same_files_trans _ _ _ Hs Hs').
  - intros a k' Hs'. by apply Hf.
Qed.
Lemma from_keeps {A} k0 (m : M (kern S) A) (Q : A → kern S → Prop) (W : kern S → Prop) :
  keeps same_files m → (∀ a k, same_files k0 k → Q a k) → (∀ k, same_files k0 k → W k) → from k0 m Q W.
Proof.
  intros Hm HQ HW k Hs. eapply holds_mono; [apply Hm| |]; cbn.
  - intros a k' Hs'. apply HQ. exact (same_files_trans _ _ _ Hs Hs').
  - intros k' Hs'. apply HW. exact (same_files_trans _ _ _ Hs Hs').
Qed.
Lemma from_holds {A} k0 (m : M (kern S) A) Q W : from k0 m Q W → holds m k0 Q W.
Proof. intros H. apply H, same_files_refl. Qed.

(** The invariant and the current process. *)
Definition ok k (e : Z → Z) : Prop := files_ok k e ∧ alive k.
Lemma ok_same k k' e : same_files k k' → ok k e → ok k' e.
Proof. intros Hs [H1 H2]. split; [by eapply files_ok_same|by eapply alive_same]. Qed.

Lemma keeps_ok {A} (m : M (kern S) A) k e :
  keeps same_files m → ok k e → holds m k (λ _ k', ok k' e) (λ k', files_ok k' e).
Proof.
  intros Hm Hok. eapply holds_mono; [apply Hm| |]; cbn.
  - intros _ k' Hs. by eapply ok_same.
  - intros k' Hs. by eapply ok_same.
Qed.

Lemma filealloc_ok k e :
  ok k e → ∃ f k', filealloc k = Ret f k' ∧
    (f = NULL ∧ k' = k ∨ 0 ≤ f < NFILE ∧ k' = set_kfile (<[f := set_fref 1 (kfile k !!! f)]> (kfile k)) k ∧
       f_ref (kfile k !!! f) = 0 ∧ ok k' (plus f 1 e)).
Proof.
  intros [Hok Ha]. rewrite /filealloc. assert (∀ n f0, 0 ≤ f0 → f0 + Z.of_nat n = NFILE → ∃ f k', filealloc_loop n f0 k = Ret f k' ∧
    (f = NULL ∧ k' = k ∨ 0 ≤ f < NFILE ∧ k' = set_kfile (<[f := set_fref 1 (kfile k !!! f)]> (kfile k)) k ∧ f_ref (kfile k !!! f) = 0))
    as H.
  { induction n as [|n IH]; intros f0 H0 Hn; cbn [filealloc_loop].
    - exists NULL, k. split; [done|by left].
    - rewrite /getf bind_gets. destruct (Z.eqb_spec (f_ref (kfile k !!! f0)) 0) as [E|E].
      + exists f0. eexists. split; [reflexivity|]. right. split_and!; try done; lia.
      + apply IH; lia. }
  destruct (H (Z.to_nat NFILE) 0 ltac:(lia) ltac:(by vm_compute)) as (f & k' & E & [[-> ->]|(Hf & -> & Er)]).
  - exists NULL, k. split; [done|by left].
  - exists f. eexists. split; [exact E|]. right. split_and!; try done; [lia..|]. split; [|done].
    apply ok_updf; [done|done|rewrite Er; done|discriminate].
Qed.

Lemma filedup_ok k e f :
  ok k e → 0 ≤ f < NFILE → 1 ≤ refs k f + e f →
  ∃ k', filedup f k = Ret f k' ∧ ok k' (plus f 1 e) ∧ kproc k' = kproc k ∧ kcur k' = kcur k.
Proof.
  intros [Hok Ha] Hf Hr. rewrite /filedup /getf bind_gets (fo_ref _ _ Hok) //. assert (refs k f + e f <? 1 = false) as -> by lia.
  eexists. split; [reflexivity|]. split; [|done]. split; [|done]. apply (ok_updf k e f (λ x, set_fref (f_ref x + 1) x) 1); [done..|].
  cbn. rewrite (fo_ref _ _ Hok) //. lia.
Qed.

(** [fileclose] gives up the reference, and sleeps only after that. *)
Definition same_ofile k k' : Prop := kcur k' = kcur k ∧ ∀ p, ofile k' p = ofile k p.
Lemma same_files_ofile k k' : same_files k k' → same_ofile k k'.
Proof. intros [C _ P]. split; [done|]. intros p. apply P. Qed.

(** ... and the types of the files other than [f]. *)
Definition same_but (f : Z) k k' : Prop := same_ofile k k' ∧ ∀ h, h ≠ f → f_type (kfile k' !!! h) = f_type (kfile k !!! h).

Lemma fileclose_ok k e f :
  ok k e → 0 ≤ f < NFILE → 1 ≤ refs k f + e f →
  holds (fileclose f) k (λ _ k', ok k' (plus f (-1) e) ∧ same_but f k k') (λ k', files_ok k' (plus f (-1) e)).
Proof.
  intros [Hok Ha] Hf Hr. rewrite /fileclose.
  assert (f_ref (kfile k !!! f) = refs k f + e f) as Er by (by rewrite (fo_ref _ _ Hok)).
  rewrite /holds /getf bind_gets Er. assert (refs k f + e f <? 1 = false) as -> by lia.
  rewrite /updf bind_modify bind_gets. cbn [kfile set_kfile]. rewrite lookup_total_insert_eq. cbn [f_ref set_fref]. rewrite Er.
  destruct (refs k f + e f - 1 >? 0) eqn:Eg.
  - split; [split; [|done]|split; [done|]].
    + apply (ok_updf k e f (λ x, set_fref (refs k f + e f - 1) x) (-1)); [done|done|cbn; lia|]. cbn. lia.
    + intros h Hh. cbn. by rewrite lookup_total_insert_ne.
  - rewrite !bind_modify. cbn [kfile set_kfile kproc kcur kinitproc knextpid kcons kticks kfs]. rewrite !lookup_total_insert_eq !insert_insert_eq.
    set (x := set_ftype _ _). set (k1 := set_kfile _ _).
    assert (files_ok k1 (plus f (-1) e)) as Hok1.
    { rewrite /k1. apply (ok_updf k e f (λ _, x) (-1)); [done|done|cbn; lia|done]. }
    change (holds (fileclose_last (set_fref (refs k f + e f - 1) (kfile k !!! f))) k1
      (λ _ k', ok k' (plus f (-1) e) ∧ same_but f k k') (λ k', files_ok k' (plus f (-1) e))).
    eapply holds_mono; [apply (keeps_fileclose_last same_files)| |]; cbn.
    + intros _ k' Hs. split; [by eapply ok_same|]. split; [exact (same_files_ofile _ _ Hs)|]. intros h Hh.
      destruct Hs as [_ F _]. destruct (F h) as [_ ->]. cbn. by rewrite lookup_total_insert_ne.
    + intros k' Hs. by eapply files_ok_same.
Qed.

(** ** Descriptors *)

Lemma fdalloc_ok k e f :
  ok k e → 0 ≤ f < NFILE →
  ∃ fd k', fdalloc f k = Ret fd k' ∧
    (fd = -1 ∧ k' = k ∨
     0 ≤ fd < NOFILE ∧ ofile k (kcur k) !! Z.to_nat fd = Some NULL ∧ k' = set_fd k (kcur k) (Z.to_nat fd) f ∧ ok k' (plus f (-1) e)).
Proof.
  intros [Hok Ha] Hf. rewrite /fdalloc /myproc bind_gets. pose proof (fo_len _ _ Hok (kcur k)) as Hl.
  assert (∀ n i, (i + n = 16)%nat → ∃ fd k', fdalloc_loop n i (kcur k) f k = Ret fd k' ∧ (fd = -1 ∧ k' = k ∨
    0 ≤ fd < NOFILE ∧ ofile k (kcur k) !! Z.to_nat fd = Some NULL ∧ k' = set_fd k (kcur k) (Z.to_nat fd) f)) as H.
  { induction n as [|n IH]; intros i Hn; cbn [fdalloc_loop].
    - exists (-1), k. split; [done|by left].
    - rewrite /getp bind_gets. destruct (Z.eqb_spec (ofile k (kcur k) !!! i) NULL) as [E|E]; [|apply IH; lia].
      exists (Z.of_nat i). eexists. split; [reflexivity|]. right. rewrite Nat2Z.id. split; [unfold NOFILE; lia|]. split; [|done].
      rewrite -E. apply list_lookup_lookup_total_lt. rewrite Hl. lia. }
  destruct (H 16%nat O ltac:(lia)) as (fd & k' & E & [[-> ->]|(Hfd & Ho & ->)]).
  - exists (-1), k. split; [exact E|by left].
  - exists fd. eexists. split; [exact E|]. right. split_and!; try done; [lia..|]. split; [|by apply set_fd_alive].
    eapply files_ok_ext; [|apply (ok_set_fd k e _ _ f NULL Hok)]; [|apply Ha|done|by right|apply Ha].
    intros h Hh. rewrite /plus. unfold NULL. repeat case_decide; lia.
Qed.

Lemma argraw_run k n :
  0 ≤ n ≤ 5 → argraw n k = Ret (ld64 (km (fmem (kfs k))) (p_trapframe (kproc k !!! kcur k) + (TF_a0 + 8 * n))) k.
Proof.
  intros Hn. rewrite /argraw /myproc bind_gets /getp bind_gets. by assert ((0 <=? n) && (n <=? 5) = true) as -> by lia.
Qed.

(** [argfd] changes nothing, and returns an open descriptor. *)
Lemma argfd_ok k n :
  0 ≤ n ≤ 5 → ∃ r, argfd n k = Ret r k ∧
    ∀ fd f, r = Some (fd, f) → 0 ≤ fd < NOFILE ∧ ofile k (kcur k) !!! Z.to_nat fd = f ∧ f ≠ NULL.
Proof.
  intros Hn. rewrite /argfd /argint bind_assoc (bind_ret _ _ _ _ _ (argraw_run k n Hn)) bind_mret /myproc /getp !bind_gets.
  set (fd := s32 _). destruct ((fd <? 0) || (fd >=? NOFILE)) eqn:Hg.
  { exists None. split; [done|]. intros ? ? [=]. }
  apply orb_false_iff in Hg as [G1 G2]. destruct (Z.eqb_spec (ofile k (kcur k) !!! Z.to_nat fd) NULL) as [E|E].
  - exists None. split; [done|]. intros ? ? [=].
  - eexists. split; [done|]. intros ? ? [= <- <-]. split; [lia|done].
Qed.

(** An open descriptor refers to an open file. *)
Lemma fd_open k e fd f :
  ok k e → 0 ≤ fd < NOFILE → ofile k (kcur k) !!! Z.to_nat fd = f → f ≠ NULL →
  ofile k (kcur k) !! Z.to_nat fd = Some f ∧ 0 ≤ f < NFILE ∧ 1 ≤ refs k f.
Proof.
  intros [Hok [Hc Hd]] Hfd <- Hn. assert (ofile k (kcur k) !! Z.to_nat fd = Some (ofile k (kcur k) !!! Z.to_nat fd)) as Hi.
  { apply list_lookup_lookup_total_lt. rewrite (fo_len _ _ Hok). unfold NOFILE in *. lia. }
  split_and!; [done|..].
  - destruct (fo_range _ _ Hok _ _ _ Hi); [done|lia].
  - destruct (fo_range _ _ Hok _ _ _ Hi); [done|lia].
  - by eapply refs_pos.
Qed.

Lemma sys_dup_ok k : ok k none → ∃ r k', sys_dup k = Ret r k' ∧ ok k' none.
Proof.
  intros Hok. rewrite /sys_dup. destruct (argfd_ok k 0 ltac:(lia)) as (r & E & Hr). rewrite (bind_ret _ _ _ _ _ E).
  destruct r as [[fd f]|]; [|by exists (-1), k]. destruct (Hr fd f eq_refl) as (Hfd & Ho & Hn).
  destruct (fd_open k none fd f Hok Hfd Ho Hn) as (Hi & Hf & Hp).
  destruct (fdalloc_ok k none f Hok Hf) as (fd' & k1 & E1 & [[-> ->]|(Hfd' & Hnull & Ek1 & Hok1)]); rewrite (bind_ret _ _ _ _ _ E1).
  - by exists (-1), k.
  - assert (fd' <? 0 = false) as -> by lia.
    destruct (filedup_ok k1 (plus f (-1) none) f Hok1 Hf) as (k2 & E2 & Hok2 & _).
    { pose proof (fo_ref _ _ (proj1 Hok1) f Hf) as H1. pose proof (fo_ref _ _ (proj1 Hok) f Hf) as H0.
      assert (kfile k1 = kfile k) as Ekf by (by rewrite Ek1). rewrite Ekf H0 in H1. rewrite -H1. rewrite /none. lia. }
    rewrite (bind_ret _ _ _ _ _ E2). exists fd', k2. split; [done|]. destruct Hok2 as [Hok2 Ha]. split; [|done].
    eapply files_ok_ext; [|exact Hok2]. intros h Hh. rewrite /plus /none. case_decide; lia.
Qed.

(** [p->ofile[fd] = 0] and [fileclose] *)
Lemma clear_fd_eq p fd k : clear_fd p fd k = Ret tt (set_fd k p (Z.to_nat fd) NULL).
Proof. done. Qed.
Lemma clear_fd_ok k e fd f :
  ok k e → ofile k (kcur k) !! Z.to_nat fd = Some f → ok (set_fd k (kcur k) (Z.to_nat fd) NULL) (plus f 1 e).
Proof.
  intros [Hok Ha] Hi. split; [|by apply set_fd_alive].
  eapply files_ok_ext; [|apply (ok_set_fd k e _ _ NULL f Hok)]; [|apply Ha|done|by left|apply Ha].
  intros h Hh. rewrite /plus. unfold NULL. repeat case_decide; lia.
Qed.

Lemma sys_close_ok k : ok k none → holds sys_close k (λ _ k', ok k' none) (λ k', files_ok k' none).
Proof.
  intros Hok. rewrite /sys_close. destruct (argfd_ok k 0 ltac:(lia)) as (r & E & Hr). rewrite /holds (bind_ret _ _ _ _ _ E).
  destruct r as [[fd f]|]; [|done]. destruct (Hr fd f eq_refl) as (Hfd & Ho & Hn).
  destruct (fd_open k none fd f Hok Hfd Ho Hn) as (Hi & Hf & Hp). rewrite /myproc bind_gets (bind_ret _ _ _ _ _ (clear_fd_eq _ _ _)).
  pose proof (clear_fd_ok k none fd f Hok Hi) as Hok1. set (k1 := set_fd _ _ _ _) in *.
  assert (∀ k', files_ok k' (plus f (-1) (plus f 1 none)) → files_ok k' none) as Hext.
  { intros k'. apply files_ok_ext. intros h Hh. rewrite /plus /none. case_decide; lia. }
  change (holds (fileclose f;; mret 0) k1 (λ _ k', ok k' none) (λ k', files_ok k' none)).
  apply holds_bind with (λ _ k', ok k' (plus f (-1) (plus f 1 none)) ∧ same_but f k1 k').
  - eapply holds_mono; [apply (fileclose_ok k1 (plus f 1 none) f Hok1 Hf)|done|exact Hext].
    pose proof (refs_nonneg k1 f). rewrite /plus decide_True // /none. lia.
  - intros _ k' [[H1 H2] _]. split; [by apply Hext|done].
Qed.

(** ** open *)

Lemma same_files_refs k k' f : same_files k k' → refs k' f = refs k f.
Proof. intros [_ _ P]. apply sumZ_ext. intros q _. by destruct (P q) as [-> _]. Qed.

(** Steps that leave the counts alone, then [f]. *)
Lemma keeps_then {A B} (m : M (kern S) A) (f : A → M (kern S) B) k e Q W :
  keeps same_files m → ok k e → (∀ k', files_ok k' e → W k') → (∀ a k', same_files k k' → ok k' e → holds (f a) k' Q W) →
  holds (m ≫= f) k Q W.
Proof.
  intros Hm Hok HW Hf. apply holds_bind with (λ _ k', same_files k k').
  - eapply holds_mono; [apply Hm|done|]. intros k' Hs. apply HW. by eapply ok_same.
  - intros a k' Hs. apply Hf; [done|]. by eapply ok_same.
Qed.

(** A file in use gets another type. *)
Lemma ok_retype k f g :
  ok k none → 0 ≤ f < NFILE → 1 ≤ refs k f → (∀ x, f_ref (g x) = f_ref x) →
  ok (set_kfile (<[f := g (kfile k !!! f)]> (kfile k)) k) none.
Proof.
  intros [Hok Ha] Hf Hr Hg. split; [|done]. eapply files_ok_ext; [|apply (ok_updf k none f g 0 Hok Hf)].
  - intros h Hh. rewrite /plus /none. case_decide; lia.
  - rewrite Hg. lia.
  - rewrite Hg (fo_ref _ _ Hok) // /none. lia.
Qed.

Abbreviation preserves m k := (holds m k (λ _ k', ok k' none) (λ k', files_ok k' none)).

Lemma preserves_keeps {A} (m : M (kern S) A) k : keeps same_files m → ok k none → preserves m k.
Proof. intros. by apply keeps_ok. Qed.

(** [fileclose] of the only reference the process holds itself. *)
Lemma fileclose_own {B} k f (m : M (kern S) B) :
  ok k (plus f 1 none) → 0 ≤ f < NFILE → (∀ k', ok k' none → same_ofile k k' → preserves m k') →
  preserves (fileclose f;; m) k.
Proof.
  intros Hok Hf Hm. assert (∀ k', files_ok k' (plus f (-1) (plus f 1 none)) → files_ok k' none) as Hext.
  { intros k'. apply files_ok_ext. intros h Hh. rewrite /plus /none. case_decide; lia. }
  apply holds_bind with (λ _ k', ok k' (plus f (-1) (plus f 1 none)) ∧ same_but f k k').
  - eapply holds_mono; [apply (fileclose_ok k (plus f 1 none) f Hok Hf)|done|exact Hext].
    pose proof (refs_nonneg k f). rewrite /plus decide_True // /none. lia.
  - intros _ k' [[H1 H2] [Ho _]]. apply Hm; [|done]. split; [by apply Hext|done].
Qed.

Lemma sys_open_file_ok ip omode k : ok k none → preserves (sys_open_file ip omode) k.
Proof.
  intros Hok. rewrite /sys_open_file. destruct (filealloc_ok k none Hok) as (f & k1 & E & [[-> ->]|(Hf & Ek1 & Er & Hok1)]);
    rewrite /holds (bind_ret _ _ _ _ _ E).
  { apply (preserves_keeps (sys_open_bad ip) k); [keeps_tac|done]. }
  assert (f =? NULL = false) as -> by (unfold NULL; lia). cbn [negb].
  destruct (fdalloc_ok k1 _ f Hok1 Hf) as (fd & k2 & E2 & [[-> ->]|(Hfd & Hnull & Ek2 & Hok2)]); rewrite (bind_ret _ _ _ _ _ E2).
  { apply (fileclose_own k1 f (sys_open_bad ip) Hok1 Hf). intros k' Hk' _. apply preserves_keeps; [keeps_tac|done]. }
  assert (fd <? 0 = false) as -> by lia.
  assert (ok k2 none) as Hok2'.
  { destruct Hok2 as [H Ha]. split; [|done]. eapply files_ok_ext; [|exact H]. intros h Hh. rewrite /plus /none. case_decide; lia. }
  assert (1 ≤ refs k2 f) as Hr2.
  { apply (refs_pos k2 (kcur k1) (Z.to_nat fd)); [apply Hok1|]. rewrite Ek2 set_fd_ofile decide_True //.
    apply list_lookup_insert_eq. by eapply lookup_lt_Some. }
  eapply (keeps_then (geti_k ip) _ k2 none); [keeps_tac|done|done|]. intros x k3 Hs3 Hok3.
  assert (1 ≤ refs k3 f) as Hr3 by (by rewrite (same_files_refs _ _ _ Hs3)).
  apply holds_bind with (λ _ k', ok k' none).
  - destruct (i_type x =? T_DEVICE); apply ok_retype; try done.
  - intros _ k4 Hok4. apply preserves_keeps; [|done]. keeps_tac.
Qed.

Lemma sys_open_ok k : ok k none → preserves sys_open k.
Proof.
  intros Hok. assert (∀ ip omode k', ok k' none → preserves (sys_open_locked ip omode) k') as Hl.
  { intros ip omode k' Hk'. rewrite /sys_open_locked. eapply keeps_then; [keeps_tac|done|done|].
    intros x k2 _ Hok2. destruct (_ && _); [|by apply sys_open_file_ok]. apply preserves_keeps; [keeps_tac|done]. }
  rewrite /sys_open. eapply keeps_then; [keeps_tac|done|done|]. intros omode k1 _ Hok1. cbv zeta.
  eapply keeps_then; [keeps_tac|done|done|]. intros n k2 _ Hok2. destruct (n <? 0); [done|].
  eapply keeps_then; [keeps_tac|done|done|]. intros _ k3 _ Hok3. destruct (has omode O_CREATE).
  - eapply keeps_then; [keeps_tac|done|done|]. intros ip k4 _ Hok4. destruct (ip =? NULL); [|by apply Hl].
    apply preserves_keeps; [keeps_tac|done].
  - eapply keeps_then; [keeps_tac|done|done|]. intros ip k4 _ Hok4.
    destruct (ip =? NULL); [apply preserves_keeps; [keeps_tac|done]|].
    eapply keeps_then; [keeps_tac|done|done|]. intros _ k5 _ Hok5.
    eapply keeps_then; [keeps_tac|done|done|]. intros x k6 _ Hok6.
    destruct (_ && _); [apply preserves_keeps; [keeps_tac|done]|by apply Hl].
Qed.

(** ** pipe *)

Definition nosleep {A B} (m : M A B) (s : A) : Prop := match m s with Sleep _ _ => False | _ => True end.

Lemma nosleep_bind {A B C} (m : M A B) (f : B → M A C) s :
  nosleep m s → (∀ b s', m s = Ret b s' → nosleep (f b) s') → nosleep (m ≫= f) s.
Proof. rewrite /nosleep /mbind /M_bind. destruct (m s); [intros _ H; by apply H|done..]. Qed.
Lemma holds_nosleep {A B} (m : M A B) s Q W W' : nosleep m s → holds m s Q W → holds m s Q W'.
Proof. rewrite /nosleep /holds. by destruct (m s). Qed.

Lemma nosleep_wakeup c k : nosleep (wakeup c) k.
Proof. destruct (wakeup_run c k) as (P' & E & _). by rewrite /nosleep E. Qed.
Lemma nosleep_kfree pi k : nosleep (onmem (kfree pi)) k.
Proof. rewrite /nosleep /onmem /onf /onm /lift /kfree. destruct (kfree_bad pi); [done|]. exact I. Qed.
Lemma nosleep_pipeclose pi w k : nosleep (pipeclose pi w) k.
Proof.
  rewrite /pipeclose. apply nosleep_bind.
  - destruct w; apply nosleep_bind; [exact I|intros; apply nosleep_wakeup|exact I|intros; apply nosleep_wakeup].
  - intros _ k' _. apply nosleep_bind; [exact I|]. intros ro k2 _. apply nosleep_bind; [exact I|]. intros wo k3 _.
    destruct (_ && _); [apply nosleep_kfree|exact I].
Qed.

(** Closing a pipe, or a file without a type, does not sleep. *)
Definition no_inode (x : file) : bool := match f_type x with FD_NONE | FD_PIPE => true | _ => false end.
Lemma nosleep_fileclose f k : no_inode (kfile k !!! f) = true → nosleep (fileclose f) k.
Proof.
  intros Ht. rewrite /nosleep /fileclose /getf bind_gets. destruct (f_ref _ <? 1); [exact I|].
  rewrite /updf bind_modify bind_gets. cbn [kfile set_kfile]. rewrite lookup_total_insert_eq. destruct (_ >? 0); [exact I|].
  rewrite !bind_modify /fileclose_last. cbn [f_type set_fref]. unfold no_inode in Ht.
  destruct (f_type (kfile k !!! f)); try discriminate Ht; cbn; [exact I|]. apply nosleep_pipeclose.
Qed.

(** [fileclose] of a reference the process holds itself; others may remain. *)
Lemma fileclose_held {B} k e e' f (m : M (kern S) B) Q W :
  ok k e → 0 ≤ f < NFILE → 1 ≤ e f → (∀ h, 0 ≤ h < NFILE → e' h = plus f (-1) e h) →
  no_inode (kfile k !!! f) = true →
  (∀ k', ok k' e' → same_but f k k' → holds m k' Q W) →
  holds (fileclose f;; m) k Q W.
Proof.
  intros Hok Hf He He' Ht Hm. pose proof (nosleep_fileclose f k Ht) as Hns.
  assert (∀ k', ok k' (plus f (-1) e) → ok k' e') as Hext.
  { intros k' [H1 H2]. split; [|done]. eapply files_ok_ext; [exact He'|done]. }
  pose proof (fileclose_ok k e f Hok Hf ltac:(pose proof (refs_nonneg k f); lia)) as Hc.
  apply holds_bind with (λ _ k', ok k' (plus f (-1) e) ∧ same_but f k k').
  - by eapply holds_nosleep.
  - intros _ k' [Hk' Ho]. apply Hm; [by apply Hext|done].
Qed.

Lemma nosleep_kalloc k : nosleep (onmem kalloc) k.
Proof.
  rewrite /nosleep /onmem /onf /onm /lift /kalloc. rewrite !bind_gets. destruct (negb _); exact I.
Qed.
Lemma nosleep_keeps {A} (m : M (kern S) A) k W : nosleep m k → keeps same_files m → holds m k (λ _, same_files k) W.
Proof. intros Hn Hm. eapply holds_nosleep; [done|apply Hm]. Qed.

(** Two references the process holds itself. *)
Definition two (f0 f1 : Z) : Z → Z := plus f1 1 (plus f0 1 none).
Lemma no_inode_same k k' f : same_files k k' → no_inode (kfile k' !!! f) = no_inode (kfile k !!! f).
Proof. intros [_ F _]. rewrite /no_inode. by destruct (F f) as [_ ->]. Qed.
Lemma no_inode_free k e f : files_ok k e → 0 ≤ f < NFILE → f_ref (kfile k !!! f) = 0 → no_inode (kfile k !!! f) = true.
Proof. intros Hok Hf Hr. rewrite /no_inode (fo_none _ _ Hok f Hf Hr) //. Qed.

(** Closing both. *)
Lemma close_two {B} k f0 f1 (r : B) (Q : B → kern S → Prop) W :
  f0 ≠ f1 → 0 ≤ f0 < NFILE → 0 ≤ f1 < NFILE → ok k (two f0 f1) →
  no_inode (kfile k !!! f0) = true → no_inode (kfile k !!! f1) = true → (∀ k', ok k' none → Q r k') →
  holds (fileclose f0;; fileclose f1;; mret r) k Q W.
Proof.
  intros Hne H0 H1 Hok T0 T1 HQ. apply (fileclose_held k (two f0 f1) (plus f1 1 none)); [done|done| |..|done|].
  - rewrite /two /plus /none. repeat case_decide; try done; lia.
  - intros h Hh. rewrite /two /plus /none. repeat case_decide; lia.
  - intros k1 Hok1 [_ Ht]. apply (fileclose_held k1 (plus f1 1 none) none); [done|done| |..].
    + rewrite /plus /none decide_True //.
    + intros h Hh. rewrite /plus /none. repeat case_decide; lia.
    + rewrite /no_inode Ht //.
    + intros k2 Hok2 _. by apply HQ.
Qed.

Lemma ok_retype_two k f0 f1 g0 g1 :
  f0 ≠ f1 → 0 ≤ f0 < NFILE → 0 ≤ f1 < NFILE → ok k (two f0 f1) →
  (∀ x, f_ref (g0 x) = f_ref x) → (∀ x, f_ref (g1 x) = f_ref x) →
  let k' := set_kfile (<[f0 := g0 (kfile k !!! f0)]> (kfile k)) k in
  ok (set_kfile (<[f1 := g1 (kfile k' !!! f1)]> (kfile k')) k') (two f0 f1).
Proof.
  intros Hne H0 H1 [Hok Ha] Hg0 Hg1 k'. assert (files_ok k' (plus f0 0 (two f0 f1))) as Hok'.
  { apply ok_updf; [done|done|rewrite Hg0; lia|]. rewrite Hg0 (fo_ref _ _ Hok) //. pose proof (refs_nonneg k f0).
    rewrite /two /plus /none. repeat case_decide; try done; lia. }
  split; [|done]. eapply files_ok_ext; [|apply (ok_updf k' _ f1 g1 0 Hok' H1)].
  - intros h Hh. rewrite /two /plus /none. repeat case_decide; lia.
  - rewrite Hg1. lia.
  - rewrite Hg1 (fo_ref _ _ Hok') //. pose proof (refs_nonneg k' f1). rewrite /two /plus /none. repeat case_decide; try done; lia.
Qed.

Definition piped (c : Z) (r : option (Z * Z)) k' : Prop :=
  match r with
  | None => ok k' none
  | Some (rf, wf) => kcur k' = c ∧ rf ≠ wf ∧ 0 ≤ rf < NFILE ∧ 0 ≤ wf < NFILE ∧ ok k' (two rf wf) ∧
      no_inode (kfile k' !!! rf) = true ∧ no_inode (kfile k' !!! wf) = true
  end.

Lemma pipealloc_ok k W : ok k none → holds pipealloc k (piped (kcur k)) W.
Proof.
  intros Hok. rewrite /pipealloc. destruct (filealloc_ok k none Hok) as (f0 & k1 & E & [[-> ->]|(Hf0 & Ek1 & Er0 & Hok1)]);
    rewrite /holds (bind_ret _ _ _ _ _ E); [done|]. assert (f0 =? NULL = false) as E0 by (unfold NULL; lia). rewrite E0.
  assert (no_inode (kfile k1 !!! f0) = true) as T0.
  { rewrite Ek1. cbn. rewrite lookup_total_insert_eq. exact (no_inode_free k none f0 (proj1 Hok) Hf0 Er0). }
  destruct (filealloc_ok k1 _ Hok1) as (f1 & k2 & E2 & [[-> ->]|(Hf1 & Ek2 & Er1 & Hok2)]); rewrite (bind_ret _ _ _ _ _ E2).
  { rewrite /pipealloc_bad E0. cbn [negb Z.eqb NULL Pos.eqb]. rewrite bind_mret.
    apply (fileclose_held k1 (plus f0 1 none) none f0 _ (piped (kcur k)) W Hok1 Hf0); [|..|done|].
    - rewrite /plus /none decide_True //.
    - intros h Hh. rewrite /plus /none. repeat case_decide; lia.
    - intros k' Hk' _. exact Hk'. }
  assert (f1 =? NULL = false) as E1 by (unfold NULL; lia). rewrite E1.
  assert (f0 ≠ f1) as Hne.
  { intros <-. rewrite Ek1 in Er1. cbn in Er1. rewrite lookup_total_insert_eq in Er1. discriminate Er1. }
  assert (no_inode (kfile k2 !!! f0) = true ∧ no_inode (kfile k2 !!! f1) = true) as [T0' T1'].
  { rewrite Ek2. cbn. rewrite lookup_total_insert_ne // lookup_total_insert_eq. split; [done|].
    exact (no_inode_free k1 _ f1 (proj1 Hok1) Hf1 Er1). }
  eapply holds_bind; [apply (nosleep_keeps _ k2 W (nosleep_kalloc k2)); keeps_tac|]. intros pi k3 Hs3.
  assert (ok k3 (two f0 f1)) as Hok3 by exact (ok_same _ _ _ Hs3 Hok2). destruct (pi =? 0) eqn:Epi.
  { rewrite /pipealloc_bad E0 E1 /holds bind_mret. cbn [negb].
    apply (close_two k3 f0 f1 None (piped (kcur k)) W); try done; by rewrite (no_inode_same _ _ _ Hs3). }
  apply holds_bind with (λ _, same_files k3); [apply (nosleep_keeps (pipe_init pi) k3 W I); keeps_tac|]. intros _ k4 Hs4.
  rewrite /holds /updf !bind_modify. split_and!; try done; [|lia..| | |].
  - cbn. by rewrite (sf_cur _ _ Hs4) (sf_cur _ _ Hs3) Ek2 Ek1.
  - exact (ok_retype_two k4 f0 f1 (λ x, set_fpipe pi (set_frw true false (set_ftype FD_PIPE x)))
      (λ x, set_fpipe pi (set_frw false true (set_ftype FD_PIPE x))) Hne Hf0 Hf1 (ok_same _ _ _ Hs4 Hok3)
      ltac:(done) ltac:(done)).
  - cbn. rewrite lookup_total_insert_ne // lookup_total_insert_eq. done.
  - cbn. rewrite lookup_total_insert_eq. done.
Qed.
End filerefs.
