(* ===== verification/FileSys.v ===== *)
(** * Every system call keeps the reference counts of open files right,
    continued

    pipe, fork, wait and exit, and the theorem for the dispatcher. *)
From S2P Require Import Prelude Riscv CString Kalloc Vm Cache Log Fs Kern KernInv Pipe Console File Proc Args Exec Sysfile.
From S2P Require Import Syscall Keeps FileInv FileRefs Bio FsDemo PipeInv.

Section filesys.
Context {S : Type} {BC : BlockCache S} {LK : Linker} {FR : Frames} {TX : Text}.
Implicit Types k : kern S.
Abbreviation ofile k p := (p_ofile (kproc k !!! p)).
Abbreviation preserves m k := (holds m k (λ _ k', ok k' none) (λ k', files_ok k' none)).

Lemma ok_ext k e e' : (∀ f, 0 ≤ f < NFILE → e' f = e f) → ok k e → ok k e'.
Proof. intros He [H1 H2]. split; [by eapply files_ok_ext|done]. Qed.
Ltac counts := intros ? ?; rewrite /two /plus /none; repeat case_decide; subst; try done; try lia.

Lemma sys_pipe_bad_ok k rf wf :
  rf ≠ wf → 0 ≤ rf < NFILE → 0 ≤ wf < NFILE → ok k (two rf wf) →
  no_inode (kfile k !!! rf) = true → no_inode (kfile k !!! wf) = true → preserves (sys_pipe_bad rf wf) k.
Proof. intros. apply (close_two k rf wf (-1)); done. Qed.

(** [sys_pipe] with both descriptors allocated. *)
Definition pipe_fds k (fd0 fd1 rf wf : Z) : Prop :=
  Z.to_nat fd0 ≠ Z.to_nat fd1 ∧ ofile k (kcur k) !! Z.to_nat fd0 = Some rf ∧ ofile k (kcur k) !! Z.to_nat fd1 = Some wf ∧
  no_inode (kfile k !!! rf) = true ∧ no_inode (kfile k !!! wf) = true.

Lemma pipe_fds_same k k' fd0 fd1 rf wf : same_files k k' → pipe_fds k fd0 fd1 rf wf → pipe_fds k' fd0 fd1 rf wf.
Proof.
  intros Hs (Hne & H0 & H1 & T0 & T1). rewrite /pipe_fds !(no_inode_same _ _ _ Hs). destruct Hs as [-> _ P].
  by destruct (P (kcur k)) as [-> _].
Qed.

Lemma pipe_undo k fd0 fd1 rf wf :
  rf ≠ wf → 0 ≤ rf < NFILE → 0 ≤ wf < NFILE → ok k none → pipe_fds k fd0 fd1 rf wf →
  preserves (clear_fd (kcur k) fd0;; clear_fd (kcur k) fd1;; sys_pipe_bad rf wf) k.
Proof.
  intros Hne Hrf Hwf Hok (Hfd & H0 & H1 & T0 & T1). rewrite /holds (bind_ret _ _ _ _ _ (clear_fd_eq _ _ _)).
  pose proof (clear_fd_ok k none fd0 rf Hok H0) as Hok1. set (k1 := set_fd k (kcur k) (Z.to_nat fd0) NULL) in *.
  assert (ofile k1 (kcur k1) !! Z.to_nat fd1 = Some wf) as H1'.
  { change (kcur k1) with (kcur k). rewrite set_fd_ofile decide_True // list_lookup_insert_ne //. }
  change (kcur k) with (kcur k1). rewrite (bind_ret _ _ _ _ _ (clear_fd_eq _ _ _)).
  pose proof (clear_fd_ok k1 _ fd1 wf Hok1 H1') as Hok2. by apply sys_pipe_bad_ok.
Qed.

Lemma sys_pipe_ok k : ok k none → preserves sys_pipe k.
Proof.
  intros Hok. rewrite /sys_pipe /holds /myproc bind_gets.
  eapply (keeps_then (argaddr 0) _ k none); [keeps_tac|done|done|]. intros fdarray k0 Hs0 Hok0.
  rewrite -(sf_cur _ _ Hs0). apply holds_bind with (piped (kcur k0)); [by apply pipealloc_ok|].
  intros [[rf wf]|] k1; [|done]. intros (<- & Hne & Hrf & Hwf & Hok1 & T0 & T1).
  destruct (fdalloc_ok k1 _ rf Hok1 Hrf) as (fd0 & k2 & E2 & [[-> ->]|(Hfd0 & Hn0 & Ek2 & Hok2)]);
    rewrite /holds (bind_ret _ _ _ _ _ E2); [by apply sys_pipe_bad_ok|].
  assert (fd0 <? 0 = false) as -> by lia. assert (kcur k1 = kcur k2) as -> by (by rewrite Ek2).
  assert (ofile k2 (kcur k2) !! Z.to_nat fd0 = Some rf) as H0.
  { rewrite Ek2 set_fd_ofile decide_True //. apply list_lookup_insert_eq. by eapply lookup_lt_Some. }
  assert (kfile k2 = kfile k1) as Ekf by (by rewrite Ek2). rewrite -Ekf in T0, T1.
  destruct (fdalloc_ok k2 _ wf Hok2 Hwf) as (fd1 & k3 & E3 & [[-> ->]|(Hfd1 & Hn1 & Ek3 & Hok3)]);
    rewrite (bind_ret _ _ _ _ _ E3).
  { assert (fd0 >=? 0 = true) as -> by lia. cbn [Z.ltb Z.compare]. rewrite (bind_ret _ _ _ _ _ (clear_fd_eq _ _ _)).
    apply sys_pipe_bad_ok; try done. eapply ok_ext; [|exact (clear_fd_ok k2 _ fd0 rf Hok2 H0)]. counts. }
  assert (fd1 <? 0 = false) as -> by lia. assert (ok k3 none) as Hok3' by (eapply ok_ext; [|exact Hok3]; counts).
  assert (pipe_fds k3 fd0 fd1 rf wf) as Hpf.
  { assert (Z.to_nat fd0 ≠ Z.to_nat fd1) as Hfd by (intros Hfd; rewrite -Hfd H0 in Hn1; injection Hn1 as ->; unfold NULL in *; lia).
    rewrite Ek3. split_and!; [done| | |done|done]; change (kcur (set_fd k2 _ _ _)) with (kcur k2); rewrite set_fd_ofile decide_True //.
    - by rewrite list_lookup_insert_ne.
    - apply list_lookup_insert_eq. by eapply lookup_lt_Some. }
  assert (kcur k2 = kcur k3) as -> by (by rewrite Ek3).
  eapply (keeps_then (getp _) _ k3 none); [keeps_tac|done|done|]. intros x k4 Hs4 Hok4.
  eapply (keeps_then (onmem _) _ k4 none); [keeps_tac|done|done|]. intros r k5 Hs5 Hok5.
  eapply (keeps_then (if r <? 0 then _ else _) _ k5 none); [keeps_tac|done|done|]. intros r' k6 Hs6 Hok6.
  pose proof (same_files_trans _ _ _ Hs4 (same_files_trans _ _ _ Hs5 Hs6)) as Hs.
  destruct (r' <? 0); [|done]. rewrite -(sf_cur _ _ Hs). apply pipe_undo; try done. by eapply pipe_fds_same.
Qed.

(** ** fork and wait *)

(** A slot without open files may change to any state. *)
Lemma retire_ofile k p st q : ofile (set_kproc (<[p := set_state st (kproc k !!! p)]> (kproc k)) k) q = ofile k q.
Proof. cbn [kproc set_kproc]. rewrite updp_lookup. case_decide; [by subst|done]. Qed.
Lemma retire_ok k e p st :
  files_ok k e → ofile k p = replicate 16 NULL →
  files_ok (set_kproc (<[p := set_state st (kproc k !!! p)]> (kproc k)) k) e.
Proof.
  intros [] Ho. split; try done.
  - intros q. rewrite retire_ofile. apply fo_len.
  - intros q i f. rewrite retire_ofile. apply fo_range.
  - intros f Hf. rewrite /refs (sumZ_ext (λ p, occ f (ofile k p))); [by apply fo_ref|]. intros q _. by rewrite retire_ofile.
  - intros q. rewrite retire_ofile. cbn [kproc set_kproc]. rewrite updp_lookup. case_decide; [by subst|apply fo_dead].
Qed.

Lemma freeproc_ok k e p :
  ok k e → ofile k p = replicate 16 NULL → p ≠ kcur k →
  holds (freeproc p) k (λ _ k', ok k' e ∧ same_ofile k k') (λ k', files_ok k' e).
Proof.
  intros Hok Ho Hne. apply from_holds. rewrite /freeproc.
  assert (∀ k', same_files k k' → files_ok k' e) as HW by (intros k' Hs; exact (files_ok_same _ _ _ Hs (proj1 Hok))).
  repeat (apply from_bind; [keeps_tac|exact HW|intros ?]). intros k' Hs. rewrite /holds /updp.
  destruct (ok_same _ _ _ Hs Hok) as [Hf [Hc Hd]]. pose proof (sf_cur _ _ Hs) as Ec. pose proof (sf_proc _ _ Hs) as P.
  split; [split|]; [|split|split]; try done.
  - apply retire_ok; [done|]. by destruct (P p) as [-> _].
  - cbn [kproc kcur set_kproc]. rewrite updp_lookup decide_False //. congruence.
  - intros q. rewrite retire_ofile. apply P.
Qed.

(** The new slot is not the current process, and has no open files. *)
Definition fresh_slot k np k' : Prop :=
  np ≠ kcur k ∧ 0 ≤ np < NPROC ∧ ofile k' np = replicate 16 NULL ∧ dead (p_state (kproc k' !!! np)) = false.

Lemma allocproc_ok k e :
  ok k e → holds allocproc k (λ np k', ok k' e ∧ same_ofile k k' ∧ (np ≠ NULL → fresh_slot k np k')) (λ k', files_ok k' e).
Proof.
  intros Hok. rewrite /allocproc. destruct (allocproc_scan_run (Z.to_nat NPROC) 0 k) as (np & E & Hnp).
  rewrite /holds (bind_ret _ _ _ _ _ E). destruct Hnp as [->|[Hr Hu]]; [done|]. assert (np =? NULL = false) as -> by (unfold NULL; lia).
  assert (np ≠ kcur k) as Hne by (intros ->; destruct Hok as [_ [_ Hd]]; rewrite Hu in Hd; discriminate Hd).
  assert (ofile k np = replicate 16 NULL) as Ho by (apply (fo_dead _ _ (proj1 Hok)); by rewrite Hu).
  assert (∀ k', same_files k k' → files_ok k' e) as HW by (intros k' Hs; exact (files_ok_same _ _ _ Hs (proj1 Hok))).
  assert (∀ k', same_files k k' → holds (freeproc np;; mret NULL) k'
    (λ np k', ok k' e ∧ same_ofile k k' ∧ (np ≠ NULL → fresh_slot k np k')) (λ k', files_ok k' e)) as Hfree.
  { intros k' Hs. pose proof (ok_same _ _ _ Hs Hok) as Hok'. destruct Hs as [Ec F P].
    apply holds_bind with (λ _ k2, ok k2 e ∧ same_ofile k' k2).
    - apply freeproc_ok; [done| |by rewrite Ec]. by destruct (P np) as [-> _].
    - intros _ k2 [Hok2 [E2 O2]]. split_and!; [done|split; [congruence|]|done]. intros q. destruct (P q) as [<- _]. by rewrite O2. }
  apply (from_holds k (allocproc_found np)). rewrite /allocproc_found.
  do 2 (apply from_bind; [keeps_tac|exact HW|intros ?]). intros k1 Hs1.
  apply holds_bind with (λ _ k2, same_files k k2 ∧ dead (p_state (kproc k2 !!! np)) = false).
  { split; [|cbn [kproc set_kproc updp modify]; by rewrite updp_lookup decide_True]. apply (same_files_trans _ _ _ Hs1).
    split; [done|done|]. intros q. cbn [kproc set_kproc]. rewrite updp_lookup. case_decide; [subst; split; [done|discriminate]|done]. }
  intros _ k2 [Hs2 Hd2]. assert (∀ {B} (m : M (kern S) B) k', keeps same_files m → same_files k k' → dead (p_state (kproc k' !!! np)) = false →
    holds m k' (λ _ k'', same_files k k'' ∧ dead (p_state (kproc k'' !!! np)) = false) (λ k', files_ok k' e)) as Hkeep.
  { intros B m k' Hm Hs Hd. eapply holds_mono; [apply Hm| |]; cbn.
    - intros _ k'' Hs''. split; [exact (same_files_trans _ _ _ Hs Hs'')|]. destruct (dead (p_state (kproc k'' !!! np))) eqn:Hdd; [|done].
      apply (sf_proc _ _ Hs'' np) in Hdd. congruence.
    - intros k'' Hs''. apply HW. exact (same_files_trans _ _ _ Hs Hs''). }
  eapply holds_bind; [by apply Hkeep; [keeps_tac|..]|]. intros tf k3 [Hs3 Hd3].
  eapply holds_bind; [by apply (Hkeep unit); [keeps_tac|..]|]. intros u k4 [Hs4 Hd4]. destruct (tf =? 0); [by apply Hfree|].
  eapply holds_bind; [by apply Hkeep; [keeps_tac|..]|]. intros pt k5 [Hs5 Hd5].
  eapply holds_bind; [by apply (Hkeep unit); [keeps_tac|..]|]. intros u' k6 [Hs6 Hd6]. destruct (pt =? 0); [by apply Hfree|].
  eapply holds_bind; [by apply (Hkeep unit); [keeps_tac|..]|]. intros u'' k7 [Hs7 Hd7].
  split_and!; [exact (ok_same _ _ _ Hs7 Hok)|exact (same_files_ofile _ _ Hs7)|]. intros _.
  split_and!; [done|unfold NPROC in *; lia..| |done]. by destruct (sf_proc _ _ Hs7 np) as [-> _].
Qed.

(** The copies of the descriptors from [i] on. *)
Lemma fork_files_ok n i k np :
  (i + n = 16)%nat → ok k none → np ≠ kcur k → 0 ≤ np < NPROC → dead (p_state (kproc k !!! np)) = false →
  (∀ j, (i ≤ j < 16)%nat → ofile k np !! j = Some NULL) → ∃ k', fork_files n i (kcur k) np k = Ret tt k' ∧ ok k' none.
Proof.
  revert i k. induction n as [|n IH]; intros i k Hi Hok Hne Hnp Hd Hnull; cbn [fork_files]; [by exists k|].
  rewrite /getp bind_gets. destruct (Z.eqb_spec (ofile k (kcur k) !!! i) NULL) as [E|E]; cbn [negb].
  { rewrite bind_mret. apply IH; try done; [lia|]. intros j Hj. apply Hnull. lia. }
  pose proof (fd_open k none (Z.of_nat i)) as Hfd. rewrite Nat2Z.id in Hfd.
  destruct (Hfd _ Hok ltac:(unfold NOFILE; lia) eq_refl E) as (Hfi & Hf & Hr). set (f := ofile k (kcur k) !!! i) in *.
  destruct (filedup_ok k none f Hok Hf ltac:(rewrite /none; lia)) as (k1 & E1 & [Hok1 Ha1] & Ep & Ec).
  rewrite bind_assoc (bind_ret _ _ _ _ _ E1).
  assert (updp np (λ x, set_ofile (<[i := f]> (p_ofile x)) x) k1 = Ret tt (set_fd k1 np i f)) as E2 by done.
  rewrite (bind_ret _ _ _ _ _ E2). assert (kcur k = kcur (set_fd k1 np i f)) as Ec' by (by rewrite /= Ec). rewrite Ec'.
  apply IH; [lia| |by rewrite -Ec'|done|by rewrite set_fd_state Ep|].
  - split; [|by apply set_fd_alive]. eapply files_ok_ext; [|apply (ok_set_fd k1 _ np i f NULL Hok1 Hnp)].
    + counts. unfold NULL in *. lia.
    + rewrite Ep. apply Hnull. lia.
    + by right.
    + by rewrite Ep.
  - intros j Hj. rewrite set_fd_ofile decide_True // list_lookup_insert_ne; [|lia]. rewrite Ep. apply Hnull. lia.
Qed.

Definition slot (c np : Z) k : Prop :=
  kcur k = c ∧ np ≠ c ∧ 0 ≤ np < NPROC ∧ ofile k np = replicate 16 NULL ∧ dead (p_state (kproc k !!! np)) = false.
Lemma slot_then {A B} (m : M (kern S) A) (f : A → M (kern S) B) k c np :
  keeps same_files m → ok k none → slot c np k → (∀ a k', ok k' none → slot c np k' → preserves (f a) k') → preserves (m ≫= f) k.
Proof.
  intros Hm Hok (Hc & Hne & Hr & Ho & Hd) Hf. eapply keeps_then; [done|done|done|]. intros a k' [Ec _ P] Hok'. apply Hf; [done|].
  destruct (P np) as [Eo Hdd]. split_and!; [congruence|done|lia..|congruence|]. destruct (dead (p_state (kproc k' !!! np))); [|done].
  specialize (Hdd eq_refl). congruence.
Qed.

Lemma fork_ok k : ok k none → preserves fork k.
Proof.
  intros Hok. rewrite /fork /holds /myproc bind_gets.
  apply holds_bind with (λ np k', ok k' none ∧ same_ofile k k' ∧ (np ≠ NULL → fresh_slot k np k')); [by apply allocproc_ok|].
  intros np k1 (Hok1 & [Ec1 _] & Hfresh). destruct (Z.eqb_spec np NULL) as [|Hn]; [done|].
  assert (slot (kcur k) np k1) as Hsl by (by destruct (Hfresh Hn) as (? & ? & ? & ?)). clear Hfresh Ec1.
  eapply slot_then; [keeps_tac|done|done|]. intros x k2 Hok2 Hsl2.
  eapply slot_then; [keeps_tac|done|done|]. intros nx k3 Hok3 Hsl3.
  eapply slot_then; [keeps_tac|done|done|]. intros r k4 Hok4 (Hc4 & Hne4 & Hr4 & Ho4 & Hd4). destruct (r <? 0).
  { apply holds_bind with (λ _ k', ok k' none ∧ same_ofile k4 k'); [apply freeproc_ok; [done|done|congruence]|]. by intros _ k' [Hk' _]. }
  assert (slot (kcur k) np k4) as Hsl4 by done. clear Hc4 Hne4 Hr4 Ho4 Hd4.
  do 3 (eapply slot_then; [keeps_tac|done|done|]; intros _ ? ? ?; clear Hok4 Hsl4;
    rename select (ok _ none) into Hok4; rename select (slot _ _ _) into Hsl4).
  destruct Hsl4 as (Hc & Hne & Hr & Ho & Hd). rewrite -Hc. rewrite -Hc in Hne.
  match goal with |- holds _ ?k _ _ => destruct (fork_files_ok 16 0 k np) as (k7 & E7 & Hok7); [done..| |] end.
  { intros j Hj. rewrite Ho. apply lookup_replicate. lia. }
  change (Z.to_nat NOFILE) with 16%nat. rewrite /holds (bind_ret _ _ _ _ _ E7). apply preserves_keeps; [|done]. keeps_tac.
Qed.

Lemma wait_scan_ok n pp addr hk k : ok k none → preserves (wait_scan n pp (kcur k) addr hk) k.
Proof.
  revert pp hk. induction n as [|n IH]; intros pp hk Hok; cbn [wait_scan]; [done|].
  rewrite /getp /holds bind_gets. destruct (_ =? _); [|by apply IH]. case_bool_decide as Hz; [|by apply IH].
  assert (slot_dead : ofile k pp = replicate 16 NULL) by (apply (fo_dead _ _ (proj1 Hok)); by rewrite Hz).
  assert (pp ≠ kcur k) as Hne by (intros ->; destruct Hok as [_ [_ Hd]]; rewrite Hz in Hd; discriminate Hd).
  eapply keeps_then; [keeps_tac|done|done|]. intros r k1 Hs1 Hok1. destruct (r <? 0); [done|].
  apply holds_bind with (λ _ k', ok k' none ∧ same_ofile k1 k').
  - apply freeproc_ok; [done| |by rewrite (sf_cur _ _ Hs1)]. by destruct (sf_proc _ _ Hs1 pp) as [-> _].
  - by intros _ k2 [Hok2 _].
Qed.
Lemma wait_run_ok addr k : ok k none → preserves (wait_run addr) k.
Proof.
  intros Hok. eapply holds_bind; [exact (conj Hok eq_refl : (λ p k', ok k' none ∧ p = kcur k') _ _)|]. intros p k1 [Hok1 ->].
  eapply holds_bind; [by apply wait_scan_ok|]. intros r k2 Hok2. apply preserves_keeps; [|done]. keeps_tac.
Qed.
Lemma sys_wait_ok k : ok k none → preserves sys_wait k.
Proof.
  intros Hok. rewrite /sys_wait. eapply keeps_then; [keeps_tac|done|done|]. intros addr k1 _ Hok1.
  rewrite /wait. eapply keeps_then; [keeps_tac|done|done|]. intros p k2 _ Hok2.
  eapply holds_bind; [by apply wait_run_ok|]. intros r k3 Hok3. apply preserves_keeps; [|done]. keeps_tac.
Qed.

(** ** exit *)

(** A process that sleeps in [exit] may have closed a file that its
    descriptor still names. *)
Definition paused k : Prop := files_ok k none ∨ ∃ f, files_ok k (plus f (-1) none).

Lemma exit_files_ok n i k :
  (i + n = 16)%nat → ok k none → (∀ j, (j < i)%nat → ofile k (kcur k) !! j = Some NULL) →
  holds (exit_files n i (kcur k)) k (λ _ k', ok k' none ∧ kcur k' = kcur k ∧ ofile k' (kcur k) = replicate 16 NULL) paused.
Proof.
  revert i k. induction n as [|n IH]; intros i k Hi Hok Hnull; cbn [exit_files].
  { split_and!; [done..|]. pose proof (fo_len _ _ (proj1 Hok) (kcur k)) as Hl. apply list_eq. intros j.
    destruct (decide (j < 16)%nat); [rewrite Hnull; [|lia]; symmetry; by apply lookup_replicate|].
    rewrite !lookup_ge_None_2 ?length_replicate ?Hl //; lia. }
  rewrite /getp /holds bind_gets. destruct (Z.eqb_spec (ofile k (kcur k) !!! i) NULL) as [E|E]; cbn [negb].
  { rewrite bind_mret. apply IH; [lia|done|]. intros j Hj. destruct (decide (j = i)) as [->|]; [|apply Hnull; lia].
    rewrite -E. apply list_lookup_lookup_total_lt. rewrite (fo_len _ _ (proj1 Hok)). lia. }
  pose proof (fd_open k none (Z.of_nat i)) as Hfd. rewrite Nat2Z.id in Hfd.
  destruct (Hfd _ Hok ltac:(unfold NOFILE; lia) eq_refl E) as (Hfi & Hf & Hr). set (f := ofile k (kcur k) !!! i) in *.
  rewrite bind_assoc. apply holds_bind with (λ _ k', ok k' (plus f (-1) none) ∧ same_but f k k').
  { eapply holds_mono; [apply (fileclose_ok k none f Hok Hf)|done|]; [rewrite /none; lia|]. intros k' Hk'. right. by exists f. }
  intros _ k1 [Hok1 [[Ec Eo] _]]. rewrite -Ec.
  assert (updp (kcur k1) (λ x, set_ofile (<[i := NULL]> (p_ofile x)) x) k1 = Ret tt (set_fd k1 (kcur k1) i NULL)) as E2 by done.
  rewrite /holds (bind_ret _ _ _ _ _ E2). change (kcur k1) with (kcur (set_fd k1 (kcur k1) i NULL)) at 1 3 4. apply IH; [lia| |].
  - eapply ok_ext; [|pose proof (clear_fd_ok k1 _ (Z.of_nat i) f Hok1) as H; rewrite Nat2Z.id in H; apply H; by rewrite Ec Eo]. counts.
  - intros j Hj. change (kcur (set_fd _ _ _ _)) with (kcur k1). rewrite set_fd_ofile decide_True // Ec Eo.
    destruct (decide (j = i)) as [->|]; [apply list_lookup_insert_eq; by eapply lookup_lt_Some|].
    rewrite list_lookup_insert_ne; [|done]. apply Hnull. lia.
Qed.

Lemma keeps_reparent p : keeps same_files (reparent p : M (kern S) unit).
Proof.
  rewrite /reparent. generalize 0. induction (Z.to_nat NPROC) as [|n IH]; intros pp; cbn [reparent_loop]; [keeps_tac|].
  keeps_tac.
Qed.

Lemma exit_ok {A} status k Q : ok k none → holds (exit status : M (kern S) A) k Q paused.
Proof.
  intros Hok. rewrite /exit. apply holds_bind with (λ _ k', files_ok k' none).
  2: { intros _ k' Hk'. rewrite /sched /holds /myproc /getp !bind_gets. case_bool_decide; [done|by left]. }
  rewrite /exit_run /holds /myproc !bind_gets. destruct (_ =? _); [done|].
  eapply holds_bind; [apply (exit_files_ok 16 0 k); [done|done|lia]|]. intros _ k1 (Hok1 & Ec & Ho). rewrite -Ec in Ho |- *.
  assert (∀ k', same_files k1 k' → files_ok k' none) as HW by (intros k' Hs; exact (files_ok_same _ _ _ Hs (proj1 Hok1))).
  apply (from_holds k1). do 9 (apply from_bind; [keeps_tac; apply keeps_reparent|intros k' Hs; left; by apply HW|intros ?]).
  intros k' Hs. apply retire_ok; [by apply HW|]. by destruct (sf_proc _ _ Hs (kcur k1)) as [-> _].
Qed.

(** ** The dispatcher *)

(** The number of the call the process makes. *)
Definition requested k : Z := s32 (ld64 (km (fmem (kfs k))) (p_trapframe (kproc k !!! kcur k) + TF_a7)).
(** The state in which a call leaves the processor to sleep. *)
Definition left_by (num : Z) k : Prop := files_ok k none ∨ num = SYS_exit ∧ paused k.

Lemma syscalls_ok num m k :
  syscalls num = Some m → ok k none → holds m k (λ _ k', ok k' none) (left_by num).
Proof.
  intros Hm Hok. assert (∀ m : M (kern S) Z, preserves m k → holds m k (λ _ k', ok k' none) (left_by num)) as Hmono.
  { intros m' H. eapply holds_mono; [exact H|done|]. by left. }
  destruct (decide (num = 2)) as [->|Hn].
  { injection Hm as <-. apply holds_mono with (λ _ k', ok k' none) paused; [|done|by right].
    eapply keeps_then; [keeps_tac|done|by left|]. intros n k1 _ Hok1. by apply exit_ok. }
  apply Hmono. rewrite /syscalls in Hm.
  repeat (match type of Hm with
    match ?n with _ => _ end = _ => destruct n; try discriminate Hm; try done end);
  injection Hm as <-;
  lazymatch goal with
  | |- holds sys_fork _ _ _ => by apply fork_ok
  | |- holds sys_wait _ _ _ => by apply sys_wait_ok
  | |- holds sys_pipe _ _ _ => by apply sys_pipe_ok
  | |- holds sys_open _ _ _ => by apply sys_open_ok
  | |- holds sys_close _ _ _ => by apply sys_close_ok
  | |- holds sys_dup _ _ _ => idtac
  | |- _ => apply preserves_keeps; [solve [eauto with keeps nocore]|done]
  end.
  destruct (sys_dup_ok k Hok) as (r & k' & E & Hk'). by rewrite /holds E.
Qed.

(** C6. Every system call keeps the reference counts of the file table
    right.  If the reference count of each open file is the number of
    descriptors of all processes that name it (and a free entry has no
    type, a dead process no descriptors), then so it is again after [syscall],
    whatever number and arguments the process passes: where the call returns,
    and where it sleeps, except that a process that sleeps in exit may have
    closed a file that its own descriptor still names.  Nothing is said of a
    call that panics, as exit of init does. *)
Theorem syscall_counts_files k :
  ok k none → holds syscall k (λ _ k', ok k' none) (left_by (requested k)).
Proof.
  intros Hok. rewrite /syscall /holds /myproc /getp /tf_get !bind_gets. change (s32 _) with (requested k) at 1.
  destruct (syscalls (requested k)) as [m|] eqn:Hm.
  - eapply holds_bind; [by eapply syscalls_ok|]. intros r k1 Hok1.
    eapply holds_mono; [apply (preserves_keeps _ k1); [keeps_tac|done]|done|by left].
  - eapply holds_mono; [apply (preserves_keeps _ k); [keeps_tac|done]|done|by left].
Qed.
End filesys.

(** ** A process that duplicates its descriptor 0 *)
#[local] Existing Instance demo_linker.
#[local] Instance demo_text : Text := {| text := λ _, 0x80000000 |}.

Definition demo_files0 : kern bio :=
  set_kproc {[0 := set_trapframe 0x87000000 demo_proc]} (set_kfs (mk_fs demo_flog demo_sb ∅
    (mk_kmem (st64 (st64 ∅ (0x87000000 + TF_a7) SYS_dup) (0x87000000 + TF_a0) 0) 0) (mk_fproc 1 demo_top NULL)) demo_kern).
Definition demo_files1 : kern bio :=
  set_kfile (<[0 := set_fref 1 (kfile demo_files0 !!! 0)]> (kfile demo_files0)) demo_files0.
Definition demo_files : kern bio := set_fd demo_files1 0 0 0.

Lemma demo_files0_ofile p : p_ofile (kproc demo_files0 !!! p) = replicate 16 NULL.
Proof. rewrite /demo_files0 /=. destruct (decide (p = 0)) as [->|]; [done|]. by rewrite lookup_total_singleton_ne. Qed.
Lemma demo_files0_ok : files_ok demo_files0 none.
Proof.
  split; intros; rewrite ?demo_files0_ofile //.
  - rewrite demo_files0_ofile in H. left. by apply lookup_replicate in H as [-> _].
  - rewrite /refs (sumZ_ext (λ _, 0)); [by vm_compute|]. intros q _. rewrite demo_files0_ofile. apply occ_replicate. unfold NULL; lia.
Qed.
Lemma demo_files_ok : ok demo_files none.
Proof.
  split; [|by split]. eapply files_ok_ext;
    [|apply (ok_set_fd demo_files1 _ 0 0 0 NULL (ok_updf demo_files0 none 0 (set_fref 1) 1 demo_files0_ok ltac:(done) eq_refl ltac:(done)))];
    [|done|done|by right|done].
  intros f Hf. rewrite /plus /none. repeat case_decide; subst; unfold NULL in *; lia.
Qed.

Lemma syscall_counts_files_witness :
  holds syscall demo_files (λ _ k', ok k' none) (left_by (requested demo_files)) ∧
  (∃ k', syscall demo_files = Ret tt k' ∧ f_ref (kfile k' !!! 0) = 2 ∧ take 3 (p_ofile (kproc k' !!! 0)) = [0; 0; NULL]).
Proof.
  split; [apply (syscall_counts_files demo_files), demo_files_ok|].
  eexists. split_and!; vm_compute; reflexivity.
Defined.
