(* ===== verification/ProcInv.v ===== *)
(** * The process table

    Every system call keeps the process table consistent: process
    identifiers are unique, a slot that is UNUSED has none, and every process
    but init has a parent that can still wait for it. *)
From S2P Require Import Prelude Riscv CString Kalloc Vm Cache Log Fs Kern KernInv Pipe Console File Proc Args Exec Sysfile.
From S2P Require Import Syscall Keeps.

Section procinv.
Context {S : Type} {BC : BlockCache S} {LK : Linker} {FR : Frames} {TX : Text}.
Implicit Types k : kern S.
Abbreviation st k p := (p_state (kproc k !!! p)).
Abbreviation pid k p := (p_pid (kproc k !!! p)).
Abbreviation parent k p := (p_parent (kproc k !!! p)).

(** UNUSED, USED, ZOMBIE, or a process that runs or can run. *)
Definition class (s : procstate) : procstate :=
  match s with UNUSED => UNUSED | USED => USED | ZOMBIE => ZOMBIE | _ => RUNNING end.

(** A slot that is USED is one [fork] has not finished. *)
Record procs_ok k : Prop := {
  po_init : 0 ≤ kinitproc k < NPROC ∧ class (st k (kinitproc k)) = RUNNING;
  po_next : 1 ≤ knextpid k;
  po_unused p : 0 ≤ p < NPROC → class (st k p) = UNUSED → pid k p = 0;
  po_pid p : 0 ≤ p < NPROC → class (st k p) ≠ UNUSED → 1 ≤ pid k p < knextpid k;
  po_inj p q : 0 ≤ p < NPROC → 0 ≤ q < NPROC → class (st k p) ≠ UNUSED → class (st k q) ≠ UNUSED →
    pid k p = pid k q → p = q;
  po_parent p : 0 ≤ p < NPROC → class (st k p) = RUNNING ∨ class (st k p) = ZOMBIE → p ≠ kinitproc k →
    0 ≤ parent k p < NPROC ∧ class (st k (parent k p)) = RUNNING;
}.
Definition running k : Prop := 0 ≤ kcur k < NPROC ∧ class (st k (kcur k)) = RUNNING.

(** ** Runs that leave the table alone *)

Definition same_proc (x y : proc) : Prop :=
  p_pid y = p_pid x ∧ p_parent y = p_parent x ∧ class (p_state y) = class (p_state x).

(** Only the slot [z] may change. *)
Record same_slots (z : Z) k k' : Prop := {
  ss_cur : kcur k' = kcur k;
  ss_init : kinitproc k' = kinitproc k;
  ss_next : knextpid k' = knextpid k;
  ss_proc q : 0 ≤ q < NPROC → q ≠ z → same_proc (kproc k !!! q) (kproc k' !!! q);
}.
(** [z] is not the current process, which runs. *)
Definition same_procs (z : Z) k k' : Prop := running k → z ≠ kcur k → same_slots z k k'.

Lemma same_slots_refl z k : same_slots z k k.
Proof. done. Qed.
Lemma same_slots_trans z k1 k2 k3 : same_slots z k1 k2 → same_slots z k2 k3 → same_slots z k1 k3.
Proof.
  intros [C1 I1 N1 P1] [C2 I2 N2 P2]. split; [congruence..|]. intros q Hr Hq.
  destruct (P1 q Hr Hq) as (A1 & A2 & A3), (P2 q Hr Hq) as (B1 & B2 & B3). split_and!; congruence.
Qed.
Lemma same_slots_running z k k' : same_slots z k k' → z ≠ kcur k → running k → running k'.
Proof.
  intros [C _ _ P] Hz [Hc Hd]. rewrite /running C. split; [done|]. destruct (P (kcur k) Hc ltac:(done)) as (_ & _ & Hcl).
  by rewrite Hcl.
Qed.

#[export] Instance same_procs_framing z : Framing (same_procs z).
Proof.
  split.
  - done.
  - intros k1 k2 k3 H1 H2 Ha Hz. specialize (H1 Ha Hz). apply (same_slots_trans _ _ k2); [done|].
    apply H2; [by eapply same_slots_running|]. by rewrite (ss_cur _ _ _ H1).
  - done.
  - done.
  - intros P k HP _ _. split; [done..|]. intros q _ _. destruct (HP q) as [Hp Hpa _ _ Hs]. split_and!; [done..|]. cbn.
    by destruct Hs as [->|[-> ->]].
  - intros k [_ Hd] Hz. split; [done..|]. intros q _ _. cbn. rewrite updp_lookup. case_decide; [subst|done]. split_and!; [done..|].
    cbn. destruct (p_state _); (discriminate Hd || done).
  - done.
Qed.

Lemma keeps_updp_procs z p g : (∀ x, same_proc x (g x)) → keeps (same_procs z) (updp p g).
Proof.
  intros Hg. apply keeps_modify. intros k _ _. split; [done..|]. intros q _ _. cbn. rewrite updp_lookup.
  case_decide; [subst; apply Hg|done].
Qed.
Lemma keeps_updp_slot z g : keeps (same_procs z) (updp z g).
Proof. apply keeps_modify. intros k _ _. split; [done..|]. intros q _ Hq. cbn. by rewrite updp_lookup decide_False. Qed.
Lemma keeps_updf_procs z f g : keeps (same_procs z) (updf f g).
Proof. apply keeps_modify. done. Qed.
End procinv.

#[export] Hint Extern 1 (keeps (same_procs _) (updp _ _)) =>
  apply keeps_updp_procs; intros []; split_and!; reflexivity : keeps.
#[export] Hint Resolve keeps_updf_procs keeps_updp_slot : keeps.

Section procs_files.
Context {S : Type} {BC : BlockCache S} {LK : Linker} {FR : Frames} {TX : Text}.
Context (z : Z).
Abbreviation keeps m := (keeps (same_procs (S:=S) z) m).

(** The functions on open files. *)
Lemma procs_filealloc : keeps filealloc.
Proof. rewrite /filealloc. generalize 0. induction (Z.to_nat NFILE); intros f; cbn [filealloc_loop]; keeps_tac. Qed.
Lemma procs_filedup f : keeps (filedup f).
Proof. rewrite /filedup. keeps_tac. Qed.
Lemma procs_fileclose f : keeps (fileclose f).
Proof. rewrite /fileclose. keeps_tac. Qed.
Lemma procs_fdalloc f : keeps (fdalloc f).
Proof.
  rewrite /fdalloc. apply keeps_bind; [typeclasses eauto|keeps_tac|]. intros p. generalize 0%nat.
  induction (Z.to_nat NOFILE); intros fd; cbn [fdalloc_loop]; keeps_tac.
Qed.
Hint Resolve procs_filealloc procs_filedup procs_fileclose procs_fdalloc : keeps.
Lemma procs_pipealloc : keeps pipealloc.
Proof. rewrite /pipealloc /pipealloc_bad. keeps_tac. Qed.
Hint Resolve procs_pipealloc : keeps.
Lemma procs_sys_dup : keeps sys_dup.
Proof. rewrite /sys_dup. keeps_tac. Qed.
Lemma procs_sys_close : keeps sys_close.
Proof. rewrite /sys_close /clear_fd. keeps_tac. Qed.
Lemma procs_sys_open : keeps sys_open.
Proof. rewrite /sys_open /sys_open_locked /sys_open_file. keeps_tac. Qed.
Lemma procs_sys_pipe : keeps sys_pipe.
Proof. rewrite /sys_pipe /sys_pipe_bad /clear_fd. keeps_tac. Qed.
Lemma procs_fork_files n i p np : keeps (fork_files n i p np).
Proof. revert i. induction n; intros i; cbn [fork_files]; keeps_tac. Qed.
Lemma procs_exit_files n i p : keeps (exit_files n i p).
Proof. revert i. induction n; intros i; cbn [exit_files]; keeps_tac. Qed.
End procs_files.
#[export] Hint Resolve procs_filealloc procs_filedup procs_fileclose procs_fdalloc procs_pipealloc procs_sys_dup
  procs_sys_close procs_sys_open procs_sys_pipe procs_fork_files procs_exit_files : keeps.

Section procs_calls.
Context {S : Type} {BC : BlockCache S} {LK : Linker} {FR : Frames} {TX : Text}.
Implicit Types k : kern S.
Abbreviation st k p := (p_state (kproc k !!! p)).
Abbreviation pid k p := (p_pid (kproc k !!! p)).
Abbreviation parent k p := (p_parent (kproc k !!! p)).

(** ** Changes of one slot *)

(** A slot other than [z] is in the table before and after. *)
Lemma same_slots_old z k k' q :
  same_slots z k k' → 0 ≤ q < NPROC → q ≠ z →
  pid k' q = pid k q ∧ parent k' q = parent k q ∧ class (st k' q) = class (st k q).
Proof. intros H Hr Hq. by apply (ss_proc _ _ _ H). Qed.

Lemma procs_ok_same k k' : same_slots NULL k k' → procs_ok k → procs_ok k'.
Proof.
  intros Hs [Hi Hn Hu Hp Hinj Hpar]. assert (∀ q, 0 ≤ q < NPROC → same_proc (kproc k !!! q) (kproc k' !!! q)) as Hq.
  { intros q Hr. apply (ss_proc _ _ _ Hs q Hr). unfold NULL; lia. }
  split; rewrite ?(ss_init _ _ _ Hs) ?(ss_next _ _ _ Hs); [|done|..].
  - split; [apply Hi|]. destruct (Hq _ (proj1 Hi)) as (_ & _ & ->). apply Hi.
  - intros p Hr. destruct (Hq p Hr) as (-> & _ & ->). auto.
  - intros p Hr. destruct (Hq p Hr) as (-> & _ & ->). auto.
  - intros p q Hr Hr'. destruct (Hq p Hr) as (-> & _ & ->), (Hq q Hr') as (-> & _ & ->). auto.
  - intros p Hr. destruct (Hq p Hr) as (_ & -> & ->). intros Hc Hne. destruct (Hpar p Hr Hc Hne) as [Hr' Hc'].
    split; [done|]. by destruct (Hq _ Hr') as (_ & _ & ->).
Qed.

(** [z] is neither init nor a parent. *)
Definition removable z k : Prop :=
  z ≠ kinitproc k ∧
  ∀ p, 0 ≤ p < NPROC → p ≠ z → class (st k p) = RUNNING ∨ class (st k p) = ZOMBIE → p ≠ kinitproc k → parent k p ≠ z.
Lemma not_running_removable z k : procs_ok k → class (st k z) ≠ RUNNING → removable z k.
Proof.
  intros Hok Hz. split; [intros ->; by apply Hz, Hok|]. intros p Hr _ Hc Hi <-. by apply Hz, (po_parent _ Hok).
Qed.

(** Such a slot changes. *)
Lemma slot_ok z k k' :
  procs_ok k → same_slots z k k' → 0 ≤ z < NPROC → removable z k →
  (class (st k' z) = UNUSED → pid k' z = 0) →
  (class (st k' z) ≠ UNUSED → 1 ≤ pid k' z < knextpid k ∧
     ∀ q, 0 ≤ q < NPROC → q ≠ z → class (st k q) ≠ UNUSED → pid k q ≠ pid k' z) →
  (class (st k' z) = RUNNING ∨ class (st k' z) = ZOMBIE →
     0 ≤ parent k' z < NPROC ∧ parent k' z ≠ z ∧ class (st k (parent k' z)) = RUNNING) → procs_ok k'.
Proof.
  intros Hok Hs Hz [Hzi Hc] Hu Hp Hpar.
  assert (∀ q, 0 ≤ q < NPROC → q ≠ z → pid k' q = pid k q ∧ class (st k' q) = class (st k q)) as Hold.
  { intros q Hr Hq. by destruct (same_slots_old _ _ _ _ Hs Hr Hq) as (-> & _ & ->). }
  split; rewrite ?(ss_init _ _ _ Hs) ?(ss_next _ _ _ Hs).
  - destruct (po_init _ Hok) as [Hr Hci]. split; [done|]. by destruct (Hold _ Hr ltac:(done)) as [_ ->].
  - apply Hok.
  - intros p Hr. destruct (decide (p = z)) as [->|Hne]; [done|]. destruct (Hold p Hr Hne) as [-> ->]. by apply Hok.
  - intros p Hr. destruct (decide (p = z)) as [->|Hne]; [by intros [? _]%Hp|]. destruct (Hold p Hr Hne) as [-> ->]. by apply Hok.
  - intros p q Hr Hr' Hcp Hcq E. destruct (decide (p = z)) as [->|Hpz], (decide (q = z)) as [->|Hqz]; [done|..].
    + destruct (Hp Hcp) as [_ Hd]. destruct (Hold q Hr' Hqz) as [E1 E2]. rewrite E2 in Hcq. destruct (Hd q Hr' Hqz Hcq). congruence.
    + destruct (Hp Hcq) as [_ Hd]. destruct (Hold p Hr Hpz) as [E1 E2]. rewrite E2 in Hcp. destruct (Hd p Hr Hpz Hcp). congruence.
    + destruct (Hold p Hr Hpz) as [E1 E2], (Hold q Hr' Hqz) as [E3 E4]. rewrite E2 in Hcp. rewrite E4 in Hcq. apply Hok; congruence.
  - intros p Hr Hcp Hi. destruct (decide (p = z)) as [->|Hne].
    + destruct (Hpar Hcp) as (Hr' & Hpz & Hc'). split; [done|]. by destruct (Hold _ Hr' Hpz) as [_ ->].
    + destruct (same_slots_old _ _ _ _ Hs Hr Hne) as (_ & Epar & Ecl). rewrite Epar. rewrite Ecl in Hcp.
      destruct (po_parent _ Hok p Hr Hcp Hi) as [Hr' Hc']. split; [done|].
      by destruct (Hold _ Hr' (Hc p Hr Hne Hcp Hi)) as [_ ->].
Qed.

(** [z] is made UNUSED. *)
Lemma freed_ok z k k' :
  procs_ok k → same_slots z k k' → 0 ≤ z < NPROC → class (st k z) ≠ RUNNING →
  st k' z = UNUSED → pid k' z = 0 → procs_ok k'.
Proof. intros Hok Hs Hz Hc Hst Hpid. apply (slot_ok z k k'); rewrite ?Hst; try done; cbn; [by apply not_running_removable|by intros [[=]|[=]]]. Qed.

(** [z] is made USED, with a fresh identifier. *)
Lemma born_ok z k k' :
  procs_ok k → same_slots z (set_knextpid (knextpid k + 1) k) k' → 0 ≤ z < NPROC → class (st k z) = UNUSED →
  st k' z = USED → pid k' z = knextpid k → procs_ok k'.
Proof.
  intros Hok Hs Hz Hc Hst Hpid. pose proof (po_next _ Hok) as Hn.
  assert (procs_ok (set_knextpid (knextpid k + 1) k)) as Hok1.
  { destruct Hok as [? ? ? Hp1 ? ?]. split; try done; cbn; [lia|]. intros q Hq1 Hq2. specialize (Hp1 q Hq1 Hq2). lia. }
  apply (slot_ok z _ k' Hok1 Hs Hz); rewrite ?Hst ?Hpid; cbn; [apply not_running_removable; [done|by rewrite Hc]|done| |by intros [[=]|[=]]]. intros _.
  split; [lia|]. intros q Hr _ Hcq. pose proof (po_pid _ Hok q Hr Hcq). lia.
Qed.

(** The slot [z] of a new process becomes RUNNABLE. *)
Lemma raised_ok z k k' :
  procs_ok k → same_slots z k k' → 0 ≤ z < NPROC → class (st k z) = USED →
  st k' z = RUNNABLE → pid k' z = pid k z → 0 ≤ parent k' z < NPROC → class (st k (parent k' z)) = RUNNING → procs_ok k'.
Proof.
  intros Hok Hs Hz Hc Hst Hpid Hr Hpar. apply (slot_ok z k k'); rewrite ?Hst ?Hpid; try done; [apply not_running_removable; [done|by rewrite Hc]|discriminate| |].
  2: { intros _. split_and!; [lia..| |done]. intros E. rewrite E in Hpar. congruence. }
  intros _.
  assert (class (st k z) ≠ UNUSED) as Hcz by by rewrite Hc. split; [by apply Hok|]. intros q Hrq Hne Hcq E.
  by apply Hne, (po_inj _ Hok).
Qed.

(** ** Runs *)
Abbreviation preserves m k := (holds m k (λ _ k', procs_ok k' ∧ running k' ∧ knextpid k ≤ knextpid k' ≤ knextpid k + 1) procs_ok).

Lemma running_null k : running k → NULL ≠ kcur k.
Proof. intros [Hr _]. unfold NULL; lia. Qed.

(** A run that keeps the table, then [f]. *)
Lemma procs_then {A B} (m : M (kern S) A) (f : A → M (kern S) B) k Q :
  keeps (same_procs NULL) m → procs_ok k → running k →
  (∀ a k', same_slots NULL k k' → procs_ok k' → running k' → holds (f a) k' Q procs_ok) → holds (m ≫= f) k Q procs_ok.
Proof.
  intros Hm Hok Hr Hf. pose proof (running_null k Hr) as Hn. apply holds_bind with (λ _ k', same_procs NULL k k').
  - eapply holds_mono; [apply Hm|done|]. intros k' Hs. exact (procs_ok_same _ _ (Hs Hr Hn) Hok).
  - intros a k' Hs. specialize (Hs Hr Hn). apply Hf; [done|by eapply procs_ok_same|by eapply same_slots_running].
Qed.
Lemma procs_keeps {A} (m : M (kern S) A) k : keeps (same_procs NULL) m → procs_ok k → running k → preserves m k.
Proof.
  intros Hm Hok Hr. pose proof (running_null k Hr) as Hn. eapply holds_mono; [apply Hm|..].
  - cbn. intros _ k' Hs. specialize (Hs Hr Hn). split_and!; [by eapply procs_ok_same|by eapply same_slots_running|..];
      rewrite (ss_next _ _ _ Hs); lia.
  - intros k' Hs. exact (procs_ok_same _ _ (Hs Hr Hn) Hok).
Qed.

(** The table with [y] in the slot [p]. *)
Definition put (p : Z) (y : proc) k : kern S := set_kproc (<[p := y]> (kproc k)) k.
Lemma updp_put p f k : updp p f k = Ret tt (put p (f (kproc k !!! p)) k).
Proof. done. Qed.
Lemma updp_put_put p f y k : updp p f (put p y k) = Ret tt (put p (f y) k).
Proof. rewrite updp_put /put. cbn. by rewrite lookup_total_insert_eq insert_insert_eq. Qed.
Lemma put_slot p y k : kproc (put p y k) !!! p = y.
Proof. apply lookup_total_insert_eq. Qed.
Lemma put_slots p y k : same_slots p k (put p y k).
Proof. split; [done..|]. intros q _ Hq. cbn. by rewrite lookup_total_insert_ne. Qed.
Ltac puts := repeat rewrite (bind_ret _ _ _ _ _ (updp_put_put _ _ _ _)).

(** ** fork *)

Lemma freeproc_procs k p :
  procs_ok k → running k → 0 ≤ p < NPROC → class (st k p) ≠ RUNNING →
  holds (freeproc p) k (λ _ k', procs_ok k' ∧ running k' ∧ knextpid k' = knextpid k ∧ kcur k' = kcur k) procs_ok.
Proof.
  intros Hok Hr Hp Hc. rewrite /freeproc. eapply procs_then; [keeps_tac|done|done|]. intros x k1 Hs1 Hok1 Hr1.
  eapply procs_then; [keeps_tac|done|done|]. intros _ k2 Hs2 Hok2 Hr2.
  eapply procs_then; [keeps_tac|done|done|]. intros _ k3 Hs3 Hok3 Hr3.
  eapply procs_then; [keeps_tac|done|done|]. intros _ k4 Hs4 Hok4 Hr4.
  pose proof (same_slots_trans _ _ _ _ Hs1 (same_slots_trans _ _ _ _ Hs2 (same_slots_trans _ _ _ _ Hs3 Hs4))) as Hs.
  assert (class (st k4 p) ≠ RUNNING) as Hc4 by (destruct (same_slots_old _ _ _ _ Hs Hp) as (_ & _ & ->); [unfold NULL; lia|done]).
  assert (p ≠ kcur k4) as Hne by (intros ->; by apply Hc4, Hr4).
  rewrite /holds (bind_ret _ _ _ _ _ (updp_put _ _ _)). puts. rewrite updp_put_put. split_and!.
  - apply (freed_ok p k4); try done; [apply put_slots|by rewrite put_slot..].
  - apply (same_slots_running p k4); [apply put_slots|done|done].
  - apply (ss_next _ _ _ Hs).
  - apply (ss_cur _ _ _ Hs).
Qed.

(** [fork]'s new slot. *)
Definition embryo (c np n : Z) k : Prop :=
  kcur k = c ∧ knextpid k = n ∧ 0 ≤ np < NPROC ∧ class (st k np) = USED.
Lemma embryo_same c np n k k' : same_slots NULL k k' → embryo c np n k → embryo c np n k'.
Proof.
  intros Hs (Hc & Hn & Hr & He). split_and!; [by rewrite (ss_cur _ _ _ Hs)|by rewrite (ss_next _ _ _ Hs)|lia..|].
  destruct (same_slots_old _ _ _ _ Hs Hr) as (_ & _ & ->); [unfold NULL; lia|done].
Qed.

Definition allocated k np k' : Prop :=
  procs_ok k' ∧ running k' ∧ kcur k' = kcur k ∧ knextpid k ≤ knextpid k' ≤ knextpid k + 1 ∧ (np ≠ NULL → embryo (kcur k) np (knextpid k + 1) k').

Lemma allocproc_procs k :
  procs_ok k → running k → knextpid k < 2 ^ 31 - 1 → holds allocproc k (allocated k) procs_ok.
Proof.
  intros Hok Hr Hn. rewrite /allocproc. destruct (allocproc_scan_run (Z.to_nat NPROC) 0 k) as (np & E & Hnp).
  rewrite /holds (bind_ret _ _ _ _ _ E). destruct Hnp as [->|[Hp Hu]]; [split_and!; done || lia|].
  assert (0 ≤ np < NPROC) as Hnp by (unfold NPROC in *; lia).
  assert (np =? NULL = false) as -> by (unfold NULL; lia). rewrite /allocproc_found /allocpid.
  pose proof (po_next _ Hok) as Hnx. rewrite bind_assoc bind_gets bind_assoc bind_modify bind_mret s32_small; [|lia].
  set (k1 := set_knextpid (knextpid k + 1) k). rewrite (bind_ret _ _ _ _ _ (updp_put _ _ _)). puts.
  set (y := set_state USED _). set (k2 := put np y k1).
  assert (np ≠ kcur k) as Hne by (intros ->; destruct Hr as [_ Hc]; rewrite Hu in Hc; discriminate Hc).
  assert (procs_ok k2) as Hok2.
  { apply (born_ok np k k2 Hok); [apply put_slots|done|by rewrite Hu|by rewrite put_slot..]. }
  assert (running k2) as Hr2 by (apply (same_slots_running np k1); [apply put_slots|done|done]).
  assert (embryo (kcur k) np (knextpid k + 1) k2) as He2 by (split_and!; [done|done|lia..|by rewrite put_slot]).
  assert (knextpid k2 = knextpid k + 1) as Hn2 by done. clearbody k2. clear E Hu y k1.
  assert (∀ k', same_slots NULL k2 k' → procs_ok k' → running k' → holds (freeproc np;; mret NULL) k' (allocated k) procs_ok) as Hfree.
  { intros k' Hs Hok' Hr'. destruct (embryo_same _ _ _ _ _ Hs He2) as (Hc' & _ & _ & Hcl).
    apply holds_bind with (λ _ k3, procs_ok k3 ∧ running k3 ∧ knextpid k3 = knextpid k' ∧ kcur k3 = kcur k');
      [apply freeproc_procs; [done..|rewrite Hcl; discriminate]|].
    intros _ k3 (Hok3 & Hr3 & E3 & Ec3). rewrite (ss_next _ _ _ Hs) in E3. split_and!; [done|done|congruence|lia..|done]. }
  eapply procs_then; [keeps_tac|done|done|]. intros tf k3 Hs3 Hok3 Hr3.
  eapply procs_then; [keeps_tac|done|done|]. intros _ k4 Hs4 Hok4 Hr4.
  pose proof (same_slots_trans _ _ _ _ Hs3 Hs4) as Hs24. destruct (tf =? 0); [by apply Hfree|].
  eapply procs_then; [keeps_tac|done|done|]. intros pt k5 Hs5 Hok5 Hr5.
  eapply procs_then; [keeps_tac|done|done|]. intros _ k6 Hs6 Hok6 Hr6.
  pose proof (same_slots_trans _ _ _ _ Hs24 (same_slots_trans _ _ _ _ Hs5 Hs6)) as Hs26. destruct (pt =? 0); [by apply Hfree|].
  eapply procs_then; [keeps_tac|done|done|]. intros _ k7 Hs7 Hok7 Hr7.
  pose proof (same_slots_trans _ _ _ _ Hs26 Hs7) as Hs27. pose proof (embryo_same _ _ _ _ _ Hs27 He2) as He7.
  split_and!; [done|done|apply He7|rewrite (ss_next _ _ _ Hs27); lia..|done].
Qed.

Lemma embryo_then {A B} (m : M (kern S) A) (f : A → M (kern S) B) c np n k Q :
  keeps (same_procs NULL) m → procs_ok k → running k → embryo c np n k →
  (∀ a k', procs_ok k' → running k' → embryo c np n k' → holds (f a) k' Q procs_ok) →
  holds (m ≫= f) k Q procs_ok.
Proof.
  intros Hm Hok Hr He Hf. eapply procs_then; [done..|]. intros a k' Hs Hok' Hr'. apply Hf; [done..|by eapply embryo_same].
Qed.
Ltac embryo_step := eapply embryo_then; [keeps_tac|eassumption..|]; intros ?; clear; intros ? ? ? ?.

Lemma fork_procs k : procs_ok k → running k → knextpid k < 2 ^ 31 - 1 → preserves fork k.
Proof.
  intros Hok Hr Hn. rewrite /fork /holds /myproc bind_gets.
  apply holds_bind with (allocated k); [by apply allocproc_procs|]. intros np k1 (Hok1 & Hr1 & Hc1 & Hn1 & He).
  destruct (Z.eqb_spec np NULL) as [|Hnp]; [split_and!; try done; lia|]. specialize (He Hnp). clear Hn1 Hc1 Hok Hr Hn Hnp.
  revert He. generalize (kcur k) (knextpid k). intros c n He. do 3 embryo_step. destruct (_ <? 0).
  { rename select (embryo _ _ _ _) into He. destruct He as (Hc & Hn & Hr' & Hcl).
    eapply holds_bind; [apply freeproc_procs; [done..|rewrite Hcl; discriminate]|]. intros _ k2 (? & ? & E2 & _). split_and!; [done|done|cbn; lia..]. }
  do 8 embryo_step.
  rename select (embryo _ _ _ _) into He. rename select (running _) into Hr. rename select (procs_ok _) into Hok.
  destruct He as (Hc & Hn & Hrp & Hcl).
  match goal with |- holds _ ?k _ _ => rename k into k9 end.
  rewrite /holds (bind_ret _ _ _ _ _ (updp_put _ _ _)). puts. assert (np ≠ kcur k9) as Hne by (intros ->; by destruct Hr; congruence).
  split_and!; [|apply (same_slots_running np k9); [apply put_slots|done|done]|cbn; lia..].
  apply (raised_ok np k9); [done|apply put_slots|done|done|..]; rewrite put_slot; [done|done|..]; cbn; subst c; apply Hr.
Qed.

(** ** wait *)

Lemma wait_scan_procs n pp addr hk k :
  0 ≤ pp → pp + Z.of_nat n = NPROC → procs_ok k → running k → preserves (wait_scan n pp (kcur k) addr hk) k.
Proof.
  revert pp hk. induction n as [|n IH]; intros pp hk Hp Hn Hok Hr; cbn [wait_scan]; [split_and!; try done; lia|].
  rewrite /getp /holds bind_gets. destruct (_ =? _); [|apply IH; [lia|lia|done..]].
  case_bool_decide as Hz; [|apply IH; [lia|lia|done..]].
  eapply procs_then; [keeps_tac|done|done|]. intros r k1 Hs1 Hok1 Hr1.
  destruct (r <? 0); [split_and!; try done; rewrite (ss_next _ _ _ Hs1); lia|].
  destruct (same_slots_old _ _ _ pp Hs1) as (_ & _ & Hc); [lia|unfold NULL; lia|]. rewrite Hz in Hc.
  eapply holds_bind; [apply freeproc_procs; [done|done|lia|rewrite Hc; discriminate]|]. intros _ k2 (? & ? & E2 & _).
  rewrite (ss_next _ _ _ Hs1) in E2. split_and!; [done|done|cbn; lia..].
Qed.
Lemma procs_seq {A B} (m : M (kern S) A) (f : A → M (kern S) B) k :
  preserves m k → (∀ a, keeps (same_procs NULL) (f a)) → preserves (m ≫= f) k.
Proof.
  intros Hm Hf. eapply holds_bind; [exact Hm|]. intros a k1 (Hok1 & Hr1 & Hn1). pose proof (running_null k1 Hr1) as Hn.
  eapply holds_mono; [apply Hf|..]; cbn.
  - intros _ k2 Hs. specialize (Hs Hr1 Hn). split_and!; [by eapply procs_ok_same|by eapply same_slots_running|..];
      rewrite (ss_next _ _ _ Hs); lia.
  - intros k2 Hs. exact (procs_ok_same _ _ (Hs Hr1 Hn) Hok1).
Qed.
Lemma wait_run_procs addr k : procs_ok k → running k → preserves (wait_run addr) k.
Proof.
  intros Hok Hr. rewrite /wait_run. apply holds_bind with (λ p k', k' = k ∧ p = kcur k); [done|]. intros p k' [-> ->].
  apply procs_seq; [by apply wait_scan_procs|]. intros r. keeps_tac.
Qed.
Lemma sys_wait_procs k : procs_ok k → running k → preserves sys_wait k.
Proof.
  intros Hok Hr. rewrite /sys_wait. eapply procs_then; [keeps_tac|done|done|]. intros addr k1 Hs1 Hok1 Hr1.
  rewrite /wait. eapply procs_then; [keeps_tac|done|done|]. intros p k2 Hs2 Hok2 Hr2.
  rewrite -(ss_next _ _ _ Hs1) -(ss_next _ _ _ Hs2). apply procs_seq; [by apply wait_run_procs|]. intros r. keeps_tac.
Qed.

(** ** exit *)

(** The children of [p] in the slots from [pp] on become children of init. *)
Record reparented (n : nat) (pp p : Z) k k' : Prop := {
  rp_cur : kcur k' = kcur k;
  rp_init : kinitproc k' = kinitproc k;
  rp_next : knextpid k' = knextpid k;
  rp_proc q : pid k' q = pid k q ∧ class (st k' q) = class (st k q) ∧
    parent k' q = if decide (pp ≤ q < pp + Z.of_nat n ∧ parent k q = p) then kinitproc k else parent k q;
}.

Lemma wakeup_same c k : ∃ k', wakeup c k = Ret tt k' ∧ kcur k' = kcur k ∧ kinitproc k' = kinitproc k ∧ knextpid k' = knextpid k ∧
  ∀ q, same_proc (kproc k !!! q) (kproc k' !!! q).
Proof.
  destruct (wakeup_run c k) as (P' & E & HP). eexists. split_and!; [exact E|done..|]. intros q. cbn. rewrite HP.
  case_decide; [|done]. destruct (wakes _ _ _ _) eqn:Hw; [|done]. split_and!; [done..|].
  rewrite /wakes !andb_true_iff !bool_decide_eq_true in Hw. destruct Hw as [[_ ->] _]. done.
Qed.

Lemma reparent_loop_run n pp p k : p ≠ kinitproc k → ∃ k', reparent_loop n pp p k = Ret tt k' ∧ reparented n pp p k k'.
Proof.
  revert pp k. induction n as [|n IH]; intros pp k Hp; cbn [reparent_loop].
  { exists k. split; [done|]. split; [done..|]. intros q. split_and!; [done..|]. case_decide; [lia|done]. }
  rewrite /getp bind_gets. destruct (Z.eqb_spec (parent k pp) p) as [Hpp|Hpp].
  - rewrite bind_assoc bind_gets bind_assoc (bind_ret _ _ _ _ _ (updp_put _ _ _)). set (k1 := put pp _ k).
    destruct (wakeup_same ("proc"%string, kinitproc k) k1) as (k2 & E2 & C2 & I2 & N2 & P2). rewrite (bind_ret _ _ _ _ _ E2).
    destruct (IH (pp + 1) k2) as (k3 & E3 & [C3 I3 N3 P3]); [by rewrite I2|]. exists k3. split; [done|].
    split; [by rewrite C3 C2|by rewrite I3 I2|by rewrite N3 N2|]. intros q. destruct (P3 q) as (-> & -> & ->), (P2 q) as (-> & -> & ->).
    rewrite I2. subst k1. destruct (decide (q = pp)) as [->|Hq].
    + rewrite put_slot. split_and!; [done..|]. cbn. repeat case_decide; try done; lia.
    + cbn. rewrite lookup_total_insert_ne //. split_and!; [done..|]. repeat case_decide; try done; lia.
  - rewrite bind_mret. destruct (IH (pp + 1) k Hp) as (k3 & E3 & [C3 I3 N3 P3]). exists k3. split; [done|].
    split; [done..|]. intros q. destruct (P3 q) as (-> & -> & ->). split_and!; [done..|].
    destruct (decide (q = pp)) as [->|Hq]; repeat case_decide; try done; lia.
Qed.

Lemma reparented_ok p k k' :
  procs_ok k → running k → p ≠ kinitproc k → reparented (Z.to_nat NPROC) 0 p k k' →
  procs_ok k' ∧ running k' ∧ ∀ q, 0 ≤ q < NPROC → parent k' q ≠ p.
Proof.
  intros Hok [Hr Hc] Hp [C I N P]. split_and!.
  - split; rewrite ?I ?N.
    + destruct (P (kinitproc k)) as (_ & -> & _). apply Hok.
    + apply Hok.
    + intros q Hq. destruct (P q) as (-> & -> & _). by apply Hok.
    + intros q Hq. destruct (P q) as (-> & -> & _). by apply Hok.
    + intros q q' Hq Hq'. destruct (P q) as (-> & -> & _), (P q') as (-> & -> & _). by apply Hok.
    + intros q Hq. destruct (P q) as (_ & -> & ->). intros Hcl Hi. case_decide.
      * split; [apply Hok|]. destruct (P (kinitproc k)) as (_ & -> & _). apply Hok.
      * destruct (po_parent _ Hok q Hq Hcl Hi) as [Hr' Hc']. split; [done|]. by destruct (P (parent k q)) as (_ & -> & _).
  - rewrite /running C. split; [done|]. by destruct (P (kcur k)) as (_ & -> & _).
  - intros q Hq. destruct (P q) as (_ & _ & ->). case_decide as H; [done|]. intros E. apply H. split; [unfold NPROC in *; lia|done].
Qed.

(** A process without children becomes a ZOMBIE. *)
Lemma zombie_ok k p y :
  procs_ok k → 0 ≤ p < NPROC → class (st k p) = RUNNING → p ≠ kinitproc k → (∀ q, 0 ≤ q < NPROC → parent k q ≠ p) →
  p_pid y = pid k p → p_parent y = parent k p → p_state y = ZOMBIE → procs_ok (put p y k).
Proof.
  intros Hok Hr Hc Hi Hch Hpid Hpar Hst. assert (class (st k p) ≠ UNUSED) as Hcu by by rewrite Hc.
  apply (slot_ok p k); rewrite ?put_slot ?Hst ?Hpid ?Hpar; [done|apply put_slots|done| |by intros [=]|..].
  - split; [done|]. intros q Hq _ _ _. by apply Hch.
  - intros _. split; [by apply Hok|]. intros q Hq Hne Hcq E. by apply Hne, (po_inj _ Hok).
  - intros _. destruct (po_parent _ Hok p Hr (or_introl Hc) Hi) as [Hr' Hc']. split_and!; [lia..|by apply Hch|done].
Qed.

(** The end of [exit]. *)
Lemma exit_tail_procs p status k :
  procs_ok k → running k → p = kcur k → p ≠ kinitproc k →
  holds (reparent p;; q ← gets (λ k, parent k p); wakeup ("proc"%string, q);; updp p (set_xstate status);; updp p (set_state ZOMBIE)) k
    (λ _, procs_ok) procs_ok.
Proof.
  intros Hok Hr -> Hi. destruct (reparent_loop_run (Z.to_nat NPROC) 0 (kcur k) k Hi) as (k1 & E1 & Hrp).
  destruct (reparented_ok _ _ _ Hok Hr Hi Hrp) as (Hok1 & Hr1 & Hch). destruct Hrp as [C1 I1 _ _].
  rewrite /holds /reparent (bind_ret _ _ _ _ _ E1) bind_gets. rewrite -C1 in Hch |- *. rewrite -I1 -C1 in Hi.
  destruct (wakeup_same ("proc"%string, parent k1 (kcur k1)) k1) as (k2 & E2 & C2 & I2 & N2 & P2). rewrite (bind_ret _ _ _ _ _ E2).
  assert (procs_ok k2) as Hok2 by (apply (procs_ok_same k1); [by split|done]).
  rewrite (bind_ret _ _ _ _ _ (updp_put _ _ _)) updp_put_put. rewrite -C2 -I2 in Hi. rewrite -C2 in Hch |- *.
  assert (class (st k2 (kcur k2)) = RUNNING) as Hc2 by (rewrite C2; destruct (P2 (kcur k1)) as (_ & _ & ->); apply Hr1).
  apply zombie_ok; try done; [rewrite C2; apply Hr1|]. intros q Hq. destruct (P2 q) as (_ & -> & _). by apply Hch.
Qed.

Lemma exit_procs {A} status k Q : procs_ok k → running k → holds (exit status : M (kern S) A) k Q procs_ok.
Proof.
  intros Hok Hr. rewrite /exit. apply holds_bind with (λ _, procs_ok).
  2: { intros _ k' Hk'. rewrite /sched /holds /myproc /getp !bind_gets. by case_bool_decide. }
  rewrite /exit_run /holds /myproc !bind_gets. destruct (Z.eqb_spec (kcur k) (kinitproc k)) as [|Hi]; [done|].
  do 6 (eapply procs_then; [keeps_tac|done|done|]; intros ? ? ? ? ?).
  repeat match goal with H : same_slots NULL _ _ |- _ => destruct H as [? ? _ _] end.
  apply exit_tail_procs; [done|done|congruence..].
Qed.

(** ** The dispatcher *)

Lemma syscalls_procs num m k :
  syscalls num = Some m → procs_ok k → running k → knextpid k < 2 ^ 31 - 1 → preserves m k.
Proof.
  intros Hm Hok Hr Hn. rewrite /syscalls in Hm.
  repeat (match type of Hm with
    match ?n with _ => _ end = _ => destruct n; try discriminate Hm end);
  injection Hm as <-;
  lazymatch goal with
  | |- holds sys_fork _ _ _ => by apply fork_procs
  | |- holds sys_wait _ _ _ => by apply sys_wait_procs
  | |- holds sys_exit _ _ _ =>
      eapply procs_then; [keeps_tac|done|done|]; intros n k1 _ Hok1 Hr1; by apply exit_procs
  | |- _ => apply procs_keeps; [solve [eauto with keeps nocore]|done|done]
  end.
Qed.

(** C7. Every system call keeps the process table consistent: init is
    alive, the identifiers of processes are positive, distinct and below
    the next one, an UNUSED slot has identifier 0, and the parent of every
    other process can still wait for it.  It holds for every number and
    arguments, where the call returns and where it sleeps, as long as the
    next identifier has not reached the largest int. *)
Theorem syscall_keeps_procs k :
  procs_ok k → running k → knextpid k < 2 ^ 31 - 1 →
  holds syscall k (λ _ k', procs_ok k' ∧ running k' ∧ knextpid k ≤ knextpid k' ≤ knextpid k + 1) procs_ok.
Proof.
  intros Hok Hr Hn. rewrite /syscall /holds /myproc /getp /tf_get !bind_gets.
  destruct (syscalls _) as [m|] eqn:Hm.
  - apply procs_seq; [by eapply syscalls_procs|]. intros r. keeps_tac.
  - apply procs_keeps; [keeps_tac|done|done].
Qed.
End procs_calls.
