(* ===== verification/KillInv.v ===== *)
(** * kill

    [kill] marks the process with the given identifier and wakes it, and
    what [kill(0)] does. *)
From S2P Require Import Prelude Riscv CString Kalloc Vm Cache Log Fs Kern KernInv Pipe Console File Proc Args Exec Sysfile.
From S2P Require Import Syscall Keeps ProcInv Bio FsDemo PipeInv.

Section killinv.
Context {S : Type} {BC : BlockCache S} {LK : Linker} {FR : Frames} {TX : Text}.
Implicit Types k : kern S.
Abbreviation st k p := (p_state (kproc k !!! p)).
Abbreviation pid k p := (p_pid (kproc k !!! p)).

(** The process that is told to exit. *)
Definition told (x : proc) : proc :=
  let y := set_killed true x in if bool_decide (p_state x = SLEEPING) then set_state RUNNABLE y else y.

(** The first slot with the identifier [v]. *)
Definition first_pid k (p v q : Z) : Prop := p ≤ q < NPROC ∧ pid k q = v ∧ ∀ q', p ≤ q' < q → pid k q' ≠ v.

Lemma kill_loop_run n p v k :
  p + Z.of_nat n = NPROC →
  (∃ q, first_pid k p v q ∧ kill_loop n p v k = Ret 0 (put q (told (kproc k !!! q)) k)) ∨
  (∀ q, p ≤ q < NPROC → pid k q ≠ v) ∧ kill_loop n p v k = Ret (-1) k.
Proof.
  revert p. induction n as [|n IH]; intros p Hn; cbn [kill_loop]; [right; split; [lia|done]|].
  rewrite /getp bind_gets. destruct (Z.eqb_spec (pid k p) v) as [E|E].
  - left. exists p. split; [split_and!; [lia..|done|lia]|]. rewrite (bind_ret _ _ _ _ _ (updp_put _ _ _)) bind_gets put_slot.
    change (p_state (set_killed true (kproc k !!! p))) with (st k p). rewrite /told. case_bool_decide.
    + by rewrite (bind_ret _ _ _ _ _ (updp_put_put _ _ _ _)).
    + by rewrite bind_mret.
  - destruct (IH (p + 1)) as [(q & (Hq & Ev & Hf) & Er)|[Hno Er]]; [lia|left; exists q|right]; (split; [|exact Er]).
    + split_and!; [lia..|done|]. intros q' Hq'. destruct (decide (q' = p)) as [->|]; [done|apply Hf; lia].
    + intros q Hq. destruct (decide (q = p)) as [->|]; [done|apply Hno; lia].
Qed.

(** In a consistent process table, kill of a positive identifier marks
    the process that has it, which is unique, as killed and makes it
    RUNNABLE if it sleeps, changes nothing else and returns 0; it returns -1
    and changes nothing if no process has the identifier. *)
Theorem kill_correct k v :
  procs_ok k → 1 ≤ v →
  (∃ p, 0 ≤ p < NPROC ∧ st k p ≠ UNUSED ∧ pid k p = v ∧
     (∀ q, 0 ≤ q < NPROC → st k q ≠ UNUSED → pid k q = v → q = p) ∧
     kill v k = Ret 0 (put p (told (kproc k !!! p)) k)) ∨
  (∀ p, 0 ≤ p < NPROC → pid k p ≠ v) ∧ kill v k = Ret (-1) k.
Proof.
  intros Hok Hv. assert (∀ s, class s = UNUSED ↔ s = UNUSED) as Hcl by (intros []; split; (discriminate || done)).
  assert (∀ q, 0 ≤ q < NPROC → pid k q = v → class (st k q) ≠ UNUSED) as Hu.
  { intros q Hq Eq Hc. pose proof (po_unused _ Hok q Hq Hc). lia. }
  destruct (kill_loop_run (Z.to_nat NPROC) 0 v k) as [(p & (Hp & Ev & _) & Er)|Hno]; [done| |by right].
  left. exists p. pose proof (Hu p Hp Ev) as Hup. split_and!; [lia..|by rewrite -Hcl|done| |exact Er].
  intros q Hq _ Eq. apply (po_inj _ Hok); [done|done|by apply Hu|done|congruence].
Qed.

(** ** kill(0) *)

(** A process that is killed stays so. *)
Definition stays_killed (np : Z) k k' : Prop := p_killed (kproc k !!! np) = true → p_killed (kproc k' !!! np) = true.
#[local] Instance stays_killed_framing np : Framing (stays_killed np).
Proof.
  split; rewrite /stays_killed; [done|intros k1 k2 k3 H1 H2 H; by apply H2, H1|done|done|..|done].
  - intros P k HP H. by apply (q_killed _ _ (HP np)).
  - intros k H. cbn. rewrite updp_lookup. case_decide; [by subst|done].
Qed.
Lemma keeps_updp_killed np p g : (∀ x, p_killed x = true → p_killed (g x) = true) → keeps (stays_killed np) (updp p g).
Proof. intros Hg. apply keeps_modify. intros k H. cbn. rewrite updp_lookup. case_decide; [subst; by apply Hg|done]. Qed.
Hint Extern 1 (keeps (stays_killed _) (updp _ _)) => apply keeps_updp_killed; intros []; done : keeps.
Lemma keeps_updf_killed np f g : keeps (stays_killed np) (updf f g).
Proof. apply keeps_modify. intros k H. exact H. Qed.
Hint Resolve keeps_updf_killed : keeps.
Lemma killed_fork_files np n i p q : keeps (stays_killed np) (fork_files n i p q).
Proof. revert i. induction n; intros i; cbn [fork_files]; rewrite /filedup; keeps_tac. Qed.
Lemma killed_nextpid np f : keeps (stays_killed np) (modify (λ k, set_knextpid (f k) k)).
Proof. apply keeps_modify. intros k H. exact H. Qed.
Hint Resolve killed_fork_files killed_nextpid : keeps.

Lemma killed_then {A B} (m : M (kern S) A) (f : A → M (kern S) B) np k Q :
  keeps (stays_killed np) m → p_killed (kproc k !!! np) = true →
  (∀ a k', p_killed (kproc k' !!! np) = true → holds (f a) k' Q (λ _, True)) → holds (m ≫= f) k Q (λ _, True).
Proof.
  intros Hm Hk Hf. eapply holds_bind.
  - eapply holds_mono; [apply Hm|..|done]. intros a k' H. exact (H Hk).
  - intros a k' Hk'. by apply Hf.
Qed.
Ltac killed_step := eapply killed_then; [keeps_tac|eassumption|]; intros ?; clear; intros ? ?.

(** [fork] into a slot that is marked. *)
Definition born_killed (r : Z) k : Prop := r = -1 ∨ ∃ np, pid k np = r ∧ p_killed (kproc k !!! np) = true.
Lemma allocproc_killed np k :
  p_killed (kproc k !!! np) = true → allocproc_scan (Z.to_nat NPROC) 0 k = Ret np k →
  holds allocproc k (λ q k', q = NULL ∨ q = np ∧ p_killed (kproc k' !!! np) = true) (λ _, True).
Proof.
  intros Hk E. rewrite /allocproc /holds (bind_ret _ _ _ _ _ E). destruct (np =? NULL); [by left|]. rewrite /allocproc_found /allocpid.
  assert (∀ (m : M (kern S) unit) k', holds (m;; mret NULL) k' (λ q k', q = NULL ∨ q = np ∧ p_killed (kproc k' !!! np) = true) (λ _, True)) as Hnull.
  { intros m k'. apply holds_bind with (λ _ _, True); [rewrite /holds; by destruct (m k')|]. intros _ k2 _. by left. }
  do 5 (eapply killed_then; [keeps_tac|eassumption|]; intros ? ? ?). destruct (_ =? 0); [apply Hnull|].
  do 2 (eapply killed_then; [keeps_tac|eassumption|]; intros ? ? ?). destruct (_ =? 0); [apply Hnull|].
  eapply killed_then; [keeps_tac|eassumption|]; intros ? ? ?. by right.
Qed.
Lemma fork_killed np k :
  p_killed (kproc k !!! np) = true → allocproc_scan (Z.to_nat NPROC) 0 k = Ret np k → holds fork k born_killed (λ _, True).
Proof.
  intros Hk E. rewrite /fork /holds /myproc bind_gets.
  eapply holds_bind; [by apply allocproc_killed|]. intros q k1 [->|[-> Hk1]]; [by left|].
  destruct (np =? NULL); [by left|]. clear E. revert Hk1. clear Hk. generalize (kcur k). intros c Hk1.
  do 3 killed_step. destruct (_ <? 0).
  { apply holds_bind with (λ _ _, True); [rewrite /holds; by destruct (freeproc _ _)|]. intros _ k2 _. by left. }
  do 7 killed_step. rewrite /holds bind_gets (bind_ret _ _ _ _ _ (updp_put _ _ _)) (bind_ret _ _ _ _ _ (updp_put_put _ _ _ _)).
  right. exists np. by rewrite put_slot.
Qed.

Lemma scan_first n p0 p k :
  p0 ≤ p < p0 + Z.of_nat n → st k p = UNUSED → (∀ q, p0 ≤ q < p → st k q ≠ UNUSED) → allocproc_scan n p0 k = Ret p k.
Proof.
  revert p0. induction n as [|n IH]; intros p0 Hp Hu Hf; [lia|]. cbn [allocproc_scan]. rewrite /getp bind_gets. case_bool_decide as H.
  - destruct (decide (p = p0)) as [->|]; [done|]. destruct (Hf p0); [lia|done].
  - destruct (decide (p = p0)) as [->|]; [done|]. apply IH; [lia|done|]. intros q Hq. apply Hf. lia.
Qed.

(** C40. kill(0) succeeds although no process has the identifier 0: it
    marks the first UNUSED slot as killed, and as allocproc does not reset
    the mark, the process that the next fork creates in this slot is killed
    from its birth. *)
Theorem kill_zero_marks_newborn k p :
  procs_ok k → 0 ≤ p < NPROC → st k p = UNUSED → (∀ q, 0 ≤ q < p → st k q ≠ UNUSED) →
  ∃ k', kill 0 k = Ret 0 k' ∧ p_killed (kproc k' !!! p) = true ∧ st k' p = UNUSED ∧
    holds fork k' born_killed (λ _, True).
Proof.
  intros Hok Hp Hu Hf. pose proof (po_unused _ Hok p Hp ltac:(by rewrite Hu)) as Hz.
  assert (∀ s, s ≠ UNUSED → class s ≠ UNUSED) as Hcl by (intros [] ?; (discriminate || done)).
  destruct (kill_loop_run (Z.to_nat NPROC) 0 0 k) as [(q & (Hq & Ev & Hq') & Er)|[Hno _]]; [done| |destruct (Hno p Hp Hz)].
  assert (q = p) as ->.
  { destruct (decide (q < p)); [|destruct (decide (q = p)) as [|]; [done|destruct (Hq' p); [lia|done]]].
    assert (class (st k q) ≠ UNUSED) as Hc by (apply Hcl, Hf; lia). pose proof (po_pid _ Hok q ltac:(lia) Hc). lia. }
  exists (put p (told (kproc k !!! p)) k). assert (told (kproc k !!! p) = set_killed true (kproc k !!! p)) as Et.
  { rewrite /told. case_bool_decide; [congruence|done]. }
  split_and!; [exact Er|by rewrite put_slot Et|by rewrite put_slot Et|]. apply (fork_killed p); [by rewrite put_slot Et|].
  apply scan_first; [unfold NPROC in *; lia|by rewrite put_slot Et|]. intros q Hq1. cbn. rewrite lookup_total_insert_ne; [|lia].
  apply Hf. lia.
Qed.

Lemma same_slots_kfs f k : same_slots NULL k (set_kfs f k).
Proof. done. Qed.
End killinv.

(** ** Examples: one process, which is init *)

#[local] Existing Instance demo_linker.
#[local] Instance demo_text : Text := {| text := λ _, 0x80000000 |}.

Definition demo_table : kern bio :=
  set_kproc {[0 := set_sz 0 (set_trapframe 0x80001000 demo_proc)]}
    (set_kfs (mk_fs demo_flog demo_sb ∅ demo_boot (mk_fproc 1 demo_top NULL)) demo_kern).

Lemma demo_table_other p : p ≠ 0 → kproc demo_table !!! p = proc0.
Proof. intros Hp. rewrite /demo_table /=. by rewrite lookup_total_singleton_ne. Qed.
Lemma demo_table_ok : procs_ok demo_table.
Proof.
  assert (∀ p, class (p_state (kproc demo_table !!! p)) ≠ UNUSED → p = 0) as Hz.
  { intros p Hp. destruct (decide (p = 0)); [done|]. by rewrite demo_table_other in Hp. }
  split.
  - done.
  - cbn. lia.
  - intros p _ Hp. destruct (decide (p = 0)) as [->|]; [discriminate Hp|]. by rewrite demo_table_other.
  - intros p _ ->%Hz. assert (p_pid (kproc demo_table !!! 0) = 1) as -> by done. cbn. lia.
  - by intros p q _ _ ->%Hz ->%Hz.
  - intros p _ Hp Hne. destruct Hne. apply Hz. destruct Hp as [->| ->]; discriminate.
Qed.

Lemma kill_correct_witness :
  (∃ k', kill 1 demo_table = Ret 0 k' ∧ p_killed (kproc k' !!! 0) = true) ∧ kill 7 demo_table = Ret (-1) demo_table.
Proof.
  split.
  - destruct (kill_correct demo_table 1 demo_table_ok) as [(p & Hp & Hs & Hv & _ & E)|[Hno _]]; [lia| |].
    + eexists. split; [exact E|]. destruct (decide (p = 0)) as [->|Hn]; [done|].
      rewrite demo_table_other in Hs; [by destruct Hs|done].
    + destruct (Hno 0); done.
  - destruct (kill_correct demo_table 7 demo_table_ok) as [(p & Hp & Hs & Hv & _)|[_ E]]; [lia| |exact E].
    destruct (decide (p = 0)) as [->|Hn]; [discriminate Hv|]. rewrite demo_table_other in Hs; [by destruct Hs|done].
Defined.

Lemma kill_zero_marks_newborn_witness :
  (∃ k', kill 0 demo_table = Ret 0 k' ∧ holds fork k' born_killed (λ _, True)) ∧
  match kill 0 demo_table with
  | Ret _ k1 => match fork k1 with Ret r k2 => (r, p_pid (kproc k2 !!! 1), p_killed (kproc k2 !!! 1)) | _ => (0, 0, false) end
  | _ => (0, 0, false)
  end = (2, 2, true).
Proof.
  split.
  - destruct (kill_zero_marks_newborn demo_table 1 demo_table_ok) as (k' & E & _ & _ & H); [done|done| |by exists k'].
    intros q Hq. assert (q = 0) as -> by lia. discriminate.
  - vm_compute. reflexivity.
Defined.

(** The process calls fork. *)
Definition demo_forking : kern bio :=
  set_kfs (mk_fs demo_flog demo_sb ∅ (mk_kmem (st64 (km demo_boot) (0x80001000 + TF_a7) SYS_fork) (freelist demo_boot))
    (mk_fproc 1 demo_top NULL)) demo_table.
Lemma demo_forking_ok : procs_ok demo_forking.
Proof. apply (procs_ok_same demo_table); [apply same_slots_kfs|apply demo_table_ok]. Qed.

Lemma syscall_keeps_procs_witness :
  holds syscall demo_forking (λ _ k', procs_ok k' ∧ running k' ∧ 2 ≤ knextpid k' ≤ 3) procs_ok ∧
  match syscall demo_forking with
  | Ret _ k => let x := kproc k !!! 1 in (p_pid x, p_parent x, bool_decide (p_state x = RUNNABLE))
  | _ => (0, 0, false)
  end = (2, 0, true).
Proof.
  split; [|vm_compute; reflexivity].
  apply (syscall_keeps_procs demo_forking); [apply demo_forking_ok|by split|cbn; lia].
Defined.
