(* ===== verification/Grep.v ===== *)
(** * user/grep.c

    The matcher of regular expressions, the loop that reads a file through
    a buffer and prints the lines that match, and that they do what their
    comments say.  A C string is the list of its bytes before the NUL. *)
From S2P Require Import Prelude.

Definition CH_star : Z := 42.
Definition CH_dot : Z := 46.
Definition CH_caret : Z := 94.
Definition CH_dollar : Z := 36.
Definition CH_nl : Z := 10.

(** ** The matcher *)

(** The loop of [matchstar], with [here] for [matchhere(re, .)]. *)
Fixpoint matchstar (here : list Z → bool) (c : Z) (text : list Z) : bool :=
  if here text then true
  else
    match text with
    | [] => false
    | t :: text' => if (t =? c) || (c =? CH_dot) then matchstar here c text' else false
    end.

Fixpoint matchhere (re text : list Z) : bool :=
  match re with
  | [] => true
  | c :: re1 =>
      let literal :=
        if (c =? CH_dollar) && (match re1 with [] => true | _ => false end) then
          match text with [] => true | _ => false end
        else
          match text with
          | [] => false
          | t :: text' => if (c =? CH_dot) || (c =? t) then matchhere re1 text' else false
          end in
      match re1 with
      | [] => literal
      | c1 :: re2 => if c1 =? CH_star then matchstar (matchhere re2) c text else literal
      end
  end.

(** The do loop of [match]. *)
Fixpoint match_loop (re text : list Z) : bool :=
  if matchhere re text then true
  else match text with [] => false | _ :: text' => match_loop re text' end.
Definition match_ (re text : list Z) : bool :=
  match re with
  | c :: re' => if c =? CH_caret then matchhere re' text else match_loop re text
  | [] => match_loop re text
  end.

(** ** Printing the lines that match *)

(** [strchr(s, c)] of ulib.c: the offset of the first [c] before the NUL. *)
Fixpoint strchr (s : list Z) (c : Z) : option nat :=
  match s with
  | [] => None
  | x :: s' => if x =? 0 then None else if x =? c then Some O else S <$> strchr s' c
  end.

(** The inner loop over the bytes from [p] on: what is printed, and the
    bytes from the final [p] on.  [fuel] is more than the length of [p]. *)
Fixpoint grep_lines (fuel : nat) (pattern p : list Z) : list Z * list Z :=
  match fuel with
  | O => ([], p)
  | S fuel' =>
      match strchr p CH_nl with
      | None => ([], p)
      | Some q =>
          let line := take q p in
          let '(out, rest) := grep_lines fuel' pattern (drop (S q) p) in
          ((if match_ pattern line then take (S q) p else []) ++ out, rest)
      end
  end.

Definition BUF_SIZE : nat := 1024.

(** The file: its remaining bytes, and how many more than one byte the
    calls of [read] to come return at most. *)
Record infile := mk_infile { in_rest : list Z; in_gives : list nat }.
Definition read (f : infile) (n : nat) : list Z * infile :=
  let k := Nat.min n (S (default O (head (in_gives f)))) in
  (take k (in_rest f), mk_infile (drop k (in_rest f)) (tail (in_gives f))).

(** [buf] holds the [m] bytes carried over.  [fuel] is more than the number
    of bytes of the file. *)
Fixpoint grep_loop (fuel : nat) (pattern : list Z) (f : infile) (buf : list Z) : list Z :=
  match fuel with
  | O => []
  | S fuel' =>
      let '(chunk, f') := read f (BUF_SIZE - length buf - 1) in
      match chunk with
      | [] => []
      | _ =>
          let p := buf ++ chunk in
          let '(out, rest) := grep_lines (S (length p)) pattern p in
          out ++ grep_loop fuel' pattern f' rest
      end
  end.
Definition grep (pattern : list Z) (f : infile) : list Z := grep_loop (S (length (in_rest f))) pattern f [].

(** ** The language of a regular expression *)

Inductive atom := Lit (c : Z) | Any.
Inductive item := One (a : atom) | Star (a : atom).
Definition atom_of (c : Z) : atom := if c =? CH_dot then Any else Lit c.
Definition accepts (a : atom) (t : Z) : Prop := match a with Lit c => t = c | Any => True end.

(** The items of a pattern without its leading ^, and whether it ends in $. *)
Fixpoint items_of (re : list Z) : list item * bool :=
  match re with
  | [] => ([], false)
  | c :: re1 =>
      match re1 with
      | [] => if c =? CH_dollar then ([], true) else ([One (atom_of c)], false)
      | c1 :: re2 =>
          if c1 =? CH_star then let '(l, e) := items_of re2 in (Star (atom_of c) :: l, e)
          else let '(l, e) := items_of re1 in (One (atom_of c) :: l, e)
      end
  end.

(** The words of a sequence of items. *)
Fixpoint lang (l : list item) (w : list Z) : Prop :=
  match l with
  | [] => w = []
  | One a :: l' => ∃ t w', w = t :: w' ∧ accepts a t ∧ lang l' w'
  | Star a :: l' => ∃ w1 w2, w = w1 ++ w2 ∧ Forall (accepts a) w1 ∧ lang l' w2
  end.

(** A word of the pattern starts [text]; with $ it is all of [text]. *)
Definition begins (re text : list Z) : Prop :=
  let '(l, e) := items_of re in ∃ w post, text = w ++ post ∧ lang l w ∧ (e = true → post = []).

Lemma accepts_atom c t : accepts (atom_of c) t ↔ (c =? CH_dot) || (c =? t) = true.
Proof. rewrite /atom_of. destruct (Z.eqb_spec c CH_dot); cbn; [done|]. rewrite Z.eqb_eq. split; congruence. Qed.

(** A star takes any number of characters, whatever comes next. *)
Lemma matchstar_spec here c text :
  matchstar here c text = true ↔ ∃ w1 rest, text = w1 ++ rest ∧ Forall (accepts (atom_of c)) w1 ∧ here rest = true.
Proof.
  revert here. induction text as [|t text IH]; intros here; cbn [matchstar].
  - destruct (here []) eqn:Hh.
    + split; [|done]. intros _. by exists [], [].
    + split; [done|]. intros (w1 & rest & E & _ & Hr). symmetry in E. apply app_nil in E as [-> ->]. congruence.
  - destruct (here (t :: text)) eqn:Hh.
    { split; [|done]. intros _. by exists [], (t :: text). }
    assert ((t =? c) || (c =? CH_dot) = (c =? CH_dot) || (c =? t)) as -> by (rewrite orb_comm (Z.eqb_sym t); done).
    destruct (_ || _) eqn:Ha; rewrite ?IH; split.
    + intros (w1 & rest & -> & Hf & Hr). exists (t :: w1), rest. split_and!; [done| |done]. constructor; [by apply accepts_atom|done].
    + intros ([|t' w1] & rest & E & Hf & Hr); cbn in E; [subst; congruence|]. injection E as -> ->.
      exists w1, rest. inversion Hf; subst. done.
    + done.
    + intros ([|t' w1] & rest & E & Hf & Hr); cbn in E; [subst; congruence|]. injection E as -> ->. inversion Hf; subst.
      rename select (accepts _ _) into Hac. apply accepts_atom in Hac. congruence.
Qed.

Lemma items_of_cons c c1 re2 :
  items_of (c :: c1 :: re2) =
    if c1 =? CH_star then let '(l, e) := items_of re2 in (Star (atom_of c) :: l, e)
    else let '(l, e) := items_of (c1 :: re2) in (One (atom_of c) :: l, e).
Proof. done. Qed.

(** [matchhere] goes through the items. *)
Lemma matchhere_begins re text : matchhere re text = true ↔ begins re text.
Proof.
  remember (length re) as n eqn:Hn. revert re text Hn. induction (lt_wf n) as [n _ IH]. intros re text ->.
  destruct re as [|c re1]; cbn [matchhere].
  { split; [|done]. intros _. exists [], text. done. }
  assert (∀ l e, (∃ w post, text = w ++ post ∧ lang (One (atom_of c) :: l) w ∧ (e = true → post = [])) ↔
    match text with [] => False | t :: text' => (c =? CH_dot) || (c =? t) = true ∧
      ∃ w post, text' = w ++ post ∧ lang l w ∧ (e = true → post = []) end) as Hone.
  { intros l e. split.
    - intros (w & post & -> & (t & w' & -> & Ha & Hl) & He). cbn. split; [by apply accepts_atom|]. by exists w', post.
    - destruct text as [|t text']; [done|]. intros (Ha & w & post & -> & Hl & He). exists (t :: w), post. split_and!; [done| |done].
      exists t, w. split_and!; [done|by apply accepts_atom|done]. }
  destruct re1 as [|c1 re2].
  - rewrite /begins. cbn [items_of]. destruct (Z.eqb_spec c CH_dollar) as [->|Hc]; cbn [andb].
    + destruct text as [|t text'].
      * split; [|done]. intros _. by exists [], [].
      * split; [done|]. intros (w & post & E & -> & He). rewrite (He eq_refl) in E. discriminate E.
    + rewrite Hone. destruct text as [|t text']; [done|]. destruct (_ || _); [|split; [done|by intros [? _]]].
      split; [|done]. intros _. split; [done|]. by exists [], text'.
  - rewrite andb_false_r /begins items_of_cons. destruct (Z.eqb_spec c1 CH_star) as [->|Hc1].
    + rewrite matchstar_spec. destruct (items_of re2) as [l e] eqn:Ei. split.
      * intros (w1 & rest & -> & Hf & Hr). apply (IH (length re2)) in Hr; [|cbn; lia|done]. rewrite /begins Ei in Hr.
        destruct Hr as (w & post & -> & Hl & He). exists (w1 ++ w), post. split_and!; [by rewrite app_assoc| |done]. by exists w1, w.
      * intros (w & post & -> & (w1 & w2 & -> & Hf & Hl) & He). exists w1, (w2 ++ post). split_and!; [by rewrite app_assoc|done|].
        apply (IH (length re2)); [cbn; lia|done|]. rewrite /begins Ei. by exists w2, post.
    + destruct (items_of (c1 :: re2)) as [l e] eqn:Ei. rewrite Hone. destruct text as [|t text']; [done|].
      destruct (_ || _); [|split; [done|by intros [? _]]]. rewrite (IH (length (c1 :: re2))); [|cbn; lia|done]. rewrite /begins Ei.
      split; [done|by intros [_ ?]].
Qed.

Lemma match_loop_spec re text : match_loop re text = true ↔ ∃ pre rest, text = pre ++ rest ∧ begins re rest.
Proof.
  induction text as [|t text IH]; cbn [match_loop].
  - destruct (matchhere re []) eqn:Hm.
    + split; [|done]. intros _. exists [], []. split; [done|]. by apply matchhere_begins.
    + split; [done|]. intros (pre & rest & E & Hb). symmetry in E. apply app_nil in E as [-> ->]. apply matchhere_begins in Hb. congruence.
  - destruct (matchhere re (t :: text)) eqn:Hm.
    + split; [|done]. intros _. exists [], (t :: text). split; [done|]. by apply matchhere_begins.
    + rewrite IH. split.
      * intros (pre & rest & -> & Hb). by exists (t :: pre), rest.
      * intros ([|t' pre] & rest & E & Hb); cbn in E; [subst; apply matchhere_begins in Hb; congruence|]. injection E as -> ->.
        by exists pre, rest.
Qed.

(** ** The theorems *)

(** A pattern: whether it starts with ^, its items, whether it ends in $. *)
Definition regex_of (re : list Z) : bool * (list item * bool) :=
  match re with
  | c :: re' => if c =? CH_caret then (true, items_of re') else (false, items_of re)
  | [] => (false, items_of re)
  end.
(** A word of the pattern occurs in [text], at its start with ^ and at its
    end with $. *)
Definition occurs (re text : list Z) : Prop :=
  let '(a, (l, e)) := regex_of re in
  ∃ pre w post, text = pre ++ w ++ post ∧ lang l w ∧ (a = true → pre = []) ∧ (e = true → post = []).

Lemma match_occurs re text : match_ re text = true ↔ occurs re text.
Proof.
  assert (∀ re, (∃ pre rest, text = pre ++ rest ∧ begins re rest) ↔
    let '(l, e) := items_of re in
    ∃ pre w post, text = pre ++ w ++ post ∧ lang l w ∧ (false = true → pre = []) ∧ (e = true → post = [])) as Hany.
  { intros re'. rewrite /begins. destruct (items_of re') as [l e]. split.
    - intros (pre & rest & -> & w & post & -> & Hl & He). by exists pre, w, post.
    - intros (pre & w & post & -> & Hl & _ & He). exists pre, (w ++ post). split; [done|]. by exists w, post. }
  rewrite /match_ /occurs /regex_of. destruct re as [|c re']; [by rewrite match_loop_spec Hany|].
  destruct (Z.eqb_spec c CH_caret) as [->|Hc]; [|by rewrite match_loop_spec Hany; destruct (items_of _)].
  rewrite matchhere_begins /begins. destruct (items_of re') as [l e]. split.
  - intros (w & post & -> & Hl & He). by exists [], w, post.
  - intros (pre & w & post & -> & Hl & Hp & He). rewrite Hp //. by exists w, post.
Qed.

(** C19. The matcher of grep decides its regular expressions: match returns
    1 exactly if the text contains a word of the pattern's language, where .
    is any character, c* any number of c, and ^ and $ tie the word to the
    start and the end of the text.  It returns for every pattern and text. *)
Theorem match_correct re text : match_ re text = true ↔ occurs re text.
Proof. apply match_occurs. Qed.
#[global] Instance occurs_dec re text : Decision (occurs re text).
Proof. refine (cast_if (decide (match_ re text = true))); abstract (by rewrite -match_occurs). Defined.

(** The lines of [s], when [cur] has been read of the first one; a last
    line without newline is not one. *)
Fixpoint lines (cur s : list Z) : list (list Z) :=
  match s with
  | [] => []
  | x :: s' => if x =? CH_nl then cur :: lines [] s' else lines (cur ++ [x]) s'
  end.
(** What follows the last newline. *)
Fixpoint partial (cur s : list Z) : list Z :=
  match s with
  | [] => cur
  | x :: s' => if x =? CH_nl then partial [] s' else partial (cur ++ [x]) s'
  end.
Definition printed (pattern : list Z) (ls : list (list Z)) : list Z :=
  concat ((λ l, if match_ pattern l then l ++ [CH_nl] else []) <$> ls).

Lemma printed_app pattern a b : printed pattern (a ++ b) = printed pattern a ++ printed pattern b.
Proof. by rewrite /printed fmap_app concat_app. Qed.
Lemma lines_app cur a b : lines cur (a ++ b) = lines cur a ++ lines (partial cur a) b.
Proof. revert cur. induction a as [|x a IH]; intros cur; cbn; [done|]. case_match; cbn; by rewrite IH. Qed.
Lemma partial_app cur a b : partial cur (a ++ b) = partial (partial cur a) b.
Proof. revert cur. induction a as [|x a IH]; intros cur; cbn; [done|]. by case_match. Qed.
Lemma lines_none cur a : CH_nl ∉ a → lines cur a = [] ∧ partial cur a = cur ++ a.
Proof.
  revert cur. induction a as [|x a IH]; intros cur Hn; cbn; [by rewrite app_nil_r|].
  apply not_elem_of_cons in Hn as [Hx Hn]. assert (x =? CH_nl = false) as -> by (apply Z.eqb_neq; congruence).
  destruct (IH (cur ++ [x]) Hn) as [-> ->]. by rewrite -app_assoc.
Qed.
Lemma partial_no_nl cur a : CH_nl ∉ cur → CH_nl ∉ partial cur a.
Proof.
  revert cur. induction a as [|x a IH]; intros cur Hn; cbn; [done|]. destruct (Z.eqb_spec x CH_nl); apply IH; [set_solver|].
  rewrite not_elem_of_app not_elem_of_cons. split_and!; [done|congruence|set_solver].
Qed.

Lemma strchr_nl p : Forall (λ x, x ≠ 0) p →
  match strchr p CH_nl with
  | None => CH_nl ∉ p
  | Some q => CH_nl ∉ take q p ∧ p = take q p ++ CH_nl :: drop (S q) p ∧ take (S q) p = take q p ++ [CH_nl]
  end.
Proof.
  induction p as [|x p IH]; intros Hz; cbn [strchr]; [set_solver|]. inversion Hz as [|? ? Hx Hz']; subst.
  assert (x =? 0 = false) as -> by lia. destruct (Z.eqb_spec x CH_nl) as [->|Hn].
  - cbn. split_and!; [set_solver|by rewrite drop_0|by rewrite take_0].
  - specialize (IH Hz'). destruct (strchr p CH_nl) as [q|]; cbn.
    + destruct IH as (Hq & E & E'). split_and!; [rewrite not_elem_of_cons; split; congruence|by f_equal|by f_equal].
    + rewrite not_elem_of_cons. split; congruence.
Qed.

Lemma grep_lines_spec fuel pattern p :
  Forall (λ x, x ≠ 0) p → (length p < fuel)%nat → grep_lines fuel pattern p = (printed pattern (lines [] p), partial [] p).
Proof.
  revert p. induction fuel as [|fuel IH]; intros p Hz Hf; [lia|]. cbn [grep_lines]. pose proof (strchr_nl p Hz) as Hs.
  destruct (strchr p CH_nl) as [q|]; [|destruct (lines_none [] p Hs) as [-> ->]; done].
  destruct Hs as (Hq & E & E'). destruct (lines_none [] (take q p) Hq) as [El Ep].
  assert (lines [] p = take q p :: lines [] (drop (S q) p) ∧ partial [] p = partial [] (drop (S q) p)) as [-> ->].
  { rewrite {1 4}E lines_app partial_app El Ep. cbn [app lines partial]. by rewrite Z.eqb_refl. }
  rewrite IH.
  - f_equal. rewrite /printed fmap_cons. cbn [concat]. by rewrite E'.
  - by apply Forall_drop.
  - apply (f_equal length) in E. rewrite length_app in E. cbn in E. lia.
Qed.

Lemma partial_nonzero cur a : Forall (λ x, x ≠ 0) cur → Forall (λ x, x ≠ 0) a → Forall (λ x, x ≠ 0) (partial cur a).
Proof.
  revert cur. induction a as [|x a IH]; intros cur Hc Ha; cbn; [done|]. inversion Ha; subst. case_match; apply IH; try done.
  apply Forall_app. split; [done|by constructor].
Qed.

Lemma lines_long cur s l : CH_nl ∉ cur → head (lines cur s) = Some l → (length cur ≤ length l)%nat.
Proof.
  revert cur. induction s as [|x s IH]; intros cur Hc; cbn; [done|]. destruct (Z.eqb_spec x CH_nl).
  - cbn. by intros [= <-].
  - intros H. apply IH in H; [rewrite length_app in H; cbn in H; lia|]. rewrite not_elem_of_app not_elem_of_cons. set_solver.
Qed.

Lemma grep_loop_spec fuel pattern f buf :
  Forall (λ x, x ≠ 0) buf → Forall (λ x, x ≠ 0) (in_rest f) → CH_nl ∉ buf → (length (in_rest f) < fuel)%nat →
  Forall (λ l, (length l < BUF_SIZE - 1)%nat) (lines buf (in_rest f)) →
  grep_loop fuel pattern f buf = printed pattern (lines buf (in_rest f)).
Proof.
  revert f buf. induction fuel as [|fuel IH]; intros f buf Hzb Hz Hn Hf Hl; [lia|]. cbn [grep_loop read].
  set (k := Nat.min _ _). destruct (take k (in_rest f)) as [|x ch] eqn:Et.
  - assert (in_rest f = [] ∨ k = O) as [->|Hk] by (destruct (in_rest f), k; auto; discriminate Et); [done|].
    assert (BUF_SIZE - length buf - 1 = 0)%nat as Hfull by (subst k; lia).
    destruct (lines buf (in_rest f)) as [|l ls] eqn:El; [done|]. pose proof (lines_long buf (in_rest f) l Hn) as Hlong.
    rewrite El in Hlong. specialize (Hlong eq_refl). inversion Hl; subst. lia.
  - rewrite -Et. assert (in_rest f = take k (in_rest f) ++ drop k (in_rest f)) as Er by (by rewrite take_drop).
    revert Et Er. generalize (take k (in_rest f)) (drop k (in_rest f)). intros chunk rest' Et Er.
    rewrite grep_lines_spec; [| |lia].
    2: { apply Forall_app. split; [done|]. rewrite Er in Hz. by apply Forall_app in Hz as [? _]. }
    destruct (lines_none [] buf Hn) as [Eb Pb]. rewrite lines_app Eb partial_app Pb. cbn [app].
    rewrite Er lines_app in Hl |- *. apply Forall_app in Hl as [_ Hl]. rewrite Er in Hz. apply Forall_app in Hz as [Hzc Hzr].
    rewrite printed_app IH; cbn [in_rest]; [done|by apply partial_nonzero|done|by apply partial_no_nl| |done].
    apply (f_equal length) in Er. rewrite length_app Et in Er. cbn in Er. lia.
Qed.

(** C20. grep prints exactly the lines that match.  Whatever sizes the
    calls of read return, grep of a text file, in which every line has
    fewer than 1023 bytes, terminates and prints the lines of the file, with
    their newlines and in their order, whose bytes contain a word of the
    pattern; bytes after the last newline are not a line. *)
Theorem grep_correct pattern f :
  Forall (λ x, x ≠ 0) (in_rest f) → Forall (λ l, (length l < BUF_SIZE - 1)%nat) (lines [] (in_rest f)) →
  grep pattern f = concat ((λ l, l ++ [CH_nl]) <$> filter (occurs pattern) (lines [] (in_rest f))).
Proof.
  intros Hz Hl. rewrite /grep grep_loop_spec; [|by constructor|done|set_solver|lia|done]. rewrite /printed.
  induction (lines [] (in_rest f)) as [|l ls IH]; [done|]. inversion Hl; subst. rewrite fmap_cons filter_cons. cbn [concat].
  rewrite IH //. destruct (match_ pattern l) eqn:Hm; case_decide as Ho; try done.
  - destruct Ho. by apply match_occurs.
  - apply match_occurs in Ho. congruence.
Qed.

(** "hello\nhow\nare\nyou\n", read in pieces, with the pattern ^h.*o$ *)
Definition demo_file : infile :=
  mk_infile [104; 101; 108; 108; 111; 10; 104; 111; 119; 10; 97; 114; 101; 10; 121; 111; 117; 10] [3; 0; 6; 1]%nat.
Lemma grep_correct_witness :
  grep [94; 104; 46; 42; 111; 36] demo_file = concat ((λ l, l ++ [CH_nl]) <$> filter (occurs [94; 104; 46; 42; 111; 36]) (lines [] (in_rest demo_file))) ∧
  grep [94; 104; 46; 42; 111; 36] demo_file = [104; 101; 108; 108; 111; 10].
Proof.
  split; [|vm_compute; reflexivity].
  apply (grep_correct [94; 104; 46; 42; 111; 36] demo_file); repeat (constructor; [cbn; lia|]); constructor.
Defined.

Lemma elem_of_range (x : Z) (l : list Z) i j n : (i + j ≤ n)%nat → x ∈ take j (drop i l) → x ∈ take n l.
Proof.
  intros Hn [a Ha]%list_elem_of_lookup. apply list_elem_of_lookup. exists (i + a)%nat.
  apply lookup_take_Some in Ha as [Ha Hlt]. rewrite lookup_drop in Ha. apply lookup_take_Some. split; [done|lia].
Qed.

(** A line that does not fit in the buffer ends the search: nothing after
    it is read. *)
Lemma grep_long_line fuel pattern f buf :
  Forall (λ x, x ≠ 0) (buf ++ in_rest f) → CH_nl ∉ buf ++ take (BUF_SIZE - 1 - length buf) (in_rest f) → (length buf ≤ BUF_SIZE - 1)%nat →
  grep_loop fuel pattern f buf = [].
Proof.
  revert f buf. induction fuel as [|fuel IH]; intros f buf Hz Hn Hb; [done|]. cbn [grep_loop read].
  set (k := Nat.min _ _). destruct (take k (in_rest f)) as [|x ch] eqn:Et; [done|]. rewrite -Et.
  assert (k ≤ BUF_SIZE - 1 - length buf)%nat as Hk by lia. apply not_elem_of_app in Hn as [Hnb Hnr].
  assert (CH_nl ∉ take k (in_rest f)) as Hnk by (intros Hin; by apply Hnr, (elem_of_range _ _ 0 k)).
  assert (CH_nl ∉ buf ++ take k (in_rest f)) as Hnp by by apply not_elem_of_app.
  apply Forall_app in Hz as [Hzb Hz]. rewrite grep_lines_spec; [| |lia].
  2: { apply Forall_app. split; [done|]. by apply Forall_take. }
  destruct (lines_none [] _ Hnp) as [-> ->]. cbn [printed fmap list_fmap concat app]. apply IH; cbn [in_rest].
  - rewrite -app_assoc take_drop. by apply Forall_app.
  - rewrite -app_assoc. apply not_elem_of_app. split; [done|]. rewrite length_app length_take.
    intros Hin. apply Hnr. apply elem_of_app in Hin as [Hin|Hin]; [done|].
    destruct (decide (k ≤ length (in_rest f))%nat); [|rewrite drop_ge in Hin; [|lia]; rewrite take_nil in Hin; inversion Hin].
    eapply elem_of_range; [|exact Hin]. lia.
  - rewrite length_app length_take. lia.
Qed.
