(* ===== verification/Umalloc.v ===== *)
(** * user/umalloc.c

    The allocator of user programs: a circular list of free blocks in the
    order of their addresses.  Memory is seen as an array of [union header]
    cells, by the address of their first byte; the cells between the headers
    belong to the program. *)
From S2P Require Import Prelude.

Record header := mk_header { h_ptr : Z; h_size : Z }.
#[global] Instance header_inhabited : Inhabited header := populate (mk_header 0 0).
Definition HEADER : Z := 16.

Record uheap := mk_uheap { cells : gmap Z header; freep : Z; brk : Z }.
Definition set_cells c s := mk_uheap c (freep s) (brk s).
Definition set_freep p s := mk_uheap (cells s) p (brk s).
Definition set_brk b s := mk_uheap (cells s) (freep s) b.

Section umalloc.
(** The address of [base], and whether the kernel can give the process [n]
    bytes more than the [sz] it has. *)
Context (base : Z) (grants : Z → Z → bool).

Definition getptr (p : Z) : M uheap Z := gets (λ s, h_ptr (cells s !!! p)).
Definition getsize (p : Z) : M uheap Z := gets (λ s, h_size (cells s !!! p)).
Definition setptr (p v : Z) : M uheap unit :=
  modify (λ s, set_cells (<[p := mk_header v (h_size (cells s !!! p))]> (cells s)) s).
Definition setsize (p v : Z) : M uheap unit :=
  modify (λ s, set_cells (<[p := mk_header (h_ptr (cells s !!! p)) (u32 v)]> (cells s)) s).

(** The system call, as [sys_sbrk] and [growproc] do it. *)
Definition sbrk (n : Z) : M uheap Z :=
  sz ← gets brk;
  if n >? 0 then
    if grants sz n then modify (set_brk (sz + n));; mret sz else mret (u64 (-1))
  else
    let newsz := u64 (sz + n) in
    modify (set_brk (if newsz >=? sz then sz else newsz));; mret sz.

(** The loop of [free] that finds the block before [bp]. *)
Fixpoint free_find (fuel : nat) (bp p : Z) : M uheap Z :=
  match fuel with
  | O => panic "does not terminate"
  | S fuel' =>
      nx ← getptr p;
      if (bp >? p) && (bp <? nx) then mret p
      else if (p >=? nx) && ((bp >? p) || (bp <? nx)) then mret p
      else free_find fuel' bp nx
  end.
(** More than the number of free blocks. *)
Definition fuel_of (s : uheap) : nat := S (S (Z.to_nat (brk s / HEADER))).

Definition free (ap : Z) : M uheap unit :=
  let bp := ap - HEADER in
  fp ← gets freep;
  fuel ← gets fuel_of;
  p ← free_find fuel bp fp;
  nx ← getptr p;
  bsize ← getsize bp;
  (if bp + HEADER * bsize =? nx then
     nxsize ← getsize nx;
     setsize bp (bsize + nxsize);;
     nxnx ← getptr nx;
     setptr bp nxnx
   else setptr bp nx);;
  psize ← getsize p;
  (if p + HEADER * psize =? bp then
     bsize ← getsize bp;
     setsize p (psize + bsize);;
     bnx ← getptr bp;
     setptr p bnx
   else setptr p bp);;
  modify (set_freep p).

(** [sbrk] takes an int. *)
Definition morecore (nu : Z) : M uheap Z :=
  let nu := if nu <? 4096 then 4096 else nu in
  p ← sbrk (s32 (nu * HEADER));
  if p =? u64 (-1) then mret 0
  else
    setsize p nu;;
    free (p + HEADER);;
    gets freep.

Definition units (nbytes : Z) : Z := u32 ((nbytes + HEADER - 1) / HEADER + 1).

Fixpoint malloc_loop (fuel : nat) (nunits prevp p : Z) : M uheap Z :=
  match fuel with
  | O => panic "does not terminate"
  | S fuel' =>
      size ← getsize p;
      if size >=? nunits then
        p' ← (if size =? nunits then
                nx ← getptr p;
                setptr prevp nx;;
                mret p
              else
                setsize p (size - nunits);;
                size' ← getsize p;
                setsize (p + HEADER * size') nunits;;
                mret (p + HEADER * size'));
        modify (set_freep prevp);;
        mret (p' + HEADER)
      else
        fp ← gets freep;
        if p =? fp then
          q ← morecore nunits;
          if q =? 0 then mret 0
          else nx ← getptr q; malloc_loop fuel' nunits q nx
        else nx ← getptr p; malloc_loop fuel' nunits p nx
  end.

Definition malloc (nbytes : Z) : M uheap Z :=
  let nunits := units nbytes in
  fp ← gets freep;
  prevp ← (if fp =? 0 then
             setptr base base;;
             modify (set_freep base);;
             setsize base 0;;
             mret base
           else mret fp);
  p ← getptr prevp;
  fuel ← gets (λ s, (fuel_of s + fuel_of s)%nat);
  malloc_loop fuel nunits prevp p.
End umalloc.
