(* ===== verification/UmallocInv.v ===== *)
(** * The allocator of user programs is correct

    The free list is sorted and coalesced, and the free blocks and the
    blocks in use never overlap. *)
From S2P Require Import Prelude Umalloc.

(** A block: the address of its header and its size in cells. *)
Abbreviation block := (Z * Z)%type.
Definition bend (b : block) : Z := b.1 + HEADER * b.2.
Definition disj (x y : block) : Prop := bend x ≤ y.1 ∨ bend y ≤ x.1.

(** ** Circular lists *)

Definition head_or (l : list block) (d : Z) : Z := match l with [] => d | b :: _ => b.1 end.
(** The headers of [l], linked; the last one points to [d]. *)
Fixpoint seg (c : gmap Z header) (l : list block) (d : Z) : Prop :=
  match l with
  | [] => True
  | b :: l' => c !!! b.1 = mk_header (head_or l' d) b.2 ∧ seg c l' d
  end.

Lemma seg_app c l1 l2 d : seg c (l1 ++ l2) d ↔ seg c l1 (head_or l2 d) ∧ seg c l2 d.
Proof.
  induction l1 as [|b l1 IH]; cbn; [tauto|]. rewrite IH. destruct l1; cbn; tauto.
Qed.
Lemma seg_insert c l d a h : a ∉ l.*1 → seg (<[a := h]> c) l d ↔ seg c l d.
Proof.
  induction l as [|b l IH]; cbn; [done|]. rewrite not_elem_of_cons. intros [Ha Hl]. rewrite IH //.
  by rewrite lookup_total_insert_ne.
Qed.
Lemma seg_lookup c l d b : seg c l d → b ∈ l → h_size (c !!! b.1) = b.2.
Proof.
  induction l as [|b' l IH]; [by intros _ ?%elem_of_nil|]. cbn. intros [E Hs] [->|H]%elem_of_cons; [by rewrite E|by apply IH].
Qed.

(** Circular: the last one points to the first. *)
Definition cyc c l : Prop := seg c l (head_or l 0).
Lemma cyc_rot c l1 l2 : cyc c (l1 ++ l2) → cyc c (l2 ++ l1).
Proof.
  rewrite /cyc !seg_app. intros [H1 H2].
  destruct l1 as [|x l1], l2 as [|y l2]; cbn in *; try (by split); rewrite ?app_nil_r in H1 H2 |- *; by split.
Qed.

(** ** Sorted lists *)

(** In the order of their addresses, with gaps between them. *)
Fixpoint asc (lo : Z) (l : list block) : Prop :=
  match l with [] => True | b :: l' => lo < b.1 ∧ 0 ≤ b.2 ∧ asc (bend b) l' end.
Lemma asc_weaken lo lo' l : lo' ≤ lo → asc lo l → asc lo' l.
Proof. destruct l; cbn; [done|]. intros ? (? & ? & ?). split_and!; [lia|done..]. Qed.
Definition last_end (lo : Z) (l : list block) : Z := match last l with Some b => bend b | None => lo end.
Lemma last_end_cons lo b l : last_end lo (b :: l) = last_end (bend b) l.
Proof. rewrite /last_end last_cons. by destruct (last l). Qed.
Lemma asc_app lo l1 l2 : asc lo (l1 ++ l2) ↔ asc lo l1 ∧ asc (last_end lo l1) l2.
Proof.
  revert lo. induction l1 as [|b l1 IH]; intros lo; [cbn; tauto|]. cbn [app asc]. rewrite IH last_end_cons. tauto.
Qed.
Lemma asc_low lo l b : asc lo l → b ∈ l → lo < b.1 ∧ 0 ≤ b.2.
Proof.
  revert lo. induction l as [|x l IH]; intros lo; [by intros _ ?%elem_of_nil|]. cbn. intros (Hl & Hn & Ha) [->|H]%elem_of_cons; [lia|].
  destruct (IH _ Ha H). rewrite /bend /HEADER in H0. lia.
Qed.
Lemma asc_high lo l b : asc lo l → b ∈ l → bend b ≤ last_end lo l.
Proof.
  revert lo b. induction l as [|x l IH]; intros lo b; [by intros _ ?%elem_of_nil|]. intros (Hl & Hn & Ha) Hb.
  rewrite last_end_cons.
  apply elem_of_cons in Hb as [->|H]; [|by apply IH].
  destruct l as [|y l]; [done|]. transitivity (bend y); [|apply (IH (bend x)); [done|by left]].
  cbn in Ha. rewrite {2}/bend /HEADER. lia.
Qed.

(** A block that is not in the list, nor overlaps it, splits it. *)
Lemma asc_split lo l bp : asc lo l → (∀ b, b ∈ l → b.1 ≠ bp) →
  ∃ pre post, l = pre ++ post ∧ (∀ b, b ∈ pre → b.1 < bp) ∧ (∀ b, b ∈ post → bp < b.1).
Proof.
  revert lo. induction l as [|x l IH]; intros lo Ha Hne; [exists [], []; split_and!; [done|set_solver..]|].
  cbn in Ha. destruct Ha as (Hl & Hn & Ha). destruct (decide (x.1 < bp)) as [Hx|Hx].
  - destruct (IH _ Ha) as (pre & post & -> & H1 & H2); [intros b Hb; apply Hne; by right|]. exists (x :: pre), post.
    split_and!; [done| |done]. intros b [->|H]%elem_of_cons; auto.
  - exists [], (x :: l). split_and!; [done|set_solver|]. assert (bp < x.1) as Hx' by (specialize (Hne x (list_elem_of_here _ _)); lia).
    intros b [->|H]%elem_of_cons; [done|]. destruct (asc_low _ _ _ Ha H) as [Hb _]. rewrite /bend /HEADER in Hb. lia.
Qed.

(** ** Blocks that do not overlap *)

Fixpoint apart (l : list block) : Prop :=
  match l with [] => True | b :: l' => Forall (disj b) l' ∧ apart l' end.
Lemma disj_sym x y : disj x y → disj y x.
Proof. rewrite /disj. tauto. Qed.
Lemma apart_perm l l' : l ≡ₚ l' → apart l → apart l'.
Proof.
  induction 1 as [|x l l' Hp IH|x y l|l1 l2 l3 _ IH1 _ IH2]; cbn; [done|..|auto].
  - intros [Hx Hl]. split; [by rewrite -Hp|auto].
  - intros [Hy [Hx Hl]]. inversion Hy; subst. split_and!; [constructor; [by apply disj_sym|done]|done..].
Qed.

(** The cells of some blocks *)
Fixpoint total (l : list block) : Z := match l with [] => 0 | b :: l' => b.2 + total l' end.
Lemma total_app l1 l2 : total (l1 ++ l2) = total l1 + total l2.
Proof. induction l1 as [|b l1 IH]; cbn [total app]; lia. Qed.
#[export] Instance total_perm : Proper ((≡ₚ) ==> (=)) total.
Proof. intros l l'. induction 1; cbn [total]; lia. Qed.

(** Blocks that do not overlap take no more than the room there is. *)
Lemma total_split (P : block → bool) l : total l = total (List.filter P l) + total (List.filter (λ b, negb (P b)) l).
Proof. induction l as [|b l IH]; [done|]. cbn [List.filter]. destruct (P b); cbn [negb total]; lia. Qed.
Lemma apart_filter (P : block → bool) l : apart l → apart (List.filter P l).
Proof.
  induction l as [|b l IH]; [done|]. intros [Hd Hl]. cbn [List.filter]. destruct (P b); [|by apply IH]. split; [|by apply IH].
  rewrite !Forall_forall in Hd |- *. intros x Hx. apply list_elem_of_In, filter_In in Hx as [Hx _]. apply Hd. by apply list_elem_of_In.
Qed.
Lemma total_bound n l lo hi : (length l ≤ n)%nat → lo ≤ hi → apart l → Forall (λ b, lo ≤ b.1 ∧ 1 ≤ b.2 ∧ bend b ≤ hi) l → lo + HEADER * total l ≤ hi.
Proof.
  revert l lo hi. induction n as [|n IH]; intros [|b l] lo hi Hn Hlh Hap Hin; cbn [length total] in *; try lia.
  destruct Hap as [Hd Hap]. inversion Hin as [|? ? (H1 & H2 & H3) Hin']; subst. set (P := λ x : block, bend x <=? b.1).
  rewrite !Forall_forall in Hd, Hin'.
  assert (∀ Q : block → bool, length (List.filter Q l) ≤ length l)%nat as Hle by (intros Q; apply filter_length_le).
  assert (lo + HEADER * total (List.filter P l) ≤ b.1) as HA.
  { apply IH; [specialize (Hle P); lia|done|by apply apart_filter|]. apply Forall_forall. intros x Hx. apply list_elem_of_In, filter_In in Hx as [Hx HP].
    apply list_elem_of_In in Hx. destruct (Hin' x Hx) as (? & ? & ?). subst P. cbv beta in HP. lia. }
  assert (bend b + HEADER * total (List.filter (λ x, negb (P x)) l) ≤ hi) as HB.
  { apply IH; [specialize (Hle (λ x, negb (P x))); lia|lia|by apply apart_filter|]. apply Forall_forall. intros x Hx. apply list_elem_of_In, filter_In in Hx as [Hx HP].
    apply list_elem_of_In in Hx. destruct (Hin' x Hx) as (? & ? & ?). specialize (Hd x Hx). subst P. cbv beta in HP. rewrite /disj in Hd. lia. }
  rewrite (total_split P l). rewrite /bend /HEADER in HA, HB |- *. lia.
Qed.

(** ** Finding the place of a block *)

(** Strictly increasing addresses. *)
Fixpoint ups (l : list block) : Prop :=
  match l with b :: l' => match l' with [] => True | b' :: _ => b.1 < b'.1 end ∧ ups l' | [] => True end.
Lemma asc_ups lo l : asc lo l → ups l.
Proof.
  revert lo. induction l as [|b l IH]; intros lo; [done|]. intros (Hl & Hn & Ha). split; [|by eapply IH].
  destruct l as [|b' l]; [done|]. destruct Ha as [Ha _]. rewrite /bend /HEADER in Ha. lia.
Qed.
Lemma ups_app l1 l2 : ups (l1 ++ l2) → ups l2.
Proof. induction l1 as [|b l1 IH]; [done|]. cbn. intros [_ H]. auto. Qed.

Lemma ups_lt l1 b l2 : ups (l1 ++ b :: l2) → (∀ x, x ∈ l1 → x.1 < b.1) ∧ (∀ x, x ∈ l2 → b.1 < x.1).
Proof.
  assert (∀ l b, ups (b :: l) → ∀ x, x ∈ l → b.1 < x.1) as Htail.
  { induction l as [|b' l IH]; intros c Hu x Hx; [by apply elem_of_nil in Hx|]. destruct Hu as [Hc Hu].
    apply elem_of_cons in Hx as [->|Hx]; [done|]. specialize (IH b' Hu x Hx). lia. }
  intros Hu. split; [|by apply Htail; eapply ups_app].
  intros x (l & l' & ->)%list_elem_of_split. rewrite -app_assoc in Hu. apply ups_app in Hu. apply (Htail _ _ Hu). set_solver.
Qed.

Lemma asc_length lo l : asc lo l → Forall (λ b, 1 ≤ b.2) l → lo + HEADER * Z.of_nat (length l) ≤ last_end lo l.
Proof.
  revert lo. induction l as [|b l IH]; intros lo; [rewrite /last_end; cbn; lia|]. intros (Hl & _ & Ha) Hn. inversion Hn; subst.
  rewrite last_end_cons. specialize (IH _ Ha). revert IH. generalize (last_end (bend b) l). rewrite /bend /HEADER. cbn [length].
  intros e IH. specialize (IH ltac:(done)). lia.
Qed.

Section find.
Context (base bp : Z) (s : uheap).
Hypothesis base_low : base < bp.

(** From a block before the place. *)
Lemma find_forward Y pp pn post fuel :
  ups (Y ++ (pp, pn) :: post) → seg (cells s) (Y ++ (pp, pn) :: post) base → base ≤ pp < bp →
  (∀ b, b ∈ Y → b.1 < bp) → (∀ b, b ∈ post → bp < b.1) → (length Y < fuel)%nat →
  free_find fuel bp (head_or (Y ++ [(pp, pn)]) 0) s = Ret pp s.
Proof.
  revert fuel. induction Y as [|y Y IH]; intros fuel Hu Hs Hp HY Hpost Hf; (destruct fuel as [|fuel]; [lia|]); cbn [free_find].
  - cbn in Hs |- *. destruct Hs as [E _]. rewrite /getptr bind_gets E. cbn [h_ptr]. destruct post as [|q post]; cbn [head_or].
    + assert ((bp >? pp) && (bp <? base) = false) as -> by lia. by assert ((pp >=? base) && ((bp >? pp) || (bp <? base)) = true) as -> by lia.
    + pose proof (Hpost q (list_elem_of_here _ _)). by assert ((bp >? pp) && (bp <? q.1) = true) as -> by lia.
  - cbn [app head_or] in Hu, Hs |- *. destruct Hs as [E Hs]. rewrite /getptr bind_gets E. cbn [h_ptr].
    assert (head_or (Y ++ (pp, pn) :: post) base = head_or (Y ++ [(pp, pn)]) 0) as -> by (by destruct Y).
    set (nx := head_or (Y ++ [(pp, pn)]) 0).
    assert (y.1 < nx < bp ∨ y.1 < nx ∧ nx < bp) as Hnx.
    { left. subst nx. destruct Y as [|y' Y]; cbn in Hu |- *; [lia|]. pose proof (HY y'). set_solver by lia. }
    assert ((bp >? y.1) && (bp <? nx) = false) as -> by lia. assert ((y.1 >=? nx) = false) as -> by lia. cbn [andb].
    apply IH; [apply Hu|done|done| |done|cbn in Hf; lia]. intros b Hb. apply HY. by right.
Qed.

(** From a block after the place, around the end of the list. *)
Lemma find_around Z0 fuel :
  Z0 ≠ [] → ups Z0 → seg (cells s) Z0 base → (∀ b, b ∈ Z0 → bp < b.1) →
  free_find (length Z0 + fuel) bp (head_or Z0 0) s = free_find fuel bp base s.
Proof.
  induction Z0 as [|z Z0 IH]; intros Hne Hu Hs HZ; [done|]. cbn [length Nat.add free_find head_or]. destruct Hs as [E Hs].
  rewrite /getptr bind_gets E. cbn [h_ptr]. pose proof (HZ z (list_elem_of_here _ _)) as Hz.
  assert ((bp >? z.1) = false) as -> by lia. cbn [andb orb]. destruct Z0 as [|z' Z0]; cbn [head_or].
  - assert (bp <? base = false) as -> by lia. by rewrite andb_false_r.
  - destruct Hu as [Hzz Hu]. assert ((z.1 >=? z'.1) = false) as -> by lia. cbn [andb].
    apply IH; [done|done|done|]. intros b Hb. apply HZ. by right.
Qed.

Lemma find_place X pp pn post fuel fp :
  head_or (X ++ [(pp, pn)]) 0 = base →
  ups (X ++ (pp, pn) :: post) → seg (cells s) (X ++ (pp, pn) :: post) base → base ≤ pp < bp →
  (∀ b, b ∈ X → b.1 < bp) → (∀ b, b ∈ post → bp < b.1) → fp ∈ (X ++ (pp, pn) :: post).*1 →
  (length (X ++ (pp, pn) :: post) ≤ fuel)%nat → free_find fuel bp fp s = Ret pp s.
Proof.
  intros Hb Hu Hs Hp HX Hpost Hfp Hf. rewrite length_app in Hf. cbn in Hf. rewrite cons_middle app_assoc fmap_app in Hfp.
  apply elem_of_app in Hfp as [Hfp|Hfp]; apply list_elem_of_fmap in Hfp as (b & -> & Hin).
  - assert (∃ X1 Y, X = X1 ++ Y ∧ b.1 = head_or (Y ++ [(pp, pn)]) 0) as (X1 & Y & -> & ->).
    { apply elem_of_app in Hin as [Hin| ->%list_elem_of_singleton]; [|exists X, []; by rewrite app_nil_r].
      apply list_elem_of_split in Hin as (X1 & X2 & ->). by exists X1, (b :: X2). }
    rewrite -app_assoc in Hu, Hs. apply find_forward with post; try done; [by eapply ups_app|by apply seg_app in Hs as [_ ?]| |].
    + intros x Hx. apply HX, elem_of_app. by right.
    + rewrite length_app in Hf. lia.
  - apply list_elem_of_split in Hin as (Z1 & Z2 & ->).
    assert (X ++ (pp, pn) :: Z1 ++ b :: Z2 = (X ++ (pp, pn) :: Z1) ++ b :: Z2) as EZ by (by rewrite -app_assoc).
    assert (ups (b :: Z2)) as Hu2 by (rewrite EZ in Hu; by eapply ups_app).
    assert (seg (cells s) (b :: Z2) base) as Hs2 by (rewrite EZ in Hs; by apply seg_app in Hs as [_ ?]).
    rewrite length_app in Hf. cbn in Hf. change (b.1) with (head_or (b :: Z2) 0).
    replace fuel with (length (b :: Z2) + (fuel - length (b :: Z2)))%nat by (cbn; lia).
    rewrite find_around; [|done|done|done|intros x Hx; apply Hpost, elem_of_app; by right].
    rewrite -{1}Hb. apply find_forward with (Z1 ++ b :: Z2); try done. cbn. lia.
Qed.
End find.

(** ** The invariant *)

Section inv.
Context (base start : Z) (grants : Z → Z → bool).
Hypothesis base_pos : 0 < base.
Hypothesis base_start : base + HEADER ≤ start.

(** A block of the heap. *)
Definition in_heap (top : Z) (b : block) : Prop := start ≤ b.1 ∧ 1 ≤ b.2 ∧ bend b ≤ top ∧ b.1 mod HEADER = 0.

(** [fl] are [base] and the free blocks, and [al] the blocks in use.  As they
    do not overlap, [ho_cover] says that every cell of the heap is in one of
    them: none is lost. *)
Record heap_ok (s : uheap) (fl al : list block) : Prop := {
  ho_head : head fl = Some (base, 0);
  ho_list : seg (cells s) fl base;
  ho_freep : freep s ∈ fl.*1;
  ho_asc : asc (base - 1) fl;
  ho_apart : apart (fl ++ al);
  ho_free : Forall (λ b, b = (base, 0) ∨ in_heap (brk s) b) fl;
  ho_used : Forall (λ b, in_heap (brk s) b ∧ h_size (cells s !!! b.1) = b.2) al;
  ho_brk : start ≤ brk s < 2 ^ 36 ∧ brk s mod HEADER = 0;
  ho_cover : start + HEADER * (total fl + total al) = brk s;
}.

Lemma in_heap_range top b : in_heap top b → top < 2 ^ 36 → base < b.1 ∧ 1 ≤ b.2 < 2 ^ 32.
Proof. pose proof base_start as H. rewrite /in_heap /bend /HEADER in H |- *. lia. Qed.

(** Two blocks side by side. *)
Definition join (x y : block) : block := (x.1, x.2 + y.2).
Lemma in_heap_join top x y : in_heap top x → in_heap top y → bend x = y.1 → in_heap top (join x y).
Proof. rewrite /in_heap /bend /join /HEADER. cbn. lia. Qed.
Lemma apart_join x y l :
  0 ≤ x.2 → 0 ≤ y.2 → bend x = y.1 → Forall (λ z, 1 ≤ z.2 ∨ bend z ≤ x.1) l → apart (x :: y :: l) → apart (join x y :: l).
Proof.
  intros Hx Hy E Hl [H1 [H2 H3]]. inversion H1 as [|? ? _ H1']; subst. split; [|done]. rewrite !Forall_forall in H1' H2 Hl |- *.
  intros z Hz. specialize (H1' z Hz). specialize (H2 z Hz). specialize (Hl z Hz).
  rewrite /disj /bend /join /HEADER in E Hl H1' H2 |- *. cbn in *. lia.
Qed.

(** ** free *)

(** The two halves of [free] after the search. *)
Definition join_upper (c : gmap Z header) (bp nx : Z) : gmap Z header :=
  let n := h_size (c !!! bp) in
  if bp + HEADER * n =? nx then
    let c1 := <[bp := mk_header (h_ptr (c !!! bp)) (u32 (n + h_size (c !!! nx)))]> c in
    <[bp := mk_header (h_ptr (c1 !!! nx)) (h_size (c1 !!! bp))]> c1
  else <[bp := mk_header nx n]> c.
Definition join_lower (c : gmap Z header) (p bp : Z) : gmap Z header :=
  let n := h_size (c !!! p) in
  if p + HEADER * n =? bp then
    let c1 := <[p := mk_header (h_ptr (c !!! p)) (u32 (n + h_size (c !!! bp)))]> c in
    <[p := mk_header (h_ptr (c1 !!! bp)) (h_size (c1 !!! p))]> c1
  else <[p := mk_header bp n]> c.

Lemma free_run s bp p :
  free_find (fuel_of s) bp (freep s) s = Ret p s →
  free (bp + HEADER) s =
    Ret tt (mk_uheap (join_lower (join_upper (cells s) bp (h_ptr (cells s !!! p))) p bp) p (brk s)).
Proof.
  intros Hf. rewrite /free. replace (bp + HEADER - HEADER) with bp by lia. rewrite !bind_gets (bind_ret _ _ _ _ _ Hf).
  rewrite /getptr /getsize /setptr /setsize /join_upper /join_lower !bind_gets.
  destruct (_ =? h_ptr _); rewrite ?bind_assoc ?bind_gets ?bind_assoc ?bind_modify ?bind_gets ?bind_modify ?bind_gets;
    cbn [cells set_cells]; destruct (_ =? bp); done.
Qed.

(** Where [bp] goes. *)
Record placed (s : uheap) (fl al : list block) (bp n : Z) (X : list block) (pp pn : Z) (post : list block) : Prop := {
  pl_split : fl = X ++ (pp, pn) :: post;
  pl_pred : pp + HEADER * pn ≤ bp;
  pl_lt : base ≤ pp < bp;
  pl_before b : b ∈ X → b.1 < bp;
  pl_after b : b ∈ post → bp + HEADER * n ≤ b.1;
}.

Lemma place s fl al bp n : heap_ok s fl ((bp, n) :: al) → ∃ X pp pn post, placed s fl al bp n X pp pn post.
Proof.
  intros Hok. destruct (ho_brk _ _ _ Hok) as [Hbrk _]. pose proof (ho_used _ _ _ Hok) as Hu. inversion Hu as [|? ? [Hbp _] _]; subst.
  pose proof (in_heap_range _ _ Hbp ltac:(lia)) as Hr. cbn in Hr.
  assert (∀ b, b ∈ fl → b.1 ≠ bp ∧ (b.1 < bp → bend b ≤ bp) ∧ (bp < b.1 → bp + HEADER * n ≤ b.1)) as Hd.
  { intros b Hb. pose proof (ho_apart _ _ _ Hok) as Hap.
    apply (apart_perm _ ((bp, n) :: fl ++ al)) in Hap; [|by rewrite Permutation_middle]. destruct Hap as [Hd _].
    rewrite Forall_forall in Hd. specialize (Hd b ltac:(set_solver)). pose proof (ho_free _ _ _ Hok) as Hfr.
    rewrite Forall_forall in Hfr. destruct (Hfr b Hb) as [->|(_ & Hn & _)]; rewrite /disj /bend /HEADER in Hd |- *; cbn in *; lia. }
  destruct (asc_split (base - 1) fl bp (ho_asc _ _ _ Hok)) as (pre & post & -> & H1 & H2); [intros b Hb; by apply Hd|].
  assert (pre ≠ []) as Hne.
  { intros ->. pose proof (ho_head _ _ _ Hok) as Hh. destruct post as [|b post]; [discriminate Hh|]. injection Hh as ->. specialize (H2 _ (list_elem_of_here _ _)).
    cbn in H2. lia. }
  destruct (exists_last Hne) as (X & [pp pn] & ->). exists X, pp, pn, post.
  pose proof (asc_low _ _ (pp, pn) (ho_asc _ _ _ Hok) ltac:(set_solver)) as [Hlow _]. cbn in Hlow.
  pose proof (H1 (pp, pn) ltac:(set_solver)) as Hlt. cbn in Hlt. split.
  - by rewrite -app_assoc.
  - apply (Hd (pp, pn)); [set_solver|done].
  - lia.
  - intros b Hb. apply H1. set_solver.
  - intros b Hb. apply Hd; [set_solver|by apply H2].
Qed.

(** There are no more free blocks than cells. *)
Lemma free_blocks_bound s fl al : heap_ok s fl al → (length fl < fuel_of s)%nat.
Proof.
  intros Hok. destruct (ho_brk _ _ _ Hok) as [Hb _]. pose proof (ho_head _ _ _ Hok) as Hh. destruct fl as [|b fl]; [discriminate Hh|].
  injection Hh as ->. destruct (ho_asc _ _ _ Hok) as (_ & _ & Ha). assert (Forall (in_heap (brk s)) fl) as Hin.
  { apply Forall_forall. intros b Hb'. pose proof (ho_free _ _ _ Hok) as Hf. inversion Hf as [|? ? _ Hf']; subst.
    rewrite Forall_forall in Hf'. destruct (Hf' b Hb') as [->|]; [|done].
    pose proof (asc_low _ _ _ Ha Hb') as [H _]. rewrite /bend /HEADER in H. cbn in H. lia. }
  pose proof (asc_length _ _ Ha) as Hlen. assert (last_end (bend (base, 0)) fl ≤ brk s ∨ fl = []) as Hle.
  { rewrite /last_end. destruct (last fl) as [b|] eqn:El; [|right; by apply last_None]. left. apply last_Some_elem_of in El.
    rewrite Forall_forall in Hin. by apply Hin. }
  rewrite /fuel_of. destruct Hle as [Hle| ->]; [|cbn; lia]. cbn [length].
  assert (Forall (λ b, 1 ≤ b.2) fl) as H1 by (eapply Forall_impl; [exact Hin|]; by intros ? (_ & ? & _)).
  specialize (Hlen H1). rewrite {1}/bend /HEADER in Hlen. cbn in Hlen. unfold HEADER. lia.
Qed.

Lemma place_found s fl al bp n X pp pn post :
  heap_ok s fl ((bp, n) :: al) → placed s fl al bp n X pp pn post → free_find (fuel_of s) bp (freep s) s = Ret pp s.
Proof.
  intros Hok [-> Hpred Hlt Hbef Haft]. pose proof (ho_asc _ _ _ Hok) as Ha.
  pose proof (ho_used _ _ _ Hok) as Hu. inversion Hu as [|? ? [(_ & Hn & _) _] _]; subst. cbn in Hn.
  apply find_place with base X pn post; [lia|..|done| | | |]; try done.
  - pose proof (ho_head _ _ _ Hok) as Hh. destruct X as [|x X]; cbn in Hh |- *; injection Hh as ->; done.
  - by eapply asc_ups.
  - apply Hok.
  - intros b Hb. specialize (Haft b Hb). unfold HEADER in Haft. lia.
  - apply Hok.
  - pose proof (free_blocks_bound _ _ _ Hok). lia.
Qed.

(** Joining with the block after: [rest] remains after [bp]'s [n'] cells. *)
Definition joined_upper (bp n : Z) (post : list block) (n' : Z) (rest : list block) : Prop :=
  rest = post ∧ n' = n ∧ (∀ b, b ∈ post → bp + HEADER * n ≠ b.1) ∨
  ∃ qn, post = (bp + HEADER * n, qn) :: rest ∧ n' = n + qn.

Lemma join_upper_spec s fl al bp n X pp pn post :
  heap_ok s fl ((bp, n) :: al) → placed s fl al bp n X pp pn post →
  ∃ n' rest, joined_upper bp n post n' rest ∧ in_heap (brk s) (bp, n') ∧
    join_upper (cells s) bp (head_or post base) = <[bp := mk_header (head_or rest base) n']> (cells s).
Proof.
  intros Hok [-> Hpred Hlt Hbef Haft]. destruct (ho_brk _ _ _ Hok) as [Hbrk _].
  pose proof (ho_used _ _ _ Hok) as Hu. inversion Hu as [|? ? [Hbp Hsz] _]; subst. cbn in Hsz. rewrite /join_upper Hsz.
  pose proof (in_heap_range _ _ Hbp ltac:(lia)) as Hr. cbn in Hr. pose proof (ho_asc _ _ _ Hok) as Ha.
  destruct (Z.eqb_spec (bp + HEADER * n) (head_or post base)) as [E|E].
  - destruct post as [|[q qn] post]; cbn [head_or fst] in E; [unfold HEADER in E; lia|]. exists (n + qn), post.
    assert (in_heap (brk s) (q, qn)) as Hq.
    { pose proof (ho_free _ _ _ Hok) as Hf. rewrite Forall_forall in Hf. destruct (Hf (q, qn) ltac:(set_solver)) as [[= -> _]|]; [|done].
      unfold HEADER in E. lia. }
    assert (in_heap (brk s) (bp, n + qn)) as Hj by (apply (in_heap_join _ (bp, n) (q, qn)); done).
    split_and!; [right; exists qn; by rewrite E|done|]. pose proof (in_heap_range _ _ Hj ltac:(lia)) as [_ Hjr]. cbn in Hjr.
    pose proof (ho_list _ _ _ Hok) as Hs. apply seg_app in Hs as [_ (_ & Eq & _)]. cbn in Eq. cbn [head_or fst].
    assert (bp ≠ q) by (unfold HEADER in E; lia).
    rewrite lookup_total_insert_eq lookup_total_insert_ne // insert_insert_eq Eq. cbn. by rewrite u32_small; [|lia].
  - exists n, post. split_and!; [|done|done]. left. split_and!; [done|done|]. intros b Hb.
    destruct post as [|b0 post]; [by apply elem_of_nil in Hb|]. cbn in E. apply elem_of_cons in Hb as [->|Hb]; [done|].
    assert (b0.1 < b.1) by (apply asc_ups in Ha; rewrite cons_middle app_assoc in Ha; apply ups_lt in Ha as [_ Ha]; by apply Ha).
    pose proof (Haft b0 (list_elem_of_here _ _)). lia.
Qed.

Lemma join_lower_spec c pp pn nx bp n d :
  pp ≠ bp → 0 ≤ pn → 0 ≤ n → pn + n < 2 ^ 32 ∨ pp + HEADER * pn ≠ bp →
  c !!! pp = mk_header nx pn → c !!! bp = mk_header d n →
  join_lower c pp bp =
    if pp + HEADER * pn =? bp then <[pp := mk_header d (pn + n)]> c else <[pp := mk_header bp pn]> c.
Proof.
  intros Hne Hp Hn Hb Ep Eb. rewrite /join_lower Ep Eb. cbn [h_size h_ptr]. destruct (Z.eqb_spec (pp + HEADER * pn) bp); [|done].
  rewrite lookup_total_insert_eq lookup_total_insert_ne // insert_insert_eq Eb. cbn. by rewrite u32_small; [|lia].
Qed.

(** The new free list. *)
Definition inserted (X : list block) (pp pn bp n : Z) (rest : list block) : list block :=
  X ++ (if pp + HEADER * pn =? bp then [(pp, pn + n)] else [(pp, pn); (bp, n)]) ++ rest.

Lemma rest_after bp n post n' rest lo :
  joined_upper bp n post n' rest → (∀ b, b ∈ post → bp + HEADER * n ≤ b.1) → asc lo post → asc (bp + HEADER * n') rest.
Proof.
  intros [(-> & -> & Hne)|(qn & -> & ->)] Haft Ha.
  - destruct post as [|b post]; [done|]. destruct Ha as (_ & Hn & Ha). split_and!; [|done|done].
    specialize (Haft b (list_elem_of_here _ _)). specialize (Hne b (list_elem_of_here _ _)). lia.
  - destruct Ha as (_ & _ & Ha). replace (bp + HEADER * (n + qn)) with (bend (bp + HEADER * n, qn)); [done|].
    rewrite /bend /HEADER. cbn. lia.
Qed.

(** Sizes are positive, except that of [base]. *)
Lemma sized s fl al lo :
  heap_ok s fl al → base ≤ lo → Forall (λ z, 1 ≤ z.2 ∨ bend z ≤ lo) (fl ++ al).
Proof.
  intros Hok Hlo. apply Forall_app. split; eapply Forall_impl; [apply Hok| |apply Hok|]; cbn.
  - intros b [->|(_ & Hn & _)]; [right; rewrite /bend /HEADER; cbn; lia|by left].
  - intros b [(_ & Hn & _) _]. by left.
Qed.

Lemma inserted_apart s fl al bp n X pp pn post n' rest :
  heap_ok s fl ((bp, n) :: al) → placed s fl al bp n X pp pn post → joined_upper bp n post n' rest → 0 ≤ n' →
  apart (inserted X pp pn bp n' rest ++ al).
Proof.
  intros Hok Hpl Hup Hn'. destruct Hpl as [-> Hpred Hlt Hbef Haft]. pose proof (ho_apart _ _ _ Hok) as Hap.
  pose proof (ho_asc _ _ _ Hok) as Ha. pose proof (asc_low _ _ (pp, pn) Ha ltac:(set_solver)) as [_ Hpn]. cbn in Hpn.
  pose proof (ho_used _ _ _ Hok) as Hu. inversion Hu as [|? ? [(_ & Hn & _) _] _]; subst. cbn in Hn.
  pose proof (sized _ _ _ bp Hok ltac:(lia)) as Hsz. pose proof (sized _ _ _ pp Hok ltac:(lia)) as Hsz2.
  assert (apart ((bp, n') :: (pp, pn) :: X ++ rest ++ al)) as Hap1.
  { destruct Hup as [(-> & -> & _)|(qn & -> & ->)].
    - eapply apart_perm; [|exact Hap]. solve_Permutation.
    - change (bp, n + qn) with (join (bp, n) (bp + HEADER * n, qn)). apply apart_join; cbn [fst snd].
      + lia.
      + apply (asc_low _ _ (bp + HEADER * n, qn) Ha). set_solver.
      + done.
      + rewrite !Forall_forall in Hsz |- *. intros z Hz. apply Hsz. set_solver.
      + eapply apart_perm; [|exact Hap]. solve_Permutation. }
  rewrite /inserted. destruct (Z.eqb_spec (pp + HEADER * pn) bp) as [E|E].
  - assert (apart (join (pp, pn) (bp, n') :: X ++ rest ++ al)) as Hap2.
    { apply apart_join; cbn [fst snd]; [done|lia|done| |].
      - destruct Hup as [(-> & -> & _)|(qn & -> & ->)]; rewrite !Forall_forall in Hsz2 |- *; intros z Hz; apply Hsz2; set_solver.
      - eapply apart_perm; [|exact Hap1]. solve_Permutation. }
    eapply apart_perm; [|exact Hap2]. rewrite /join. cbn. solve_Permutation.
  - eapply apart_perm; [|exact Hap1]. solve_Permutation.
Qed.

Lemma used_not_free s fl al a m : heap_ok s fl al → (a, m) ∈ al → a ∉ fl.*1.
Proof.
  intros Hok Hin (b & -> & Hb)%list_elem_of_fmap. pose proof (ho_used _ _ _ Hok) as Hu. rewrite Forall_forall in Hu.
  destruct (Hu _ Hin) as [(Hs & Hm & _) _]. cbn in Hs, Hm. pose proof (ho_free _ _ _ Hok) as Hf. rewrite Forall_forall in Hf.
  apply list_elem_of_split in Hin as (al1 & al2 & ->). apply list_elem_of_split in Hb as (f1 & f2 & ->).
  pose proof (ho_apart _ _ _ Hok) as Hap. apply (apart_perm _ (b :: (b.1, m) :: f1 ++ f2 ++ al1 ++ al2)) in Hap; [|solve_Permutation].
  destruct Hap as [Hd _]. inversion Hd as [|? ? Hbm _]; subst. rewrite /disj /bend /HEADER in Hbm. cbn in Hbm.
  destruct (Hf b ltac:(set_solver)) as [->|(_ & Hn & _)]; cbn in *; [|lia]. unfold HEADER in base_start. lia.
Qed.

Lemma used_distinct s fl al bp n a m : heap_ok s fl ((bp, n) :: al) → (a, m) ∈ al → a ≠ bp.
Proof.
  intros Hok Hin ->. pose proof (ho_used _ _ _ Hok) as Hu. inversion Hu as [|? ? [(_ & Hn & _) _] Hu']; subst.
  rewrite Forall_forall in Hu'. destruct (Hu' _ Hin) as [(_ & Hm & _) _]. cbn in Hn, Hm.
  apply list_elem_of_split in Hin as (al1 & al2 & ->). pose proof (ho_apart _ _ _ Hok) as Hap.
  apply (apart_perm _ ((bp, n) :: (bp, m) :: fl ++ al1 ++ al2)) in Hap; [|solve_Permutation].
  destruct Hap as [Hd _]. inversion Hd as [|? ? Hbm _]; subst. rewrite /disj /bend /HEADER in Hbm. cbn in Hbm. lia.
Qed.

Lemma inserted_asc X pp pn bp n rest lo :
  asc lo (X ++ [(pp, pn)]) → pp + HEADER * pn ≤ bp → 0 ≤ n → asc (bp + HEADER * n) rest → asc lo (inserted X pp pn bp n rest).
Proof.
  rewrite /inserted !(asc_app _ X). intros [HX (Hlo & Hpn & _)] Hle Hn Hr. cbn [fst snd] in *. split; [done|].
  destruct (Z.eqb_spec (pp + HEADER * pn) bp) as [<-|Hne]; cbn [app asc fst snd].
  - split_and!; [done|lia|]. eapply asc_weaken; [|exact Hr]. rewrite /bend /HEADER. cbn. lia.
  - split_and!; [done|done|rewrite /bend; cbn; lia|done|done].
Qed.

Lemma inserted_seg c X pp pn bp n rest :
  pp ≠ bp → pp ∉ X.*1 → pp ∉ rest.*1 → bp ∉ X.*1 → bp ∉ rest.*1 → seg c X pp → seg c rest base →
  seg (if pp + HEADER * pn =? bp then <[pp := mk_header (head_or rest base) (pn + n)]> (<[bp := mk_header (head_or rest base) n]> c)
       else <[pp := mk_header bp pn]> (<[bp := mk_header (head_or rest base) n]> c)) (inserted X pp pn bp n rest) base.
Proof.
  intros Hne H1 H2 H3 H4 HX Hrest. rewrite /inserted (seg_app _ X). destruct (_ =? bp); cbn [app seg head_or fst snd];
    rewrite !seg_insert // lookup_total_insert_eq //.
  rewrite lookup_total_insert_ne // lookup_total_insert_eq //.
Qed.

(** What [free] does to a block in use. *)
Lemma free_ok s fl al bp n :
  heap_ok s fl ((bp, n) :: al) →
  ∃ s' fl', free (bp + HEADER) s = Ret tt s' ∧ heap_ok s' fl' al ∧ brk s' = brk s ∧
    (∃ b, b ∈ fl' ∧ n ≤ b.2 ∧ b.1 ≤ bp ∧ bend (bp, n) ≤ bend b) ∧ (length fl' ≤ length fl + 1)%nat ∧
    (∀ a, a ≠ bp → a ∉ fl.*1 → cells s' !!! a = cells s !!! a).
Proof.
  intros Hok. destruct (place _ _ _ _ _ Hok) as (X & pp & pn & post & Hpl).
  rewrite (free_run _ _ _ (place_found _ _ _ _ _ _ _ _ _ Hok Hpl)).
  destruct (join_upper_spec _ _ _ _ _ _ _ _ _ Hok Hpl) as (n' & rest & Hup & Hbn' & Ec1).
  destruct (ho_brk _ _ _ Hok) as [Hbrk Hbm]. pose proof (in_heap_range _ _ Hbn' ltac:(lia)) as Hr. cbn in Hr.
  pose proof (inserted_apart _ _ _ _ _ _ _ _ _ _ _ Hok Hpl Hup ltac:(lia)) as Hap.
  pose proof (ho_used _ _ _ Hok) as Hu. inversion Hu as [|? ? [(_ & Hn1 & _) _] Hu']; subst. cbn in Hn1.
  destruct Hpl as [-> Hpred Hlt Hbef Haft]. pose proof (ho_asc _ _ _ Hok) as Ha. pose proof (asc_ups _ _ Ha) as Hups.
  apply ups_lt in Hups as [Hl1 Hl2]. cbn [fst] in Hl1, Hl2. pose proof (ho_list _ _ _ Hok) as Hs.
  apply seg_app in Hs as [HsX (Epp & Hspost)]. cbn [fst snd head_or] in HsX, Epp. rewrite Epp. cbn [h_ptr]. rewrite Ec1.
  apply asc_app in Ha as [HaX (Hlo & Hpn & Hapost)]. cbn [fst snd] in Hlo, Hpn.
  assert (∀ b, b ∈ rest → b ∈ post) as Hrp by (destruct Hup as [(-> & _)|(qn & -> & _)]; [done|by right]).
  pose proof (used_not_free _ _ _ bp n Hok (list_elem_of_here _ _)) as Hbn. rewrite fmap_app fmap_cons in Hbn.
  pose proof (ho_free _ _ _ Hok) as Hf. rewrite Forall_forall in Hf.
  assert (pp + HEADER * pn = bp → in_heap (brk s) (pp, pn)) as Hpin.
  { intros E. destruct (Hf (pp, pn) ltac:(set_solver)) as [[= -> ->]|]; [unfold HEADER in E; lia|done]. }
  rewrite (join_lower_spec _ pp pn (head_or post base) bp n' (head_or rest base)); [|lia|done|lia| |rewrite lookup_total_insert_ne; [done|lia]|by rewrite lookup_total_insert_eq].
  2: { destruct (decide (pp + HEADER * pn = bp)) as [E|E]; [left|by right].
       pose proof (in_heap_join _ (pp, pn) (bp, n') (Hpin E) Hbn' E) as Hj. apply in_heap_range in Hj; [|lia]. cbn in Hj. lia. }
  assert (pp ∉ X.*1 ∧ pp ∉ rest.*1 ∧ bp ∉ X.*1 ∧ bp ∉ rest.*1) as (HppX & Hppr & HbX & Hbr).
  { split_and!; [intros (b & E & Hb)%list_elem_of_fmap; specialize (Hl1 b Hb); lia|
      intros (b & E & Hb)%list_elem_of_fmap; specialize (Hl2 b (Hrp b Hb)); lia|set_solver|].
    intros (b & E & Hb)%list_elem_of_fmap. specialize (Haft b (Hrp b Hb)). unfold HEADER in Haft. lia. }
  assert (seg (cells s) rest base) as Hsr by (destruct Hup as [(-> & _)|(qn & -> & _)]; [done|by destruct Hspost]).
  set (c' := if _ =? _ then _ else _).
  assert (∀ a, a ≠ bp → a ∉ (X ++ (pp, pn) :: post).*1 → c' !!! a = cells s !!! a) as Hframe.
  { intros a Ha Hnf. assert (pp ≠ a) by (intros <-; apply Hnf; rewrite fmap_app elem_of_app; right; by left).
    subst c'. destruct (_ =? bp); rewrite !lookup_total_insert_ne //; congruence. }
  eexists _, (inserted X pp pn bp n' rest). split_and!; [reflexivity|split|..]; cbn [brk cells freep].
  - pose proof (ho_head _ _ _ Hok) as Hh. rewrite /inserted. destruct X as [|x X]; [|done]. injection Hh as -> ->.
    destruct (Z.eqb_spec (base + HEADER * 0) bp); [unfold HEADER in *; lia|done].
  - subst c'. apply inserted_seg; try done. lia.
  - rewrite /inserted !fmap_app !elem_of_app. right. left. destruct (_ =? bp); by left.
  - apply inserted_asc; [apply asc_app; split; [done|split_and!; done]|done|lia|by eapply rest_after].
  - done.
  - apply Forall_forall. intros b. rewrite /inserted. destruct (Z.eqb_spec (pp + HEADER * pn) bp) as [E|E].
    + rewrite !elem_of_app list_elem_of_singleton. intros [Hb|[->|Hb]]; [apply Hf, elem_of_app; by left| |apply Hf, elem_of_app; right; right; auto].
      right. by apply (in_heap_join _ (pp, pn) (bp, n')); auto.
    + rewrite !elem_of_app !elem_of_cons. intros [Hb|[[->|[->|Hb%elem_of_nil]]|Hb]]; [apply Hf, elem_of_app; by left| |by right|done|].
      * apply Hf, elem_of_app. right. left.
      * apply Hf, elem_of_app. right. right. auto.
  - rewrite !Forall_forall in Hu' |- *. intros [a m] Ha. destruct (Hu' _ Ha) as [Hin Hsz]. split; [done|]. cbn [fst snd] in *.
    rewrite Hframe; [done|by eapply used_distinct|]. eapply used_not_free; [exact Hok|by right].
  - done.
  - rewrite -(ho_cover _ _ _ Hok). rewrite /inserted !total_app. cbn [total fst snd].
    assert (n' + total rest = n + total post) by (destruct Hup as [(-> & -> & _)|(qn & -> & ->)]; cbn [total snd]; lia).
    destruct (_ =? bp); cbn [total fst snd]; unfold HEADER; lia.
  - done.
  - rewrite /inserted. assert (n ≤ n') as Hnn.
    { destruct Hup as [(_ & -> & _)|(qn & -> & ->)]; [done|]. destruct Hapost as (_ & Hq & _). cbn in Hq. lia. }
    destruct (Z.eqb_spec (pp + HEADER * pn) bp); [exists (pp, pn + n')|exists (bp, n')];
      (split; [rewrite !elem_of_app; right; left; (by left) || (right; by left)|rewrite /bend /HEADER in Hpred |- *; cbn in *; unfold HEADER in *; lia]).
  - rewrite /inserted !length_app. cbn [length]. assert (length rest ≤ length post)%nat by (destruct Hup as [(-> & _)|(qn & -> & _)]; cbn; lia).
    destruct (_ =? bp); cbn [length]; lia.
  - done.
Qed.

(** ** morecore *)

Hypothesis grants_bound : ∀ sz n, grants sz n = true → sz + n < 2 ^ 36.

(** All blocks are below the break. *)
Lemma below_brk s fl al b : heap_ok s fl al → b ∈ fl ++ al → bend b ≤ brk s ∧ b.1 ≠ brk s.
Proof.
  intros Hok Hb. destruct (ho_brk _ _ _ Hok) as [Hbrk _]. assert (b = (base, 0) ∨ in_heap (brk s) b) as [->|(Hs & Hn & Hend & _)].
  - apply elem_of_app in Hb as [Hb|Hb]; [pose proof (ho_free _ _ _ Hok) as H|pose proof (ho_used _ _ _ Hok) as H];
      rewrite Forall_forall in H; [by apply H|right; by apply H].
  - pose proof base_start as Hbs. rewrite /bend /HEADER in Hbs |- *. cbn. lia.
  - split; [done|]. rewrite /bend /HEADER in Hend. lia.
Qed.

(** The memory that [sbrk] gave is a block in use. *)
Lemma grown_ok s fl al n :
  heap_ok s fl al → 1 ≤ n → brk s + HEADER * n < 2 ^ 36 →
  let s' := mk_uheap (<[brk s := mk_header (h_ptr (cells s !!! brk s)) n]> (cells s)) (freep s) (brk s + HEADER * n) in
  heap_ok s' fl ((brk s, n) :: al).
Proof.
  intros Hok Hn Hb. cbv zeta. destruct (ho_brk _ _ _ Hok) as [Hbrk Hal].
  assert (∀ b, in_heap (brk s) b → in_heap (brk s + HEADER * n) b) as Hmono by (rewrite /in_heap /HEADER; intros b; lia).
  split; cbn [cells brk freep]; try apply Hok.
  - apply seg_insert; [|apply Hok]. intros (b & E & Hb')%list_elem_of_fmap. destruct (below_brk _ _ _ b Hok) as [_ Hne]; [|congruence].
    apply elem_of_app. by left.
  - eapply apart_perm; [apply Permutation_middle|]. split; [|apply Hok]. apply Forall_forall. intros b Hb'. right.
    apply (below_brk _ _ _ b Hok Hb').
  - eapply Forall_impl; [apply Hok|]. intros b [->|Hin]; [by left|right; auto].
  - constructor.
    + cbn. rewrite lookup_total_insert_eq. split; [|done]. rewrite /in_heap /bend /HEADER. cbn. unfold HEADER in *. lia.
    + pose proof (ho_used _ _ _ Hok) as Hu. rewrite !Forall_forall in Hu |- *. intros b Hb'. destruct (Hu b Hb') as [Hin Hsz].
      split; [auto|]. rewrite lookup_total_insert_ne; [done|]. intros E. destruct (below_brk _ _ _ b Hok) as [_ Hne]; [|congruence].
      apply elem_of_app. by right.
  - unfold HEADER in *. lia.
  - rewrite -(ho_cover _ _ _ Hok). cbn [total snd]. unfold HEADER. lia.
Qed.

Definition more (nu : Z) : Z := if nu <? 4096 then 4096 else nu.

Lemma morecore_ok s fl al nu :
  heap_ok s fl al → 1 ≤ nu → nu * HEADER < 2 ^ 31 →
  (grants (brk s) (more nu * HEADER) = false ∧ morecore grants nu s = Ret 0 s) ∨
  ∃ s' fl', morecore grants nu s = Ret (freep s') s' ∧ heap_ok s' fl' al ∧ (∃ b, b ∈ fl' ∧ nu ≤ b.2) ∧ (length fl' ≤ length fl + 1)%nat ∧
    (∀ a, a ≠ brk s → a ∉ fl.*1 → cells s' !!! a = cells s !!! a).
Proof.
  intros Hok H1 Hnu. destruct (ho_brk _ _ _ Hok) as [Hbrk Hal]. rewrite /morecore. fold (more nu).
  assert (nu ≤ more nu ∧ 0 < more nu * HEADER < 2 ^ 31) as [Hm1 Hm2] by (rewrite /more /HEADER in Hnu |- *; destruct (Z.ltb_spec nu 4096); lia).
  rewrite s32_small; [|lia]. rewrite /sbrk bind_assoc bind_gets. assert (more nu * HEADER >? 0 = true) as -> by lia.
  destruct (grants (brk s) (more nu * HEADER)) eqn:Hg; [right|left; split; [done|by rewrite bind_mret]].
  pose proof (grants_bound _ _ Hg) as Hgb. rewrite bind_assoc bind_modify bind_mret.
  assert (brk s =? u64 (-1) = false) as -> by (apply Z.eqb_neq; change (u64 (-1)) with (2 ^ 64 - 1); lia).
  rewrite /setsize bind_modify. cbn [cells set_brk set_cells freep brk]. rewrite u32_small; [|unfold HEADER in *; lia].
  pose proof (grown_ok s fl al (more nu) Hok ltac:(lia) ltac:(lia)) as Hok1. cbv zeta in Hok1.
  replace (HEADER * more nu) with (more nu * HEADER) in Hok1 by lia.
  destruct (free_ok _ _ _ _ _ Hok1) as (s2 & fl2 & E & Hok2 & _ & (b & Hb & Hn & _) & Hlen & Hfr). rewrite (bind_ret _ _ _ _ _ E).
  exists s2, fl2. split_and!; [done|done|exists b; split; [done|lia]|done|]. intros a Ha Hnf. rewrite Hfr //. cbn. by rewrite lookup_total_insert_ne.
Qed.

(** ** malloc *)

(** The free list as [malloc] goes through it, from the block after
    [freep] to [freep]. *)
Definition tour (s : uheap) (fl Q : list block) : Prop :=
  Q ≡ₚ fl ∧ seg (cells s) Q (head_or Q 0) ∧ last Q.*1 = Some (freep s) ∧ h_ptr (cells s !!! freep s) = head_or Q 0.

Lemma free_nodup s fl al : heap_ok s fl al → NoDup fl.*1.
Proof.
  intros Hok. pose proof (asc_ups _ _ (ho_asc _ _ _ Hok)) as Hu. clear Hok. induction fl as [|b fl IH]; [constructor|].
  cbn. constructor; [|apply IH; by destruct Hu]. intros (x & E & Hx)%list_elem_of_fmap.
  destruct (ups_lt [] b fl Hu) as [_ H]. specialize (H x Hx). lia.
Qed.

Lemma tour_exists s fl al : heap_ok s fl al → ∃ Q, tour s fl Q.
Proof.
  intros Hok. pose proof (ho_freep _ _ _ Hok) as Hfp. apply list_elem_of_fmap in Hfp as ([fp m] & Efp & Hin). cbn in Efp.
  apply list_elem_of_split in Hin as (A & B & ->). exists (B ++ A ++ [(fp, m)]).
  pose proof (ho_list _ _ _ Hok) as Hs. pose proof (ho_head _ _ _ Hok) as Hh.
  assert (base = head_or (A ++ (fp, m) :: B) 0) as Eb by (destruct A; cbn in Hh |- *; injection Hh; intros; subst; done).
  assert (cyc (cells s) ((A ++ [(fp, m)]) ++ B)) as Hc by (rewrite -app_assoc /cyc; cbn [app]; by rewrite -Eb).
  split_and!; [solve_Permutation|by apply cyc_rot in Hc|by rewrite !fmap_app app_assoc last_snoc Efp|].
  rewrite Efp. apply seg_app in Hs as [_ (E & _)]. cbn in E. rewrite E. cbn. destruct B; cbn; [|done]. rewrite Eb. by destruct A.
Qed.

(** The block before a block that is not [base]. *)
Lemma pred_split s fl al prevp p :
  heap_ok s fl al → prevp ∈ fl.*1 → h_ptr (cells s !!! prevp) = p → p ≠ base →
  ∃ U un pn V, fl = U ++ (prevp, un) :: (p, pn) :: V.
Proof.
  intros Hok Hin Hp Hb. apply list_elem_of_fmap in Hin as ([u un] & -> & Hin). apply list_elem_of_split in Hin as (U & W & ->).
  pose proof (ho_list _ _ _ Hok) as Hs. apply seg_app in Hs as [_ (E & _)]. cbn in E, Hp. rewrite E in Hp. cbn in Hp.
  destruct W as [|[q qn] V]; cbn in Hp; [congruence|]. subst q. by exists U, un, qn, V.
Qed.

(** The block [p] is big enough. *)
Definition take_block (nunits prevp p size : Z) : M uheap Z :=
  p' ← (if size =? nunits then
          nx ← getptr p; setptr prevp nx;; mret p
        else
          setsize p (size - nunits);;
          size' ← getsize p;
          setsize (p + HEADER * size') nunits;;
          mret (p + HEADER * size'));
  modify (set_freep prevp);;
  mret (p' + HEADER).
Lemma take_exact s fl al prevp p nunits U un V :
  heap_ok s fl al → 1 ≤ nunits → fl = U ++ (prevp, un) :: (p, nunits) :: V →
  ∃ s', take_block nunits prevp p nunits s = Ret (p + HEADER) s' ∧ heap_ok s' (U ++ (prevp, un) :: V) ((p, nunits) :: al) ∧ brk s' = brk s ∧
    (∀ a, a ∉ fl.*1 → cells s' !!! a = cells s !!! a).
Proof.
  intros Hok Hn ->. rewrite /take_block Z.eqb_refl /getptr /setptr bind_assoc bind_gets bind_assoc bind_modify bind_mret bind_modify.
  pose proof (ho_list _ _ _ Hok) as Hs. apply seg_app in Hs as [HsU (Eu & Ep & HsV)]. cbn [fst snd head_or] in *.
  rewrite Ep Eu. cbn [h_ptr h_size]. pose proof (free_nodup _ _ _ Hok) as Hnd. rewrite fmap_app !fmap_cons in Hnd. cbn [fst] in Hnd.
  apply NoDup_app in Hnd as (HndU & HUx & Hnd). apply NoDup_cons in Hnd as [Hu Hnd]. apply NoDup_cons in Hnd as [HpV HndV].
  set (c' := <[prevp := _]> (cells s)).
  assert (∀ a, a ∉ (U ++ (prevp, un) :: (p, nunits) :: V).*1 → c' !!! a = cells s !!! a) as Hframe.
  { intros a Ha. subst c'. rewrite lookup_total_insert_ne //. intros <-. apply Ha. rewrite fmap_app elem_of_app. right. by left. }
  pose proof (ho_asc _ _ _ Hok) as Ha. apply asc_app in Ha as [HaU (Hlo & Hun & Hlp & _ & HaV)]. cbn [fst snd] in *.
  pose proof (ho_free _ _ _ Hok) as Hf. rewrite Forall_app !Forall_cons in Hf. destruct Hf as (HfU & Hfu & Hfp & HfV).
  eexists. split_and!; [reflexivity|split|done|done]; cbn [cells freep brk set_cells set_freep].
  - pose proof (ho_head _ _ _ Hok) as Hh. by destruct U.
  - subst c'. apply seg_app. cbn [seg head_or fst snd]. rewrite lookup_total_insert_eq !seg_insert //; [set_solver|].
    intros Hin. by apply (HUx _ Hin), list_elem_of_here.
  - rewrite fmap_app elem_of_app. right. by left.
  - apply asc_app. split; [done|]. split_and!; [done|done|]. eapply asc_weaken; [|exact HaV]. rewrite /bend /HEADER in Hlp |- *. cbn in *. lia.
  - eapply apart_perm; [|apply Hok]. solve_Permutation.
  - by rewrite Forall_app !Forall_cons.
  - constructor.
    + cbn [fst snd]. split; [destruct Hfp as [[= _ ->]|]; [lia|done]|]. subst c'. rewrite lookup_total_insert_ne; [by rewrite Ep|]. set_solver.
    + pose proof (ho_used _ _ _ Hok) as Hus. rewrite !Forall_forall in Hus |- *. intros [a m] Hin. destruct (Hus _ Hin) as [Hi Hsz].
      split; [done|]. cbn [fst snd] in *. rewrite Hframe; [done|by eapply used_not_free].
  - apply Hok.
  - rewrite -(ho_cover _ _ _ Hok) !total_app. cbn [total fst snd]. unfold HEADER. lia.
Qed.

Lemma take_part s fl al prevp p size nunits U un V :
  heap_ok s fl al → 1 ≤ nunits < size → fl = U ++ (prevp, un) :: (p, size) :: V →
  let q := p + HEADER * (size - nunits) in
  ∃ s', take_block nunits prevp p size s = Ret (q + HEADER) s' ∧
    heap_ok s' (U ++ (prevp, un) :: (p, size - nunits) :: V) ((q, nunits) :: al) ∧ brk s' = brk s ∧
    (∀ a, a ≠ q → a ∉ fl.*1 → cells s' !!! a = cells s !!! a).
Proof.
  intros Hok Hn -> q. destruct (ho_brk _ _ _ Hok) as [Hbrk _]. rewrite /take_block. assert (size =? nunits = false) as -> by lia.
  pose proof (ho_list _ _ _ Hok) as Hs. apply seg_app in Hs as [HsU (Eu & Ep & HsV)]. cbn [fst snd head_or] in *.
  pose proof (ho_free _ _ _ Hok) as Hf. rewrite Forall_app !Forall_cons in Hf. destruct Hf as (HfU & Hfu & Hfp & HfV).
  assert (in_heap (brk s) (p, size)) as Hin by (destruct Hfp as [[= _ ->]|]; [lia|done]).
  pose proof (in_heap_range _ _ Hin ltac:(lia)) as Hr. cbn in Hr.
  rewrite /setsize /getsize bind_assoc bind_modify bind_assoc bind_gets bind_assoc bind_modify bind_mret bind_modify.
  cbn [cells set_cells]. rewrite lookup_total_insert_eq Ep. cbn [h_size h_ptr]. rewrite !u32_small; [|lia..]. fold q.
  pose proof (ho_asc _ _ _ Hok) as Ha. pose proof (asc_ups _ _ Ha) as Hups. apply asc_app in Ha as [HaU (Hlo & Hun & Hlp & _ & HaV)].
  cbn [fst snd] in *. assert (p < q ∧ bend (q, nunits) = bend (p, size) ∧ bend (p, size - nunits) = q) as (Hpq & Eq1 & Eq2)
    by (subst q; rewrite /bend /HEADER; cbn; lia).
  assert (prevp < p) as Hup by (rewrite /bend /HEADER in Hlp; cbn in Hlp; lia).
  assert (∀ b, b ∈ U → b.1 < prevp) as HltU by (apply ups_lt in Hups as [H _]; exact H).
  assert (∀ b, b ∈ V → q < b.1) as HltV.
  { intros b Hb. destruct (asc_low _ _ _ HaV Hb) as [H _]. rewrite -Eq1 /bend /HEADER in H. cbn in H. lia. }
  assert (∀ a m, (a, m) ∈ al → a ≠ q ∧ a ≠ p) as Hqal.
  { intros a m Hal. pose proof (ho_used _ _ _ Hok) as Hus. rewrite Forall_forall in Hus. destruct (Hus _ Hal) as [(_ & Hm & _) _].
    apply list_elem_of_split in Hal as (al1 & al2 & ->). pose proof (ho_apart _ _ _ Hok) as Hap.
    apply (apart_perm _ ((p, size) :: (a, m) :: U ++ (prevp, un) :: V ++ al1 ++ al2)) in Hap; [|solve_Permutation].
    destruct Hap as [Hd _]. inversion Hd as [|? ? Hpa _]; subst. rewrite /disj /bend /HEADER in Hpa Eq1. cbn in *. unfold HEADER in q. lia. }
  set (c' := <[q := _]> _).
  assert (∀ a, a ≠ q → a ≠ p → c' !!! a = cells s !!! a) as Hframe by (intros a ? ?; subst c'; rewrite !lookup_total_insert_ne //; congruence).
  assert (∀ l, q ∉ l.*1 → p ∉ l.*1 → ∀ d, seg c' l d ↔ seg (cells s) l d) as Hseg by (intros l ? ? d; subst c'; rewrite !seg_insert //).
  eexists. split_and!; [reflexivity|split|done|]; cbn [cells freep brk set_cells set_freep].
  - pose proof (ho_head _ _ _ Hok) as Hh. by destruct U.
  - apply seg_app. cbn [seg head_or fst snd]. rewrite Hseg; [|intros (b & E & Hb)%list_elem_of_fmap; specialize (HltU b Hb); lia..].
    rewrite Hseg; [|intros (b & E & Hb)%list_elem_of_fmap; specialize (HltV b Hb); lia..].
    split_and!; [done|by rewrite Hframe; [|lia..]| |done]. subst c'. rewrite lookup_total_insert_ne; [|lia]. by rewrite lookup_total_insert_eq.
  - rewrite fmap_app elem_of_app. right. by left.
  - apply asc_app. split; [done|]. cbn [asc fst snd]. split_and!; [done|done|done|lia|]. eapply asc_weaken; [|exact HaV]. rewrite Eq2 -Eq1 /bend /HEADER. cbn. lia.
  - pose proof (ho_apart _ _ _ Hok) as Hap. apply (apart_perm _ ((p, size) :: U ++ (prevp, un) :: V ++ al)) in Hap; [|solve_Permutation].
    apply (apart_perm ((p, size - nunits) :: (q, nunits) :: U ++ (prevp, un) :: V ++ al)); [solve_Permutation|].
    destruct Hap as [Hd Hap]. split; [constructor|split; [|done]].
    + left. rewrite Eq2. cbn. lia.
    + eapply Forall_impl; [exact Hd|]. intros b. rewrite /disj Eq2 -Eq1 /bend /HEADER. cbn. lia.
    + eapply Forall_impl; [exact Hd|]. intros b. rewrite /disj Eq1. cbn [fst]. lia.
  - rewrite Forall_app !Forall_cons. split_and!; [done..| |done]. right. destruct Hin as (H1 & H2 & H3 & H4).
    rewrite -Eq1 in H3. split_and!; [done|cbn; lia| |done]. rewrite Eq2. rewrite /bend /HEADER in H3. cbn in H3. lia.
  - constructor.
    + cbn [fst snd]. subst c'. rewrite lookup_total_insert_eq. split; [|done]. destruct Hin as (H1 & H2 & H3 & H4).
      split_and!; [cbn in *; lia|cbn; lia|by rewrite Eq1|]. subst q. rewrite /HEADER in H4 |- *. cbn in *. lia.
    + pose proof (ho_used _ _ _ Hok) as Hus. rewrite !Forall_forall in Hus |- *. intros [a m] Hal. destruct (Hus _ Hal) as [Hi Hsz].
      split; [done|]. cbn [fst snd] in *. by rewrite Hframe; [| eapply Hqal..].
  - apply Hok.
  - rewrite -(ho_cover _ _ _ Hok) !total_app. cbn [total fst snd]. unfold HEADER. lia.
  - intros a Ha1 Ha2. apply Hframe; [done|]. intros ->. apply Ha2. rewrite fmap_app elem_of_app. right. right. by left.
Qed.

(** The cells of the blocks in use keep their contents. *)
Definition kept (al : list block) (s s' : uheap) : Prop :=
  ∀ b a, b ∈ al → b.1 ≤ a < bend b → cells s' !!! a = cells s !!! a.

Lemma inside_used s fl al b a :
  heap_ok s fl al → b ∈ al → b.1 ≤ a < bend b → a ∉ fl.*1 ∧ a < brk s ∧ ∀ x, x ∈ fl → ¬ x.1 ≤ a < bend x.
Proof.
  intros Hok Hb Ha. pose proof (ho_used _ _ _ Hok) as Hu. rewrite Forall_forall in Hu. destruct (Hu _ Hb) as [(Hs & Hn & Hend & _) _].
  pose proof (ho_free _ _ _ Hok) as Hf. rewrite Forall_forall in Hf.
  assert (∀ x, x ∈ fl → x.1 ≠ a ∧ ¬ x.1 ≤ a < bend x) as Hx.
  { intros x Hx. pose proof (Hf x Hx) as Hfx. apply list_elem_of_split in Hb as (al1 & al2 & ->). apply list_elem_of_split in Hx as (f1 & f2 & ->).
    pose proof (ho_apart _ _ _ Hok) as Hap. apply (apart_perm _ (x :: b :: f1 ++ f2 ++ al1 ++ al2)) in Hap; [|solve_Permutation].
    destruct Hap as [Hd _]. inversion Hd as [|? ? Hxb _]; subst. rewrite /disj in Hxb. pose proof base_start as Hbs.
    destruct Hfx as [->|(_ & Hm & _)]; rewrite /bend /HEADER in Hbs Ha Hxb |- *; cbn in *; lia. }
  split_and!; [|lia|intros x Hin; by apply Hx]. intros (x & -> & Hin)%list_elem_of_fmap. by destruct (Hx x Hin).
Qed.

Lemma take_ok s fl al prevp p nunits :
  heap_ok s fl al → prevp ∈ fl.*1 → h_ptr (cells s !!! prevp) = p → 1 ≤ nunits ≤ h_size (cells s !!! p) →
  ∃ q s' fl', take_block nunits prevp p (h_size (cells s !!! p)) s = Ret (q + HEADER) s' ∧ heap_ok s' fl' ((q, nunits) :: al) ∧
    brk s' = brk s ∧ kept al s s'.
Proof.
  intros Hok Hin Hp Hn. pose proof (ho_list _ _ _ Hok) as Hs. assert (p ≠ base) as Hb.
  { intros ->. pose proof (ho_head _ _ _ Hok) as Hh. destruct fl as [|b fl]; [discriminate Hh|]. injection Hh as ->. destruct Hs as [E _].
    cbn in E. rewrite E in Hn. cbn in Hn. lia. }
  destruct (pred_split _ _ _ _ _ Hok Hin Hp Hb) as (U & un & pn & V & Efl).
  assert (h_size (cells s !!! p) = pn) as Epn by (apply (seg_lookup _ _ _ (p, pn) Hs); rewrite Efl; set_solver). rewrite Epn in Hn |- *.
  destruct (decide (pn = nunits)) as [->|Hne].
  - destruct (take_exact _ _ _ _ _ nunits _ _ _ Hok ltac:(lia) Efl) as (s' & E & Hok' & Eb & Hfr). exists p, s', (U ++ (prevp, un) :: V).
    split_and!; [done|done|done|]. intros b a Hb' Ha. apply Hfr. by eapply inside_used.
  - destruct (take_part _ _ _ _ _ pn nunits _ _ _ Hok ltac:(lia) Efl) as (s' & E & Hok' & Eb & Hfr).
    eexists _, s', _. split_and!; [exact E|exact Hok'|done|]. intros b a Hb' Ha. destruct (inside_used _ _ _ _ _ Hok Hb' Ha) as (Hnf & _ & Hx).
    apply Hfr; [|done]. intros ->. apply (Hx (p, pn)); [rewrite Efl; set_solver|]. rewrite /bend /HEADER. cbn. lia.
Qed.

(** The search: it finds a block among [Q], or all of them are small. *)
Lemma malloc_scan s fl al nunits Q prevp d fuel :
  heap_ok s fl al → 1 ≤ nunits → Q ≠ [] → NoDup Q.*1 → (∀ b, b ∈ Q → b ∈ fl) → seg (cells s) Q d → last Q.*1 = Some (freep s) →
  prevp ∈ fl.*1 → h_ptr (cells s !!! prevp) = head_or Q 0 →
  (∃ q s' fl', malloc_loop grants (length Q + fuel) nunits prevp (head_or Q 0) s = Ret (q + HEADER) s' ∧
     heap_ok s' fl' ((q, nunits) :: al) ∧ brk s' = brk s ∧ kept al s s') ∨
  (∀ b, b ∈ Q → b.2 < nunits) ∧
  malloc_loop grants (length Q + fuel) nunits prevp (head_or Q 0) s =
    (q ← morecore grants nunits; if q =? 0 then mret 0 else nx ← getptr q; malloc_loop grants fuel nunits q nx) s.
Proof.
  revert prevp. induction Q as [|b Q IH]; intros prevp Hok Hn Hne Hnd Hsub Hs Hlast Hin Hp; [done|].
  destruct Hs as [E Hs]. cbn [head_or length Nat.add malloc_loop] in *. rewrite /getsize bind_gets.
  destruct (Z.geb_spec (h_size (cells s !!! b.1)) nunits) as [Hbig|Hsmall].
  { left. destruct (take_ok s fl al prevp b.1 nunits Hok Hin Hp ltac:(lia)) as (q & s' & fl' & Er & H). exists q, s', fl'. split; [exact Er|done]. }
  rewrite E in Hsmall. cbn in Hsmall. rewrite bind_gets. cbn in Hnd. apply NoDup_cons in Hnd as [Hbn Hnd].
  destruct (Z.eqb_spec b.1 (freep s)) as [Efp|Efp].
  - destruct Q as [|b' Q].
    + right. split; [by intros x ->%list_elem_of_singleton|done].
    + destruct Hbn. rewrite Efp. apply last_Some_elem_of. cbn in Hlast |- *. done.
  - destruct Q as [|b' Q]; [cbn in Hlast; congruence|]. rewrite /getptr bind_gets E. cbn [h_ptr head_or].
    destruct (IH b.1) as [Hfound|[Hall Er]]; try done.
    + intros x Hx. apply Hsub. by right.
    + apply list_elem_of_fmap. exists b. split; [done|]. apply Hsub. by left.
    + by rewrite E.
    + by left.
    + right. split; [|exact Er]. intros x [->|Hx]%elem_of_cons; [lia|by apply Hall].
Qed.

Lemma heap_kept_trans al s1 s2 s3 : kept al s1 s2 → kept al s2 s3 → kept al s1 s3.
Proof. intros H1 H2 b a Hb Ha. rewrite (H2 b a Hb Ha). exact (H1 b a Hb Ha). Qed.

(** From [freep] on. *)
Definition malloced (al : list block) (nunits : Z) (s : uheap) (r : Z) (s' : uheap) : Prop :=
  kept al s s' ∧
  ((∃ fl', r = 0 ∧ heap_ok s' fl' al ∧ grants (brk s') (more nunits * HEADER) = false) ∨
   (∃ q fl', r = q + HEADER ∧ heap_ok s' fl' ((q, nunits) :: al))).

Lemma malloc_from s fl al nunits fuel :
  heap_ok s fl al → 1 ≤ nunits → nunits * HEADER < 2 ^ 31 → (2 * length fl + 1 ≤ fuel)%nat →
  ∃ r s', malloc_loop grants fuel nunits (freep s) (h_ptr (cells s !!! freep s)) s = Ret r s' ∧ malloced al nunits s r s'.
Proof.
  intros Hok Hn Hnb Hfuel. destruct (tour_exists _ _ _ Hok) as (Q & HQ & Hs & Hlast & Hp).
  assert (∀ s fl Q, heap_ok s fl al → Q ≡ₚ fl → Q ≠ [] ∧ NoDup Q.*1 ∧ ∀ b, b ∈ Q → b ∈ fl) as Htour.
  { intros s0 fl0 Q0 Hok0 HQ0. split_and!.
    - intros ->. apply Permutation_nil_l in HQ0 as <-. discriminate (ho_head _ _ _ Hok0).
    - rewrite HQ0. by eapply free_nodup.
    - intros b. by rewrite HQ0. }
  destruct (Htour _ _ _ Hok HQ) as (Hne & Hnd & Hsub). rewrite Hp. pose proof (Permutation_length HQ) as Hlen.
  replace fuel with (length Q + (fuel - length Q))%nat by lia.
  destruct (malloc_scan s fl al nunits Q (freep s) (head_or Q 0) (fuel - length Q)) as [(q & s' & fl' & E & Hok' & _ & Hk)|[Hall E]];
    try done; [apply Hok| |].
  { exists (q + HEADER), s'. split; [exact E|]. split; [done|]. right. by exists q, fl'. }
  rewrite E. destruct (morecore_ok s fl al nunits Hok Hn Hnb) as [[Hg Em]|(s1 & fl1 & Em & Hok1 & (b & Hb & Hbn) & Hlen1 & Hfr)].
  { exists 0, s. rewrite (bind_ret _ _ _ _ _ Em). split; [done|]. split; [by intros ? ?|]. left. by exists fl. }
  assert (kept al s s1) as Hk1.
  { intros x a Hx Ha. destruct (inside_used _ _ _ _ _ Hok Hx Ha) as (Hnf & Hlt & _). apply Hfr; [lia|done]. }
  rewrite (bind_ret _ _ _ _ _ Em). assert (freep s1 =? 0 = false) as ->.
  { apply Z.eqb_neq. pose proof (ho_freep _ _ _ Hok1) as Hfp. apply list_elem_of_fmap in Hfp as (x & -> & Hx).
    pose proof (asc_low _ _ _ (ho_asc _ _ _ Hok1) Hx). lia. }
  rewrite /getptr bind_gets. destruct (tour_exists _ _ _ Hok1) as (Q1 & HQ1 & Hs1 & Hlast1 & Hp1).
  destruct (Htour _ _ _ Hok1 HQ1) as (Hne1 & Hnd1 & Hsub1). rewrite Hp1. pose proof (Permutation_length HQ1) as HlenQ1.
  replace (fuel - length Q)%nat with (length Q1 + (fuel - length Q - length Q1))%nat by lia.
  destruct (malloc_scan s1 fl1 al nunits Q1 (freep s1) (head_or Q1 0) (fuel - length Q - length Q1)) as [(q & s' & fl' & E' & Hok' & _ & Hk)|[Hall' _]];
    try done; [apply Hok1| |].
  - exists (q + HEADER), s'. split; [exact E'|]. split; [by eapply heap_kept_trans|]. right. by exists q, fl'.
  - specialize (Hall' b). rewrite HQ1 in Hall'. specialize (Hall' Hb). lia.
Qed.

(** The free list, from [base] on *)
Fixpoint blocks_from (fuel : nat) (c : gmap Z header) (p : Z) : list block :=
  match fuel with
  | O => []
  | S fuel' => (p, h_size (c !!! p)) :: (if h_ptr (c !!! p) =? base then [] else blocks_from fuel' c (h_ptr (c !!! p)))
  end.
Definition free_blocks (s : uheap) : list block := blocks_from (fuel_of s) (cells s) base.
Lemma blocks_from_seg c l fuel b : seg c (b :: l) base → base ∉ l.*1 → (length l < fuel)%nat → blocks_from fuel c b.1 = b :: l.
Proof.
  revert fuel b. induction l as [|x l IH]; intros fuel b [E Hs] Hb Hf; (destruct fuel as [|fuel]; [lia|]); cbn [blocks_from]; rewrite E; cbn [h_size h_ptr head_or].
  - rewrite Z.eqb_refl. by destruct b.
  - rewrite fmap_cons not_elem_of_cons in Hb. destruct Hb as [Hx Hb]. rewrite (proj2 (Z.eqb_neq _ _)); [|congruence]. rewrite (IH fuel x) //; [by destruct b|cbn in Hf; lia].
Qed.
Lemma free_list s fl al : heap_ok s fl al → free_blocks s = fl.
Proof.
  intros Hok. pose proof (ho_head _ _ _ Hok) as Hh. pose proof (free_blocks_bound _ _ _ Hok) as Hl. pose proof (free_nodup _ _ _ Hok) as Hnd. destruct fl as [|b fl]; [discriminate Hh|].
  injection Hh as ->. apply NoDup_cons in Hnd as [Hb _]. apply (blocks_from_seg _ fl _ (base, 0)); [apply Hok|done|cbn in Hl; lia].
Qed.

(** A heap, used or not yet used. *)
Definition valid (s : uheap) (al : list block) : Prop :=
  heap_ok s (free_blocks s) al ∨ (freep s = 0 ∧ al = [] ∧ brk s = start ∧ start < 2 ^ 36 ∧ start mod HEADER = 0).

Lemma heap_ok_valid s fl al : heap_ok s fl al → valid s al.
Proof. intros Hok. left. by rewrite (free_list _ _ _ Hok). Qed.
(** Every byte of the heap is in a free block or in a block in use. *)
Lemma valid_cover s al a : valid s al → start ≤ a < brk s → ∃ b, b ∈ free_blocks s ++ al ∧ b.1 ≤ a < bend b.
Proof.
  intros [Hok|(_ & _ & E & _)] Ha; [|lia]. pose proof (ho_cover _ _ _ Hok) as Hc. pose proof (ho_head _ _ _ Hok) as Hh. destruct (ho_brk _ _ _ Hok) as [Hbrk Hbm].
  destruct (decide (Exists (λ b, b.1 ≤ a < bend b) (free_blocks s ++ al))) as [(b & Hb & H)%Exists_exists|Hn]; [by exists b|exfalso].
  assert (∀ b, b ∈ free_blocks s ++ al → b = (base, 0) ∨ in_heap (brk s) b) as Hin.
  { intros b [Hb|Hb]%elem_of_app; [pose proof (ho_free _ _ _ Hok) as H|pose proof (ho_used _ _ _ Hok) as H]; rewrite Forall_forall in H; [by apply H|right; by apply H]. }
  rewrite -Forall_Exists_neg in Hn. rewrite Forall_forall in Hn. pose proof (ho_asc _ _ _ Hok) as Has. pose proof (ho_apart _ _ _ Hok) as Hap.
  destruct (free_blocks s) as [|b0 fl]; [discriminate Hh|]. injection Hh as ->. cbn [total app snd] in Hc, Hap. destruct Hap as [_ Hap]. destruct Has as (_ & _ & Has).
  assert (∀ b, b ∈ fl ++ al → in_heap (brk s) b) as Hin'.
  { intros b Hb. destruct (Hin b) as [->|]; [by right| |done]. apply elem_of_app in Hb as [Hb|Hb].
    - destruct (asc_low _ _ _ Has Hb) as [H _]. rewrite /bend in H. cbn in H. lia.
    - pose proof (ho_used _ _ _ Hok) as H. rewrite Forall_forall in H. by apply H. }
  set (c := a - (a - start) mod HEADER). assert (start mod HEADER = 0) as Hsm by (unfold HEADER in *; lia).
  pose proof (total_bound (S (length (fl ++ al))) ((c, 1) :: fl ++ al) start (brk s)) as Hb. cbn [total snd] in Hb. rewrite total_app in Hb.
  assert (start + HEADER * (1 + (total fl + total al)) ≤ brk s); [|unfold HEADER in *; lia]. apply Hb; [done|lia|split; [|done]|constructor].
  - apply Forall_forall. intros b Hb'. specialize (Hn b ltac:(by right)). destruct (Hin' b Hb') as (H1 & H2 & H3 & H4). subst c. rewrite /bend /HEADER in Hn, H3, H4, Hsm. rewrite /disj /bend /HEADER. cbn [fst snd]. lia.
  - subst c. rewrite /HEADER in Hsm, Hbm. rewrite /bend /HEADER. cbn [fst snd]. lia.
  - apply Forall_forall. intros b Hb'. destruct (Hin' b Hb') as (H1 & H2 & H3 & _). done.
Qed.

Lemma units_enough nbytes : 0 ≤ nbytes < 2 ^ 31 - 31 →
  1 ≤ units nbytes ∧ units nbytes * HEADER < 2 ^ 31 ∧ nbytes ≤ HEADER * (units nbytes - 1).
Proof. intros Hb. rewrite /units /HEADER u32_small; lia. Qed.

Lemma malloc_valid s al nbytes :
  valid s al → 0 ≤ nbytes < 2 ^ 31 - 31 → ∃ r s', malloc base grants nbytes s = Ret r s' ∧ malloced al (units nbytes) s r s'.
Proof.
  intros Hv Hb. destruct (units_enough nbytes Hb) as (Hu1 & Hu2 & _). rewrite /malloc bind_gets. destruct Hv as [Hok|(Hfp & -> & Hbrk & Hs36 & Hal)].
  - assert (freep s =? 0 = false) as ->.
    { apply Z.eqb_neq. pose proof (ho_freep _ _ _ Hok) as Hfp. apply list_elem_of_fmap in Hfp as (x & -> & Hx).
      pose proof (asc_low _ _ _ (ho_asc _ _ _ Hok) Hx). lia. }
    rewrite bind_mret /getptr !bind_gets. eapply malloc_from; try done. pose proof (free_blocks_bound _ _ _ Hok). lia.
  - rewrite Hfp Z.eqb_refl /setptr /setsize /getptr bind_assoc bind_modify bind_assoc bind_modify bind_assoc bind_modify bind_mret !bind_gets.
    set (s1 := set_cells _ _). assert (cells s1 !!! base = mk_header base 0) as Eb.
    { subst s1. cbn. by rewrite !lookup_total_insert_eq. }
    assert (heap_ok s1 [(base, 0)] []) as Hok1.
    { split; try done.
      - by rewrite list_elem_of_singleton.
      - cbn. lia.
      - constructor; [by left|constructor].
      - cbn. rewrite Hbrk. lia.
      - cbn. lia. }
    destruct (malloc_from s1 [(base, 0)] [] (units nbytes) (fuel_of s1 + fuel_of s1) Hok1 Hu1 Hu2) as (r & s' & E & Hm).
    { rewrite /fuel_of. cbn. lia. }
    exists r, s'. split; [exact E|]. destruct Hm as [_ Hm]. split; [|exact Hm]. by intros b a ?%elem_of_nil.
Qed.

Lemma heap_ok_perm s fl al al' : al ≡ₚ al' → heap_ok s fl al → heap_ok s fl al'.
Proof.
  intros HP []. split; try done; [|by rewrite -HP|by rewrite -HP].
  eapply apart_perm; [|exact ho_apart0]. by apply Permutation_app_head.
Qed.

(** C18. malloc and free of the user library are correct.  In a heap whose
    blocks in use are [al], every byte is in a block of the free list or in a
    block in use, and these do not overlap.  malloc(n) of less than 2 GiB
    terminates, and returns 0 only if sbrk refuses to grow the heap; otherwise
    it returns a pointer, aligned to 16 bytes, to at least n bytes inside the
    heap that overlap no block in use.  free of a block in use terminates, and
    all of the block is then in a block of the free list.  Both lead to such a
    heap again, so that no byte is ever lost, keep the free list sorted,
    coalesced and circular, and do not touch the contents of the other blocks
    in use. *)
Theorem umalloc_correct s al :
  valid s al →
  (∀ a, start ≤ a < brk s → ∃ b, b ∈ free_blocks s ++ al ∧ b.1 ≤ a < bend b) ∧
  (∀ n, 0 ≤ n < 2 ^ 31 - 31 →
     ∃ r s', malloc base grants n s = Ret r s' ∧ kept al s s' ∧
       (r = 0 ∧ valid s' al ∧ grants (brk s') (more (units n) * HEADER) = false ∨
        let q := r - HEADER in
        valid s' ((q, units n) :: al) ∧ r mod HEADER = 0 ∧ start ≤ q ∧ r + n ≤ brk s' ∧ r + n ≤ bend (q, units n) ∧
        ∀ b, b ∈ al → disj (q, units n) b)) ∧
  (∀ q n al', al ≡ₚ (q, n) :: al' →
     ∃ s', free (q + HEADER) s = Ret tt s' ∧ valid s' al' ∧ kept al' s s' ∧ brk s' = brk s ∧
       ∃ b, b ∈ free_blocks s' ∧ b.1 ≤ q ∧ bend (q, n) ≤ bend b).
Proof.
  intros Hv. split; [intros a Ha; by apply valid_cover|]. split.
  - intros n Hn. destruct (units_enough n Hn) as (Hu1 & _ & Hu3).
    destruct (malloc_valid s al n Hv Hn) as (r & s' & E & Hk & Hr). exists r, s'. split_and!; [done|done|].
    destruct Hr as [(fl' & -> & Hok & Hg)|(q & fl' & -> & Hok)]; [left; split_and!; [done|by eapply heap_ok_valid|done]|right]. cbv zeta.
    replace (q + HEADER - HEADER) with q by lia. pose proof (ho_used _ _ _ Hok) as Hu. inversion Hu as [|? ? [(H1 & H2 & H3 & H4) _] _]; subst.
    cbn [fst snd] in *. rewrite /bend in H3 |- *. cbn [fst snd] in *. split_and!; [by eapply heap_ok_valid|unfold HEADER in *; lia..|].
    intros b Hb. pose proof (ho_apart _ _ _ Hok) as Hap. apply (apart_perm _ ((q, units n) :: fl' ++ al)) in Hap; [|solve_Permutation].
    destruct Hap as [Hd _]. rewrite Forall_forall in Hd. apply Hd, elem_of_app. by right.
  - intros q n al' HP. destruct Hv as [Hok|(_ & -> & _)]; [|by apply Permutation_nil_l in HP].
    apply (heap_ok_perm _ _ _ _ HP) in Hok. destruct (free_ok _ _ _ _ _ Hok) as (s' & fl' & E & Hok' & Eb & (b0 & Hb0 & _ & Hlo & Hhi) & _ & Hfr).
    exists s'. split_and!; [done|by eapply heap_ok_valid| |done|exists b0; by rewrite (free_list _ _ _ Hok')]. intros b a Hb Ha.
    destruct (inside_used _ _ _ b a Hok ltac:(by right) Ha) as (Hnf & _). apply Hfr; [|done]. intros ->.
    pose proof (ho_apart _ _ _ Hok) as Hap. apply (apart_perm _ ((q, n) :: free_blocks s ++ al')) in Hap; [|solve_Permutation].
    destruct Hap as [Hd _]. rewrite Forall_forall in Hd. specialize (Hd b ltac:(apply elem_of_app; by right)).
    pose proof (ho_used _ _ _ Hok) as Hu. inversion Hu as [|? ? [(_ & H2 & _) _] _]; subst. rewrite /disj /bend /HEADER in Hd Ha. cbn in *. lia.
Qed.
End inv.

(** ** Examples *)

Definition demo_base : Z := 0x2000.
Definition demo_grants (sz n : Z) : bool := (sz + n <? 0x100000).
Definition demo_heap : uheap := mk_uheap ∅ 0 0x4000.
Lemma demo_valid : valid demo_base 0x4000 demo_heap [].
Proof. right. split_and!; done. Qed.

Lemma umalloc_correct_witness :
  (∃ r s', malloc demo_base demo_grants 100 demo_heap = Ret r s' ∧ valid demo_base 0x4000 s' [(r - HEADER, 8)]) ∧
  match malloc demo_base demo_grants 100 demo_heap with Ret r _ => r | _ => 0 end = 0x13f90.
Proof.
  split; [|vm_compute; reflexivity].
  destruct (umalloc_correct demo_base 0x4000 demo_grants ltac:(done) ltac:(by vm_compute)
    ltac:(rewrite /demo_grants; intros; lia) demo_heap [] demo_valid) as (_ & Hm & _).
  destruct (Hm 100 ltac:(lia)) as (r & s' & E & _ & [(-> & _)|(Hv & _)]); [|by exists r, s'].
  assert (match malloc demo_base demo_grants 100 demo_heap with Ret r _ => r | _ => 0 end = 0x13f90) as H by (vm_compute; reflexivity).
  rewrite E in H. discriminate H.
Defined.

(** [sbrk] takes an int: a request of 4 GiB becomes one of 16 bytes, and
    malloc returns a block of 4 GiB that the heap does not have. *)
Lemma malloc_truncates_sbrk :
  ∃ r s', malloc demo_base demo_grants (2 ^ 32 - 1) demo_heap = Ret r s' ∧ r = 0x4010 ∧ brk s' = brk demo_heap + 16.
Proof. eexists _, _. split_and!; vm_compute; reflexivity. Qed.
