(* ===== verification/Sh.v ===== *)
(** * user/sh.c: the parser of the shell

    A pointer into the command line is the list of the bytes from it to the
    end [es]; the byte at [es] is the NUL.  Strings of a parsed command are
    pairs of offsets into the line, as the fields [argv] and [eargv], [file]
    and [efile] of the source are pairs of pointers. *)
From S2P Require Import Prelude Riscv.

Definition MAXARGS : Z := 10.

Abbreviation span := (nat * nat)%type.
Record redirection := mk_redir { r_file : span; r_mode : Z; r_fd : Z }.

(** struct cmd and its five kinds *)
Inductive cmd :=
| EXEC (argv : list span)
| REDIR (c : cmd) (r : redirection)
| PIPE (left right : cmd)
| LIST (left right : cmd)
| BACK (c : cmd).

(** " \t\r\n\v" and "<|>&;()" *)
Definition whitespace : list Z := [32; 9; 13; 10; 11].
Definition symbols : list Z := [60; 124; 62; 38; 59; 40; 41].
(** [strchr(l, c)] of a character that is not NUL *)
Definition has_char (l : list Z) (c : Z) : bool := bool_decide (c ∈ l).

Definition CH_lt : Z := 60.
Definition CH_gt : Z := 62.
Definition CH_pipe : Z := 124.
Definition CH_amp : Z := 38.
Definition CH_semi : Z := 59.
Definition CH_lpar : Z := 40.
Definition CH_rpar : Z := 41.
Definition TOK_word : Z := 97.
Definition TOK_append : Z := 43.

(** [while(s < es && strchr(whitespace, *s)) s++;] *)
Fixpoint skip_white (s : list Z) : list Z :=
  match s with c :: s' => if has_char whitespace c then skip_white s' else s | [] => [] end.
(** [while(s < es && !strchr(whitespace, *s) && !strchr(symbols, *s)) s++;] *)
Fixpoint skip_word (s : list Z) : list Z :=
  match s with
  | c :: s' => if has_char whitespace c || has_char symbols c then s else skip_word s'
  | [] => []
  end.

Section parser.
(** The line; a suffix [s] of it starts at offset [off s]. *)
Context (line : list Z).
Definition off (s : list Z) : nat := (length line - length s)%nat.

(** The state is [*ps]; [panic] prints its argument and exits. *)
Abbreviation P := (M (list Z)).

(** The token at [s], without white space before it: its kind and the rest. *)
Definition token (s : list Z) : Z * list Z :=
  match s with
  | [] => (0, [])
  | c :: s' =>
      if has_char [CH_pipe; CH_lpar; CH_rpar; CH_semi; CH_amp; CH_lt] c then (c, s')
      else if c =? CH_gt then
        match s' with
        | c' :: s'' => if c' =? CH_gt then (TOK_append, s'') else (c, s')
        | [] => (c, s')
        end
      else (TOK_word, skip_word s)
  end.
Definition gettoken : P (Z * span) :=
  s ← gets skip_white;
  let '(ret, s') := token s in
  put (skip_white s');;
  mret (ret, (off s, off s')).

Definition peek (toks : list Z) : P bool :=
  s ← gets skip_white;
  put s;;
  mret (match s with c :: _ => has_char toks c | [] => false end).

(** The loop of [parseredirs]: the redirections, in the order in which they
    are put around the command.  [fuel] is more than the length of the
    line. *)
Fixpoint parseredirs_loop (fuel : nat) : P (list redirection) :=
  match fuel with
  | O => panic "does not terminate"
  | S fuel' =>
      b ← peek [CH_lt; CH_gt];
      if b : bool then
        '(tok, _) ← gettoken;
        '(tok', file) ← gettoken;
        if negb (tok' =? TOK_word) then panic "missing file for redirection"
        else
          rs ← parseredirs_loop fuel';
          mret ((if tok =? CH_lt then mk_redir file O_RDONLY 0
                 else if tok =? CH_gt then mk_redir file (Z.lor (Z.lor O_WRONLY O_CREATE) O_TRUNC) 1
                 else mk_redir file (Z.lor O_WRONLY O_CREATE) 1) :: rs)
      else mret []
  end.
Definition parseredirs : P (list redirection) := parseredirs_loop (S (length line)).
Definition redircmds (c : cmd) (rs : list redirection) : cmd := foldl REDIR c rs.

(** The loop of [parseexec]: the arguments, and the redirections around the
    [execcmd] that holds them. *)
Fixpoint parseargs (fuel : nat) (argv : list span) (rs : list redirection) : P cmd :=
  match fuel with
  | O => panic "does not terminate"
  | S fuel' =>
      b ← peek [CH_pipe; CH_rpar; CH_amp; CH_semi];
      if b : bool then mret (redircmds (EXEC argv) rs)
      else
        '(tok, w) ← gettoken;
        if tok =? 0 then mret (redircmds (EXEC argv) rs)
        else if negb (tok =? TOK_word) then panic "syntax"
        else
          let argv := argv ++ [w] in
          if Z.of_nat (length argv) >=? MAXARGS then panic "too many args"
          else rs' ← parseredirs; parseargs fuel' argv (rs ++ rs')
  end.

(** [while(peek(ps, es, "&")) ...] of [parseline] *)
Fixpoint parsebacks (fuel : nat) (c : cmd) : P cmd :=
  match fuel with
  | O => panic "does not terminate"
  | S fuel' =>
      b ← peek [CH_amp];
      if b : bool then gettoken;; parsebacks fuel' (BACK c) else mret c
  end.

(** [fuel] bounds the depth of the calls. *)
Fixpoint parseline (fuel : nat) : P cmd :=
  match fuel with
  | O => panic "does not terminate"
  | S fuel' =>
      c ← parsepipe fuel';
      c ← parsebacks (S (length line)) c;
      b ← peek [CH_semi];
      if b : bool then gettoken;; r ← parseline fuel'; mret (LIST c r) else mret c
  end
with parsepipe (fuel : nat) : P cmd :=
  match fuel with
  | O => panic "does not terminate"
  | S fuel' =>
      c ← parseexec fuel';
      b ← peek [CH_pipe];
      if b : bool then gettoken;; r ← parsepipe fuel'; mret (PIPE c r) else mret c
  end
with parseexec (fuel : nat) : P cmd :=
  match fuel with
  | O => panic "does not terminate"
  | S fuel' =>
      b ← peek [CH_lpar];
      if b : bool then parseblock fuel'
      else rs ← parseredirs; parseargs (S (length line)) [] rs
  end
with parseblock (fuel : nat) : P cmd :=
  match fuel with
  | O => panic "does not terminate"
  | S fuel' =>
      b ← peek [CH_lpar];
      if negb b then panic "parseblock"
      else
        gettoken;;
        c ← parseline fuel';
        b ← peek [CH_rpar];
        if negb b then panic "syntax - missing )"
        else gettoken;; rs ← parseredirs; mret (redircmds c rs)
  end.

(** ** Terminating the strings *)

(** The offsets at which [nulterminate] writes a NUL, in order. *)
Fixpoint ends (c : cmd) : list nat :=
  match c with
  | EXEC argv => argv.*2
  | REDIR c r => ends c ++ [(r_file r).2]
  | PIPE l r => ends l ++ ends r
  | LIST l r => ends l ++ ends r
  | BACK c => ends c
  end.
End parser.

(** The bytes of the line, with its NUL, after [nulterminate]. *)
Definition nulterminate (c : cmd) (buf : list Z) : list Z := foldl (λ b e, <[e := 0]> b) buf (ends c).

(** [parsecmd] on the bytes [s] before the NUL: the command, and the buffer
    its strings point into. *)
Definition parse_fuel (s : list Z) : nat := S (4 * S (length s)).
Definition parsecmd (s : list Z) : outcome (list Z) (cmd * list Z) :=
  match parseline s (parse_fuel s) s with
  | Ret c ps =>
      match skip_white ps with
      | [] => Ret (c, nulterminate c (s ++ [0])) []
      | _ => Panic "syntax"
      end
  | Panic e => Panic e
  | Sleep ch ps => Sleep ch ps
  end.
