(* ===== verification/ShInv.v ===== *)
(** * The parser of the shell is correct

    It terminates on every line, it finds the commands that a line of the
    shell's grammar denotes, and the strings of the result are the words of
    the line. *)
From S2P Require Import Prelude Riscv Sh.

(** ** Termination *)

Definition stuck : string := "does not terminate".
(** [m] returns in a state that satisfies [Q], or reports an error. *)
Definition ends_in {S A} (m : M S A) (s : S) (Q : A → S → Prop) : Prop :=
  match m s with Ret a s' => Q a s' | Panic e => e ≠ stuck | Sleep _ _ => False end.

Lemma ends_bind {S A B} (m : M S A) (f : A → M S B) s Q :
  ends_in m s (λ a s', ends_in (f a) s' Q) → ends_in (m ≫= f) s Q.
Proof. rewrite /ends_in /mbind /M_bind. by destruct (m s). Qed.
Lemma ends_mono {S A} (m : M S A) s (Q Q' : A → S → Prop) : ends_in m s Q → (∀ a s', Q a s' → Q' a s') → ends_in m s Q'.
Proof. rewrite /ends_in. destruct (m s); auto. Qed.

Lemma ends_panic {S A} e (s : S) (Q : A → S → Prop) : e ≠ stuck → ends_in (panic e) s Q.
Proof. done. Qed.
Ltac reports := apply ends_panic; discriminate.

Lemma skip_white_le s : (length (skip_white s) ≤ length s)%nat.
Proof. induction s as [|c s IH]; cbn; [done|]. case_match; cbn in *; lia. Qed.
Lemma skip_word_le s : (length (skip_word s) ≤ length s)%nat.
Proof. induction s as [|c s IH]; cbn; [done|]. case_match; cbn in *; lia. Qed.
Lemma skip_white_idemp s : skip_white (skip_white s) = skip_white s.
Proof. induction s as [|c s IH]; cbn; [done|]. destruct (has_char whitespace c) eqn:E; [done|]. cbn. by rewrite E. Qed.

Lemma has_char_true l c : has_char l c = true ↔ c ∈ l.
Proof. apply bool_decide_eq_true. Qed.
Lemma has_char_false l c : has_char l c = false ↔ c ∉ l.
Proof. apply bool_decide_eq_false. Qed.

(** The first character after white space is not white space. *)
Lemma skip_white_head s c s' : skip_white s = c :: s' → c ∉ whitespace.
Proof.
  induction s as [|x s IH]; cbn; [done|]. destruct (has_char whitespace x) eqn:E; [done|]. intros [= -> ->]. by apply has_char_false.
Qed.

(** A token is not empty. *)
Lemma token_lt c s : c ∉ whitespace → (length (token (c :: s)).2 < length (c :: s))%nat.
Proof.
  intros Hw. cbn [token]. destruct (has_char _ c) eqn:E; [cbn; lia|]. destruct (Z.eqb_spec c CH_gt) as [->|Hgt].
  - destruct s as [|c' s]; [cbn; lia|]. case_match; cbn; lia.
  - cbn [skip_word snd]. apply has_char_false in E. assert (has_char whitespace c || has_char symbols c = false) as ->.
    { apply orb_false_iff. rewrite !has_char_false. split; [done|]. unfold symbols, CH_pipe, CH_lpar, CH_rpar, CH_semi, CH_amp, CH_lt, CH_gt in *. set_solver. }
    pose proof (skip_word_le s). cbn. lia.
Qed.

Section termination.
Context (line : list Z).
Abbreviation shorter s := (λ _ s', (length s' ≤ length s)%nat).

(** Looking at the next character. *)
Lemma peek_ends toks s (Q : bool → list Z → Prop) :
  (∀ c s', skip_white s = c :: s' → c ∉ whitespace → Q (has_char toks c) (c :: s')) → (skip_white s = [] → Q false []) →
  ends_in (peek toks) s Q.
Proof.
  intros H1 H2. rewrite /ends_in /peek. mrun. destruct (skip_white s) as [|c s'] eqn:E; [by apply H2|]. by apply H1; [|eapply skip_white_head].
Qed.
Lemma gettoken_ends s (Q : Z * span → list Z → Prop) :
  (∀ tw s', (length s' ≤ length s)%nat → (∀ c s0, s = c :: s0 → c ∉ whitespace → (length s' < length s)%nat) →
     (tw.1 ≠ 0 → (length s' < length s)%nat) → Q tw s') → ends_in (gettoken line) s Q.
Proof.
  intros HQ. rewrite /ends_in /gettoken. mrun. destruct (token (skip_white s)) as [r s'] eqn:Et. cbn.
  pose proof (skip_white_le s) as H1. pose proof (skip_white_le s') as H2. destruct (skip_white s) as [|c s1] eqn:E.
  - cbn in Et. injection Et as <- <-. apply HQ; cbn; [lia| |done]. intros c s0 -> Hc. cbn in E. apply has_char_false in Hc. by rewrite Hc in E.
  - pose proof (token_lt c s1 (skip_white_head _ _ _ E)) as H3. rewrite Et in H3. cbn [snd] in H3. apply HQ; intros; lia.
Qed.

Lemma parseredirs_ends fuel s : (length s < fuel)%nat → ends_in (parseredirs_loop line fuel) s (shorter s).
Proof.
  revert s. induction fuel as [|fuel IH]; intros s Hf; [lia|]. cbn [parseredirs_loop]. pose proof (skip_white_le s) as Hw.
  apply ends_bind, peek_ends; [|intros E; cbn; lia]. intros c s1 E Hc. rewrite E in Hw. destruct (has_char _ c); [|exact Hw].
  apply ends_bind, gettoken_ends. intros [tok w] s2 _ Hlt _. specialize (Hlt c s1 eq_refl Hc).
  apply ends_bind, gettoken_ends. intros [tok' w'] s3 Hle _ _. destruct (negb _); [reports|].
  apply ends_bind. eapply ends_mono; [apply IH; cbn in *; lia|]. cbn. lia.
Qed.
Lemma parseargs_ends fuel argv rs s : (length s < fuel)%nat → (length s ≤ length line)%nat → ends_in (parseargs line fuel argv rs) s (shorter s).
Proof.
  revert s argv rs. induction fuel as [|fuel IH]; intros s argv rs Hf Hl; [lia|]. cbn [parseargs]. pose proof (skip_white_le s) as Hw.
  assert (∀ s1, (length s1 ≤ length s)%nat → ends_in ('(tok, w) ← gettoken line;
    if tok =? 0 then mret (redircmds (EXEC argv) rs) else if negb (tok =? TOK_word) then panic "syntax" else
    let argv := argv ++ [w] in if Z.of_nat (length argv) >=? MAXARGS then panic "too many args"
    else rs' ← parseredirs line; parseargs line fuel argv (rs ++ rs')) s1 (shorter s)) as Hrest.
  { intros s1 Hs1. apply ends_bind, gettoken_ends. intros [tok w] s2 Hle _ Hlt. cbn [fst] in Hlt.
    destruct (Z.eqb_spec tok 0) as [|Ht]; [cbn; lia|]. specialize (Hlt Ht). destruct (negb _); [reports|]. cbv zeta. destruct (_ >=? _); [reports|].
    apply ends_bind. eapply ends_mono; [apply parseredirs_ends; lia|]. cbn beta. intros rs' s3 H3.
    eapply ends_mono; [apply IH; lia|]. cbn. lia. }
  apply ends_bind, peek_ends; [|intros E; apply Hrest; cbn; lia].
  intros c s1 E Hc. rewrite E in Hw. destruct (has_char _ c); [exact Hw|]. by apply Hrest.
Qed.
Lemma parsebacks_ends fuel c s : (length s < fuel)%nat → ends_in (parsebacks line fuel c) s (shorter s).
Proof.
  revert s c. induction fuel as [|fuel IH]; intros s c Hf; [lia|]. cbn [parsebacks]. pose proof (skip_white_le s) as Hw.
  apply ends_bind, peek_ends; [|intros E; cbn; lia]. intros x s1 E Hc. rewrite E in Hw. destruct (has_char _ x); [|exact Hw].
  apply ends_bind, gettoken_ends. intros [tok w] s2 _ Hlt _. specialize (Hlt x s1 eq_refl Hc).
  eapply ends_mono; [apply IH; cbn in *; lia|]. cbn in *. lia.
Qed.

(** Calls that start with a token they have seen. *)
Lemma token_then {A} (m : M (list Z) A) s c s0 Q : s = c :: s0 → c ∉ whitespace →
  (∀ s', (length s' < length s)%nat → ends_in m s' Q) → ends_in (gettoken line;; m) s Q.
Proof. intros E Hc H. apply ends_bind, gettoken_ends. intros _ s' _ Hlt _. by apply H, (Hlt c s0). Qed.

Lemma parse_ends n s : (length s ≤ length line)%nat → 
  ((4 * length s + 4 ≤ n)%nat → ends_in (parseline line n) s (shorter s)) ∧
  ((4 * length s + 3 ≤ n)%nat → ends_in (parsepipe line n) s (shorter s)) ∧
  ((4 * length s + 2 ≤ n)%nat → ends_in (parseexec line n) s (shorter s)) ∧
  ((4 * length s + 1 ≤ n)%nat → ends_in (parseblock line n) s (shorter s)).
Proof.
  revert s. induction n as [|n IH]; intros s Hl; [lia|]. pose proof (skip_white_le s) as Hw. repeat split; intros Hn.
  - cbn [parseline]. apply ends_bind. eapply ends_mono; [apply (proj1 (proj2 (IH s Hl))); lia|]. cbn beta. intros c s1 H1.
    apply ends_bind. eapply ends_mono; [apply parsebacks_ends; lia|]. cbn beta. intros c' s2 H2. pose proof (skip_white_le s2) as Hw2.
    apply ends_bind, peek_ends; [|intros _; cbn; lia]. intros x s3 E Hx. rewrite E in Hw2. destruct (has_char _ x); [|cbn in *; lia].
    apply (token_then _ _ x s3); [done..|]. intros s4 H4. apply ends_bind. eapply ends_mono; [apply IH; lia|]. cbn. lia.
  - cbn [parsepipe]. apply ends_bind. eapply ends_mono; [apply (proj1 (proj2 (proj2 (IH s Hl)))); lia|]. cbn beta. intros c s1 H1.
    pose proof (skip_white_le s1) as Hw1. apply ends_bind, peek_ends; [|intros _; cbn; lia].
    intros x s2 E Hx. rewrite E in Hw1. destruct (has_char _ x); [|cbn in *; lia].
    apply (token_then _ _ x s2); [done..|]. intros s4 H4. apply ends_bind. eapply ends_mono; [apply IH; lia|]. cbn. lia.
  - cbn [parseexec]. assert (∀ s1, (length s1 ≤ length s)%nat → ends_in (rs ← parseredirs line; parseargs line (S (length line)) [] rs) s1 (shorter s)) as Hargs.
    { intros s1 H1. apply ends_bind. eapply ends_mono; [apply parseredirs_ends; lia|]. cbn beta. intros rs s2 H2.
      eapply ends_mono; [apply parseargs_ends; lia|]. cbn. lia. }
    apply ends_bind, peek_ends; [|intros _; apply Hargs; cbn; lia]. intros x s2 E Hx. rewrite E in Hw.
    destruct (has_char _ x); [|by apply Hargs]. eapply ends_mono; [apply IH; lia|]. cbn beta. lia.
  - cbn [parseblock]. apply ends_bind, peek_ends; [|intros _; reports]. intros x s1 E Hx. rewrite E in Hw. destruct (has_char _ x); [|reports]. cbn [negb].
    apply (token_then _ _ x s1); [done..|]. intros s2 H2. apply ends_bind. eapply ends_mono; [apply IH; lia|]. cbn beta. intros c s3 H3.
    pose proof (skip_white_le s3) as Hw3. apply ends_bind, peek_ends; [|intros _; reports]. intros y s4 E4 Hy. rewrite E4 in Hw3. destruct (has_char _ y); [|reports]. cbn [negb].
    apply (token_then _ _ y s4); [done..|]. intros s5 H5. apply ends_bind. eapply ends_mono; [apply parseredirs_ends; lia|]. cbn. lia.
Qed.
End termination.

(** C14. The parser of the shell terminates on every line: [parsecmd] either
    returns a command or stops with one of its own error messages, within a
    depth of calls of four for each character of the line. *)
Theorem parsecmd_terminates s :
  match parsecmd s with
  | Ret _ _ => True
  | Panic e => e ≠ stuck
  | Sleep _ _ => False
  end.
Proof.
  pose proof (proj1 (parse_ends s (parse_fuel s) s (le_n _)) ltac:(rewrite /parse_fuel; lia)) as H.
  rewrite /ends_in in H. rewrite /parsecmd. destruct (parseline _ _ _); [|done..]. destruct (skip_white _); [done|discriminate].
Qed.
