(* ===== verification/ShGrammar.v ===== *)
(** * The grammar of the shell

    [lex] cuts a line into tokens, and the predicates [g_line], [g_pipe] and
    [g_exec] are the grammar of the command language over tokens.  The parser
    of sh.c accepts the lines of the grammar and no others, and gives each of
    them the command of its only derivation; the strings of the command are
    the words of the line. *)
From S2P Require Import Prelude Riscv Sh ShInv.

Abbreviation tok := (Z * span)%type.

Section grammar.
Context (line : list Z).

(** ** Tokens *)
Fixpoint lex_n (n : nat) (s : list Z) : list tok :=
  match n, skip_white s with
  | S n', (_ :: _) as s1 => let '(k, s') := token s1 in (k, (off line s1, off line s')) :: lex_n n' s'
  | _, _ => []
  end.
Definition lex (s : list Z) : list tok := lex_n (length s) s.

(** ** The grammar *)

(** What follows [<], [>] and [>>] *)
Inductive g_redirs : list tok → list redirection → Prop :=
| gr_nil : g_redirs [] []
| gr_in ts rs p w : g_redirs ts rs → g_redirs ((CH_lt, p) :: (TOK_word, w) :: ts) (mk_redir w O_RDONLY 0 :: rs)
| gr_out ts rs p w : g_redirs ts rs →
    g_redirs ((CH_gt, p) :: (TOK_word, w) :: ts) (mk_redir w (Z.lor (Z.lor O_WRONLY O_CREATE) O_TRUNC) 1 :: rs)
| gr_append ts rs p w : g_redirs ts rs →
    g_redirs ((TOK_append, p) :: (TOK_word, w) :: ts) (mk_redir w (Z.lor O_WRONLY O_CREATE) 1 :: rs).

(** Arguments, with redirections between them *)
Inductive g_args : list tok → list span → list redirection → Prop :=
| ga_nil : g_args [] [] []
| ga_word ts rts argv rs rs' w : g_redirs rts rs → g_args ts argv rs' →
    g_args ((TOK_word, w) :: rts ++ ts) (w :: argv) (rs ++ rs').

Inductive g_line : list tok → cmd → Prop :=
| gl_last ts c ps : g_pipe ts c → g_line (ts ++ (pair CH_amp <$> ps)) (Nat.iter (length ps) BACK c)
| gl_list ts c ps p ts' c' : g_pipe ts c → g_line ts' c' →
    g_line (ts ++ (pair CH_amp <$> ps) ++ (CH_semi, p) :: ts') (LIST (Nat.iter (length ps) BACK c) c')
with g_pipe : list tok → cmd → Prop :=
| gp_last ts c : g_exec ts c → g_pipe ts c
| gp_pipe ts c p ts' c' : g_exec ts c → g_pipe ts' c' → g_pipe (ts ++ (CH_pipe, p) :: ts') (PIPE c c')
with g_exec : list tok → cmd → Prop :=
| ge_block p ts c p' rts rs : g_line ts c → g_redirs rts rs →
    g_exec ((CH_lpar, p) :: ts ++ (CH_rpar, p') :: rts) (redircmds c rs)
| ge_args rts rs ts argv rs' : g_redirs rts rs → g_args ts argv rs' → Z.of_nat (length argv) < MAXARGS →
    g_exec (rts ++ ts) (redircmds (EXEC argv) (rs ++ rs')).

Scheme g_line_mut := Minimality for g_line Sort Prop
with g_pipe_mut := Minimality for g_pipe Sort Prop
with g_exec_mut := Minimality for g_exec Sort Prop.
Combined Scheme grammar_ind from g_line_mut, g_pipe_mut, g_exec_mut.

(** ** The tokens that the parser reads *)
Lemma lex_n_enough n m s : (length s ≤ n)%nat → (length s ≤ m)%nat → lex_n n s = lex_n m s.
Proof.
  revert m s. induction n as [|n IH]; intros m s Hn Hm; [destruct s; [by destruct m|cbn in Hn; lia]|].
  destruct m as [|m]; [destruct s; [done|cbn in Hm; lia]|]. cbn [lex_n].
  pose proof (skip_white_le s) as Hw. destruct (skip_white s) as [|c s1] eqn:E; [done|].
  pose proof (token_lt c s1 (skip_white_head _ _ _ E)) as Ht. destruct (token (c :: s1)) as [k s']. cbn [snd] in Ht. f_equal. apply IH; lia.
Qed.
Lemma lex_nil s : skip_white s = [] → lex s = [].
Proof. intros E. rewrite /lex. destruct (length s); cbn [lex_n]; by rewrite ?E. Qed.
Lemma lex_cons s c s1 : skip_white s = c :: s1 →
  lex s = ((token (c :: s1)).1, (off line (c :: s1), off line (token (c :: s1)).2)) :: lex (token (c :: s1)).2.
Proof.
  intros E. pose proof (token_lt c s1 (skip_white_head _ _ _ E)) as Ht. pose proof (skip_white_le s) as Hw. rewrite E in Hw.
  rewrite /lex. destruct (length s) as [|n] eqn:El; [cbn in Hw; lia|]. cbn [lex_n]. rewrite E.
  destruct (token (c :: s1)) as [k s']. cbn [fst snd] in *. f_equal. apply lex_n_enough; lia.
Qed.
Lemma lex_white s : lex (skip_white s) = lex s.
Proof.
  destruct (skip_white s) as [|c s1] eqn:E; [by rewrite (lex_nil s)|].
  rewrite (lex_cons s c s1) // (lex_cons (c :: s1) c s1) //. by rewrite -E skip_white_idemp.
Qed.

(** The kind of the next token, 0 at the end. *)
Definition head_kind (ts : list tok) : Z := match ts with (k, _) :: _ => k | [] => 0 end.

Lemma gettoken_lex s : ∃ s',
  gettoken line s = Ret (match lex s with t :: _ => t | [] => (0, (off line [], off line [])) end) s' ∧
  lex s' = tail (lex s) ∧ skip_white s' = s'.
Proof.
  rewrite /gettoken. mrun. destruct (skip_white s) as [|c s1] eqn:E.
  - exists []. by rewrite (lex_nil s E).
  - rewrite (lex_cons _ _ _ E). destruct (token (c :: s1)) as [k s']. cbn [fst snd tail]. mrun. exists (skip_white s').
    by rewrite lex_white skip_white_idemp.
Qed.
Lemma token_kind c s : c ∉ whitespace →
  (token (c :: s)).1 = (if has_char symbols c then if (c =? CH_gt) && (match s with c' :: _ => c' =? CH_gt | [] => false end) then TOK_append else c else TOK_word).
Proof.
  intros Hw. cbn [token]. destruct (has_char _ c) eqn:E.
  - apply has_char_true in E. assert (has_char symbols c = true) as ->.
    { apply has_char_true. unfold symbols, CH_pipe, CH_lpar, CH_rpar, CH_semi, CH_amp, CH_lt in *. set_solver. }
    destruct (Z.eqb_spec c CH_gt) as [->|]; [|done]. unfold CH_pipe, CH_lpar, CH_rpar, CH_semi, CH_amp, CH_lt, CH_gt in E. set_solver by lia.
  - destruct (Z.eqb_spec c CH_gt) as [->|Hgt]; [destruct s as [|c' s]; [done|]; cbn [andb]; by destruct (c' =? CH_gt)|].
    assert (has_char symbols c = false) as ->; [|done].
    apply has_char_false in E. apply has_char_false. unfold symbols, CH_pipe, CH_lpar, CH_rpar, CH_semi, CH_amp, CH_lt, CH_gt in *. set_solver.
Qed.
Lemma lex_kind s t ts : lex s = t :: ts → t.1 ≠ 0.
Proof.
  destruct (skip_white s) as [|c s1] eqn:E; [by rewrite (lex_nil s E)|]. rewrite (lex_cons _ _ _ E). intros [= <- _]. cbn [fst].
  rewrite token_kind; [|by eapply skip_white_head]. destruct (has_char symbols c) eqn:Es; [|discriminate]. case_match; [discriminate|].
  intros ->. by vm_compute in Es.
Qed.
(** [peek] looks at the next token: [>] stands for [>>] also. *)
Lemma peek_lex toks s : (∀ x, x ∈ toks → x ∈ symbols) → ∃ s',
  peek toks s = Ret (has_char toks (let k := head_kind (lex s) in if k =? TOK_append then CH_gt else k)) s' ∧ lex s' = lex s.
Proof.
  intros Hs. rewrite /peek. mrun. exists (skip_white s). split; [|apply lex_white]. f_equal.
  destruct (skip_white s) as [|c s1] eqn:E.
  - rewrite (lex_nil s E). cbn [head_kind]. symmetry. apply has_char_false. intros H. apply Hs in H. apply has_char_true in H; by vm_compute in H.
  - rewrite (lex_cons _ _ _ E). cbn [head_kind]. pose proof (skip_white_head _ _ _ E) as Hc. rewrite token_kind //.
    destruct (has_char symbols c) eqn:Es.
    + destruct (Z.eqb_spec c CH_gt) as [->|]; [destruct s1 as [|c1 s1]; [reflexivity|]; cbn [andb]; destruct (c1 =? CH_gt); reflexivity|]. cbn [andb]. apply has_char_true in Es.
      destruct (Z.eqb_spec c TOK_append) as [->|]; [apply has_char_true in Es; by vm_compute in Es|done].
    + change (TOK_word =? TOK_append) with false. cbn. apply has_char_false in Es. symmetry.
      transitivity false; [apply has_char_false; intros H; apply Hs in H; apply has_char_true in H; by vm_compute in H|symmetry; apply has_char_false; intros H; by apply Es, Hs].
Qed.

(** ** What the parser accepts is in the grammar *)

(** When [m] returns with the tokens [ts] ahead, then [Q]. *)
Definition accepts {A} (m : M (list Z) A) (ts : list tok) (Q : A → list tok → Prop) : Prop :=
  ∀ s, lex s = ts → match m s with Ret a s' => Q a (lex s') | _ => True end.

Lemma accepts_bind {A B} (m : M (list Z) A) (f : A → M (list Z) B) ts Q :
  accepts m ts (λ a ts', accepts (f a) ts' Q) → accepts (m ≫= f) ts Q.
Proof. intros H s Hs. specialize (H s Hs). rewrite /mbind /M_bind. destruct (m s) as [a s'| |]; [|done..]. by apply H. Qed.
Lemma accepts_ret {A} (a : A) ts (Q : A → list tok → Prop) : Q a ts → accepts (mret a) ts Q.
Proof. by intros H s <-. Qed.
Lemma accepts_panic {A} e ts (Q : A → list tok → Prop) : accepts (panic e) ts Q.
Proof. done. Qed.
Lemma accepts_mono {A} (m : M (list Z) A) ts (Q Q' : A → list tok → Prop) :
  accepts m ts Q → (∀ a ts', Q a ts' → Q' a ts') → accepts m ts Q'.
Proof. intros H HQ s Hs. specialize (H s Hs). destruct (m s); auto. Qed.
Lemma accepts_token {B} (f : tok → M (list Z) B) ts Q :
  (∀ p, ts = [] → accepts (f (0, p)) [] Q) → (∀ t ts', ts = t :: ts' → t.1 ≠ 0 → accepts (f t) ts' Q) → accepts (gettoken line ≫= f) ts Q.
Proof.
  intros H0 H1. apply accepts_bind. intros s Hs. destruct (gettoken_lex s) as (s' & -> & Hs' & _). rewrite Hs in Hs' |- *.
  destruct ts as [|t ts']; cbn in Hs'; rewrite Hs'; [auto|]. apply H1; [done|]. by eapply lex_kind.
Qed.
Lemma accepts_peek {B} toks (f : bool → M (list Z) B) ts Q :
  (∀ x, x ∈ toks → x ∈ symbols) →
  (∀ k p ts', ts = (k, p) :: ts' → (if k =? TOK_append then CH_gt else k) ∈ toks → accepts (f true) ts Q) →
  accepts (f false) ts Q → accepts (peek toks ≫= f) ts Q.
Proof.
  intros Hs H1 H0. apply accepts_bind. intros s <-. destruct (peek_lex toks s Hs) as (s' & -> & ->). cbv zeta. destruct (has_char _ _) eqn:E; [|done].
  apply has_char_true in E. destruct (lex s) as [|[k p] ts'].
  - apply Hs, has_char_true in E. by vm_compute in E.
  - by eapply H1.
Qed.

Lemma symbols_sub toks : forallb (has_char symbols) toks = true → ∀ x, x ∈ toks → x ∈ symbols.
Proof. rewrite forallb_forall. intros H x Hx. by apply has_char_true, H, list_elem_of_In. Qed.
(** The next token is one that [peek] looked for. *)
Lemma peeked_one k c : (if k =? TOK_append then CH_gt else k) ∈ [c] → c ≠ CH_gt → k = c.
Proof. destruct (k =? _); rewrite list_elem_of_singleton; [intros ->; done|done]. Qed.

Lemma redirs_sound n ts : accepts (parseredirs_loop line n) ts (λ rs ts', ∃ rts, ts = rts ++ ts' ∧ g_redirs rts rs).
Proof.
  revert ts. induction n as [|n IH]; intros ts; [done|]. cbn [parseredirs_loop].
  apply accepts_peek; [by apply symbols_sub| |apply accepts_ret; exists []; split; [done|constructor]].
  intros k p ts1 -> Hk. apply accepts_token; [done|]. intros _ _ [= <- <-] _.
  apply accepts_token; [intros; apply accepts_panic|]. intros [k' w] ts2 -> _. destruct (Z.eqb_spec k' TOK_word) as [->|]; [|apply accepts_panic]. cbn [negb].
  apply accepts_bind. eapply accepts_mono; [apply IH|]. intros rs ts' (rts & -> & Hr). apply accepts_ret. exists ((k, p) :: (TOK_word, w) :: rts). split; [done|].
  destruct (Z.eqb_spec k CH_lt) as [->|]; [by constructor|]. destruct (Z.eqb_spec k CH_gt) as [->|]; [by constructor|].
  destruct (Z.eqb_spec k TOK_append) as [->|]; [by constructor|]. set_solver.
Qed.
Lemma args_sound n argv rs ts : accepts (parseargs line n argv rs) ts (λ c ts', ∃ ats argv' rs',
  ts = ats ++ ts' ∧ g_args ats argv' rs' ∧ c = redircmds (EXEC (argv ++ argv')) (rs ++ rs') ∧
  (argv' = [] ∨ Z.of_nat (length (argv ++ argv')) < MAXARGS)).
Proof.
  revert argv rs ts. induction n as [|n IH]; intros argv rs ts; [done|]. cbn [parseargs].
  assert (∃ ats argv' rs', ts = ats ++ ts ∧ g_args ats argv' rs' ∧ redircmds (EXEC argv) rs = redircmds (EXEC (argv ++ argv')) (rs ++ rs') ∧
    (argv' = [] ∨ Z.of_nat (length (argv ++ argv')) < MAXARGS)) as Hnil.
  { exists [], [], []. rewrite !app_nil_r. repeat split; [constructor|by left]. }
  apply accepts_peek; [by apply symbols_sub|intros; by apply accepts_ret|].
  apply accepts_token; [intros p ->; by apply accepts_ret|]. intros [k w] ts1 -> Hk. cbn [fst] in Hk.
  destruct (Z.eqb_spec k 0) as [|_]; [done|]. destruct (Z.eqb_spec k TOK_word) as [->|]; [|apply accepts_panic]. cbn [negb]. cbv zeta.
  destruct (_ >=? _) eqn:Em; [apply accepts_panic|].
  apply accepts_bind. eapply accepts_mono; [apply redirs_sound|]. intros rs1 ts2 (rts & -> & Hr).
  eapply accepts_mono; [apply IH|]. cbn beta. intros c ts3 (ats & argv' & rs' & -> & Ha & -> & Hl).
  exists ((TOK_word, w) :: rts ++ ats), (w :: argv'), (rs1 ++ rs'). rewrite -!app_assoc in Hl |- *. repeat split; [|by constructor|].
  - cbn. by rewrite app_assoc.
  - right. destruct Hl as [->|Hl]; [lia|done].
Qed.
Lemma backs_sound n c ts : accepts (parsebacks line n c) ts (λ c' ts', ∃ ps, ts = (pair CH_amp <$> ps) ++ ts' ∧ c' = Nat.iter (length ps) BACK c).
Proof.
  revert c ts. induction n as [|n IH]; intros c ts; [done|]. cbn [parsebacks].
  apply accepts_peek; [by apply symbols_sub| |apply accepts_ret; by exists []].
  intros k p ts1 -> Hk%peeked_one; [|discriminate]. subst k. apply accepts_token; [done|]. intros _ _ [= <- <-] _.
  eapply accepts_mono; [apply IH|]. intros c' ts' (ps & -> & ->). exists (p :: ps). split; [done|]. cbn [length]. by rewrite Nat.iter_succ_r.
Qed.

Lemma parser_sound n ts :
  accepts (parseline line n) ts (λ c ts', ∃ lts, ts = lts ++ ts' ∧ g_line lts c) ∧
  accepts (parsepipe line n) ts (λ c ts', ∃ lts, ts = lts ++ ts' ∧ g_pipe lts c) ∧
  accepts (parseexec line n) ts (λ c ts', ∃ lts, ts = lts ++ ts' ∧ g_exec lts c) ∧
  accepts (parseblock line n) ts (λ c ts', ∃ lts, ts = lts ++ ts' ∧ g_exec lts c).
Proof.
  revert ts. induction n as [|n IH]; intros ts; [done|]. repeat split.
  - cbn [parseline]. apply accepts_bind. eapply accepts_mono; [apply IH|]. cbn beta. intros c ts1 (lts & -> & Hp).
    apply accepts_bind. eapply accepts_mono; [apply backs_sound|]. cbn beta. intros c' ts2 (ps & -> & ->).
    apply accepts_peek; [by apply symbols_sub| |].
    + intros k p ts3 -> Hk%peeked_one; [|discriminate]. subst k. apply accepts_token; [done|]. intros _ _ [= <- <-] _.
      apply accepts_bind. eapply accepts_mono; [apply IH|]. cbn beta. intros c' ts4 (lts' & -> & Hl). apply accepts_ret.
      exists (lts ++ (pair CH_amp <$> ps) ++ (CH_semi, p) :: lts'). split; [by rewrite -!app_assoc|by constructor].
    + apply accepts_ret. exists (lts ++ (pair CH_amp <$> ps)). split; [by rewrite app_assoc|by constructor].
  - cbn [parsepipe]. apply accepts_bind. eapply accepts_mono; [apply IH|]. cbn beta. intros c ts1 (lts & -> & Hp).
    apply accepts_peek; [by apply symbols_sub| |].
    + intros k p ts3 -> Hk%peeked_one; [|discriminate]. subst k. apply accepts_token; [done|]. intros _ _ [= <- <-] _.
      apply accepts_bind. eapply accepts_mono; [apply IH|]. cbn beta. intros c' ts4 (lts' & -> & Hl). apply accepts_ret.
      exists (lts ++ (CH_pipe, p) :: lts'). split; [by rewrite -!app_assoc|by constructor].
    + apply accepts_ret. exists lts. split; [done|by constructor].
  - cbn [parseexec]. apply accepts_peek; [by apply symbols_sub|intros; apply IH|].
    apply accepts_bind. eapply accepts_mono; [apply redirs_sound|]. cbn beta. intros rs ts1 (rts & -> & Hr).
    eapply accepts_mono; [apply args_sound|]. cbn beta. intros c ts2 (ats & argv & rs' & -> & Ha & -> & Hl). exists (rts ++ ats).
    split; [by rewrite app_assoc|]. constructor; [done..|]. destruct Hl as [->|]; done.
  - cbn [parseblock]. apply accepts_peek; [by apply symbols_sub| |apply accepts_panic]. intros k p ts1 -> Hk%peeked_one; [|discriminate]. subst k. cbn [negb].
    apply accepts_token; [done|]. intros _ _ [= <- <-] _. apply accepts_bind. eapply accepts_mono; [apply IH|]. cbn beta. intros c ts2 (lts & -> & Hl).
    apply accepts_peek; [by apply symbols_sub| |apply accepts_panic]. intros k p' ts3 -> Hk%peeked_one; [|discriminate]. subst k. cbn [negb].
    apply accepts_token; [done|]. intros _ _ [= <- <-] _. apply accepts_bind. eapply accepts_mono; [apply redirs_sound|]. cbn beta. intros rs ts4 (rts & -> & Hr).
    apply accepts_ret. exists ((CH_lpar, p) :: lts ++ (CH_rpar, p') :: rts). split; [cbn; by rewrite -!app_assoc|by constructor].
Qed.

(** ** What is in the grammar is accepted *)

(** With the tokens [ts] ahead, [m] returns [a] and leaves [ts']. *)
Definition yields {A} (m : M (list Z) A) (ts : list tok) (a : A) (ts' : list tok) : Prop :=
  ∀ s, lex s = ts → ∃ s', m s = Ret a s' ∧ lex s' = ts'.
(** [ts] is at its end or goes on with one of [ks]. *)
Definition follows (ks : list Z) (ts : list tok) : Prop := match ts with [] => True | (k, _) :: _ => k ∈ ks end.

Lemma yields_bind {A B} (m : M (list Z) A) (f : A → M (list Z) B) ts a ts' b ts'' :
  yields m ts a ts' → yields (f a) ts' b ts'' → yields (m ≫= f) ts b ts''.
Proof. intros H1 H2 s Hs. destruct (H1 s Hs) as (s' & E & Hs'). rewrite /mbind /M_bind E. by apply H2. Qed.
Lemma yields_ret {A} (a : A) ts : yields (mret a) ts a ts.
Proof. intros s Hs. by exists s. Qed.
Lemma yields_token {B} (f : tok → M (list Z) B) t ts b ts' : yields (f t) ts b ts' → yields (gettoken line ≫= f) (t :: ts) b ts'.
Proof.
  apply yields_bind. intros s Hs. destruct (gettoken_lex s) as (s' & E & Hs' & _). rewrite Hs in E Hs'. by exists s'.
Qed.
(** [peek] sees the token it looks for, or does not. *)
Lemma yields_peek {B} toks (f : bool → M (list Z) B) ts (r : bool) b ts' :
  (∀ x, x ∈ toks → x ∈ symbols) → has_char toks (if head_kind ts =? TOK_append then CH_gt else head_kind ts) = r →
  yields (f r) ts b ts' → yields (peek toks ≫= f) ts b ts'.
Proof. intros Hs <-. apply yields_bind. intros s <-. destruct (peek_lex toks s Hs) as (s' & -> & E). by exists s'. Qed.
(** [peek] does not see what cannot follow. *)
Lemma follows_peek toks ks ts : (∀ x, x ∈ toks → x ∈ symbols) →
  forallb (λ k, negb (has_char toks (if k =? TOK_append then CH_gt else k))) ks = true → follows ks ts →
  has_char toks (if head_kind ts =? TOK_append then CH_gt else head_kind ts) = false.
Proof.
  intros Hs Hk Hf. destruct ts as [|[k p] ts].
  - apply has_char_false. intros H%Hs%has_char_true. by vm_compute in H.
  - rewrite forallb_forall in Hk. cbn in Hf |- *. by apply negb_true_iff, Hk, list_elem_of_In.
Qed.
Lemma follows_sub ks ks' ts : (∀ k, k ∈ ks → k ∈ ks') → follows ks ts → follows ks' ts.
Proof. intros H. destruct ts as [|[k p] ts]; cbn; auto. Qed.

Definition after_args : list Z := [CH_rpar; CH_amp; CH_semi; CH_pipe].
Definition after_redirs : list Z := TOK_word :: after_args.

Lemma redirs_complete rts rs n rest : g_redirs rts rs → follows after_redirs rest → (length rts < n)%nat →
  yields (parseredirs_loop line n) (rts ++ rest) rs rest.
Proof.
  intros Hr Hf. revert n. induction Hr; intros n Hn; (destruct n as [|n]; [cbn in Hn; lia|]); cbn [parseredirs_loop app].
  { apply yields_peek with false; [by apply symbols_sub| |apply yields_ret]. apply (follows_peek _ after_redirs); [by apply symbols_sub|done..]. }
  all: apply yields_peek with true; [by apply symbols_sub|done|].
  all: apply yields_token, yields_token; cbn [negb Z.eqb Pos.eqb TOK_word].
  all: eapply yields_bind; [apply IHHr; cbn in Hn; lia|]; apply yields_ret.
Qed.
Lemma args_follow ats argv rs rest : g_args ats argv rs → follows after_args rest → follows after_redirs (ats ++ rest).
Proof. intros [] Hf; cbn; [|by left]. eapply follows_sub; [|done]. intros k Hk. by right. Qed.
Lemma args_complete ats argv' rs' n argv rs rest : g_args ats argv' rs' → follows after_args rest → (length ats < n)%nat →
  (length (ats ++ rest) ≤ length line)%nat → Z.of_nat (length (argv ++ argv')) < MAXARGS →
  yields (parseargs line n argv rs) (ats ++ rest) (redircmds (EXEC (argv ++ argv')) (rs ++ rs')) rest.
Proof.
  intros Ha Hf. revert n argv rs. induction Ha as [|ts rts argv' rs1 rs' w Hr Ha IH]; intros n argv rs Hn Hl Hm; (destruct n as [|n]; [cbn in Hn; lia|]); cbn [parseargs].
  - rewrite !app_nil_r. cbn [app]. destruct rest as [|[k p] rest].
    + apply yields_peek with false; [by apply symbols_sub|done|]. apply yields_bind with (0, (off line [], off line [])) []; [|apply yields_ret].
      intros s Hs. destruct (gettoken_lex s) as (s' & E & Hs' & _). rewrite Hs in E Hs'. by exists s'.
    + apply yields_peek with true; [by apply symbols_sub| |apply yields_ret]. cbn in Hf |- *. apply has_char_true.
      unfold after_args in Hf. rewrite !elem_of_cons in Hf. destruct Hf as [->|[->|[->|[->|[]%elem_of_nil]]]]; by apply has_char_true.
  - cbn [app] in *. rewrite -app_assoc in Hl |- *. apply yields_peek with false; [by apply symbols_sub|done|].
    apply yields_token. cbn [negb Z.eqb Pos.eqb TOK_word]. cbv zeta.
    rewrite (_ : argv ++ w :: argv' = (argv ++ [w]) ++ argv') in Hm |- *; [|by rewrite -app_assoc].
    destruct (Z.geb_spec (Z.of_nat (length (argv ++ [w]))) MAXARGS) as [Hge|_]; [rewrite length_app in Hm; lia|].
    cbn in Hn, Hl. rewrite !length_app in Hn Hl.
    eapply yields_bind; [apply redirs_complete; [done|by eapply args_follow|rewrite ?length_app; lia]|]. rewrite app_assoc. apply IH; [lia| |done]. rewrite length_app. lia.
Qed.
Lemma backs_complete ps c n rest : follows [CH_rpar; CH_semi] rest → (length ps < n)%nat →
  yields (parsebacks line n c) ((pair CH_amp <$> ps) ++ rest) (Nat.iter (length ps) BACK c) rest.
Proof.
  intros Hf. revert c n. induction ps as [|p ps IH]; intros c n Hn; (destruct n as [|n]; [cbn in Hn; lia|]); cbn [parsebacks].
  - apply yields_peek with false; [by apply symbols_sub| |apply yields_ret]. eapply follows_peek; [by apply symbols_sub| |done]. done.
  - apply yields_peek with true; [by apply symbols_sub|done|]. cbn [fmap list_fmap app length]. apply yields_token. rewrite Nat.iter_succ_r. apply IH. cbn in Hn. lia.
Qed.

(** Sums of lengths *)
Ltac lens :=
  repeat match goal with
  | H : context [length (_ ++ _)] |- _ => rewrite length_app in H
  | H : context [length (_ <$> _)] |- _ => rewrite length_fmap in H
  | H : context [length (_ :: _)] |- _ => progress cbn [length] in H
  | |- context [length (_ ++ _)] => rewrite length_app
  | |- context [length (_ <$> _)] => rewrite length_fmap
  | |- context [length (_ :: _)] => progress cbn [length]
  end; lia.
Ltac no_peek := eapply follows_peek; [by apply symbols_sub| |eassumption]; done.

Lemma parser_complete :
  (∀ lts c, g_line lts c → ∀ n rest, follows [CH_rpar] rest → (4 * length lts + 4 ≤ n)%nat → (length (lts ++ rest) ≤ length line)%nat →
     yields (parseline line n) (lts ++ rest) c rest) ∧
  (∀ lts c, g_pipe lts c → ∀ n rest, follows [CH_rpar; CH_amp; CH_semi] rest → (4 * length lts + 3 ≤ n)%nat → (length (lts ++ rest) ≤ length line)%nat →
     yields (parsepipe line n) (lts ++ rest) c rest) ∧
  (∀ lts c, g_exec lts c → ∀ n rest, follows after_args rest → (4 * length lts + 2 ≤ n)%nat → (length (lts ++ rest) ≤ length line)%nat →
     yields (parseexec line n) (lts ++ rest) c rest).
Proof.
  apply grammar_ind.
  - intros ts c ps _ IH n rest Hf Hn Hl. destruct n as [|n]; [lens|]. cbn [parseline]. rewrite -!app_assoc in Hl |- *.
    eapply yields_bind; [apply IH; [|lens|lens]|].
    { destruct ps; cbn; [|set_solver]. eapply follows_sub; [|done]. set_solver. }
    eapply yields_bind; [apply backs_complete; [|lens]|].
    { eapply follows_sub; [|done]. set_solver. }
    apply yields_peek with false; [by apply symbols_sub|no_peek|apply yields_ret].
  - intros ts c ps p ts' c' _ IH _ IH' n rest Hf Hn Hl. destruct n as [|n]; [lens|]. cbn [parseline]. rewrite -!app_assoc in Hl |- *.
    eapply yields_bind; [apply IH; [|lens|lens]|].
    { destruct ps; cbn; set_solver. }
    eapply yields_bind; [apply backs_complete; [|lens]|].
    { cbn. set_solver. }
    apply yields_peek with true; [by apply symbols_sub|done|]. cbn [app]. apply yields_token.
    eapply yields_bind; [apply IH'; [done|lens|lens]|apply yields_ret].
  - intros ts c _ IH n rest Hf Hn Hl. destruct n as [|n]; [lens|]. cbn [parsepipe].
    eapply yields_bind; [apply IH; [|lens|done]|].
    { eapply follows_sub; [|done]. rewrite /after_args. set_solver. }
    apply yields_peek with false; [by apply symbols_sub|no_peek|apply yields_ret].
  - intros ts c p ts' c' _ IH _ IH' n rest Hf Hn Hl. destruct n as [|n]; [lens|]. cbn [parsepipe]. rewrite -!app_assoc in Hl |- *.
    eapply yields_bind; [apply IH; [|lens|lens]|].
    { cbn. rewrite /after_args. set_solver. }
    apply yields_peek with true; [by apply symbols_sub|done|]. cbn [app]. apply yields_token.
    eapply yields_bind; [apply IH'; [done|lens|lens]|apply yields_ret].
  - intros p ts c p' rts rs _ IH Hr n rest Hf Hn Hl. destruct n as [|[|n]]; [lens..|]. cbn [parseexec parseblock]. 
    cbn [app]. rewrite -!app_assoc.
    apply yields_peek with true; [by apply symbols_sub|done|]. apply yields_peek with true; [by apply symbols_sub|done|]. cbn [negb]. apply yields_token.
    eapply yields_bind; [apply IH; [|lens|lens]|].
    { cbn. set_solver. }
    apply yields_peek with true; [by apply symbols_sub|done|]. cbn [negb app]. apply yields_token.
    eapply yields_bind; [apply redirs_complete; [done| |lens]|apply yields_ret].
    eapply follows_sub; [|done]. intros k Hk. by right.
  - intros rts rs ts argv rs' Hr Ha Hm n rest Hf Hn Hl. destruct n as [|n]; [lens|]. cbn [parseexec]. rewrite -app_assoc in Hl |- *.
    apply yields_peek with false; [by apply symbols_sub| |].
    { destruct Hr; [|done..]. destruct Ha; [|done]. no_peek. }
    eapply yields_bind; [apply redirs_complete; [done|by eapply args_follow|lens]|].
    apply (args_complete ts argv rs' _ [] rs); [done..|lens| |done]. lens.
Qed.

Lemma lex_length s : (length (lex s) ≤ length s)%nat.
Proof.
  rewrite /lex. generalize (length s) as n. intros n. revert s. induction n as [|n IH]; intros s; [done|]. cbn [lex_n].
  destruct (skip_white s); [cbn; lia|]. destruct (token _) as [k s']. cbn. specialize (IH s'). lia.
Qed.
Lemma lex_nil_inv s : lex s = [] → skip_white s = [].
Proof. destruct (skip_white s) as [|c s1] eqn:E; [done|]. by rewrite (lex_cons _ _ _ E). Qed.

(** ** Where the words are *)
Definition words_of (ts : list tok) : list span := (filter (λ t : tok, t.1 = TOK_word) ts).*2.
(** The strings of a command *)
Fixpoint strings (c : cmd) : list span :=
  match c with
  | EXEC argv => argv
  | REDIR c r => strings c ++ [r_file r]
  | PIPE l r | LIST l r => strings l ++ strings r
  | BACK c => strings c
  end.

Lemma words_app ts ts' : words_of (ts ++ ts') = words_of ts ++ words_of ts'.
Proof. by rewrite /words_of filter_app fmap_app. Qed.
Lemma words_cons k p ts : words_of ((k, p) :: ts) = if k =? TOK_word then p :: words_of ts else words_of ts.
Proof. rewrite /words_of filter_cons. cbn [fst]. by destruct (Z.eqb_spec k TOK_word); [rewrite decide_True|rewrite decide_False]. Qed.
Lemma words_amp ps : words_of (pair CH_amp <$> ps) = [].
Proof. induction ps as [|p ps IH]; [done|]. cbn [fmap list_fmap]. by rewrite words_cons. Qed.
Lemma strings_redirs c rs : strings (redircmds c rs) = strings c ++ (r_file <$> rs).
Proof.
  rewrite /redircmds. revert c. induction rs as [|r rs IH]; intros c; cbn; [by rewrite app_nil_r|]. rewrite IH. cbn. by rewrite -app_assoc.
Qed.
Lemma strings_back n c : strings (Nat.iter n BACK c) = strings c.
Proof. induction n; [done|]. done. Qed.
Lemma redirs_words rts rs : g_redirs rts rs → words_of rts = r_file <$> rs.
Proof. induction 1; [done|..]; rewrite !words_cons; cbn; by f_equal. Qed.
Lemma args_words ats argv rs : g_args ats argv rs → words_of ats ≡ₚ argv ++ (r_file <$> rs).
Proof.
  induction 1 as [|ts rts argv rs rs' w Hr Ha IH]; [done|]. rewrite words_cons words_app (redirs_words _ _ Hr) fmap_app. cbn. rewrite IH. solve_Permutation.
Qed.
(** The strings of a command are the words of its tokens. *)
Lemma grammar_words :
  (∀ lts c, g_line lts c → strings c ≡ₚ words_of lts) ∧ (∀ lts c, g_pipe lts c → strings c ≡ₚ words_of lts) ∧
  (∀ lts c, g_exec lts c → strings c ≡ₚ words_of lts).
Proof.
  apply grammar_ind.
  - intros ts c ps _ IH. by rewrite words_app words_amp app_nil_r strings_back.
  - intros ts c ps p ts' c' _ IH _ IH'. rewrite !words_app words_amp words_cons. cbn. by rewrite strings_back IH IH'.
  - done.
  - intros ts c p ts' c' _ IH _ IH'. rewrite !words_app words_cons. cbn. by rewrite IH IH'.
  - intros p ts c p' rts rs _ IH Hr. rewrite words_cons words_app words_cons strings_redirs. cbn. by rewrite IH (redirs_words _ _ Hr).
  - intros rts rs ts argv rs' Hr Ha _. rewrite words_app strings_redirs (redirs_words _ _ Hr) (args_words _ _ _ Ha) fmap_app. cbn. solve_Permutation.
Qed.

(** Tokens are inside the line and do not overlap. *)
Lemma lex_n_cases n s t : t ∈ lex_n n s → ∃ n' c s1, n = S n' ∧ skip_white s = c :: s1 ∧ c ∉ whitespace ∧
  (t = ((token (c :: s1)).1, (off line (c :: s1), off line (token (c :: s1)).2)) ∨ t ∈ lex_n n' (token (c :: s1)).2).
Proof.
  destruct n as [|n]; cbn [lex_n]; [by intros ?%elem_of_nil|]. destruct (skip_white s) as [|c s1] eqn:E; [by intros ?%elem_of_nil|].
  intros Ht. exists n, c, s1. split_and!; [done..|by eapply skip_white_head|]. destruct (token (c :: s1)). by apply elem_of_cons in Ht.
Qed.
Lemma lex_spans n s t : (length s ≤ length line)%nat → t ∈ lex_n n s → (off line s ≤ t.2.1 < t.2.2 ∧ t.2.2 ≤ length line)%nat.
Proof.
  revert s. induction n as [|n IH]; intros s Hl (n' & c & s1 & En & E & Hc & Ht)%lex_n_cases; [done|]. injection En as <-.
  pose proof (skip_white_le s) as Hw. rewrite E in Hw. pose proof (token_lt c s1 Hc) as Hlt.
  destruct Ht as [->|Ht]; [unfold off; cbn [fst snd]; lia|]. apply IH in Ht; [|lia]. unfold off in *. lia.
Qed.

(** The token at a word, and the head of what is left after it *)
Lemma token_word c s : c ∉ whitespace → (token (c :: s)).1 = TOK_word → token (c :: s) = (TOK_word, skip_word (c :: s)).
Proof.
  intros Hc Hk. rewrite token_kind // in Hk. assert (has_char symbols c = false) as Hsym.
  { destruct (has_char symbols c) eqn:Es; [|done]. destruct (_ && _); [discriminate|]. subst c. by vm_compute in Es. }
  cbn [token]. destruct (has_char [_; _; _; _; _; _] c) eqn:Ep.
  - apply has_char_true in Ep. assert (has_char symbols c = true) as H; [|congruence].
    apply has_char_true. unfold symbols, CH_pipe, CH_lpar, CH_rpar, CH_semi, CH_amp, CH_lt in *. set_solver.
  - destruct (Z.eqb_spec c CH_gt) as [->|]; [by vm_compute in Hsym|done].
Qed.
Lemma skip_word_head s c s' : skip_word s = c :: s' → has_char whitespace c || has_char symbols c = true.
Proof. induction s as [|x s IH]; cbn; [done|]. destruct (has_char whitespace x || has_char symbols x) eqn:E; [|done]. by intros [= <- <-]. Qed.
Lemma lex_after_word n s t : (length s ≤ length line)%nat → t ∈ lex_n n (skip_word s) → t.1 = TOK_word →
  (off line (skip_word s) < t.2.1)%nat.
Proof.
  intros Hl Ht Hk. pose proof (skip_word_le s) as Hle. destruct (skip_word s) as [|x r] eqn:E; [by destruct n; apply elem_of_nil in Ht|].
  apply skip_word_head in E. destruct (has_char whitespace x) eqn:Ew.
  - assert (t ∈ lex_n n r) as [Hlt _]%lex_spans by (destruct n; cbn [lex_n skip_white] in Ht |- *; by rewrite ?Ew in Ht); cbn [length] in *; unfold off in *; cbn [length]; lia.
  - apply lex_n_cases in Ht as (n' & c & s1 & -> & Es & Hc & Ht). cbn [skip_white] in Es. rewrite Ew in Es. injection Es as <- <-.
    cbn [orb] in E. pose proof (token_lt x r Hc) as Hlt. destruct Ht as [->|Ht].
    + cbn [fst] in Hk. rewrite token_kind // E in Hk. destruct (_ && _); [discriminate|]. subst x. by vm_compute in E.
    + apply lex_spans in Ht; [|cbn [length] in *; lia]. unfold off in *. cbn [length] in *. lia.
Qed.
(** Words do not touch. *)
Lemma lex_apart n s w w' : (length s ≤ length line)%nat → (TOK_word, w) ∈ lex_n n s → (TOK_word, w') ∈ lex_n n s →
  w = w' ∨ (w.2 < w'.1)%nat ∨ (w'.2 < w.1)%nat.
Proof.
  revert s. induction n as [|n IH]; intros s Hl (n' & c & s1 & En & E & Hc & Ht)%lex_n_cases Ht'; [done|]. injection En as <-.
  apply lex_n_cases in Ht' as (n' & c' & s1' & En & E' & _ & Ht'). injection En as <-. rewrite E in E'. injection E' as <- <-.
  pose proof (skip_white_le s) as Hw. rewrite E in Hw. pose proof (token_lt c s1 Hc) as Hlt.
  pose proof (token_word c s1 Hc) as Htw. destruct (token (c :: s1)) as [k s'] eqn:Et. cbn [fst snd] in *.
  destruct Ht as [Ht|Ht], Ht' as [Ht'|Ht']; [by simplify_eq; left| | |eapply IH; [|exact Ht|exact Ht']; lia].
  - injection Ht as <- ->. assert (s' = skip_word (c :: s1)) as -> by exact (f_equal snd (Htw eq_refl)). right. left. by apply lex_after_word in Ht'; [|lia|].
  - injection Ht' as <- ->. assert (s' = skip_word (c :: s1)) as -> by exact (f_equal snd (Htw eq_refl)). right. right. by apply lex_after_word in Ht; [|lia|].
Qed.

(** A word has no white space and no symbols in it. *)
Definition word_char (x : Z) : Prop := x ∉ whitespace ∧ x ∉ symbols.
Lemma skip_word_app s : ∃ w, s = w ++ skip_word s ∧ Forall word_char w.
Proof.
  induction s as [|c s (w & Hs & Hw)]; [by exists []|]. cbn [skip_word]. destruct (_ || _) eqn:E; [by exists []|].
  apply orb_false_iff in E as [?%has_char_false ?%has_char_false]. exists (c :: w). split; [cbn; by f_equal|by constructor].
Qed.
Lemma skip_white_suffix s : skip_white s `suffix_of` s.
Proof. induction s as [|c s IH]; cbn; [done|]. destruct (has_char _ c); [by apply suffix_cons_r|done]. Qed.
Lemma token_suffix c s : (token (c :: s)).2 `suffix_of` c :: s.
Proof.
  cbn [token]. destruct (has_char _ c); [by apply suffix_cons_r|]. destruct (c =? CH_gt).
  - destruct s as [|c' s]; [by apply suffix_cons_r|]. destruct (c' =? CH_gt); cbn [snd]; [by do 2 apply suffix_cons_r|by apply suffix_cons_r].
  - cbn [snd]. destruct (skip_word_app (c :: s)) as (w & E & _). by exists w.
Qed.
Lemma off_drop s : s `suffix_of` line → drop (off line s) line = s.
Proof. intros [w ->]. rewrite /off length_app. replace (_ - _)%nat with (length w) by lia. apply drop_app_length. Qed.
Lemma lex_words n s t : s `suffix_of` line → t ∈ lex_n n s → t.1 = TOK_word →
  Forall word_char (take (t.2.2 - t.2.1) (drop t.2.1 line)).
Proof.
  revert s. induction n as [|n IH]; intros s Hs (n' & c & s1 & En & E & Hc & Ht)%lex_n_cases Hk; [done|]. injection En as <-.
  assert ((c :: s1) `suffix_of` line) as Hs1 by (rewrite -E; by etrans; [apply skip_white_suffix|]).
  destruct Ht as [->|Ht]; [|eapply IH; [|done..]; by etrans; [apply token_suffix|]]. cbn [fst snd] in Hk |- *.
  rewrite off_drop // token_word //.
  cbn [snd]. destruct (skip_word_app (c :: s1)) as (w & Hw & Hf). destruct Hs1 as [v Hv]. rewrite /off Hv. rewrite {1 5}Hw.
  rewrite !length_app. replace (_ - _ - _)%nat with (length w); [by rewrite take_app_length|].
  apply (f_equal length) in Hw. rewrite length_app in Hw. cbn [length] in *. lia.
Qed.
End grammar.

(** ** The parser *)

Lemma parsecmd_sound s c buf ps : parsecmd s = Ret (c, buf) ps → g_line (lex s s) c ∧ buf = nulterminate c (s ++ [0]) ∧ ps = [].
Proof.
  rewrite /parsecmd. pose proof (proj1 (parser_sound s (parse_fuel s) (lex s s)) s eq_refl) as Hp. destruct (parseline _ _ s) as [c' ps'| |]; [|done..].
  destruct (skip_white ps') eqn:E; [|done]. intros [= <- <- <-]. destruct Hp as (lts & -> & Hg). by rewrite (lex_nil s ps' E) app_nil_r.
Qed.

(** C12. The parser of the shell decides its grammar: [parsecmd] returns a
    command for a line exactly when the tokens of the line derive it, and the
    buffer it returns is the line with a NUL written after each of the strings
    of that command.  A line outside the grammar (a tenth argument, an
    unmatched parenthesis, a redirection without a file, a symbol out of
    place) is rejected, and no line has two readings. *)
Theorem parsecmd_grammar s c buf ps :
  parsecmd s = Ret (c, buf) ps ↔ g_line (lex s s) c ∧ buf = nulterminate c (s ++ [0]) ∧ ps = [].
Proof.
  split; [apply parsecmd_sound|].
  intros (Hg & -> & ->). destruct (proj1 (parser_complete s) _ _ Hg (parse_fuel s) [] I) with s as (s' & E & Hs').
  { pose proof (lex_length s s). rewrite /parse_fuel. lia. }
  { rewrite app_nil_r. apply lex_length. }
  { by rewrite app_nil_r. }
  by rewrite /parsecmd E (lex_nil_inv s s' Hs').
Qed.

(** ** The strings of a command *)

(** The C string at the head of a list of bytes *)
Fixpoint cstr (l : list Z) : list Z := match l with c :: l' => if c =? 0 then [] else c :: cstr l' | [] => [] end.

Lemma ends_strings c : ends c = (strings c).*2.
Proof. induction c; cbn [ends strings]; rewrite ?fmap_app; cbn [fmap list_fmap]; congruence. Qed.
Lemma nul_lookup es buf p : foldl (λ b e, <[e := 0]> b) buf es !! p = if decide (p ∈ es ∧ (p < length buf)%nat) then Some 0 else buf !! p.
Proof.
  revert buf. induction es as [|e es IH]; intros buf; cbn [foldl].
  { case_decide as H; [|done]. by destruct H as [?%elem_of_nil _]. }
  rewrite IH length_insert. destruct (decide (p ∈ es ∧ _)) as [H1|H1], (decide (p ∈ e :: es ∧ _)) as [H2|H2]; rewrite elem_of_cons in H2; [done|tauto| |].
  - destruct H2 as [[->|?] Hl]; [by rewrite list_lookup_insert_eq|tauto].
  - destruct (decide (p = e)) as [->|Hne]; [|by rewrite list_lookup_insert_ne]. rewrite list_insert_ge; [done|].
    destruct (decide (length buf ≤ e)%nat); [done|]. exfalso. apply H2. split; [by left|lia].
Qed.
Lemma cstr_slice s buf i j : (i ≤ j ≤ length s)%nat → (∀ p, (i ≤ p < j)%nat → buf !! p = s !! p ∧ s !! p ≠ Some 0) → buf !! j = Some 0 →
  cstr (drop i buf) = take (j - i) (drop i s).
Proof.
  intros Hij. remember (j - i)%nat as k eqn:Ek. revert i Hij Ek. induction k as [|k IH]; intros i Hij Ek Hp Hj.
  - assert (i = j) as -> by lia. by rewrite (drop_S buf 0 j Hj).
  - destruct (Hp i ltac:(lia)) as [E Hnz]. destruct (lookup_lt_is_Some_2 s i ltac:(lia)) as [x Hx]. rewrite Hx in E Hnz.
    rewrite (drop_S buf x i E) (drop_S s x i Hx). cbn [cstr take]. destruct (Z.eqb_spec x 0) as [->|]; [done|]. f_equal.
    apply IH; [lia|lia| |done]. intros p ?. apply Hp. lia.
Qed.

(** C13. The strings of a parsed command are the words of the line: for each
    argument and each file of a redirection, the NUL-terminated string its
    pointer designates after [nulterminate] is the slice of the line between
    its two pointers, which is not empty and has no white space and none of
    the symbols of the shell in it. *)
Theorem parsecmd_strings s c buf ps : 0 ∉ s → parsecmd s = Ret (c, buf) ps → ∀ i j, (i, j) ∈ strings c →
  (i < j ≤ length s)%nat ∧ cstr (drop i buf) = take (j - i) (drop i s) ∧ Forall word_char (cstr (drop i buf)).
Proof.
  intros H0 (Hg & -> & ->)%parsecmd_sound.
  intros i j Hij. assert (∀ w, w ∈ strings c → (TOK_word, w) ∈ lex s s) as Hw.
  { intros w Hw. rewrite (proj1 grammar_words _ _ Hg) in Hw. apply list_elem_of_fmap in Hw as ([k w'] & -> & [Hk Hw]%list_elem_of_filter). cbn in *. by subst k. }
  pose proof (Hw _ Hij) as Hin. destruct (lex_spans s _ s _ (le_n _) Hin) as [Hlt Hle]. cbn [fst snd] in Hlt, Hle.
  assert (cstr (drop i (nulterminate c (s ++ [0]))) = take (j - i) (drop i s)) as ->.
  { apply cstr_slice; [lia| |].
    - intros p Hp. split; [|intros Hs%list_elem_of_lookup_2; done]. rewrite nul_lookup decide_False; [by rewrite lookup_app_l; [|lia]|].
      rewrite ends_strings. intros [([i' j'] & -> & Hs%Hw)%list_elem_of_fmap _]. pose proof (lex_spans s _ s _ (le_n _) Hs).
      pose proof (lex_apart s _ s _ _ (le_n _) Hin Hs) as Ha. cbn [fst snd] in *. destruct Ha as [[= <- <-]|]; lia.
    - rewrite nul_lookup decide_True // ends_strings. split; [|rewrite length_app; cbn; lia]. apply list_elem_of_fmap. by exists (i, j). }
  split; [lia|]. split; [done|]. by apply (lex_words s _ s _ (reflexivity _) Hin).
Qed.

(** "(echo hi; ls) > f ; cat < g&" *)
Definition demo_line : list Z :=
  [40; 101; 99; 104; 111; 32; 104; 105; 59; 32; 108; 115; 41; 32; 62; 32; 102; 32; 59; 32; 99; 97; 116; 32; 60; 32; 103; 38].
Lemma parsecmd_strings_witness : ∃ c buf, parsecmd demo_line = Ret (c, buf) [] ∧ (16, 17)%nat ∈ strings c ∧ cstr (drop 16 buf) = [102].
Proof.
  destruct (parsecmd demo_line) as [[c buf] ps|e|ch ps] eqn:E; [|by vm_compute in E..].
  assert ((16, 17)%nat ∈ strings c) as Hin.
  { vm_compute in E. injection E as <- <- <-. cbn. do 3 right. left. }
  assert (ps = []) as -> by (vm_compute in E; by injection E). exists c, buf. split_and!; [done|done|].
  destruct (parsecmd_strings demo_line c buf [] ltac:(apply has_char_false; by vm_compute) E 16 17 Hin) as (_ & -> & _). by vm_compute.
Defined.
