(* ===== verification/UPrintf.v ===== *)
(** * user/printf.c: formatted output of programs

    A format is the list of its bytes before the NUL, a variadic argument a
    64-bit slot, and [str] gives the string at an address.  The functions
    return the bytes they pass to [putc], each of which is one call of
    [write]; [None] is a store beyond the end of [buf]. *)
From S2P Require Import Prelude Riscv CString Kern Console Printf PrintfInv.

Definition udigits : list Z :=
  [48; 49; 50; 51; 52; 53; 54; 55; 56; 57; 65; 66; 67; 68; 69; 70].
Definition udigit (d : Z) : Z := udigits !!! Z.to_nat d.
(** char buf[16] of [printint] *)
Definition UPRINTINT_BUF : nat := 16.

(** The loop that fills [buf]; a 32-bit number has at most 32 digits. *)
Fixpoint uprintint_loop (fuel : nat) (x base : Z) (buf : list Z) : option (list Z) :=
  match fuel with
  | O => None
  | S fuel' =>
      if decide (length buf < UPRINTINT_BUF)%nat then
        let buf := buf ++ [udigit (x mod base)] in
        let x := x / base in
        if negb (x =? 0) then uprintint_loop fuel' x base buf else Some buf
      else None
  end.
(** [xx] is converted to an int. *)
Definition uprintint (xx base : Z) (sgn : bool) : option (list Z) :=
  let xx := s32 xx in
  let neg := sgn && (xx <? 0) in
  let x := if neg then u32 (- xx) else u32 xx in
  buf ← uprintint_loop 32 x base [];
  if neg then
    if decide (length buf < UPRINTINT_BUF)%nat then Some (rev (buf ++ [45])) else None
  else Some (rev buf).

Fixpoint uprintptr_loop (n : nat) (x : Z) : list Z :=
  match n with
  | O => []
  | S n' => udigit (Z.shiftr x 60) :: uprintptr_loop n' (u64 (Z.shiftl x 4))
  end.
Definition uprintptr (x : Z) : list Z := 48 :: 120 :: uprintptr_loop 16 x.

Section vprintf.
Context (str : Z → list Z).

(** The conversions that take an argument: how many more characters of the
    format they take, and their output. *)
Definition uconversion (c0 c1 c2 : Z) : option (nat * (Z → option (list Z))) :=
  if c0 =? 100 then Some (0%nat, λ a, uprintint a 10 true)
  else if (c0 =? 108) && (c1 =? 100) then Some (1%nat, λ a, uprintint a 10 true)
  else if (c0 =? 108) && (c1 =? 108) && (c2 =? 100) then Some (2%nat, λ a, uprintint a 10 true)
  else if c0 =? 117 then Some (0%nat, λ a, uprintint a 10 false)
  else if (c0 =? 108) && (c1 =? 117) then Some (1%nat, λ a, uprintint a 10 false)
  else if (c0 =? 108) && (c1 =? 108) && (c2 =? 117) then Some (2%nat, λ a, uprintint a 10 false)
  else if c0 =? 120 then Some (0%nat, λ a, uprintint a 16 false)
  else if (c0 =? 108) && (c1 =? 120) then Some (1%nat, λ a, uprintint a 16 false)
  else if (c0 =? 108) && (c1 =? 108) && (c2 =? 120) then Some (2%nat, λ a, uprintint a 16 false)
  else if c0 =? 112 then Some (0%nat, λ a, Some (uprintptr (u64 a)))
  else if c0 =? 115 then Some (0%nat, λ a, Some (if a =? 0 then null_string else str a))
  else None.

(** The loop of [vprintf] on the rest of the format; [state] tells whether
    the last character was a percent sign. *)
Fixpoint vprintf_loop (fuel : nat) (state : bool) (fmt args : list Z) : option (list Z) :=
  match fuel, fmt with
  | S fuel', c0 :: fmt' =>
      if negb state then
        if c0 =? 37 then vprintf_loop fuel' true fmt' args
        else out ← vprintf_loop fuel' false fmt' args; Some (c0 :: out)
      else
        let c1 := hd 0 fmt' in
        let c2 := if c1 =? 0 then 0 else hd 0 (tl fmt') in
        match uconversion c0 c1 c2 with
        | Some (skip, conv) =>
            out1 ← conv (hd 0 args);
            out ← vprintf_loop fuel' false (drop skip fmt') (tl args); Some (out1 ++ out)
        | None =>
            out ← vprintf_loop fuel' false fmt' args;
            Some (if c0 =? 37 then 37 :: out else 37 :: c0 :: out)
        end
  | _, _ => Some []
  end.
Definition vprintf (fmt args : list Z) : option (list Z) := vprintf_loop (length fmt) false fmt args.
End vprintf.

(** ** What it prints *)

(** The digits of the kernel in capitals *)
Definition upper (c : Z) : Z := if c <=? 57 then c else c - 32.
Definition uvalue (base : Z) (l : list Z) : Z := fold_left (λ a c, a * base + (if c <=? 57 then c - 48 else c - 55)) l 0.

Lemma udigit_upper d : 0 ≤ d < 16 → udigit d = upper (digit d).
Proof.
  intros Hd. assert (forallb (λ d, udigit d =? upper (digit d)) (seqZ 0 16) = true) as H by (vm_compute; reflexivity).
  rewrite forallb_forall in H. apply Z.eqb_eq, H, list_elem_of_In, elem_of_seqZ. lia.
Qed.
Lemma upper_rev (l : list Z) : upper <$> rev l = rev (upper <$> l).
Proof. induction l as [|c l IH]; cbn; [done|]. by rewrite fmap_app IH. Qed.
Lemma uloop_upper fuel x base (buf : list Z) : 0 < base ≤ 16 →
  uprintint_loop fuel x base (upper <$> buf) = option_map (fmap (M := list) upper) (printint_loop fuel x base buf).
Proof.
  intros Hb. revert x buf. induction fuel as [|fuel IH]; intros x buf; [done|]. cbn [uprintint_loop printint_loop]. rewrite length_fmap.
  change UPRINTINT_BUF with PRINTINT_BUF. destruct (decide _); [|done]. pose proof (Z.mod_pos_bound x base ltac:(lia)).
  rewrite udigit_upper; [|lia]. rewrite (_ : (upper <$> buf) ++ [upper (digit (x mod base))] = upper <$> (buf ++ [digit (x mod base)])); [|by rewrite fmap_app].
  destruct (negb _); [apply IH|done].
Qed.
(** The bytes in the buffer are digits. *)
Definition is_digit (base c : Z) : Prop := ∃ d, 0 ≤ d < base ∧ c = digit d.
Lemma loop_digits fuel x base buf buf' : 0 < base → Forall (is_digit base) buf → printint_loop fuel x base buf = Some buf' → Forall (is_digit base) buf'.
Proof.
  intros Hb. revert x buf. induction fuel as [|fuel IH]; intros x buf Hf; [discriminate|]. cbn [printint_loop]. destruct (decide _); [|done].
  assert (Forall (is_digit base) (buf ++ [digit (x mod base)])) as H.
  { apply Forall_app. split; [done|]. apply Forall_singleton. exists (x mod base). split; [apply Z.mod_pos_bound; lia|done]. }
  destruct (negb _); [by apply IH|by intros [= <-]].
Qed.
Lemma digit_upper d : 0 ≤ d < 16 → (if upper (digit d) <=? 57 then upper (digit d) - 48 else upper (digit d) - 55) = undigit (digit d).
Proof.
  intros Hd. assert (forallb (λ d, (if upper (digit d) <=? 57 then upper (digit d) - 48 else upper (digit d) - 55) =? undigit (digit d)) (seqZ 0 16) = true) as H by (vm_compute; reflexivity).
  rewrite forallb_forall in H. apply Z.eqb_eq, H, list_elem_of_In, elem_of_seqZ. lia.
Qed.
Lemma uvalue_upper base l : Forall (is_digit base) l → base ≤ 16 → uvalue base (upper <$> l) = value base l.
Proof.
  intros Hl Hb. rewrite /uvalue /value.
  enough (∀ a, fold_left (λ a c, a * base + (if c <=? 57 then c - 48 else c - 55)) (upper <$> l) a = fold_left (λ a c, a * base + undigit c) l a) by done.
  induction Hl as [|c l (d & Hd & ->) Hl IH]; intros a; cbn [fold_left fmap list_fmap]; [done|]. rewrite IH digit_upper; [done|lia].
Qed.
Lemma upper_zero c : c ≠ 80 → upper c = 48 → c = 48.
Proof. rewrite /upper. intros Hc. destruct (Z.leb_spec c 57); [done|]. lia. Qed.

(** The number [printint] prints the digits of *)
Definition umagnitude (xx : Z) (sgn : bool) : Z := if sgn && (s32 xx <? 0) then - s32 xx else u32 xx.

Lemma uprintint_digits xx base sgn : base = 10 ∨ base = 16 →
  ∃ ds, uprintint xx base sgn = Some ((if sgn && (s32 xx <? 0) then [45] else []) ++ ds) ∧ uvalue base ds = umagnitude xx sgn ∧ ds ≠ [] ∧
    (hd_error ds = Some 48 → ds = [48]) ∧ (base = 10 → Forall (λ c, 48 ≤ c ≤ 57) ds).
Proof.
  intros Hb. set (neg := sgn && (s32 xx <? 0)). assert (0 ≤ umagnitude xx sgn < 2 ^ 32) as Hm.
  { rewrite /umagnitude -/neg. pose proof (s32_range xx). destruct neg eqn:En; [|apply u32_range]. apply andb_true_iff in En as [_ En%Z.ltb_lt]. lia. }
  assert ((if neg then u32 (- s32 xx) else u32 (s32 xx)) = umagnitude xx sgn) as Hx.
  { rewrite /umagnitude -/neg in Hm |- *. destruct neg; [by apply u32_small|]. apply u32_s32. }
  pose proof (printint_loop_spec 16 32 (umagnitude xx sgn) base [] eq_refl ltac:(lia) ltac:(lia) ltac:(lia) ltac:(lia)) as Hs.
  rewrite decide_True in Hs; [|destruct Hb as [->| ->]; lia]. destruct Hs as (ds & Hl & Hn & Hv & Hc & Hne & Hhd).
  exists (upper <$> rev ds). rewrite /uprintint -/neg Hx. rewrite (uloop_upper 32 _ base []); [|lia]. rewrite Hl. cbn [option_map mbind option_bind app].
  assert ((length ds < UPRINTINT_BUF)%nat) as Hlen.
  { assert (length ds ≤ 10)%nat; [|rewrite /UPRINTINT_BUF; lia]. apply Hn; [lia|]. destruct Hb as [->| ->]; lia. }
  pose proof (loop_digits 32 (umagnitude xx sgn) base [] ds ltac:(lia) (Forall_nil_2 _) Hl) as Hd. cbn [app] in Hd. apply Forall_rev in Hd.
  split_and!.
  - destruct neg; [|by rewrite upper_rev]. rewrite length_fmap decide_True //. by rewrite rev_app_distr upper_rev.
  - rewrite uvalue_upper //; lia.
  - destruct (rev ds); [done|discriminate].
  - destruct (rev ds) as [|c l]; [done|]. cbn. intros [= Hz]. apply Forall_cons in Hd as [Hd _]. apply upper_zero in Hz.
    2: { destruct Hd as (d & Hd & ->). intros E. apply (f_equal undigit) in E. rewrite undigit_digit in E; [|lia]. cbn in E. lia. }
    subst c.
    by injection (Hhd eq_refl) as ->.
  - intros ->. apply Forall_fmap. eapply Forall_impl; [exact Hd|]. intros c (d & Hd' & ->). assert (forallb (λ d, (48 <=? upper (digit d)) && (upper (digit d) <=? 57)) (seqZ 0 10) = true) as H by (vm_compute; reflexivity).
    rewrite forallb_forall in H. specialize (H d ltac:(apply list_elem_of_In, elem_of_seqZ; lia)). apply andb_true_iff in H as [?%Z.leb_le ?%Z.leb_le]. cbn. lia.
Qed.

(** [printint] of a program prints the low 32 bits of its argument: as a
    signed number with [sgn], in base 10 or 16, most significant digit first
    and without leading zeros.  Its 16-byte buffer is always large enough. *)
Theorem uprintint_correct xx base sgn : base = 10 ∨ base = 16 →
  ∃ ds, uprintint xx base sgn = Some ((if sgn && (s32 xx <? 0) then [45] else []) ++ ds) ∧ uvalue base ds = umagnitude xx sgn ∧ ds ≠ [] ∧
    (hd_error ds = Some 48 → ds = [48]).
Proof. intros Hb. destruct (uprintint_digits xx base sgn Hb) as (ds & H1 & H2 & H3 & H4 & _). by exists ds. Qed.

(** [%ld], [%lu] and [%lx] take a 64-bit argument and print it as [%d], [%u]
    and [%x] print its low half, because [printint] takes an int. *)
Theorem percent_l_truncates str c v : c ∈ [100; 117; 120] →
  vprintf str [37; 108; c] [v] = vprintf str [37; c] [v] ∧ vprintf str [37; 108; c] [v] = vprintf str [37; 108; c] [u32 v].
Proof.
  assert (∀ b s, uprintint (u32 v) b s = uprintint v b s) as Hu.
  { intros b s. rewrite /uprintint. do 3 f_equal; rewrite /s32 /u32; by rewrite Zplus_mod_idemp_l. }
  rewrite !elem_of_cons elem_of_nil. intros [->|[->|[->|[]]]]; cbn -[uprintint]; by rewrite Hu.
Qed.
