(* ===== verification/User.v ===== *)
(** * Programs that run as several processes

    A program is a control-flow graph: [code] gives the system call at each
    program point and where the program goes on with its result.  Processes
    of the program interleave at system calls.  The effect of a system call is
    the contract of its implementation in the kernel: fork, wait and exit of
    proc.c, pipealloc, pipewrite, piperead and pipeclose of pipe.c, fdalloc,
    sys_read, sys_write, sys_close and sys_pipe of sysfile.c. *)
From S2P Require Import Prelude Riscv Pipe.

(** A file of a program: the console or an end of a pipe *)
Inductive endpoint := Con | Rd (p : nat) | Wr (p : nat).
#[export] Instance endpoint_eq_dec : EqDecision endpoint.
Proof. solve_decision. Defined.

Abbreviation fdtable := (gmap Z endpoint).

(** A system call, with what the program does with its results *)
Inductive call (L : Type) :=
| UPipe (k : option (Z * Z) → L)
| UFork (k : Z → L)
| UClose (fd : Z) (k : Z → L)
| URead (fd : Z) (n : nat) (k : Z → list Z → L)
| UWrite (fd : Z) (bs : list Z) (k : Z → L)
| UGetpid (k : Z → L)
| UWait (k : Z → L)
| UExit (xstate : Z).
Arguments UPipe {_}. Arguments UFork {_}. Arguments UClose {_}. Arguments URead {_}. Arguments UWrite {_}.
Arguments UGetpid {_}. Arguments UWait {_}. Arguments UExit {_}.

(** [Writing fd rest ok err]: inside a write, with [rest] still to be
    written; [ok] and [err] are where the program goes on. *)
Inductive ustatus (L : Type) := Run (l : L) | Writing (fd : Z) (rest : list Z) (ok err : L) | Zombie (xstate : Z) | Gone.
Arguments Run {_}. Arguments Writing {_}. Arguments Zombie {_}. Arguments Gone {_}.

Record uproc (L : Type) := mk_uproc { u_st : ustatus L; u_fds : fdtable; u_parent : option nat }.
Arguments mk_uproc {_}. Arguments u_st {_}. Arguments u_fds {_}. Arguments u_parent {_}.

(** The processes in the order of their creation, the bytes in each pipe, and
    the bytes written to the console *)
Record world (L : Type) := mk_world { procs : list (uproc L); pipes : list (list Z); console : list Z }.
Arguments mk_world {_}. Arguments procs {_}. Arguments pipes {_}. Arguments console {_}.

(** What the kernel has left for the program: entries of the file table and
    of the process table, and the process identifiers it will give. *)
Record system := mk_system { max_file : nat; max_proc : nat; pid_of : nat → Z }.

Section semantics.
Context {L : Type} (sys : system) (code : L → call L).
Abbreviation W := (world L).

Definition set_proc (i : nat) (p : uproc L) (w : W) : W := mk_world (<[i := p]> (procs w)) (pipes w) (console w).
Definition set_pipe (p : nat) (d : list Z) (w : W) : W := mk_world (procs w) (<[p := d]> (pipes w)) (console w).
Definition put_console (bs : list Z) (w : W) : W := mk_world (procs w) (pipes w) (console w ++ bs).
Definition goes (st : ustatus L) (p : uproc L) : uproc L := mk_uproc st (u_fds p) (u_parent p).
Definition set_fds (f : fdtable) (p : uproc L) : uproc L := mk_uproc (u_st p) f (u_parent p).

(** An end of a pipe is open while some process has it. *)
Definition opened (e : endpoint) (w : W) : bool :=
  existsb (λ p, bool_decide (map_Exists (λ _ e', e' = e) (u_fds p))) (procs w).
(** The entries of the file table that pipes have *)
Definition files (w : W) : nat :=
  foldr (λ p n, (if opened (Rd p) w then 1 else 0) + (if opened (Wr p) w then 1 else 0) + n)%nat 0%nat (seq 0 (length (pipes w))).
Definition is_gone (p : uproc L) : bool := match u_st p with Gone => true | _ => false end.
Definition live (w : W) : nat := length (List.filter (λ p, negb (is_gone p)) (procs w)).
(** The lowest free descriptor *)
Definition ufdalloc (f : fdtable) : option Z := List.find (λ fd, bool_decide (f !! fd = None)) (seqZ 0 NOFILE).

Definition is_child (i : nat) (p : uproc L) : bool := bool_decide (u_parent p = Some i).
Definition is_zombie (p : uproc L) : bool := match u_st p with Zombie _ => true | _ => false end.
(** The first process from [j] on that [f] holds of *)
Fixpoint find_proc (f : uproc L → bool) (j : nat) (l : list (uproc L)) : option nat :=
  match l with
  | [] => None
  | p :: l' => if f p then Some j else find_proc f (S j) l'
  end.

Definition step_pipe i (p : uproc L) (k : option (Z * Z) → L) (w : W) : W :=
  match ufdalloc (u_fds p) with
  | Some a =>
      match ufdalloc (<[a := Con]> (u_fds p)) with
      | Some b =>
          if (files w + 2 <=? max_file sys)%nat then
            let n := length (pipes w) in
            mk_world (<[i := mk_uproc (Run (k (Some (a, b)))) (<[b := Wr n]> (<[a := Rd n]> (u_fds p))) (u_parent p)]> (procs w))
              (pipes w ++ [[]]) (console w)
          else set_proc i (goes (Run (k None)) p) w
      | None => set_proc i (goes (Run (k None)) p) w
      end
  | None => set_proc i (goes (Run (k None)) p) w
  end.
Definition step_fork i (p : uproc L) (k : Z → L) (w : W) : W :=
  if (live w <? max_proc sys)%nat then
    let n := length (procs w) in
    mk_world (<[i := goes (Run (k (pid_of sys n))) p]> (procs w) ++ [mk_uproc (Run (k 0)) (u_fds p) (Some i)]) (pipes w) (console w)
  else set_proc i (goes (Run (k (-1))) p) w.
Definition step_read i (p : uproc L) (fd : Z) (n : nat) (k : Z → list Z → L) (w : W) : option W :=
  match u_fds p !! fd with
  | Some (Rd q) =>
      let d := default [] (pipes w !! q) in
      if bool_decide (d = []) then
        if opened (Wr q) w then None else Some (set_proc i (goes (Run (k 0 [])) p) w)
      else Some (set_proc i (goes (Run (k (Z.of_nat (length (take n d))) (take n d))) p) (set_pipe q (drop n d) w))
  | Some Con => None
  | _ => Some (set_proc i (goes (Run (k (-1) [])) p) w)
  end.
(** Writing [rest]; [ok] and [err] are where the program goes on. *)
Definition step_write i (p : uproc L) (fd : Z) (rest : list Z) (ok err : L) (w : W) : option W :=
  match u_fds p !! fd with
  | Some (Wr q) =>
      let d := default [] (pipes w !! q) in
      let room := (Z.to_nat PIPESIZE - length d)%nat in
      if negb (opened (Rd q) w) then Some (set_proc i (goes (Run err) p) w)
      else if (length rest <=? room)%nat then Some (set_proc i (goes (Run ok) p) (set_pipe q (d ++ rest) w))
      else if (room =? 0)%nat then None
      else Some (set_proc i (goes (Writing fd (drop room rest) ok err) p) (set_pipe q (d ++ take room rest) w))
  | Some Con =>
      match rest with
      | c :: (_ :: _) as rest' => Some (set_proc i (goes (Writing fd rest' ok err) p) (put_console [c] w))
      | _ => Some (set_proc i (goes (Run ok) p) (put_console rest w))
      end
  | _ => Some (set_proc i (goes (Run err) p) w)
  end.
Definition step_wait i (p : uproc L) (k : Z → L) (w : W) : option W :=
  match find_proc (λ c, is_child i c && is_zombie c) 0 (procs w) with
  | Some j => Some (set_proc i (goes (Run (k (pid_of sys j))) p) (set_proc j (mk_uproc Gone ∅ None) w))
  | None => if existsb (is_child i) (procs w) then None else Some (set_proc i (goes (Run (k (-1))) p) w)
  end.
(** The children of process [i] go to init. *)
Definition orphan (i : nat) (p : uproc L) : uproc L := if is_child i p then mk_uproc (u_st p) (u_fds p) None else p.
Definition step_exit i (p : uproc L) (xstate : Z) (w : W) : W :=
  mk_world (<[i := mk_uproc (Zombie xstate) ∅ (u_parent p)]> (orphan i <$> procs w)) (pipes w) (console w).

(** A step of process [i]; [None] when it is blocked or finished. *)
Definition step_proc (i : nat) (w : W) : option W :=
  p ← procs w !! i;
  match u_st p with
  | Zombie _ | Gone => None
  | Writing fd rest ok err => step_write i p fd rest ok err w
  | Run l =>
      match code l with
      | UPipe k => Some (step_pipe i p k w)
      | UFork k => Some (step_fork i p k w)
      | UClose fd k =>
          Some (match u_fds p !! fd with
                | Some _ => set_proc i (set_fds (delete fd (u_fds p)) (goes (Run (k 0)) p)) w
                | None => set_proc i (goes (Run (k (-1))) p) w
                end)
      | URead fd n k => step_read i p fd n k w
      | UWrite fd bs k => step_write i p fd bs (k (Z.of_nat (length bs))) (k (-1)) w
      | UGetpid k => Some (set_proc i (goes (Run (k (pid_of sys i))) p) w)
      | UWait k => step_wait i p k w
      | UExit x => Some (step_exit i p x w)
      end
  end.
Definition step (w w' : W) : Prop := ∃ i, step_proc i w = Some w'.

(** The program started by the shell: its three descriptors are the
    console. *)
Definition console_fds : fdtable := {[ 0 := Con; 1 := Con; 2 := Con ]}.
Definition start (l : L) : W := mk_world [mk_uproc (Run l) console_fds None] [] [].
Definition reachable (l : L) (w : W) : Prop := rtc step (start l) w.

(** A schedule: which process runs next. *)
Fixpoint run (sched : list nat) (w : W) : option W :=
  match sched with
  | [] => Some w
  | i :: sched' => step_proc i w ≫= run sched'
  end.
Lemma run_reachable sched l w : run sched (start l) = Some w → reachable l w.
Proof.
  rewrite /reachable. generalize (start l) as w0. induction sched as [|i sched IH]; cbn; intros w0; [by intros [= <-]|].
  destruct (step_proc i w0) as [w1|] eqn:E; [|discriminate]. cbn. intros H. eapply rtc_l; [by exists i|by apply IH].
Qed.
End semantics.

(** ** Integers in memory *)

(** [write(fd, &n, sizeof(n))] of an int: its bytes, little-endian *)
Definition bytes_of_int (n : Z) : list Z := (λ k, u8 (Z.shiftr n (8 * k))) <$> seqZ 0 4.
Definition int_of_bytes (bs : list Z) : Z := s32 (foldr (λ b n, b + 256 * n) 0 bs).
(** [read] into an int overwrites as many of its bytes as it returns. *)
Definition overwrite (bs old : list Z) : list Z := bs ++ drop (length bs) old.
