(* ===== verification/Primes.v ===== *)
(** * user/primes.c: the sieve of processes

    One process for each prime; each filters the multiples of its prime out of
    the numbers it reads from one pipe and writes the others to the next. *)
From S2P Require Import Prelude Riscv Pipe UPrintf User.

(** The program points, with the variables that are live at them.  [prime],
    [n] and [next_pfd] are set at [S_read], [P_read] and [S_pipe]. *)
Inductive loc :=
(* main *)
| M_pipe
| M_fork (pfd : Z * Z)
| M_close0 (pfd : Z * Z)
| M_write (pfd : Z * Z) (i : Z)
| M_close1 (pfd : Z * Z)
| M_wait
(* sieve *)
| S_close1 (pfd : Z * Z)
| S_read (pfd : Z * Z)
| S_eof (pfd : Z * Z)
| S_print (pfd : Z * Z) (prime : Z) (c : Z) (rest : list Z)
| S_pipe (pfd : Z * Z) (prime : Z)
| S_fork (pfd : Z * Z) (prime : Z) (next_pfd : Z * Z)
| C_close0 (pfd next_pfd : Z * Z)
| P_close0 (pfd : Z * Z) (prime : Z) (next_pfd : Z * Z)
| P_read (pfd : Z * Z) (prime : Z) (next_pfd : Z * Z)
| P_write (pfd : Z * Z) (prime : Z) (next_pfd : Z * Z) (n : Z)
| P_close (pfd next_pfd : Z * Z)
| P_close1 (next_pfd : Z * Z)
| P_wait
| Exit0.

(** "prime %d\n" *)
Definition prime_fmt : list Z := [112; 114; 105; 109; 101; 32; 37; 100; 10].
Definition LIMIT : Z := 280.

Section primes.
(** The bytes that [printf] writes, and the indeterminate contents of
    [next_pfd] and of the ints before they are set *)
Context (printf : list Z → list Z → list Z) (junk_pfd : Z * Z) (junk : list Z).

Definition after_print (pfd : Z * Z) (prime : Z) (out : list Z) : loc :=
  match out with c :: rest => S_print pfd prime c rest | [] => S_pipe pfd prime end.

Definition sieve (l : loc) : call loc :=
  match l with
  | S_close1 pfd => UClose pfd.2 (λ _, S_read pfd)
  | S_read pfd => URead pfd.1 4 (λ r bs,
      if r =? 0 then S_eof pfd
      else let prime := int_of_bytes (overwrite bs junk) in after_print pfd prime (printf prime_fmt [prime]))
  | S_eof pfd => UClose pfd.1 (λ _, Exit0)
  | S_print pfd prime c rest => UWrite 1 [c] (λ _, after_print pfd prime rest)
  | S_pipe pfd prime => UPipe (λ r, S_fork pfd prime (default junk_pfd r))
  | S_fork pfd prime next_pfd => UFork (λ pid, if pid =? 0 then C_close0 pfd next_pfd else P_close0 pfd prime next_pfd)
  | C_close0 pfd next_pfd => UClose pfd.1 (λ _, S_close1 next_pfd)
  | P_close0 pfd prime next_pfd => UClose next_pfd.1 (λ _, P_read pfd prime next_pfd)
  | P_read pfd prime next_pfd => URead pfd.1 4 (λ r bs,
      if r >? 0 then
        let n := int_of_bytes (overwrite bs junk) in
        if negb (Z.rem n prime =? 0) then P_write pfd prime next_pfd n else P_read pfd prime next_pfd
      else P_close pfd next_pfd)
  | P_write pfd prime next_pfd n => UWrite next_pfd.2 (bytes_of_int n) (λ _, P_read pfd prime next_pfd)
  | P_close pfd next_pfd => UClose pfd.1 (λ _, P_close1 next_pfd)
  | P_close1 next_pfd => UClose next_pfd.2 (λ _, P_wait)
  | P_wait => UWait (λ _, Exit0)
  | _ => UExit 0
  end.

Definition main (l : loc) : call loc :=
  match l with
  | M_pipe => UPipe (λ r, M_fork (default junk_pfd r))
  | M_fork pfd => UFork (λ pid, if pid =? 0 then S_close1 pfd else M_close0 pfd)
  | M_close0 pfd => UClose pfd.1 (λ _, M_write pfd 2)
  | M_write pfd i => UWrite pfd.2 (bytes_of_int i) (λ _, if i + 1 <=? LIMIT then M_write pfd (i + 1) else M_close1 pfd)
  | M_close1 pfd => UClose pfd.2 (λ _, M_wait)
  | M_wait => UWait (λ _, Exit0)
  | _ => sieve l
  end.
End primes.

(** The program with the [printf] of user/printf.c *)
Definition primes_printf (fmt args : list Z) : list Z := default [] (vprintf (λ _, []) fmt args).

(** ** What it should print *)
Definition primeb (n : Z) : bool := forallb (λ d, negb (n mod d =? 0)) (seqZ 2 (n - 2)).
Definition prime_line (p : Z) : list Z := primes_printf prime_fmt [p].
Definition expected : list Z := concat (prime_line <$> List.filter primeb (seqZ 2 (LIMIT - 1))).
