(* ===== verification/PrimesInv.v ===== *)
(** * The states of the sieve of processes

    A state of the program is described by a list of stages, one for each
    process in the order of creation: the program point of the process, and
    how many numbers it has read.  Everything else (descriptors, contents of
    the pipes, output) is a function of these. *)
From S2P Require Import Prelude Riscv Pipe UPrintf User Primes.

Abbreviation stage := (ustatus loc * nat)%type.

(** The numbers that go through the pipe of each process *)
Definition numbers : list Z := seqZ 2 (LIMIT - 1).
Definition filt (p : Z) (l : list Z) : list Z := List.filter (λ n, negb (Z.rem n p =? 0)) l.
Fixpoint stream (k : nat) : list Z :=
  match k with
  | O => numbers
  | S k' => match stream k' with p :: r => filt p r | [] => [] end
  end.
Arguments numbers : simpl never.
Arguments stream : simpl never.
(** What process [k > 0] reads *)
Abbreviation input k := (stream (pred k)).

(** The pairs of descriptors of a program point; [j] is not one. *)
Ltac unpair j := repeat match goal with p : (Z * Z)%type |- _ => assert_fails (constr_eq p j); destruct p end.

Section inv.
Context (prt : list Z → list Z → list Z).
Definition line (p : Z) : list Z := prt prime_fmt [p].

(** The descriptors of a process *)
Definition fds_of (k : nat) (st : ustatus loc) : fdtable :=
  match st with
  | Run (M_fork (a, b)) | Run (M_close0 (a, b)) => <[b := Wr 0]> (<[a := Rd 0]> console_fds)
  | Run (M_write (a, b) _) | Run (M_close1 (a, b)) => <[b := Wr 0]> console_fds
  | Run (C_close0 (a, _) (x, y)) => <[y := Wr (pred k)]> (<[x := Rd (pred k)]> (<[a := Rd (pred (pred k))]> console_fds))
  | Run (S_close1 (a, b)) => <[b := Wr (pred k)]> (<[a := Rd (pred k)]> console_fds)
  | Run (S_read (a, _)) | Run (S_eof (a, _)) | Run (S_print (a, _) _ _ _) | Run (S_pipe (a, _) _) => <[a := Rd (pred k)]> console_fds
  | Run (S_fork (a, _) _ (x, y)) | Run (P_close0 (a, _) _ (x, y)) => <[y := Wr k]> (<[x := Rd k]> (<[a := Rd (pred k)]> console_fds))
  | Run (P_read (a, _) _ (x, y)) | Run (P_write (a, _) _ (x, y) _) | Run (P_close (a, _) (x, y)) => <[y := Wr k]> (<[a := Rd (pred k)]> console_fds)
  | Run (P_close1 (x, y)) => <[y := Wr k]> console_fds
  | Run _ => console_fds
  | _ => ∅
  end.

(** The numbers it has written *)
Definition written (k : nat) (x : stage) : list Z :=
  match x.1 with
  | Run (M_write _ i) => seqZ 2 (i - 2)
  | Run (P_read _ p _) => filt p (take (x.2 - 1) (tail (input k)))
  | Run (P_write _ p _ _) => filt p (take (x.2 - 2) (tail (input k)))
  | Run (M_close1 _) | Run M_wait | Run (P_close _ _) | Run (P_close1 _) | Run P_wait | Run Exit0 | Zombie _ | Gone => stream k
  | _ => []
  end.
(** The bytes it has printed *)
Definition printed (k : nat) (x : stage) : list Z :=
  match x.1 with
  | Run (S_print _ p _ rest) => take (length (line p) - S (length rest)) (line p)
  | _ => match k, x.2 with S k', S _ => line (hd 0 (stream k')) | _, _ => [] end
  end.

(** It has forked the next process; it has a pipe; it has closed its end of
    it; it has seen the end of its input; it has waited for the next. *)
Definition forked (k : nat) (x : stage) : bool :=
  match x.1 with
  | Run (M_close0 _) | Run (M_write _ _) | Run (M_close1 _) | Run M_wait => true
  | Run (P_close0 _ _ _) | Run (P_read _ _ _) | Run (P_write _ _ _ _) | Run (P_close _ _) | Run (P_close1 _) | Run P_wait => true
  | Run Exit0 | Zombie _ | Gone => match k, x.2 with S _, O => false | _, _ => true end
  | _ => false
  end.
Definition piped (k : nat) (x : stage) : bool :=
  match x.1 with Run (M_fork _) | Run (S_fork _ _ _) => true | _ => forked k x end.
Definition closed (x : stage) : bool :=
  match x.1 with Run M_wait | Run P_wait | Run Exit0 | Zombie _ | Gone => true | _ => false end.
Definition eof (x : stage) : bool :=
  match x.1 with Run (S_eof _) | Run (P_close _ _) | Run (P_close1 _) | Run (M_close1 _) => true | _ => closed x end.
Definition reaped (x : stage) : bool := match x.1 with Run Exit0 | Zombie _ | Gone => true | _ => false end.
Definition gone (x : stage) : bool := match x.1 with Gone => true | _ => false end.

(** Descriptors other than the console's, all different *)
Definition fd1 (a : Z) : Prop := 3 ≤ a.
Definition fd2 (a b : Z) : Prop := 3 ≤ a ∧ 3 ≤ b ∧ a ≠ b.
Definition fd3 (a b c : Z) : Prop := 3 ≤ a ∧ 3 ≤ b ∧ 3 ≤ c ∧ a ≠ b ∧ a ≠ c ∧ b ≠ c.
(** [p] is the first number it reads, and it has read [c]. *)
Definition has_prime (k : nat) (p : Z) : Prop := k ≠ 0%nat ∧ head (input k) = Some p.

Definition shape (k : nat) (x : stage) : Prop :=
  let c := x.2 in
  match x.1 with
  | Run M_pipe => k = 0%nat ∧ c = 0%nat
  | Run (M_fork (a, b)) | Run (M_close0 (a, b)) => k = 0%nat ∧ c = 0%nat ∧ fd2 a b
  | Run (M_write (_, b) i) => k = 0%nat ∧ c = 0%nat ∧ fd1 b ∧ 2 ≤ i ≤ LIMIT
  | Run (M_close1 (_, b)) => k = 0%nat ∧ c = 0%nat ∧ fd1 b
  | Run M_wait => k = 0%nat ∧ c = 0%nat
  | Run (C_close0 (a, _) (x, y)) => k ≠ 0%nat ∧ c = 0%nat ∧ fd3 a x y
  | Run (S_close1 (a, b)) => k ≠ 0%nat ∧ c = 0%nat ∧ fd2 a b
  | Run (S_read (a, _)) => k ≠ 0%nat ∧ c = 0%nat ∧ fd1 a
  | Run (S_eof (a, _)) => k ≠ 0%nat ∧ c = 0%nat ∧ fd1 a ∧ input k = []
  | Run (S_print (a, _) p ch rest) => has_prime k p ∧ c = 1%nat ∧ fd1 a ∧ ∃ pre, line p = pre ++ ch :: rest
  | Run (S_pipe (a, _) p) => has_prime k p ∧ c = 1%nat ∧ fd1 a
  | Run (S_fork (a, _) p (x, y)) | Run (P_close0 (a, _) p (x, y)) => has_prime k p ∧ c = 1%nat ∧ fd3 a x y
  | Run (P_read (a, _) p (x, y)) => has_prime k p ∧ (1 ≤ c ≤ length (input k))%nat ∧ fd2 a y
  | Run (P_write (a, _) p (x, y) n) =>
      has_prime k p ∧ (2 ≤ c ≤ length (input k))%nat ∧ fd2 a y ∧ input k !! pred c = Some n ∧ Z.rem n p ≠ 0
  | Run (P_close (a, _) (x, y)) => k ≠ 0%nat ∧ c = length (input k) ∧ c ≠ 0%nat ∧ fd2 a y
  | Run (P_close1 (x, y)) => k ≠ 0%nat ∧ c = length (input k) ∧ c ≠ 0%nat ∧ fd1 y
  | Run P_wait => k ≠ 0%nat ∧ c = length (input k) ∧ c ≠ 0%nat
  | Run Exit0 | Zombie 0 => if decide (k = 0%nat) then c = 0%nat else c = length (input k)
  | Gone => k ≠ 0%nat ∧ c = length (input k)
  | _ => False
  end.

(** ** Configurations *)
Record wf (cfg : list stage) : Prop := {
  wf_some : cfg ≠ [];
  wf_shape : ∀ i x, cfg !! i = Some x → shape i x;
  wf_forked : ∀ i x, cfg !! i = Some x → forked i x = true ↔ (S i < length cfg)%nat;
  wf_eof : ∀ i x y, cfg !! i = Some x → cfg !! S i = Some y → eof y = true → closed x = true;
  wf_gone : ∀ i x y, cfg !! i = Some x → cfg !! S i = Some y → gone y = reaped x;
  wf_count : ∀ i x y, cfg !! i = Some x → cfg !! S i = Some y → (y.2 ≤ length (written i x))%nat;
}.

Definition mkp (k : nat) (x : stage) : uproc loc :=
  mk_uproc x.1 (fds_of k x.1) (if gone x then None else match k with O => None | S k' => Some k' end).
Definition count (cfg : list stage) (j : nat) : nat := from_option snd 0%nat (cfg !! j).
Definition wr (cfg : list stage) (j : nat) : list Z := from_option (written j) [] (cfg !! j).
Definition queue (cfg : list stage) (j : nat) : list Z := drop (count cfg (S j)) (wr cfg j).
Definition npipes (cfg : list stage) : nat :=
  match last cfg with Some x => if piped (pred (length cfg)) x then length cfg else pred (length cfg) | None => 0%nat end.
Definition encode (l : list Z) : list Z := concat (bytes_of_int <$> l).
Definition output (cfg : list stage) : list Z := concat (imap printed cfg).

Definition world_of (cfg : list stage) : world loc :=
  mk_world (imap mkp cfg) ((λ j, encode (queue cfg j)) <$> seq 0 (npipes cfg)) (output cfg).

(** ** Changing one stage *)
Lemma imap_insert {A B} (f : nat → A → B) i x l : imap f (<[i := x]> l) = <[i := f i x]> (imap f l).
Proof.
  apply list_eq. intros j. rewrite list_lookup_imap. destruct (decide (i = j)) as [<-|Hne].
  - destruct (decide (i < length l)%nat) as [Hl|Hl].
    + rewrite !list_lookup_insert_eq //. by rewrite length_imap.
    + rewrite !list_insert_ge ?length_imap; [|lia..]. by rewrite list_lookup_imap.
  - by rewrite !list_lookup_insert_ne // list_lookup_imap.
Qed.
Lemma seq_insert {A} (f f' : nat → A) q n : (∀ j, j ≠ q → f' j = f j) → <[q := f' q]> (f <$> seq 0 n) = f' <$> seq 0 n.
Proof.
  intros Hf. apply list_eq. intros j. destruct (decide (q = j)) as [<-|Hne].
  - destruct (decide (q < n)%nat) as [Hl|Hl].
    + rewrite list_lookup_insert_eq; [|by rewrite length_fmap length_seq]. by rewrite list_lookup_fmap lookup_seq_lt.
    + rewrite list_insert_ge; [|rewrite length_fmap length_seq; lia]. rewrite !list_lookup_fmap !lookup_seq_ge //; lia.
  - rewrite list_lookup_insert_ne // !list_lookup_fmap. destruct (decide (j < n)%nat); [|by rewrite !lookup_seq_ge; [|lia..]].
    rewrite !lookup_seq_lt //. cbn. by rewrite Hf.
Qed.

Section update.
Context (cfg : list stage) (i : nat) (x x' : stage) (Hx : cfg !! i = Some x).
Abbreviation cfg' := (<[i := x']> cfg).

Lemma at_i : cfg' !! i = Some x'.
Proof. apply list_lookup_insert_eq. by eapply lookup_lt_Some. Qed.
Lemma elsewhere j : j ≠ i → cfg' !! j = cfg !! j.
Proof. intros. by apply list_lookup_insert_ne. Qed.

Lemma npipes_update : piped i x' = piped i x → npipes cfg' = npipes cfg.
Proof.
  intros Hp. rewrite /npipes !last_lookup length_insert. destruct (decide (pred (length cfg) = i)) as [E|Hne].
  - by rewrite E at_i Hx Hp.
  - by rewrite elsewhere.
Qed.
Lemma queue_update j : j ≠ i → S j ≠ i → queue cfg' j = queue cfg j.
Proof. intros ??. by rewrite /queue /count /wr !elsewhere. Qed.
Lemma queue_own : queue cfg' i = drop (count cfg (S i)) (written i x').
Proof. rewrite /queue /count /wr at_i elsewhere //; lia. Qed.
Lemma queue_prev j : i = S j → queue cfg' j = drop x'.2 (wr cfg j).
Proof. intros E. rewrite /queue /count /wr -E at_i elsewhere //; lia. Qed.
Lemma output_update : printed i x' = printed i x → output cfg' = output cfg.
Proof.
  intros Hp. rewrite /output imap_insert Hp. f_equal. apply list_insert_id. by rewrite list_lookup_imap Hx.
Qed.

(** A step that changes no pipe *)
Lemma pipes_move : piped i x' = piped i x → written i x' = written i x → x'.2 = x.2 →
  (λ j, encode (queue cfg j)) <$> seq 0 (npipes cfg) = (λ j, encode (queue cfg' j)) <$> seq 0 (npipes cfg').
Proof.
  intros Hp Hw Hc. rewrite npipes_update //. apply list_fmap_ext. intros _ j _. f_equal. rewrite /queue /count /wr.
  f_equal; [|destruct (decide (j = i)) as [->|]; [by rewrite at_i Hx /= Hw|by rewrite elsewhere]].
  destruct (decide (S j = i)) as [E|]; [by rewrite E at_i Hx /= Hc|by rewrite elsewhere].
Qed.
(** ... and prints nothing *)
Lemma world_move : piped i x' = piped i x → written i x' = written i x → x'.2 = x.2 → printed i x' = printed i x →
  set_proc i (mkp i x') (world_of cfg) = world_of cfg'.
Proof.
  intros Hp Hw Hc Ho. rewrite /set_proc /world_of. cbn [procs pipes console]. by rewrite imap_insert output_update // pipes_move.
Qed.

Lemma wf_update : wf cfg → shape i x' → forked i x' = forked i x →
  (∀ y, cfg !! S i = Some y → (eof y = true → closed x' = true) ∧ gone y = reaped x' ∧ (y.2 ≤ length (written i x'))%nat) →
  (∀ j z, i = S j → cfg !! j = Some z → (eof x' = true → closed z = true) ∧ gone x' = reaped z ∧ (x'.2 ≤ length (written j z))%nat) →
  wf cfg'.
Proof.
  intros [H1 H2 H3 H4 H5 H6] Hs Hf Hn Hp.
  assert (∀ P : nat → stage → stage → Prop, (∀ y, cfg !! S i = Some y → P i x' y) → (∀ j z, i = S j → cfg !! j = Some z → P j z x') →
    (∀ j y z, cfg !! j = Some y → cfg !! S j = Some z → P j y z) → ∀ j y z, cfg' !! j = Some y → cfg' !! S j = Some z → P j y z) as Hadj.
  { intros P Ha Hb Hc j y z Hy Hz. destruct (decide (j = i)) as [->|Hj].
    - rewrite at_i in Hy. injection Hy as <-. rewrite elsewhere in Hz; [by apply Ha|lia].
    - rewrite elsewhere // in Hy. destruct (decide (S j = i)) as [E|]; [|rewrite elsewhere // in Hz; by eapply Hc].
      rewrite E at_i in Hz. injection Hz as <-. by apply Hb. }
  split.
  - intros E%(f_equal length). rewrite length_insert in E. apply lookup_lt_Some in Hx. cbn in E. lia.
  - intros j y Hy. destruct (decide (j = i)) as [->|]; [rewrite at_i in Hy; by injection Hy as <-|rewrite elsewhere // in Hy; by apply H2].
  - intros j y Hy. rewrite length_insert. destruct (decide (j = i)) as [->|]; [|rewrite elsewhere // in Hy; by apply H3].
    rewrite at_i in Hy. injection Hy as <-. rewrite Hf. by apply H3.
  - apply (Hadj (λ _ y z, eof z = true → closed y = true)); [intros y Hy; by apply Hn|intros j z Ej Hz; by apply (Hp j)|exact H4].
  - apply (Hadj (λ _ y z, gone z = reaped y)); [intros y Hy; by apply Hn|intros j z Ej Hz; by apply (Hp j)|exact H5].
  - apply (Hadj (λ j y z, z.2 ≤ length (written j y))%nat); [intros y Hy; by apply Hn|intros j z Ej Hz; by apply (Hp j)|exact H6].
Qed.
End update.
End inv.
