(* ===== verification/PrimesStep.v ===== *)
(** * The steps of the sieve of processes

    Every step of a process takes a described state to a described state, and
    makes a measure of the work that is left smaller. *)
From S2P Require Import Prelude Riscv Pipe UPrintf User Primes PrimesInv.

(** ** The streams *)
Lemma stream_S k : stream (S k) = match stream k with p :: r => filt p r | [] => [] end.
Proof. done. Qed.
Lemma stream_sub k n : n ∈ stream k → n ∈ numbers.
Proof.
  revert n. induction k as [|k IH]; intros n; [done|]. rewrite stream_S. destruct (stream k) as [|p r] eqn:E; [by intros ?%elem_of_nil|].
  rewrite /filt list_elem_of_In filter_In -list_elem_of_In. intros [H _]. apply IH. by right.
Qed.
Lemma numbers_range n : n ∈ numbers → 2 ≤ n ≤ LIMIT.
Proof. rewrite /numbers elem_of_seqZ /LIMIT. lia. Qed.
Lemma stream_length k : (length (stream k) ≤ 279)%nat.
Proof.
  induction k as [|k IH]; [change (stream 0) with numbers; by rewrite /numbers length_seqZ|]. rewrite stream_S. destruct (stream k) as [|p r]; [cbn; lia|].
  rewrite /filt. pose proof (List.filter_length_le (λ n, negb (Z.rem n p =? 0)) r). cbn in IH. lia.
Qed.
(** There are 59 primes up to 280. *)
Lemma stream_59 : stream 59 = [].
Proof. vm_compute. reflexivity. Qed.
Lemma stream_end k : stream k ≠ [] → (k < 59)%nat.
Proof.
  intros H. destruct (decide (k < 59)%nat); [done|]. exfalso. apply H. assert (∃ d, k = d + 59)%nat as [d ->] by (exists (k - 59)%nat; lia).
  clear. induction d as [|d IH]; [exact stream_59|]. cbn [Nat.add]. by rewrite stream_S IH.
Qed.

(** ** Bytes of ints *)
Lemma bytes_length n : length (bytes_of_int n) = 4%nat.
Proof. done. Qed.
Lemma int_bytes n old : 2 ≤ n ≤ LIMIT → length old = 4%nat → int_of_bytes (overwrite (bytes_of_int n) old) = n.
Proof.
  intros Hn Ho. rewrite /overwrite bytes_length (drop_ge old 4) ?app_nil_r; [|lia].
  assert (forallb (λ n, int_of_bytes (bytes_of_int n) =? n) (seqZ 2 279) = true) as H by (vm_compute; reflexivity).
  rewrite forallb_forall in H. apply Z.eqb_eq, H, list_elem_of_In, elem_of_seqZ. rewrite /LIMIT in Hn. lia.
Qed.
Lemma encode_cons n l : encode (n :: l) = bytes_of_int n ++ encode l.
Proof. done. Qed.
Lemma encode_app l l' : encode (l ++ l') = encode l ++ encode l'.
Proof. by rewrite /encode fmap_app concat_app. Qed.
Lemma encode_length l : length (encode l) = (4 * length l)%nat.
Proof. induction l as [|n l IH]; [done|]. rewrite encode_cons length_app bytes_length IH. cbn. lia. Qed.
Lemma encode_nil l : encode l = [] → l = [].
Proof. destruct l; [done|discriminate]. Qed.

(** ** Descriptors *)
Lemma console_fresh fd : 3 ≤ fd → console_fds !! fd = None.
Proof. intros. rewrite /console_fds !lookup_insert_ne ?lookup_singleton_ne //; lia. Qed.

(** Descriptor tables *)
Ltac fresh_fd := repeat first [ solve [apply console_fresh; lia] | rewrite lookup_insert_ne; [|lia] ].
Ltac fds := cbn [fds_of fst snd];
  repeat match goal with
  | H : fd1 _ |- _ => red in H
  | H : fd2 _ _ |- _ => destruct H as (?&?&?)
  | H : fd3 _ _ _ |- _ => destruct H as (?&?&?&?&?&?)
  end;
  repeat first [ rewrite lookup_insert_eq | rewrite lookup_insert_ne; [|done] | rewrite lookup_insert_ne; [|by apply not_eq_sym] ];
  repeat first [ rewrite delete_insert_id; [|solve [fresh_fd]] | rewrite delete_insert_ne; [|done] | rewrite delete_insert_ne; [|by apply not_eq_sym] ];
  try done.

Section steps.
Context (prt : list Z → list Z → list Z).
Abbreviation wf := (wf prt).
Abbreviation shape := (shape prt).
Abbreviation world_of := (world_of prt).
Abbreviation printed := (printed prt).
Abbreviation output := (output prt).
Abbreviation line := (line prt).

(** ** The work that is left *)
Definition LINE : nat := list_max (length ∘ line <$> numbers).
Definition rank (x : stage) : nat :=
  match x.1 with
  | Run M_pipe => 403
  | Run (M_fork _) => 402
  | Run (M_close0 _) => 401
  | Run (M_write _ i) => 10 + Z.to_nat (LIMIT + 20 - i)
  | Run (M_close1 _) => 9
  | Run M_wait => 7
  | Run (C_close0 _ _) => 1003 + LINE
  | Run (S_close1 _) => 1002 + LINE
  | Run (S_read _) => 1001 + LINE
  | Run (S_eof _) => 9
  | Run (S_print _ _ _ rest) => 1000 + length rest
  | Run (S_pipe _ _) => 999
  | Run (S_fork _ _ _) => 998
  | Run (P_close0 _ _ _) => 997
  | Run (P_read _ _ _) => 3 * (300 - x.2) + 11
  | Run (P_write _ _ _ _) => 3 * (300 - x.2) + 12
  | Run (P_close _ _) => 9
  | Run (P_close1 _) => 8
  | Run P_wait => 7
  | Run Exit0 => 3
  | Zombie _ => 2
  | Gone => 1
  | Writing _ _ _ _ => 0
  end.
Definition CHILD : nat := 1004 + LINE.
(** The most processes there can be *)
Definition STAGES : nat := 61.
Definition measure (cfg : list stage) : nat := sum_list_with (λ k, from_option rank CHILD (cfg !! k)) (seq 0 STAGES).


Lemma sum_seq_lt (f g : nat → nat) n i : (∀ j, g j ≤ f j)%nat → (i < n)%nat → (g i < f i)%nat → (sum_list_with g (seq 0 n) < sum_list_with f (seq 0 n))%nat.
Proof.
  intros Hle Hi Hlt. assert (∀ l, (sum_list_with g l ≤ sum_list_with f l)%nat) as Hall.
  { induction l as [|j l IH]; cbn; [lia|]. specialize (Hle j). lia. }
  assert (i ∈ seq 0 n) as (l1 & l2 & ->)%list_elem_of_split by (apply elem_of_seq; lia).
  rewrite !sum_list_with_app. cbn. pose proof (Hall l1). pose proof (Hall l2). lia.
Qed.
Lemma measure_update cfg i x x' : cfg !! i = Some x → (i < STAGES)%nat → (rank x' < rank x)%nat → (measure (<[i := x']> cfg) < measure cfg)%nat.
Proof.
  intros Hx Hi Hr. apply (sum_seq_lt _ _ _ i); [|done|by rewrite (at_i _ _ _ _ Hx) Hx].
  intros j. destruct (decide (j = i)) as [->|]; [rewrite (at_i _ _ _ _ Hx) Hx; cbn; lia|by rewrite elsewhere].
Qed.
Lemma measure_fork cfg i x x' c : cfg !! i = Some x → (length cfg < STAGES)%nat → (rank x' < rank x)%nat → (rank c ≤ CHILD)%nat →
  (measure (<[i := x']> cfg ++ [c]) < measure cfg)%nat.
Proof.
  intros Hx Hl Hr Hc. apply lookup_lt_Some in Hx as Hi. apply (sum_seq_lt _ _ _ i); [|lia|rewrite lookup_app_l ?length_insert // (at_i _ _ _ _ Hx) Hx //].
  intros j. destruct (decide (j < length cfg)%nat) as [Hj|Hj].
  - rewrite lookup_app_l ?length_insert //. destruct (decide (j = i)) as [->|]; [rewrite (at_i _ _ _ _ Hx) Hx; cbn; lia|by rewrite elsewhere].
  - rewrite (lookup_ge_None_2 cfg j); [|lia]. rewrite lookup_app_r ?length_insert; [|lia]. destruct (j - length cfg)%nat; [exact Hc|exact (le_n _)].
Qed.

Lemma has_prime_length k p : has_prime k p → (1 ≤ length (input k))%nat.
Proof. intros [_ H]. destruct (input k); [discriminate|cbn; lia]. Qed.
Lemma has_prime_small i p : has_prime i p → (i ≤ 59)%nat.
Proof. intros [Hi H]. assert (input i ≠ []) as Hne by (intros E; rewrite E in H; discriminate H). apply stream_end in Hne. lia. Qed.
Lemma stream_next_nil k : k ≠ 0%nat → input k = [] → stream k = [].
Proof. destruct k as [|k]; [done|]. cbn [pred]. intros _ E. by rewrite stream_S E. Qed.

(** ** The number of processes *)

Lemma forked_input i x : shape i x → forked i x = true → i ≠ 0%nat → input i ≠ [].
Proof.
  destruct x as [[[]| |[]|] c]; rewrite /PrimesInv.shape /forked; cbn [fst snd]; intros Hs Hf Hi; try discriminate; unpair tt.
  all: try (destruct (decide (i = 0%nat)); [done|]).
  all: repeat match goal with H : _ ∧ _ |- _ => destruct H end; try done.
  all: try match goal with H : has_prime _ _ |- _ => destruct H as [_ H]; intros E; rewrite E in H; discriminate H end.
  all: intros E; match goal with H : _ = length _ |- _ => rewrite E in H; cbn in H; subst; by destruct i end.
Qed.
Lemma wf_length cfg : wf cfg → (length cfg ≤ STAGES)%nat.
Proof.
  intros Hwf. destruct (decide (length cfg ≤ 2)%nat); [rewrite /STAGES; lia|].
  destruct (lookup_lt_is_Some_2 cfg (length cfg - 2)) as [x Hx]; [lia|].
  pose proof (wf_shape _ _ Hwf _ _ Hx) as Hs. pose proof (proj2 (wf_forked _ _ Hwf _ _ Hx) ltac:(lia)) as Hf.
  apply forked_input in Hf; [|done|lia]. apply stream_end in Hf. rewrite /STAGES. lia.
Qed.

(** ** Steps that change only the process *)
Definition advances (cfg : list stage) (w' : world loc) : Prop := ∃ cfg', wf cfg' ∧ w' = world_of cfg' ∧ (measure cfg' < measure cfg)%nat.

Lemma lookup_proc cfg i : procs (world_of cfg) !! i = mkp i <$> cfg !! i.
Proof. by rewrite /world_of list_lookup_imap. Qed.
Lemma in_range cfg i x : wf cfg → cfg !! i = Some x → (i < STAGES)%nat.
Proof. intros Hwf Hx%lookup_lt_Some. pose proof (wf_length cfg Hwf). lia. Qed.
Lemma last_none cfg i x : wf cfg → cfg !! i = Some x → forked i x = false → cfg !! S i = None.
Proof.
  intros Hwf Hx Hf. apply lookup_ge_None_2. pose proof (proj2 (wf_forked _ _ Hwf _ _ Hx)) as H. rewrite Hf in H.
  destruct (decide (S i < length cfg)%nat); [by specialize (H l)|lia].
Qed.

Lemma quiet_move cfg i x x' : wf cfg → cfg !! i = Some x → shape i x' →
  forked i x' = forked i x → piped i x' = piped i x → written i x' = written i x → x'.2 = x.2 → printed i x' = printed i x →
  (closed x = true → closed x' = true) → (eof x' = true → eof x = true ∨ ∀ j z, i = S j → cfg !! j = Some z → closed z = true) →
  reaped x' = reaped x ∨ forked i x = false →
  gone x' = gone x → (rank x' < rank x)%nat → advances cfg (set_proc i (mkp i x') (world_of cfg)).
Proof.
  intros Hwf Hx Hs Hf Hp Hw Hc Ho Hcl He Hr Hg Hm. exists (<[i := x']> cfg). split_and!.
  - apply (wf_update prt cfg i x x' Hx Hwf Hs Hf).
    + intros y Hy. split_and!.
      * intros Hey. by apply Hcl, (wf_eof _ _ Hwf i x y).
      * destruct Hr as [->|Hf0]; [by apply (wf_gone _ _ Hwf i)|]. by rewrite (last_none _ _ _ Hwf Hx Hf0) in Hy.
      * rewrite Hw. by apply (wf_count _ _ Hwf i).
    + intros j z -> Hz. split_and!.
      * intros [H|H]%He; [by apply (wf_eof _ _ Hwf j z x)|by apply (H j)].
      * rewrite Hg. by apply (wf_gone _ _ Hwf j).
      * rewrite Hc. by apply (wf_count _ _ Hwf j z x).
  - by eapply world_move.
  - apply (measure_update _ _ x); [done|by eapply in_range|done].
Qed.

Context (sys : system) (junk_pfd : Z * Z) (junk : list Z).
Abbreviation code := (main prt junk_pfd junk).

(** Closing a descriptor *)
Lemma close_move cfg i l c fd k w' : wf cfg → cfg !! i = Some (Run l, c) → code l = UClose fd k →
  is_Some (fds_of i (Run l) !! fd) → delete fd (fds_of i (Run l)) = fds_of i (Run (k 0)) →
  (set_proc i (mkp i (Run (k 0), c)) (world_of cfg) = w' → advances cfg w') →
  step_proc sys code i (world_of cfg) = Some w' → advances cfg w'.
Proof.
  intros Hwf Hx Hl [e He] Hd Hadv. rewrite /step_proc lookup_proc Hx. cbn -[fds_of]. rewrite Hl He. intros [= <-]. apply Hadv. f_equal.
  rewrite /mkp /set_fds /goes /=. by rewrite Hd.
Qed.

Lemma step_close cfg i l c fd k w' : wf cfg → cfg !! i = Some (Run l, c) → code l = UClose fd k →
  step_proc sys code i (world_of cfg) = Some w' → advances cfg w'.
Proof.
  intros Hwf Hx Hl. pose proof (wf_shape _ _ Hwf _ _ Hx) as Hs. 
  destruct l; try discriminate Hl; unpair junk_pfd; injection Hl as <- <-; (eapply close_move; [done|exact Hx|done|..]).
  all: rewrite /PrimesInv.shape in Hs; cbn [fst snd] in Hs; repeat match goal with H : _ ∧ _ |- _ => destruct H end.
  all: match goal with |- is_Some _ => fds | |- delete _ _ = _ => fds | _ => intros <- end.
  all: eapply quiet_move; [done|exact Hx|..].
  all: try done; try (by left); try (by right); try (intros; by left); try (rewrite /rank /LIMIT; cbn [fst snd]; lia).
  all: rewrite /PrimesInv.shape /forked /piped /written; cbn [fst snd]; rewrite /fd1 /fd2 /fd3 in H1 |- *; subst c.
  - rewrite /LIMIT. lia.
  - tauto.
  - rewrite H2. by destruct (decide _).
  - by destruct i.
  - by destruct i.
  - by apply stream_next_nil.
  - tauto.
  - split_and!; [done|done|by eapply has_prime_length|tauto..].
  - done.
  - rewrite /fd2 in H2. tauto.
Qed.

(** ** A new pipe *)
Lemma last_length cfg i x : wf cfg → cfg !! i = Some x → forked i x = false → length cfg = S i.
Proof.
  intros Hwf Hx Hf. pose proof (last_none _ _ _ Hwf Hx Hf) as H%lookup_ge_None_1. apply lookup_lt_Some in Hx. lia.
Qed.
Lemma npipes_last cfg i x : length cfg = S i → cfg !! i = Some x → npipes cfg = if piped i x then S i else i.
Proof. intros Hl Hx. by rewrite /npipes last_lookup Hl /= Hx. Qed.

Lemma ufdalloc_spec f fd : 0 ≤ fd < NOFILE → f !! fd = None → ∃ a, ufdalloc f = Some a ∧ f !! a = None ∧ 0 ≤ a.
Proof.
  intros Hfd Hf. rewrite /ufdalloc. destruct (find _ _) as [a|] eqn:E.
  - apply find_some in E as [Hin%list_elem_of_In Ha%bool_decide_eq_true]. apply elem_of_seqZ in Hin. exists a. split_and!; [done..|lia].
  - eapply find_none in E; [|apply list_elem_of_In, elem_of_seqZ; by instantiate (1 := fd); lia]. by apply bool_decide_eq_false in E.
Qed.
Lemma not_console (f : fdtable) a : (∀ j e, console_fds !! j = Some e → is_Some (f !! j)) → f !! a = None → 0 ≤ a → 3 ≤ a.
Proof.
  intros Hsub Ha H0. destruct (decide (3 ≤ a)); [done|]. destruct (Hsub a Con) as [e He]; [|by rewrite Ha in He].
  assert (a = 0 ∨ a = 1 ∨ a = 2) as [->|[->| ->]] by lia; reflexivity.
Qed.
(** A process with the console and at most one other descriptor gets two new
    ones. *)
Lemma alloc_two (f : fdtable) : f = console_fds ∨ (∃ a e, 3 ≤ a ∧ f = <[a := e]> console_fds) →
  ∃ x y, ufdalloc f = Some x ∧ ufdalloc (<[x := Con]> f) = Some y ∧ fd2 x y ∧ f !! x = None ∧ f !! y = None.
Proof.
  intros Hf. assert (∀ j e, console_fds !! j = Some e → is_Some (f !! j)) as Hsub.
  { intros j e Hj. destruct Hf as [->|(a & e' & Ha & ->)]; [by exists e|]. rewrite lookup_insert_ne; [by exists e|]. intros ->. by rewrite console_fresh in Hj. }
  assert (∀ fd, 3 ≤ fd → f !! fd = None ∨ (∀ fd', 3 ≤ fd' → fd' ≠ fd → f !! fd' = None)) as Hfree.
  { intros fd Hfd. destruct Hf as [->|(a & e' & Ha & ->)]; [left; by apply console_fresh|].
    destruct (decide (a = fd)) as [->|]; [right|left; rewrite lookup_insert_ne // console_fresh //].
    intros fd' ??. rewrite lookup_insert_ne // console_fresh //. }
  assert (∃ fd, 3 ≤ fd < 5 ∧ f !! fd = None) as (fd & Hfd & Hn).
  { destruct (Hfree 3) as [H|H]; [lia|by exists 3|exists 4; split; [lia|apply H; lia]]. }
  destruct (ufdalloc_spec f fd) as (x & Ex & Hx & Hx0); [rewrite /NOFILE; lia|done|]. pose proof (not_console f x Hsub Hx Hx0) as Hx3.
  assert (∃ fd', 3 ≤ fd' < 6 ∧ fd' ≠ x ∧ f !! fd' = None) as (fd' & Hfd' & Hne & Hn').
  { destruct (decide (x = fd)) as [->|Hxfd]; [|exists fd; split_and!; [lia|lia|lia|done]].
    destruct (Hfree 5) as [H|H]; [lia|exists 5; split_and!; [lia|lia|lia|done]|].
    exists (7 - fd). split_and!; [lia|lia|lia|apply H; lia]. }
  destruct (ufdalloc_spec (<[x := Con]> f) fd') as (y & Ey & Hy & Hy0); [rewrite /NOFILE; lia|by rewrite lookup_insert_ne|].
  destruct (decide (x = y)) as [->|Hxy]; [by rewrite lookup_insert_eq in Hy|]. rewrite lookup_insert_ne // in Hy.
  pose proof (not_console f y Hsub Hy Hy0) as Hy3. exists x, y. by split_and!.
Qed.
Lemma files_bound (w : world loc) : (files w ≤ 2 * length (pipes w))%nat.
Proof.
  rewrite /files. pose proof (length_seq (length (pipes w)) 0) as Hl. revert Hl. generalize (seq 0 (length (pipes w))) as l. intros l <-.
  induction l as [|p l IH]; cbn; [lia|]. destruct (opened (Rd p) w), (opened (Wr p) w); lia.
Qed.

Lemma pipe_move cfg i x x' : wf cfg → cfg !! i = Some x → shape i x' → forked i x = false → forked i x' = false → piped i x = false → piped i x' = true →
  written i x' = [] → x'.2 = x.2 → printed i x' = printed i x → eof x' = false → gone x' = gone x → (rank x' < rank x)%nat →
  advances cfg (mk_world (<[i := mkp i x']> (procs (world_of cfg))) (pipes (world_of cfg) ++ [[]]) (console (world_of cfg))).
Proof.
  intros Hwf Hx Hs Hf Hf' Hp Hp' Hw Hc Ho He Hg Hm. pose proof (last_length _ _ _ Hwf Hx Hf) as Hl. exists (<[i := x']> cfg). split_and!.
  - apply (wf_update prt cfg i x x' Hx Hwf Hs); [congruence|intros y Hy; by rewrite (last_none _ _ _ Hwf Hx Hf) in Hy|].
    intros j z -> Hz. split_and!; [by rewrite He|rewrite Hg; by apply (wf_gone _ _ Hwf j)|]. rewrite Hc. by apply (wf_count _ _ Hwf j z x).
  - rewrite /PrimesInv.world_of. cbn [procs pipes console]. rewrite (npipes_last cfg i x) // Hp (npipes_last (<[i := x']> cfg) i x') ?length_insert //.
    2: { by eapply at_i. } rewrite Hp' imap_insert seq_S fmap_app. cbn [fmap list_fmap]. f_equal; [|by erewrite output_update].
    f_equal; [|by erewrite queue_own; [rewrite Hw drop_nil|]]. apply list_fmap_ext. intros q j Hj. apply lookup_seq in Hj as [-> Hj]. cbn in Hj |- *.
    f_equal. rewrite /queue /count /wr. rewrite (elsewhere cfg i x' q); [|lia].
    destruct (decide (S q = i)) as [<-|]; [by rewrite (at_i _ _ _ _ Hx) Hx /= Hc|by rewrite elsewhere].
  - apply (measure_update _ _ x); [done|by eapply in_range|done].
Qed.

Hypothesis files_enough : (120 ≤ max_file sys)%nat.
(** [pipe] succeeds. *)
Lemma step_pipe_ok cfg i x k : wf cfg → cfg !! i = Some x → forked i x = false → piped i x = false → (i ≤ 59)%nat →
  fds_of i x.1 = console_fds ∨ (∃ a e, 3 ≤ a ∧ fds_of i x.1 = <[a := e]> console_fds) → gone x = false →
  ∃ a b, fd2 a b ∧ fds_of i x.1 !! a = None ∧ fds_of i x.1 !! b = None ∧
    step_pipe sys i (mkp i x) k (world_of cfg) =
      mk_world (<[i := mk_uproc (Run (k (Some (a, b)))) (<[b := Wr i]> (<[a := Rd i]> (fds_of i x.1))) (u_parent (mkp i x))]> (procs (world_of cfg)))
        (pipes (world_of cfg) ++ [[]]) (console (world_of cfg)).
Proof.
  intros Hwf Hx Hf Hp Hi Hfds Hg. destruct (alloc_two _ Hfds) as (a & b & Ea & Eb & Hab & Ha & Hb). exists a, b. split_and!; [done..|].
  pose proof (last_length _ _ _ Hwf Hx Hf) as Hl. pose proof (npipes_last _ _ _ Hl Hx) as Hn. rewrite Hp in Hn.
  assert (length (pipes (world_of cfg)) = i) as Hlp by (rewrite /PrimesInv.world_of; cbn [pipes]; by rewrite length_fmap length_seq).
  rewrite /step_pipe. cbn [u_fds mkp]. rewrite Ea Eb. pose proof (files_bound (world_of cfg)) as Hb2. rewrite Hlp in Hb2 |- *.
  destruct (Nat.leb_spec (files (world_of cfg) + 2) (max_file sys)) as [_|Hlt]; [done|lia].
Qed.

Lemma step_pipe_all cfg i l c k w' : wf cfg → cfg !! i = Some (Run l, c) → code l = UPipe k →
  step_proc sys code i (world_of cfg) = Some w' → advances cfg w'.
Proof.
  intros Hwf Hx Hl. pose proof (wf_shape _ _ Hwf _ _ Hx) as Hs. rewrite /step_proc lookup_proc Hx. cbn -[fds_of step_pipe]. rewrite Hl. intros [= <-].
  destruct l; try discriminate Hl; unpair junk_pfd; injection Hl as <-; rewrite /PrimesInv.shape in Hs; cbn [fst snd] in Hs.
  - destruct Hs as [-> ->]. edestruct (step_pipe_ok cfg 0) as (a & b & Hab & _ & _ & ->); [done|exact Hx|done|done|lia|by left|done|].
    apply (pipe_move cfg 0 (Run M_pipe, 0%nat) (Run (M_fork (a, b)), 0%nat)); done || (rewrite /rank; cbn [fst]; lia) || by split_and!.
  - destruct Hs as (Hp & -> & Ha3). pose proof (has_prime_small _ _ Hp). destruct i as [|i]; [by destruct Hp|].
    edestruct (step_pipe_ok cfg (S i)) as (a & b & (Ha & Hb & Hab) & Ha' & Hb' & ->); [done|exact Hx|done|done|done|right; eexists _, _; split; [exact Ha3|done]|done|].
    apply (pipe_move cfg (S i) (Run (S_pipe (z, z0) prime), 1%nat) (Run (S_fork (z, z0) prime (a, b)), 1%nat));
      try done; [|rewrite /rank; cbn [fst]; lia].
    cbn [fst fds_of] in Ha', Hb'. rewrite /PrimesInv.shape /fd3. cbn [fst snd]. split_and!; try done.
    + intros ->. by rewrite lookup_insert_eq in Ha'.
    + intros ->. by rewrite lookup_insert_eq in Hb'.
Qed.

(** ** A new process *)
Lemma wf_fork cfg i x x' c : wf cfg → cfg !! i = Some x → length cfg = S i → shape i x' → forked i x' = true → shape (S i) c → forked (S i) c = false →
  eof c = false → gone c = false → reaped x' = false → c.2 = 0%nat → eof x' = false → gone x' = gone x → x'.2 = x.2 →
  wf (<[i := x']> cfg ++ [c]).
Proof.
  intros [H1 H2 H3 H4 H5 H6] Hx Hl Hs Hf Hsc Hfc Hec Hgc Hr Hc0 He Hg Hc.
  assert (∀ j y, (<[i := x']> cfg ++ [c]) !! j = Some y → (j = S i ∧ y = c) ∨ (j = i ∧ y = x') ∨ ((j < i)%nat ∧ cfg !! j = Some y)) as Hcase.
  { intros j y Hy. destruct (decide (j < S i)%nat) as [Hj|Hj].
    - rewrite lookup_app_l in Hy; [|by rewrite length_insert Hl]. right. destruct (decide (j = i)) as [->|]; [left|right; split; [lia|by rewrite elsewhere in Hy]].
      rewrite (at_i _ _ _ _ Hx) in Hy. by injection Hy as <-.
    - rewrite lookup_app_r in Hy; [|rewrite length_insert; lia]. rewrite length_insert Hl in Hy. apply list_lookup_singleton_Some in Hy as [??]. left. split; [lia|done]. }
  assert (∀ P : nat → stage → stage → Prop, P i x' c → (∀ j z, i = S j → cfg !! j = Some z → P j z x') →
    (∀ j y z, cfg !! j = Some y → cfg !! S j = Some z → P j y z) →
    ∀ j y z, (<[i := x']> cfg ++ [c]) !! j = Some y → (<[i := x']> cfg ++ [c]) !! S j = Some z → P j y z) as Hadj.
  { intros P Ha Hb Hd j y z [[-> ->]|[[-> ->]|[Hj Hy]]]%Hcase [[E ->]|[[E ->]|[Hj' Hz]]]%Hcase; try lia; [done|by apply Hb|by eapply Hd]. }
  split.
  - destruct (<[i := x']> cfg); discriminate.
  - intros j y [[-> ->]|[[-> ->]|[Hj Hy]]]%Hcase; [done..|by apply H2].
  - intros j y Hy. rewrite length_app length_insert Hl. cbn. apply Hcase in Hy as [[-> ->]|[[-> ->]|[Hj Hy]]].
    + rewrite Hfc. split; [done|lia].
    + rewrite Hf. split; [lia|done].
    + rewrite (H3 _ _ Hy) Hl. lia.
  - apply (Hadj (λ _ y z, eof z = true → closed y = true)); [by rewrite Hec|intros j z _ _; by rewrite He|exact H4].
  - apply (Hadj (λ _ y z, gone z = reaped y)); [by rewrite Hgc|intros j z -> Hz; rewrite Hg; by apply (H5 j)|exact H5].
  - apply (Hadj (λ j y z, z.2 ≤ length (written j y))%nat); [lia|intros j z -> Hz; rewrite Hc; by apply (H6 j z x)|exact H6].
Qed.
Lemma world_fork cfg i x x' c : wf cfg → cfg !! i = Some x → length cfg = S i → piped i x = true → piped (S i) c = false →
  written i x' = written i x → x'.2 = x.2 → c.2 = 0%nat → printed i x' = printed i x → printed (S i) c = [] →
  mk_world (<[i := mkp i x']> (procs (world_of cfg)) ++ [mkp (S i) c]) (pipes (world_of cfg)) (console (world_of cfg)) = world_of (<[i := x']> cfg ++ [c]).
Proof.
  intros Hwf Hx Hl Hp Hpc Hw Hc Hc0 Ho Hoc. rewrite /PrimesInv.world_of. cbn [procs pipes console].
  assert (length (<[i := x']> cfg) = S i) as Hl' by (by rewrite length_insert).
  assert (∀ j, (j ≤ i)%nat → (<[i := x']> cfg ++ [c]) !! j = <[i := x']> cfg !! j) as Hlow by (intros; apply lookup_app_l; lia).
  f_equal.
  - rewrite imap_app imap_insert Hl'. cbn. by rewrite Nat.add_0_r.
  - rewrite (npipes_last cfg i x) // Hp. rewrite (npipes_last _ (S i) c); [|rewrite length_app Hl'; cbn; lia|by rewrite lookup_app_r Hl' // Nat.sub_diag].
    rewrite Hpc. apply list_fmap_ext. intros q j Hj. apply lookup_seq in Hj as [-> Hj]. cbn in Hj |- *. f_equal. rewrite /queue /count /wr.
    rewrite (Hlow q); [|lia]. f_equal.
    + destruct (decide (q = i)) as [->|]; [rewrite lookup_app_r ?Hl' // Nat.sub_diag /= Hc0 lookup_ge_None_2 //; lia|].
      rewrite Hlow; [|lia]. destruct (decide (S q = i)) as [<-|]; [by rewrite (at_i _ _ _ _ Hx) Hx /= Hc|by rewrite elsewhere].
    + destruct (decide (q = i)) as [->|]; [by rewrite (at_i _ _ _ _ Hx) Hx /= Hw|by rewrite elsewhere].
  - rewrite /PrimesInv.output imap_app concat_app. cbn. rewrite Hl' Nat.add_0_r Hoc !app_nil_r. symmetry. by apply (output_update prt cfg i x).
Qed.
Lemma live_bound (w : world loc) : (live w ≤ length (procs w))%nat.
Proof. rewrite /live. apply List.filter_length_le. Qed.

Hypothesis procs_enough : (61 ≤ max_proc sys)%nat.
Hypothesis pid_pos : ∀ i, 0 < pid_of sys i.
Lemma step_fork_all cfg i l c k w' : wf cfg → cfg !! i = Some (Run l, c) → code l = UFork k →
  step_proc sys code i (world_of cfg) = Some w' → advances cfg w'.
Proof.
  intros Hwf Hx Hl. pose proof (wf_shape _ _ Hwf _ _ Hx) as Hs. rewrite /step_proc lookup_proc Hx. cbn -[fds_of step_fork]. rewrite Hl. intros [= <-].
  assert (forked i (Run l, c) = false) as Hf by (destruct l; first [discriminate Hl|done]). pose proof (last_length _ _ _ Hwf Hx Hf) as Hlen.
  assert (i ≤ 59)%nat as Hi.
  { destruct l; try discriminate Hl; unpair junk_pfd; rewrite /PrimesInv.shape in Hs; cbn [fst snd] in Hs; destruct Hs as [H _]; [lia|by eapply has_prime_small]. }
  rewrite /step_fork. assert (length (procs (world_of cfg)) = S i) as Hlp by (cbn; by rewrite length_imap).
  pose proof (live_bound (world_of cfg)) as Hb. rewrite Hlp in Hb |- *. destruct (Nat.ltb_spec (live (world_of cfg)) (max_proc sys)) as [_|Hge]; [|lia].
  pose proof (pid_pos (S i)) as Hpid. assert (pid_of sys (S i) =? 0 = false) as Hp0 by (apply Z.eqb_neq; lia).
  destruct l as [|[a b]| | | | | | | | | |[a b] prime [x y]| | | | | | | |]; try discriminate Hl; injection Hl as <-; rewrite Hp0;
    rewrite /PrimesInv.shape in Hs; cbn [fst snd] in Hs; cbn [Z.eqb].
  - destruct Hs as (-> & -> & Hab). exists (<[0%nat := (Run (M_close0 (a, b)), 0%nat)]> cfg ++ [(Run (S_close1 (a, b)), 0%nat)]). split_and!.
    + eapply wf_fork; [done|exact Hx|done|by split_and!|done|by split_and!|done..].
    + rewrite -(world_fork cfg 0 _ _ _ Hwf Hx); done.
    + eapply measure_fork; [exact Hx|rewrite /STAGES; lia|rewrite /rank; cbn [fst]; lia|rewrite /rank /CHILD; cbn [fst]; lia].
  - destruct Hs as (Hp & -> & Hab). destruct i as [|i]; [by destruct Hp|].
    exists (<[S i := (Run (P_close0 (a, b) prime (x, y)), 1%nat)]> cfg ++ [(Run (C_close0 (a, b) (x, y)), 0%nat)]). split_and!.
    + eapply wf_fork; [done|exact Hx|done|by split_and!|done|by split_and!|done..].
    + rewrite -(world_fork cfg (S i) _ _ _ Hwf Hx); done.
    + eapply measure_fork; [exact Hx|rewrite /STAGES; lia|rewrite /rank; cbn [fst]; lia|rewrite /rank /CHILD; cbn [fst]; lia].
Qed.
End steps.
