(* ===== verification/PrimesRun.v ===== *)
(** * Reading, writing and waiting in the sieve of processes *)
From S2P Require Import Prelude Riscv Pipe UPrintf User Primes PrimesInv PrimesStep.

(** ** What is written is a prefix of the stream *)
Lemma filt_app p l l' : filt p (l ++ l') = filt p l ++ filt p l'.
Proof. apply List.filter_app. Qed.
Lemma has_prime_stream k p : has_prime k p → ∃ r, input k = p :: r ∧ stream k = filt p r.
Proof.
  intros [Hk H]. destruct k as [|k]; [done|]. cbn [pred] in *. destruct (stream k) as [|p' r] eqn:E; [discriminate H|].
  injection H as ->. exists r. by rewrite stream_S E.
Qed.
Lemma filt_take_prefix p n r : filt p (take n r) `prefix_of` filt p r.
Proof. exists (filt p (drop n r)). by rewrite -filt_app take_drop. Qed.
Lemma take_snoc {A} (l : list A) n a : l !! n = Some a → take (S n) l = take n l ++ [a].
Proof. apply take_S_r. Qed.
Lemma numbers_prefix i : 2 ≤ i ≤ LIMIT + 1 → seqZ 2 (i - 2) `prefix_of` numbers.
Proof.
  intros Hi. exists (seqZ i (LIMIT + 1 - i)). rewrite /numbers.
  replace (LIMIT - 1) with ((i - 2) + (LIMIT + 1 - i)) by lia. rewrite seqZ_app; [|lia..]. f_equal. f_equal. lia.
Qed.

Section run.
Context (prt : list Z → list Z → list Z).
Abbreviation wf := (wf prt).
Abbreviation shape := (shape prt).
Abbreviation world_of := (world_of prt).
Abbreviation printed := (printed prt).
Abbreviation output := (output prt).
Abbreviation line := (line prt).
Abbreviation rank := (rank prt).
Abbreviation measure := (measure prt).
Abbreviation advances := (advances prt).

Lemma written_prefix k x : shape k x → written k x `prefix_of` stream k.
Proof.
  destruct x as [[[]| | |] c]; rewrite /PrimesInv.shape /written; cbn [fst snd]; try (intros; by apply prefix_nil); try done.
  - destruct pfd. intros (-> & _ & _ & Hi). apply numbers_prefix. lia.
  - destruct pfd, next_pfd. intros (Hp & _). destruct (has_prime_stream _ _ Hp) as (r & -> & ->). apply filt_take_prefix.
  - destruct pfd, next_pfd. intros (Hp & _). destruct (has_prime_stream _ _ Hp) as (r & -> & ->). apply filt_take_prefix.
Qed.
Lemma closed_written k x : closed x = true → written k x = stream k.
Proof. destruct x as [[[]| | |] c]; first [discriminate|done]. Qed.

(** ** Ends of pipes *)
Lemma opened_true (e : endpoint) cfg i x fd : cfg !! i = Some x → fds_of i x.1 !! fd = Some e → opened e (world_of cfg) = true.
Proof.
  intros Hx Hfd. rewrite /opened. apply existsb_exists. exists (mkp i x). split.
  - apply list_elem_of_In, list_elem_of_lookup. exists i. by rewrite lookup_proc Hx.
  - apply bool_decide_eq_true. by exists fd, e.
Qed.
Lemma opened_inv (e : endpoint) cfg : opened e (world_of cfg) = true → ∃ i x fd, cfg !! i = Some x ∧ fds_of i x.1 !! fd = Some e.
Proof.
  rewrite /opened existsb_exists. intros (p & Hp%list_elem_of_In & Ho%bool_decide_eq_true). apply list_elem_of_lookup in Hp as [i Hi].
  rewrite lookup_proc in Hi. destruct (cfg !! i) as [x|] eqn:Hx; [|discriminate]. injection Hi as <-. destruct Ho as (fd & e' & Hfd & ->). by exists i, x, fd.
Qed.
(** A process that has forked keeps the writing end of its pipe until it
    closes it. *)
Lemma has_writer k x : shape k x → forked k x = true → closed x = false → ∃ fd, fds_of k x.1 !! fd = Some (Wr k).
Proof.
  destruct x as [[[]| | |] c]; rewrite /PrimesInv.shape; cbn [fst snd]; try done; unpair tt; intros Hs Hf Hc; try discriminate; exists z0; cbn [fds_of]; try (destruct Hs as [-> _]); by rewrite lookup_insert_eq.
Qed.
(** A process keeps the reading end of the pipe before it until it has seen
    its end. *)
Lemma has_reader k x : shape (S k) x → eof x = false → ∃ fd, fds_of (S k) x.1 !! fd = Some (Rd k).
Proof.
  destruct x as [[[]| | |] c]; rewrite /PrimesInv.shape; cbn [fst snd]; try done; unpair tt; intros Hs He; try discriminate.
  all: repeat match goal with H : _ ∧ _ |- _ => destruct H end.
  all: first [exfalso; lia | exists z; solve [fds] | exists z1; solve [fds]].
Qed.

Lemma npipes_forked cfg i x : wf cfg → cfg !! i = Some x → forked i x = true → (i < npipes cfg)%nat.
Proof.
  intros Hwf Hx Hf%(wf_forked _ _ Hwf _ _ Hx). destruct (lookup_lt_is_Some_2 cfg (pred (length cfg))) as [y Hy]; [lia|].
  rewrite (npipes_last cfg (pred (length cfg)) y) //; [destruct (piped _ _)|]; lia.
Qed.
Lemma pipe_lookup cfg i : (i < npipes cfg)%nat → pipes (world_of cfg) !! i = Some (encode (queue cfg i)).
Proof. intros Hi. rewrite /PrimesInv.world_of. cbn [pipes]. by rewrite list_lookup_fmap lookup_seq_lt. Qed.
Lemma previous cfg j x : wf cfg → cfg !! S j = Some x → ∃ z, cfg !! j = Some z ∧ forked j z = true.
Proof.
  intros Hwf Hx%lookup_lt_Some. destruct (lookup_lt_is_Some_2 cfg j) as [z Hz]; [lia|]. exists z. split; [done|]. by apply (wf_forked _ _ Hwf _ _ Hz).
Qed.
Lemma queue_at cfg j x z : cfg !! S j = Some x → cfg !! j = Some z → queue cfg j = drop x.2 (written j z).
Proof. intros Hx Hz. by rewrite /queue /count /wr Hx Hz. Qed.

Lemma output_last cfg i x : length cfg = S i → cfg !! i = Some x → output cfg = concat (imap printed (take i cfg)) ++ printed i x.
Proof.
  intros Hl Hx. rewrite /PrimesInv.output. rewrite -{1}(take_drop_middle cfg i x Hx) drop_ge; [|lia].
  rewrite imap_app concat_app. cbn. rewrite length_take Hl. rewrite app_nil_r. do 2 f_equal. lia.
Qed.

(** ** Reading *)
Lemma read_move cfg j x x' n q : wf cfg → cfg !! S j = Some x → queue cfg j = n :: q → shape (S j) x' →
  forked (S j) x' = forked (S j) x → piped (S j) x' = piped (S j) x → written (S j) x' = written (S j) x → x'.2 = S x.2 →
  printed (S j) x' = printed (S j) x → closed x = false → reaped x = false → reaped x' = false → eof x' = false → gone x' = gone x →
  (rank x' < rank x)%nat → advances cfg (set_proc (S j) (mkp (S j) x') (set_pipe j (encode q) (world_of cfg))).
Proof.
  intros Hwf Hx Hq Hs Hf Hp Hw Hc Ho Hcl Hr Hr' He Hg Hm. destruct (previous _ _ _ Hwf Hx) as (z & Hz & Hfz).
  pose proof (queue_at _ _ _ _ Hx Hz) as Hq'. rewrite Hq in Hq'.
  exists (<[S j := x']> cfg). split_and!.
  - apply (wf_update prt cfg (S j) x x' Hx Hwf Hs Hf).
    + intros y Hy. split_and!.
      * intros Hey. pose proof (wf_eof _ _ Hwf _ _ _ Hx Hy Hey). congruence.
      * rewrite Hr' -Hr. by apply (wf_gone _ _ Hwf (S j)).
      * rewrite Hw. by apply (wf_count _ _ Hwf (S j)).
    + intros j' z' [= <-] Hz'. rewrite Hz in Hz'. injection Hz' as <-. split_and!; [by rewrite He|rewrite Hg; by apply (wf_gone _ _ Hwf j)|].
      rewrite Hc. apply (f_equal length) in Hq'. rewrite length_drop in Hq'. cbn in Hq'. lia.
  - rewrite /set_proc /set_pipe /PrimesInv.world_of. cbn [procs pipes console]. f_equal; [by rewrite imap_insert| |by erewrite output_update].
    erewrite npipes_update; [|done..]. rewrite -(seq_insert (λ i, encode (queue cfg i)) (λ i, encode (queue (<[S j := x']> cfg) i)) j).
    + f_equal. f_equal. erewrite queue_prev; [|exact Hx|done]. rewrite Hc /wr Hz /=. by rewrite -Nat.add_1_r -drop_drop -Hq'.
    + intros i Hi. f_equal. destruct (decide (i = S j)) as [->|]; [|by apply queue_update; [done..|lia]].
      erewrite queue_own; [|done]. by rewrite Hw /queue /wr Hx.
  - eapply measure_update; [exact Hx|by eapply in_range|done].
Qed.

Context (sys : system) (junk_pfd : Z * Z) (junk : list Z).
Abbreviation code := (main prt junk_pfd junk).

(** The result of a read: the next number, or the end of the input. *)
Lemma step_read_inv cfg j st c a k w' : wf cfg → cfg !! S j = Some (st, c) → gone (st, c) = false → fds_of (S j) st !! a = Some (Rd j) →
  step_read (S j) (mkp (S j) (st, c)) a 4 k (world_of cfg) = Some w' →
  (∃ n q, queue cfg j = n :: q ∧ stream j !! c = Some n ∧
     w' = set_proc (S j) (goes (Run (k 4 (bytes_of_int n))) (mkp (S j) (st, c))) (set_pipe j (encode q) (world_of cfg))) ∨
  ((c ≥ length (stream j))%nat ∧ (∀ z, cfg !! j = Some z → closed z = true) ∧
     w' = set_proc (S j) (goes (Run (k 0 [])) (mkp (S j) (st, c))) (world_of cfg)).
Proof.
  intros Hwf Hx Hg Ha. destruct (previous _ _ _ Hwf Hx) as (z & Hz & Hfz). pose proof (wf_shape _ _ Hwf _ _ Hz) as Hsz.
  pose proof (queue_at _ _ _ _ Hx Hz) as Hq. cbn [snd] in Hq. rewrite /step_read. cbn [u_fds mkp fst]. rewrite Ha pipe_lookup; [|by eapply npipes_forked].
  cbn [default]. destruct (queue cfg j) as [|n q] eqn:Eq.
  - rewrite bool_decide_true //. destruct (opened (Wr j) (world_of cfg)) eqn:Eo; [done|]. intros [= <-]. right.
    assert (closed z = true) as Hcl.
    { destruct (closed z) eqn:Ecl; [done|]. destruct (has_writer _ _ Hsz Hfz Ecl) as [fd Hfd]. by rewrite (opened_true _ _ _ _ _ Hz Hfd) in Eo. }
    split_and!; [|intros z' Hz'; congruence|done]. rewrite (closed_written _ _ Hcl) in Hq. apply (f_equal length) in Hq. rewrite length_drop in Hq. cbn in Hq. lia.
  - rewrite bool_decide_false; [|rewrite encode_cons; intros E%(f_equal length); rewrite length_app bytes_length in E; cbn in E; lia].
    intros Hw'%(inj Some). subst w'. left. exists n, q. split_and!; [done| |].
    + eapply prefix_lookup_Some; [|by apply (written_prefix j z)]. rewrite -(Nat.add_0_r c) -lookup_drop -Hq //.
    + rewrite encode_cons. replace 4%nat with (length (bytes_of_int n)) by done. by rewrite take_app_length drop_app_length.
Qed.

Lemma line_bound n : n ∈ numbers → (length (line n) ≤ LINE prt)%nat.
Proof.
  intros Hn. rewrite /LINE. eapply (proj1 (Forall_forall _ _) (proj1 (list_max_le _ _) (le_n _))). apply list_elem_of_fmap. by exists n.
Qed.

Hypothesis junk_int : length junk = 4%nat.

Lemma step_sread cfg i pfd c w' : wf cfg → cfg !! i = Some (Run (S_read pfd), c) →
  step_proc sys code i (world_of cfg) = Some w' → advances cfg w'.
Proof.
  intros Hwf Hx. pose proof (wf_shape _ _ Hwf _ _ Hx) as Hs. destruct pfd as [a b]. rewrite /PrimesInv.shape in Hs. cbn [fst snd] in Hs. destruct Hs as (Hi & -> & Ha).
  destruct i as [|j]; [done|]. rewrite /step_proc lookup_proc Hx. cbn -[fds_of step_read].
  intros [(n & q & Hq & Hn & ->)|(Hc & Hcl & ->)]%step_read_inv; [| |done|exact Hx|done|by fds].
  - cbn [Z.eqb]. assert (n ∈ numbers) as Hin by (eapply stream_sub, list_elem_of_lookup_2; exact Hn).
    rewrite int_bytes //; [|by apply numbers_range]. assert (has_prime (S j) n) as Hp by (split; [done|]; cbn [pred]; by rewrite head_lookup).
    pose proof (line_bound n Hin) as Hlb. rewrite /goes. cbn [u_fds u_parent mkp fst].
    change (prt prime_fmt [n]) with (line n). destruct (line n) as [|ch rest] eqn:El; cbn [after_print].
    + apply (read_move cfg j _ (Run (S_pipe (a, b) n), 1%nat) n q Hwf Hx Hq); try done; [|rewrite /PrimesStep.rank; cbn [fst]; lia].
      rewrite /PrimesInv.printed. cbn [fst snd]. destruct Hp as [_ Hp]. cbn [pred] in Hp. assert (hd 0 (stream j) = n) as -> by (destruct (stream j); [discriminate Hp|by injection Hp]). exact El.
    + apply (read_move cfg j _ (Run (S_print (a, b) n ch rest), 1%nat) n q Hwf Hx Hq); try done.
      * rewrite /PrimesInv.shape. cbn [fst snd]. split_and!; [done..|]. by exists [].
      * rewrite /PrimesInv.printed. cbn [fst snd]. rewrite El. cbn [length]. by rewrite Nat.sub_diag.
      * rewrite /PrimesStep.rank. cbn [fst]. cbn [length] in Hlb. lia.
  - cbn [Z.eqb]. apply (quiet_move prt cfg (S j) (Run (S_read (a, b)), 0%nat) (Run (S_eof (a, b)), 0%nat)); try done.
    + rewrite /PrimesInv.shape. cbn [fst snd pred]. split_and!; [done..|]. destruct (stream j); [done|cbn in Hc; lia].
    + intros _. right. intros j' z [= <-] Hz. by apply Hcl.
    + by left.
    + rewrite /PrimesStep.rank. cbn [fst]. lia.
Qed.

Lemma step_pread cfg i pfd p next c w' : wf cfg → cfg !! i = Some (Run (P_read pfd p next), c) →
  step_proc sys code i (world_of cfg) = Some w' → advances cfg w'.
Proof.
  intros Hwf Hx. pose proof (wf_shape _ _ Hwf _ _ Hx) as Hs. destruct pfd as [a b], next as [x y]. rewrite /PrimesInv.shape in Hs. cbn [fst snd] in Hs.
  destruct Hs as (Hp & Hc & Ha). destruct i as [|j]; [by destruct Hp|]. rewrite /step_proc lookup_proc Hx. cbn -[fds_of step_read]. cbn [pred] in Hc.
  destruct (has_prime_stream _ _ Hp) as (r & Hin & Hst). cbn [pred] in Hin. pose proof (stream_length j) as Hlen.
  intros [(n & q & Hq & Hn & ->)|(Hge & Hcl & ->)]%step_read_inv; [| |done|exact Hx|done|by fds].
  - cbn [Z.gtb Z.compare]. assert (n ∈ numbers) as Hnum by (eapply stream_sub, list_elem_of_lookup_2; exact Hn).
    rewrite int_bytes //; [|by apply numbers_range]. apply lookup_lt_Some in Hn as Hlt. rewrite /goes. cbn [u_fds u_parent mkp fst].
    assert (r !! pred c = Some n) as Hr by (rewrite Hin in Hn; by destruct c; [lia|]).
    destruct (Z.eqb_spec (Z.rem n p) 0) as [Hrem|Hrem]; cbn [negb].
    + apply (read_move cfg j _ (Run (P_read (a, b) p (x, y)), S c) n q Hwf Hx Hq); try done.
      * rewrite /PrimesInv.shape. cbn [fst snd pred]. split_and!; [done|lia|lia|apply Ha..].
      * rewrite /written. cbn [fst snd pred]. rewrite Hin. cbn [tail]. destruct c as [|c]; [lia|]. cbn [Nat.sub pred] in Hr |- *. rewrite !Nat.sub_0_r.
        rewrite (take_snoc _ _ _ Hr) filt_app {2}/filt. cbn. rewrite Hrem. by rewrite app_nil_r.
      * rewrite /PrimesInv.printed. cbn [fst snd]. by destruct c; [lia|].
      * rewrite /PrimesStep.rank. cbn [fst snd]. lia.
    + apply (read_move cfg j _ (Run (P_write (a, b) p (x, y) n), S c) n q Hwf Hx Hq); try done.
      * rewrite /PrimesInv.shape. cbn [fst snd pred]. split_and!; [done|lia|lia|apply Ha..|done|done].
      * rewrite /PrimesInv.printed. cbn [fst snd]. by destruct c; [lia|].
      * rewrite /PrimesStep.rank. cbn [fst snd]. lia.
  - cbn [Z.gtb Z.compare]. apply (quiet_move prt cfg (S j) (Run (P_read (a, b) p (x, y)), c) (Run (P_close (a, b) (x, y)), c)); try done.
    + rewrite /PrimesInv.shape. cbn [fst snd pred]. split_and!; [done|lia|lia|apply Ha..].
    + rewrite /written. cbn [fst snd pred]. rewrite Hst Hin. cbn [tail]. rewrite take_ge //. rewrite Hin in Hge. cbn in Hge. lia.
    + intros _. right. intros j' z [= <-] Hz. by apply Hcl.
    + by left.
    + rewrite /PrimesStep.rank. cbn [fst snd]. lia.
Qed.

(** ** Writing *)
Lemma write_move cfg i x x' n : wf cfg → cfg !! i = Some x → shape i x' → forked i x' = forked i x → piped i x' = piped i x →
  written i x' = written i x ++ [n] → x'.2 = x.2 → printed i x' = printed i x → closed x = false → reaped x = false → reaped x' = false →
  i = 0%nat ∨ eof x' = false → gone x' = gone x → (rank x' < rank x)%nat →
  advances cfg (set_proc i (mkp i x') (set_pipe i (encode (queue cfg i ++ [n])) (world_of cfg))).
Proof.
  intros Hwf Hx Hs Hf Hp Hw Hc Ho Hcl Hr Hr' He Hg Hm. exists (<[i := x']> cfg). split_and!.
  - apply (wf_update prt cfg i x x' Hx Hwf Hs Hf).
    + intros y Hy. split_and!.
      * intros Hey. pose proof (wf_eof _ _ Hwf _ _ _ Hx Hy Hey). congruence.
      * rewrite Hr' -Hr. by apply (wf_gone _ _ Hwf i).
      * rewrite Hw length_app. pose proof (wf_count _ _ Hwf i x y Hx Hy). lia.
    + intros j z -> Hz. split_and!; [|rewrite Hg; by apply (wf_gone _ _ Hwf j)|rewrite Hc; by apply (wf_count _ _ Hwf j z x)].
      destruct He as [|He]; [done|]. by rewrite He.
  - rewrite /set_proc /set_pipe /PrimesInv.world_of. cbn [procs pipes console]. f_equal; [by rewrite imap_insert| |by erewrite output_update].
    erewrite npipes_update; [|done..]. rewrite -(seq_insert (λ i, encode (queue cfg i)) (λ j, encode (queue (<[i := x']> cfg) j)) i).
    + assert (queue cfg i ++ [n] = queue (<[i := x']> cfg) i) as ->; [|done]. erewrite queue_own; [|done].
      assert (queue cfg i = drop (count cfg (S i)) (written i x)) as -> by (by rewrite /queue /wr Hx).
      rewrite Hw drop_app_le //. rewrite /count. destruct (cfg !! S i) as [y|] eqn:Hy; [|cbn; lia].
      by apply (wf_count _ _ Hwf i x y).
    + intros j Hj. f_equal. destruct (decide (S j = i)) as [E|]; [|by apply queue_update; [done..|lia]]. subst i.
      erewrite queue_prev; [|exact Hx|done]. by rewrite Hc /queue /count Hx.
  - eapply measure_update; [exact Hx|by eapply in_range|done].
Qed.
Lemma step_write_inv cfg i st c fd n ok err w' : wf cfg → cfg !! i = Some (st, c) → gone (st, c) = false → closed (st, c) = false → forked i (st, c) = true →
  fds_of i st !! fd = Some (Wr i) → step_write i (mkp i (st, c)) fd (bytes_of_int n) ok err (world_of cfg) = Some w' →
  w' = set_proc i (goes (Run ok) (mkp i (st, c))) (set_pipe i (encode (queue cfg i ++ [n])) (world_of cfg)).
Proof.
  intros Hwf Hx Hg Hcl Hf Hfd. rewrite /step_write. cbn [u_fds mkp fst]. rewrite Hfd. rewrite pipe_lookup; [|by eapply npipes_forked].
  destruct (lookup_lt_is_Some_2 cfg (S i)) as [y Hy]; [by apply (wf_forked _ _ Hwf _ _ Hx)|].
  destruct (eof y) eqn:Ey; [by rewrite (wf_eof _ _ Hwf _ _ _ Hx Hy Ey) in Hcl|].
  destruct (has_reader _ _ (wf_shape _ _ Hwf _ _ Hy) Ey) as [fd' Hfd']. rewrite (opened_true _ _ _ _ _ Hy Hfd'). cbn [negb default].
  rewrite bytes_length encode_length. change (Z.to_nat PIPESIZE) with 512%nat.
  destruct (Nat.leb_spec 4 (512 - 4 * length (queue cfg i))) as [H4|H4].
  - intros Hw'%(inj Some). subst w'. by rewrite encode_app encode_cons app_nil_r.
  - destruct (Nat.eqb_spec (512 - 4 * length (queue cfg i)) 0); [done|lia].
Qed.

Lemma step_mwrite cfg i pfd n c w' : wf cfg → cfg !! i = Some (Run (M_write pfd n), c) →
  step_proc sys code i (world_of cfg) = Some w' → advances cfg w'.
Proof.
  intros Hwf Hx. pose proof (wf_shape _ _ Hwf _ _ Hx) as Hs. destruct pfd as [a b]. rewrite /PrimesInv.shape in Hs. cbn [fst snd] in Hs.
  destruct Hs as (-> & -> & Hb & Hn). rewrite /step_proc lookup_proc Hx. cbn -[fds_of step_write bytes_of_int Z.add Z.leb].
  intros Hst%step_write_inv; [|done|exact Hx|done..|by fds]. subst w'.
  assert (seqZ 2 (n + 1 - 2) = seqZ 2 (n - 2) ++ [n]) as Hsnoc.
  { replace (n + 1 - 2) with ((n - 2) + 1) by lia. rewrite seqZ_app; [|lia..]. f_equal. by replace (2 + (n - 2)) with n by lia. }
  destruct (Z.leb_spec (n + 1) LIMIT) as [Hle|Hgt].
  - apply (write_move cfg 0 (Run (M_write (a, b) n), 0%nat) (Run (M_write (a, b) (n + 1)), 0%nat)); try done.
    + split_and!; [done..|lia|lia].
    + by left.
    + rewrite /PrimesStep.rank. cbn [fst]. rewrite /LIMIT in Hle |- *. lia.
  - apply (write_move cfg 0 (Run (M_write (a, b) n), 0%nat) (Run (M_close1 (a, b)), 0%nat)); try done.
    + rewrite /written. cbn [fst]. rewrite -Hsnoc. change (stream 0) with numbers. rewrite /numbers. f_equal. lia.
    + by left.
    + rewrite /PrimesStep.rank. cbn [fst]. lia.
Qed.
Lemma step_pwrite cfg i pfd p next n c w' : wf cfg → cfg !! i = Some (Run (P_write pfd p next n), c) →
  step_proc sys code i (world_of cfg) = Some w' → advances cfg w'.
Proof.
  intros Hwf Hx. pose proof (wf_shape _ _ Hwf _ _ Hx) as Hs. destruct pfd as [a b], next as [x y]. rewrite /PrimesInv.shape in Hs. cbn [fst snd] in Hs.
  destruct Hs as (Hp & Hc & Hay & Hn & Hrem). rewrite /step_proc lookup_proc Hx. cbn -[fds_of step_write bytes_of_int].
  intros Hst%step_write_inv; [|done|exact Hx|done..|by fds]. subst w'. destruct (has_prime_stream _ _ Hp) as (r & Hin & _).
  apply (write_move cfg i (Run (P_write (a, b) p (x, y) n), c) (Run (P_read (a, b) p (x, y)), c)); try done.
  - rewrite /PrimesInv.shape. cbn [fst snd]. split_and!; [done|lia|lia|apply Hay..].
  - rewrite /written. cbn [fst snd]. rewrite Hin in Hn |- *. cbn [tail]. destruct c as [|[|c]]; [lia..|]. cbn [pred] in Hn. cbn [Nat.sub]. rewrite Nat.sub_0_r.
    change ((p :: r) !! S c) with (r !! c) in Hn. rewrite (take_snoc _ _ _ Hn) filt_app {2}/filt. cbn. by rewrite (proj2 (Z.eqb_neq _ _) Hrem).
  - by right.
  - rewrite /PrimesStep.rank. cbn [fst snd]. lia.
Qed.

(** ** Printing *)
Lemma step_print cfg i pfd p ch rest c w' : wf cfg → cfg !! i = Some (Run (S_print pfd p ch rest), c) →
  step_proc sys code i (world_of cfg) = Some w' → advances cfg w'.
Proof.
  intros Hwf Hx. pose proof (wf_shape _ _ Hwf _ _ Hx) as Hs. destruct pfd as [a b]. rewrite /PrimesInv.shape in Hs. cbn [fst snd] in Hs.
  destruct Hs as (Hp & -> & Ha & pre & Hpre). destruct i as [|j]; [by destruct Hp|]. rewrite /step_proc lookup_proc Hx. cbn -[fds_of step_write].
  rewrite /step_write. cbn [u_fds mkp fst fds_of]. rewrite lookup_insert_ne; [|red in Ha; lia]. cbn [lookup]. change (console_fds !! 1) with (Some Con).
  cbv iota. intros Hw'%(inj Some). subst w'. rewrite /goes. cbn [u_fds u_parent mkp fst].
  pose proof (last_length _ _ _ _ Hwf Hx eq_refl) as Hl.
  set (x' := (Run (after_print (a, b) p rest), 1%nat) : stage).
  assert (printed (S j) (Run (S_print (a, b) p ch rest), 1%nat) = pre) as Ho.
  { rewrite /PrimesInv.printed. cbn [fst]. rewrite Hpre length_app. cbn [length]. rewrite (_ : _ - _ = length pre)%nat; [apply take_app_length|lia]. }
  assert (printed (S j) x' = pre ++ [ch]) as Ho'.
  { subst x'. rewrite /PrimesInv.printed. cbn [fst snd]. destruct rest as [|ch' rest]; cbn [after_print].
    - rewrite -Hpre. destruct Hp as [_ Hp]. cbn [pred] in Hp. destruct (stream j); [discriminate Hp|by injection Hp as ->].
    - rewrite Hpre length_app. cbn [length]. rewrite (_ : _ - _ = length (pre ++ [ch]))%nat; [|rewrite length_app; cbn; lia].
      rewrite (_ : pre ++ ch :: ch' :: rest = (pre ++ [ch]) ++ ch' :: rest); [apply take_app_length|by rewrite -app_assoc]. }
  assert (forked (S j) x' = false ∧ piped (S j) x' = false ∧ written (S j) x' = [] ∧ eof x' = false ∧ gone x' = false) as (Hf' & Hp' & Hw' & He' & Hg') by (by destruct rest).
  exists (<[S j := x']> cfg). split_and!.
  - apply (wf_update prt cfg (S j) _ x' Hx Hwf); [|done|intros y Hy; by rewrite (last_none _ _ _ _ Hwf Hx) in Hy|].
    + destruct rest as [|ch' rest]; [by split_and!|]. split_and!; [done..|]. exists (pre ++ [ch]). by rewrite -app_assoc.
    + intros j' z [= <-] Hz. split_and!; [by rewrite He'|rewrite Hg'; by apply (wf_gone _ _ Hwf j _ _ Hz Hx)|by apply (wf_count _ _ Hwf j _ _ Hz Hx)].
  - rewrite /set_proc /put_console /PrimesInv.world_of. cbn [procs pipes console].
    rewrite -(pipes_move cfg (S j) _ x' Hx) // imap_insert. f_equal.
    + f_equal. rewrite /mkp. cbn [fst]. rewrite Hg'. by destruct rest.
    + rewrite (output_last (<[S j := x']> cfg) (S j) x'); [|by rewrite length_insert|by eapply at_i]. rewrite (output_last _ _ _ Hl Hx) Ho Ho'.
      by rewrite take_insert_ge // app_assoc.
  - eapply measure_update; [exact Hx|by eapply in_range|]. rewrite /PrimesStep.rank. cbn [fst]. destruct rest; cbn; lia.
Qed.

(** ** Waiting and exiting *)
Lemma find_proc_some {L} (f : uproc L → bool) j l n : find_proc f j l = Some n → ∃ p, (j ≤ n)%nat ∧ l !! (n - j)%nat = Some p ∧ f p = true.
Proof.
  revert j. induction l as [|p l IH]; intros j; cbn; [discriminate|]. destruct (f p) eqn:E.
  - intros [= <-]. exists p. by rewrite Nat.sub_diag.
  - intros (p' & Hj & Hl & Hf)%IH. exists p'. split_and!; [lia| |done]. by replace (n - j)%nat with (S (n - S j)) by lia.
Qed.
Lemma find_proc_none {L} (f : uproc L → bool) j l i p : find_proc f j l = None → l !! i = Some p → f p = false.
Proof.
  revert j i. induction l as [|q l IH]; intros j i; cbn; [intros _ ?; discriminate|]. destruct (f q) eqn:E; [discriminate|]. destruct i as [|i]; [by intros _ [= <-]|apply IH].
Qed.
Lemma is_child_mkp i j x : is_child i (mkp j x) = true ↔ j = S i ∧ gone x = false.
Proof.
  rewrite /is_child bool_decide_eq_true. cbn [u_parent mkp]. destruct (gone x); [split; [discriminate|by intros [_ ?]]|].
  destruct j as [|j]; [split; [discriminate|by intros [? _]]|]. split; [by intros [= ->]|by intros [[= ->] _]].
Qed.
Lemma is_zombie_mkp j x : is_zombie (mkp j x) = true → ∃ c, x.1 = Zombie c.
Proof. destruct x as [[]]; try discriminate. intros _. by eexists. Qed.

Lemma wf_reap cfg i x y x' : wf cfg → cfg !! i = Some x → cfg !! S i = Some y → is_zombie (mkp (S i) y) = true →
  shape i x' → forked i x' = forked i x → written i x' = written i x → x'.2 = x.2 → closed x = true → closed x' = true → gone x = false → gone x' = false → reaped x' = true →
  wf (<[i := x']> (<[S i := (Gone, y.2)]> cfg)).
Proof.
  intros Hwf Hx Hy [xs Hz]%is_zombie_mkp Hs Hf Hw Hc Hcl Hcl' Hg Hg' Hr'. pose proof Hwf as [H1 H2 H3 H4 H5 H6]. set (y' := (Gone, y.2) : stage).
  assert (<[S i := y']> cfg !! i = Some x) as Hx1 by (rewrite elsewhere; [done|lia]).
  assert (forked (S i) y' = forked (S i) y ∧ written (S i) y' = written (S i) y ∧ reaped y = true ∧ closed y = true ∧ eof y = true) as (Hfy & Hwy & Hry & Hcy & Hey).
  { destruct y as [st cy]. cbn in Hz. by subst st. }
  assert (∀ j u, <[i := x']> (<[S i := y']> cfg) !! j = Some u → (j = i ∧ u = x') ∨ (j = S i ∧ u = y') ∨ (j ≠ i ∧ j ≠ S i ∧ cfg !! j = Some u)) as Hcase.
  { intros j u Hu. destruct (decide (j = i)) as [->|Hi]; [rewrite (at_i _ _ _ _ Hx1) in Hu; injection Hu as <-; by left|]. rewrite elsewhere // in Hu. right.
    destruct (decide (j = S i)) as [->|Hi']; [rewrite (at_i _ _ _ _ Hy) in Hu; injection Hu as <-; by left|]. rewrite elsewhere // in Hu. by right. }
  split.
  - intros E%(f_equal length). rewrite !length_insert in E. apply lookup_lt_Some in Hx. cbn in E. lia.
  - intros j u [[-> ->]|[[-> ->]|(_ & _ & Hu)]]%Hcase; [done| |by apply H2]. pose proof (H2 _ _ Hy) as Hsy. destruct y as [st cy]. cbn [fst] in Hz. subst st.
    rewrite /PrimesInv.shape in Hsy. cbn [fst snd] in Hsy. destruct xs; [|done..]. cbv iota in Hsy. destruct (decide (S i = 0%nat)); [lia|done].
  - intros j u Hu. rewrite !length_insert. apply Hcase in Hu as [[-> ->]|[[-> ->]|(_ & _ & Hu)]]; [rewrite Hf|rewrite Hfy|]; by apply H3.
  - intros j u v [[-> ->]|[[-> ->]|(Hj & Hj' & Hu)]]%Hcase Hv; [done..|]. apply Hcase in Hv as [[E ->]|[[E ->]|(_ & _ & Hv)]]; [|lia|by eapply H4].
    intros _. apply (H4 j u x); [done|by rewrite E|]. destruct x as [[[]| | |] ?]; done.
  - intros j u v [[-> ->]|[[-> ->]|(Hj & Hj' & Hu)]]%Hcase Hv; apply Hcase in Hv as [[E ->]|[[E ->]|(Hn & Hn' & Hv)]]; try lia.
    + by rewrite Hr'.
    + rewrite (H5 _ _ _ Hy Hv) Hry //.
    + rewrite Hg' -Hg. apply (H5 j u x Hu). by rewrite E.
    + by eapply H5.
  - intros j u v [[-> ->]|[[-> ->]|(Hj & Hj' & Hu)]]%Hcase Hv; apply Hcase in Hv as [[E ->]|[[E ->]|(Hn & Hn' & Hv)]]; try lia.
    + rewrite Hw. by apply (H6 i x y).
    + rewrite Hwy. by apply (H6 (S i) y v).
    + rewrite Hc. apply (H6 j u x Hu). by rewrite E.
    + by eapply H6.
Qed.

Lemma step_wait_all cfg i l c k w' : wf cfg → cfg !! i = Some (Run l, c) → code l = UWait k →
  step_proc sys code i (world_of cfg) = Some w' → advances cfg w'.
Proof.
  intros Hwf Hx Hl. pose proof (wf_shape _ _ Hwf _ _ Hx) as Hs. rewrite /step_proc lookup_proc Hx. cbn -[fds_of step_wait]. rewrite Hl.
  assert (k = λ _, Exit0) as -> by (destruct l; try discriminate Hl; by injection Hl).
  assert (forked i (Run l, c) = true ∧ closed (Run l, c) = true ∧ reaped (Run l, c) = false ∧ fds_of i (Run l) = console_fds) as (Hf & Hcl & Hr & Hfds) by (destruct l; first [discriminate Hl|done]).
  assert (shape i (Run Exit0, c) ∧ forked i (Run Exit0, c) = true ∧ printed i (Run Exit0, c) = printed i (Run l, c) ∧ (3 < rank (Run l, c))%nat) as (Hs' & Hf' & Ho' & Hm).
  { destruct l; try discriminate Hl; rewrite /PrimesInv.shape in Hs |- *; cbn [fst snd] in *; rewrite /PrimesStep.rank; cbn [fst].
    - destruct Hs as [-> ->]. split_and!; [done..|lia].
    - destruct Hs as (Hi & Hc & Hc0). rewrite decide_False //. destruct i, c; [done..|]. split_and!; [done..|lia]. }
  destruct (lookup_lt_is_Some_2 cfg (S i)) as [y Hy]; [by apply (wf_forked _ _ Hwf _ _ Hx)|].
  pose proof (wf_gone _ _ Hwf _ _ _ Hx Hy) as Hgy. rewrite Hr in Hgy. rewrite /step_wait. destruct (find_proc _ _ _) as [n|] eqn:En.
  - apply find_proc_some in En as (p & _ & Hp & [Hch Hz]%andb_true_iff). rewrite Nat.sub_0_r lookup_proc in Hp.
    destruct (cfg !! n) as [y'|] eqn:Hy'; [|discriminate]. injection Hp as <-. apply is_child_mkp in Hch as [-> _]. rewrite Hy in Hy'. injection Hy' as <-.
    intros Hw'%(inj Some). subst w'. pose proof (is_zombie_mkp _ _ Hz) as [xs Hxs].
    assert (<[S i := (Gone, y.2) : stage]> cfg !! i = Some (Run l, c)) as Hx1 by (rewrite elsewhere; [done|lia]).
    exists (<[i := (Run Exit0, c)]> (<[S i := (Gone, y.2)]> cfg)). split_and!.
    + eapply wf_reap; try done; [congruence|]. by rewrite !closed_written.
    + erewrite <- (world_move prt (<[S i := (Gone, y.2)]> cfg) i _ (Run Exit0, c) Hx1); [|destruct l; first [discriminate Hl|by rewrite /piped Hf'|done]|by rewrite !closed_written|done|done].
      erewrite <- (world_move prt cfg (S i) _ (Gone, y.2) Hy); [|destruct y; cbn in Hxs; by subst..].
      rewrite /goes /mkp. cbn [u_fds u_parent fst snd]. rewrite Hfds. destruct l; first [discriminate Hl|done].
    + etransitivity; [eapply measure_update; [exact Hx1|by eapply in_range|exact Hm]|].
      eapply measure_update; [exact Hy|by eapply in_range|]. destruct y. cbn in Hxs. subst. cbn. lia.
  - assert (existsb (is_child i) (procs (world_of cfg)) = true) as ->; [|done]. apply existsb_exists. exists (mkp (S i) y). split.
    + apply list_elem_of_In, list_elem_of_lookup. exists (S i). by rewrite lookup_proc Hy.
    + by apply is_child_mkp.
Qed.
Lemma step_exit_ok cfg i c : wf cfg → cfg !! i = Some (Run Exit0, c) →
  advances cfg (step_exit i (mkp i (Run Exit0, c)) 0 (world_of cfg)).
Proof.
  intros Hwf Hx. rewrite /step_exit. assert (orphan i <$> procs (world_of cfg) = procs (world_of cfg)) as ->.
  { apply list_eq. intros j. rewrite list_lookup_fmap lookup_proc. destruct (cfg !! j) as [y|] eqn:Hy; [|reflexivity].
    cbn. f_equal. rewrite /orphan. destruct (is_child i (mkp j y)) eqn:E; [|reflexivity]. apply is_child_mkp in E as [-> Hg]. rewrite (wf_gone _ _ Hwf _ _ _ Hx Hy) in Hg. discriminate Hg. }
  apply (quiet_move prt cfg i (Run Exit0, c) (Zombie 0, c)); try done; [exact (wf_shape _ _ Hwf _ _ Hx)|by left|by left|].
  rewrite /PrimesStep.rank. cbn [fst]. lia.
Qed.

Hypothesis files_enough : (120 ≤ max_file sys)%nat.
Hypothesis procs_enough : (61 ≤ max_proc sys)%nat.
Hypothesis pid_pos : ∀ i, 0 < pid_of sys i.

(** Every step *)
Lemma step_all cfg i w' : wf cfg → step_proc sys code i (world_of cfg) = Some w' → advances cfg w'.
Proof.
  intros Hwf Hstep. destruct (cfg !! i) as [[st c]|] eqn:Hx; [|rewrite /step_proc lookup_proc Hx in Hstep; discriminate Hstep].
  pose proof (wf_shape _ _ Hwf _ _ Hx) as Hs. destruct st as [l|fd rest ok err|xs|]; [|done|rewrite /step_proc lookup_proc Hx in Hstep; discriminate Hstep..].
  destruct (code l) as [k|k|fd k|fd n k|fd bs k|k|k|xs] eqn:Hl.
  - by eapply step_pipe_all.
  - by eapply step_fork_all.
  - by eapply step_close.
  - destruct l; try discriminate Hl; [by eapply step_sread|by eapply step_pread].
  - destruct l; try discriminate Hl; [by eapply step_mwrite|by eapply step_print|by eapply step_pwrite].
  - destruct l; discriminate Hl.
  - by eapply step_wait_all.
  - destruct l; try discriminate Hl. injection Hl as <-. rewrite /step_proc lookup_proc Hx in Hstep. injection Hstep as <-. by apply step_exit_ok.
Qed.
Lemma start_described : start M_pipe = world_of [(Run M_pipe, 0%nat)] ∧ wf [(Run M_pipe, 0%nat)].
Proof.
  split; [done|]. split; [done|..].
  - by intros [|i] x [= <-].
  - intros [|i] x [= <-]. split; [discriminate|cbn; lia].
  - intros [|i] x y _ ?; discriminate.
  - intros [|i] x y _ ?; discriminate.
  - intros [|i] x y _ ?; discriminate.
Qed.
Lemma reachable_described w : reachable sys code M_pipe w → ∃ cfg, wf cfg ∧ w = world_of cfg.
Proof.
  destruct start_described as [Hs Hwf0]. rewrite /reachable. rewrite Hs. intros H. 
  assert (∀ w0, rtc (step sys code) w0 w → ∀ cfg, wf cfg → w0 = world_of cfg → ∃ cfg', wf cfg' ∧ w = world_of cfg') as Hind; [|by eapply Hind].
  clear H. intros w0. induction 1 as [w|w1 w2 w3 [i Hi] _ IH]; intros cfg Hwf ->; [by exists cfg|].
  destruct (step_all _ _ _ Hwf Hi) as (cfg' & Hwf' & -> & _). by eapply IH.
Qed.
Lemma described_terminates cfg : wf cfg → Acc (λ w' w, step sys code w w') (world_of cfg).
Proof.
  revert cfg. apply (well_founded_induction_type (Wf_nat.well_founded_ltof _ measure) (λ cfg, wf cfg → Acc _ (world_of cfg))).
  intros cfg IH Hwf. constructor. intros w' [i Hi]. destruct (step_all _ _ _ Hwf Hi) as (cfg' & Hwf' & -> & Hm). by apply IH.
Qed.
End run.
