(* ===== verification/PrimesLive.v ===== *)
(** * The sieve of processes prints the primes

    It does not deadlock, and when it is done it has printed all of them. *)
From Stdlib Require Import Znumtheory.
From S2P Require Import Prelude Riscv Pipe UPrintf User Primes PrimesInv PrimesStep PrimesRun.

(** ** Primes *)
Lemma primeb_prime n : 2 ≤ n → primeb n = true ↔ Z.prime n.
Proof.
  intros Hn. rewrite /Z.prime /primeb forallb_forall. split.
  - intros H. split; [lia|]. intros d Hd Hdiv. specialize (H d). rewrite -list_elem_of_In elem_of_seqZ negb_true_iff Z.eqb_neq in H.
    apply H; [lia|]. by apply Z.mod_divide; [lia|].
  - intros [_ H] d Hd%list_elem_of_In%elem_of_seqZ. apply negb_true_iff, Z.eqb_neq. intros Hm. apply (H d); [lia|]. by apply Z.mod_divide; [lia|].
Qed.

Section live.
Context (prt : list Z → list Z → list Z) (sys : system) (junk_pfd : Z * Z) (junk : list Z).
Abbreviation code := (main prt junk_pfd junk).
Abbreviation wf := (wf prt).
Abbreviation shape := (shape prt).
Abbreviation world_of := (world_of prt).
Abbreviation printed := (printed prt).
Abbreviation output := (output prt).
Abbreviation line := (line prt).

(** Who has the writing end of a pipe *)
Lemma console_only fd e : console_fds !! fd = Some e → e = Con.
Proof. rewrite /console_fds. intros H. repeat (apply lookup_insert_Some in H as [[_ <-]|[_ H]]; [done|]). by apply lookup_singleton_Some in H as [_ <-]. Qed.
Lemma writer_inv k x fd q : shape k x → fds_of k x.1 !! fd = Some (Wr q) →
  (k = q ∧ closed x = false) ∨ (k = S q ∧ match x.1 with Run (C_close0 _ _) | Run (S_close1 _) => True | _ => False end).
Proof.
  destruct x as [[[]| | |] c]; rewrite /PrimesInv.shape; cbn [fst snd]; try done; unpair junk_pfd; intros Hs Hfd.
  all: repeat match goal with H : _ ∧ _ |- _ => destruct H end; cbn [fds_of] in Hfd.
  all: repeat rewrite lookup_insert_Some in Hfd.
  all: repeat match goal with H : _ ∨ _ |- _ => destruct H | H : _ ∧ _ |- _ => destruct H end; subst; try discriminate.
  all: try (match goal with H : console_fds !! _ = _ |- _ => apply console_only in H; discriminate H end).
  all: try match goal with H : Wr _ = Wr _ |- _ => injection H as <- end.
  all: first [by left | right; split; [lia|done]].
Qed.

(** ** Deadlock freedom *)
Definition finished (x : stage) : Prop := match x.1 with Zombie _ | Gone => True | _ => False end.
(** The three ways to block *)
Definition starved (cfg : list stage) (i : nat) : Prop := ∃ j z, i = S j ∧ cfg !! j = Some z ∧ queue cfg j = [] ∧ closed z = false.
Definition stuffed (cfg : list stage) (i : nat) (x : stage) : Prop := queue cfg i ≠ [] ∧ closed x = false ∧ forked i x = true.
Definition awaits (cfg : list stage) (i : nat) (x : stage) : Prop :=
  closed x = true ∧ reaped x = false ∧ forked i x = true ∧ ∃ y, cfg !! S i = Some y ∧ is_zombie (mkp (S i) y) = false.

Lemma read_blocked cfg i st c a k : wf cfg → cfg !! i = Some (st, c) → i ≠ 0%nat → gone (st, c) = false → fds_of i st !! a = Some (Rd (pred i)) →
  match st with Run (C_close0 _ _) | Run (S_close1 _) => False | _ => True end →
  step_read i (mkp i (st, c)) a 4 k (world_of cfg) = None → starved cfg i.
Proof.
  intros Hwf Hx Hi Hg Ha Hst. destruct i as [|j]; [done|]. cbn [pred] in Ha. destruct (previous _ _ _ _ Hwf Hx) as (z & Hz & Hfz).
  rewrite /step_read. cbn [u_fds mkp fst]. rewrite Ha pipe_lookup; [|by eapply npipes_forked]. cbn [default].
  destruct (queue cfg j) as [|n q] eqn:Eq; [|rewrite bool_decide_false; [done|rewrite encode_cons; intros E%(f_equal length); rewrite length_app bytes_length in E; cbn in E; lia]].
  rewrite bool_decide_true //. destruct (opened (Wr j) (world_of cfg)) eqn:Eo; [|done]. intros _. exists j, z. split_and!; [done..|].
  apply opened_inv in Eo as (i' & x' & fd & Hx' & Hfd). destruct (writer_inv _ _ _ _ (wf_shape _ _ Hwf _ _ Hx') Hfd) as [[-> Hcl]|[-> Hc]]; [by simplify_eq|].
  rewrite Hx in Hx'. injection Hx' as <-. by destruct st as [[]| | |].
Qed.
Lemma write_blocked cfg i st c fd n ok err : wf cfg → cfg !! i = Some (st, c) → closed (st, c) = false → forked i (st, c) = true →
  fds_of i st !! fd = Some (Wr i) → step_write i (mkp i (st, c)) fd (bytes_of_int n) ok err (world_of cfg) = None → stuffed cfg i (st, c).
Proof.
  intros Hwf Hx Hcl Hf Hfd. rewrite /step_write. cbn [u_fds mkp fst]. rewrite Hfd. rewrite pipe_lookup; [|by eapply npipes_forked]. cbn [default].
  destruct (negb _); [done|]. rewrite bytes_length encode_length. destruct (Nat.leb_spec 4 (Z.to_nat PIPESIZE - 4 * length (queue cfg i))) as [H4|H4]; [done|].
  intros _. split_and!; [|done..]. intros E. rewrite E in H4. change (Z.to_nat PIPESIZE) with 512%nat in H4. cbn [length] in H4. lia.
Qed.
Lemma wait_blocked cfg i x k : wf cfg → cfg !! i = Some x → closed x = true → reaped x = false → forked i x = true →
  step_wait sys i (mkp i x) k (world_of cfg) = None → awaits cfg i x.
Proof.
  intros Hwf Hx Hcl Hr Hf. destruct (lookup_lt_is_Some_2 cfg (S i)) as [y Hy]; [by apply (wf_forked _ _ Hwf _ _ Hx)|].
  rewrite /step_wait. destruct (find_proc _ _ _) as [n|] eqn:En; [done|]. intros _. split_and!; [done..|]. exists y. split; [done|].
  eapply (find_proc_none _ _ _ (S i) (mkp (S i) y)) in En; [|by rewrite lookup_proc Hy]. apply andb_false_iff in En as [En|En]; [|done].
  assert (is_child i (mkp (S i) y) = true) as H; [|by rewrite H in En]. apply is_child_mkp. split; [done|]. by rewrite (wf_gone _ _ Hwf _ _ _ Hx Hy).
Qed.
Lemma blocked_inv cfg i x : wf cfg → cfg !! i = Some x → step_proc sys code i (world_of cfg) = None →
  finished x ∨ starved cfg i ∨ stuffed cfg i x ∨ awaits cfg i x.
Proof.
  intros Hwf Hx. pose proof (wf_shape _ _ Hwf _ _ Hx) as Hs. rewrite /step_proc lookup_proc Hx. destruct x as [[l| | |] c]; [|done|by left..].
  destruct l; unpair junk_pfd; rewrite /PrimesInv.shape in Hs; cbn [fst snd] in Hs; repeat match goal with H : _ ∧ _ |- _ => destruct H end; cbn -[fds_of step_read step_write step_wait bytes_of_int]; try discriminate; intros Hb.
  - do 2 right. left. subst. eapply write_blocked; [done..| |exact Hb]. by fds.
  - do 3 right. subst. by eapply wait_blocked.
  - right. left. eapply (read_blocked _ _ _ _ z); [done|exact Hx|done|done|by fds|done|exact Hb].
  - exfalso. rewrite /step_write in Hb. cbn [u_fds mkp fst fds_of] in Hb. rewrite lookup_insert_ne in Hb; [|red in H1; lia]. change (console_fds !! 1) with (Some Con) in Hb. discriminate Hb.
  - right. left. eapply (read_blocked _ _ _ _ z1); [done|exact Hx|by destruct H|done|by fds|done|exact Hb].
  - do 2 right. left. eapply write_blocked; [done..| |exact Hb]. by fds.
  - do 3 right. by eapply wait_blocked.
Qed.

(** Nothing can run only when everything has finished. *)
Lemma stuck_finished cfg : wf cfg → (∀ i, step_proc sys code i (world_of cfg) = None) → ∀ i x, cfg !! i = Some x → finished x.
Proof.
  intros Hwf Hstuck. assert (∀ i, (i < length cfg)%nat → ¬ starved cfg i) as Hns.
  { induction i as [|i IH]; intros Hi (j & z & Hj & Hz & Hq & Hcl); [done|]. injection Hj as <-.
    destruct (blocked_inv _ _ _ Hwf Hz (Hstuck i)) as [H|[H|[(H & _)|(H & _)]]]; [|by apply IH; [lia|]|done|by rewrite H in Hcl].
    by destruct z as [[[]| | |] ?]; first [discriminate Hcl|destruct H]. }
  assert (∀ d i x, (length cfg - i = d)%nat → cfg !! i = Some x → finished x) as Hall; [|by intros; eapply Hall].
  induction d as [|d IH]; intros i x Hd Hx; [apply lookup_lt_Some in Hx; lia|]. apply lookup_lt_Some in Hx as Hi.
  destruct (blocked_inv _ _ _ Hwf Hx (Hstuck i)) as [H|[H|[(_ & Hcl & Hf)|(_ & Hr & _ & y & Hy & Hz)]]]; [done|by apply Hns in H| |].
  - destruct (lookup_lt_is_Some_2 cfg (S i)) as [y Hy]; [by apply (wf_forked _ _ Hwf _ _ Hx)|].
    assert (finished y) as Hy' by (eapply (IH (S i)); [lia|done]). assert (eof y = true) as He by (by destruct y as [[[]| | |] ?]; first [destruct Hy'|done]).
    by rewrite (wf_eof _ _ Hwf _ _ _ Hx Hy He) in Hcl.
  - assert (finished y) as Hy' by (eapply (IH (S i)); [lia|done]). assert (gone y = true) as Hg by (by destruct y as [[[]| | |] ?]; first [destruct Hy'|discriminate Hz|done]).
    by rewrite (wf_gone _ _ Hwf _ _ _ Hx Hy) Hr in Hg.
Qed.

(** ** The output *)
Definition full (k : nat) : list Z := concat ((λ j, line (hd 0 (stream j))) <$> seq 0 k).
Arguments full : simpl never.
Lemma full_S k : full (S k) = full k ++ line (hd 0 (stream k)).
Proof. by rewrite /full seq_S fmap_app concat_app /= app_nil_r. Qed.
Lemma full_mono k k' : (k ≤ k')%nat → full k `prefix_of` full k'.
Proof. induction 1 as [|k' _ IH]; [done|]. rewrite full_S. by apply prefix_app_r. Qed.

Lemma printed_forked i x : shape i x → forked i x = true → printed i x = match i with O => [] | S j => line (hd 0 (stream j)) end.
Proof.
  destruct x as [[[]| | |] c]; rewrite /PrimesInv.shape /PrimesInv.printed; cbn [fst snd]; try done; unpair junk_pfd; intros Hs Hf; try discriminate.
  all: repeat match goal with H : _ ∧ _ |- _ => destruct H end; destruct i as [|i]; try done.
  all: destruct c as [|c]; first [done|discriminate Hf|lia].
Qed.
Lemma output_take cfg i : wf cfg → (i < length cfg)%nat → concat (imap printed (take i cfg)) = full (pred i).
Proof.
  intros Hwf. induction i as [|i IH]; intros Hi; [done|]. destruct (lookup_lt_is_Some_2 cfg i) as [x Hx]; [lia|].
  rewrite (take_snoc _ _ _ Hx) imap_app concat_app IH; [|lia]. cbn. rewrite app_nil_r length_take Nat.add_0_r Nat.min_l; [|lia].
  rewrite printed_forked; [|by apply (wf_shape _ _ Hwf)|by apply (wf_forked _ _ Hwf _ _ Hx)]. destruct i; [done|]. by rewrite full_S.
Qed.
Lemma printed_last i x : shape i x → forked i x = false → printed i x = [] ∨ ∃ k, i = S k ∧ (k < 59)%nat ∧ printed i x `prefix_of` line (hd 0 (stream k)).
Proof.
  assert (∀ i p, has_prime i p → ∃ k, i = S k ∧ (k < 59)%nat ∧ hd 0 (stream k) = p) as Hhp.
  { clear. intros i p Hp. destruct i as [|k]; [by destruct Hp|]. exists k. split_and!; [done|pose proof (has_prime_small _ _ Hp); lia|].
    destruct Hp as [_ Hp]. cbn [pred] in Hp. destruct (stream k); [discriminate Hp|by injection Hp]. }
  destruct x as [[[]| | |] c]; rewrite /PrimesInv.shape /PrimesInv.printed; cbn [fst snd]; try done; unpair junk_pfd; intros Hs Hf; try discriminate.
  all: repeat match goal with H : _ ∧ _ |- _ => destruct H end; subst; try (by left); try (left; by destruct i).
  - right. destruct (Hhp _ _ H) as (k & -> & Hk & Hh). exists k. split_and!; [done..|]. rewrite Hh. eexists. symmetry. apply take_drop.
  - right. destruct (Hhp _ _ H) as (k & -> & Hk & Hh). by exists k.
  - right. destruct (Hhp _ _ H) as (k & -> & Hk & Hh). by exists k.
  - left. destruct i; [done|]. destruct c; first [done|discriminate Hf].
  - left. destruct i; [done|]. destruct c; first [done|discriminate Hf].
  - left. destruct i; [done|]. rewrite /forked in Hf. cbn [fst snd] in Hf. destruct (length _); first [done|discriminate Hf].
Qed.
Lemma last_stage cfg : wf cfg → ∃ i x, length cfg = S i ∧ cfg !! i = Some x ∧ forked i x = false.
Proof.
  intros Hwf. destruct (lookup_lt_is_Some_2 cfg (pred (length cfg))) as [x Hx]; [pose proof (wf_some _ _ Hwf); destruct cfg; [done|cbn; lia]|].
  apply lookup_lt_Some in Hx as Hl. exists (pred (length cfg)), x. split_and!; [lia|done|]. destruct (forked _ x) eqn:Hf; [|done].
  apply (wf_forked _ _ Hwf _ _ Hx) in Hf. lia.
Qed.
Lemma output_prefix cfg : wf cfg → output cfg `prefix_of` full 59.
Proof.
  intros Hwf. destruct (last_stage cfg Hwf) as (i & x & Hl & Hx & Hf). rewrite (output_last _ _ _ _ Hl Hx) output_take //; [|lia].
  destruct (printed_last i x (wf_shape _ _ Hwf _ _ Hx) Hf) as [->|(k & -> & Hk & Hp)].
  - rewrite app_nil_r. apply full_mono. pose proof (wf_length _ _ Hwf) as Hn. rewrite /STAGES in Hn. lia.
  - etransitivity; [|apply (full_mono (S k)); lia]. rewrite full_S. by apply prefix_app.
Qed.
Lemma streams_nonempty k : (k < 59)%nat → stream k ≠ [].
Proof.
  intros Hk. assert (forallb (λ k, match stream k with [] => false | _ => true end) (seq 0 59) = true) as H by (vm_compute; reflexivity).
  rewrite forallb_forall in H. specialize (H k). rewrite -list_elem_of_In elem_of_seq in H. specialize (H ltac:(lia)). by destruct (stream k).
Qed.
Lemma output_finished cfg : wf cfg → (∀ i x, cfg !! i = Some x → finished x) → output cfg = full 59.
Proof.
  intros Hwf Hfin. destruct (last_stage cfg Hwf) as (i & x & Hl & Hx & Hf). rewrite (output_last _ _ _ _ Hl Hx) output_take //; [|lia].
  pose proof (Hfin _ _ Hx) as Hd. pose proof (wf_shape _ _ Hwf _ _ Hx) as Hs.
  assert (i ≠ 0%nat ∧ x.2 = 0%nat ∧ input i = [] ∧ printed i x = []) as (Hi & Hc & Hin & ->).
  { destruct x as [[| |xs|] c]; cbn in Hd; try done; rewrite /forked in Hf; rewrite /PrimesInv.shape in Hs; cbn [fst snd] in *; (destruct i as [|i]; [discriminate Hf|]); (destruct c; [|discriminate Hf]).
    - destruct xs; [|done..]. cbv iota in Hs. destruct (decide _); [lia|]. split_and!; [done..| |done]. destruct (input (S i)); [done|discriminate Hs].
    - destruct Hs as [_ Hs]. split_and!; [done..| |done]. destruct (input (S i)); [done|discriminate Hs]. }
  rewrite app_nil_r. destruct i as [|k]; [done|]. cbn [pred] in *. f_equal.
  destruct (decide (k < 59)%nat) as [Hk|Hk]; [by apply streams_nonempty in Hk|].
  pose proof (wf_length _ _ Hwf) as Hn. rewrite /STAGES in Hn. lia.
Qed.
End live.

(** The heads of the streams are the primes. *)
Lemma full_expected : full primes_printf 59 = expected.
Proof.
  rewrite /full /expected. assert ((λ k, hd 0 (stream k)) <$> seq 0 59 = List.filter primeb (seqZ 2 (LIMIT - 1))) as <- by (vm_compute; reflexivity).
  by rewrite -list_fmap_compose.
Qed.

(** The process has called [exit(0)]. *)
Definition exited (p : uproc loc) : Prop := match u_st p with Zombie 0 | Gone => True | _ => False end.

(** C15. primes.c prints the primes up to 280, in order, one on a line,
    whatever the interleaving of its processes, given a file table with room
    for 120 ends of pipes and a process table with room for 61 processes.  At
    every moment the output is a prefix of the list of the primes; no sequence
    of steps is infinite; and when no process can go on, no deadlock has
    happened: all processes have exited and the whole list is printed. *)
Theorem primes_correct sys junk_pfd junk w :
  (120 ≤ max_file sys)%nat → (61 ≤ max_proc sys)%nat → (∀ i, 0 < pid_of sys i) → length junk = 4%nat →
  let code := main primes_printf junk_pfd junk in
  reachable sys code M_pipe w →
  console w `prefix_of` expected ∧ Acc (λ w2 w1, step sys code w1 w2) w ∧
  ((∀ w', ¬ step sys code w w') →
     console w = expected ∧ Forall exited (procs w)).
Proof.
  intros Hfile Hproc Hpid Hjunk code (cfg & Hwf & ->)%reachable_described; [|done..]. split_and!.
  - rewrite -full_expected. by apply output_prefix.
  - by apply described_terminates.
  - intros Hstuck. assert (∀ i x, cfg !! i = Some x → finished x) as Hfin.
    { apply (stuck_finished primes_printf sys junk_pfd junk); [done|]. intros i. destruct (step_proc _ _ i _) as [w'|] eqn:E; [|done]. exfalso. apply (Hstuck w'). by exists i. }
    split; [rewrite -full_expected; by apply output_finished|]. apply Forall_lookup. intros i p Hp. rewrite lookup_proc in Hp.
    destruct (cfg !! i) as [x|] eqn:Hx; [|discriminate]. injection Hp as <-. pose proof (wf_shape _ _ Hwf _ _ Hx) as Hs. specialize (Hfin _ _ Hx).
    destruct x as [[| |xs|] c]; cbn in Hfin |- *; try done. rewrite /shape in Hs. cbn [fst] in Hs. by destruct xs.
Qed.
