(* ===== verification/PrimesLimit.v ===== *)
(** * The sieve of processes can run out of files

    The kernel has NFILE = 100 open files, one of which is the console of the
    shell: under some interleavings primes.c needs more, [pipe] fails, and the
    program goes on with the descriptors it happens to find in [next_pfd]. *)
From S2P Require Import Prelude Riscv Pipe UPrintf User Primes PrimesInv PrimesStep PrimesRun PrimesLive.

(** The tables when init and the shell have their processes and the console *)
Definition xv6 : system := mk_system (Z.to_nat NFILE - 1) (Z.to_nat NPROC - 2) (λ i, Z.of_nat i + 3).

Section drive.
Context (sys : system) (code : loc → call loc).
(** A schedule that sends each number as far down as it goes: process [i]
    runs until it blocks, then the next one if there is something for it to
    read, and else main for one step. *)
Fixpoint drive (n i : nat) (w : world loc) : world loc :=
  match n with
  | O => w
  | S n' =>
      match step_proc sys code i w with
      | Some w' => drive n' (if (i =? 0)%nat then 1%nat else i) w'
      | None => drive n' (if bool_decide (default [] (pipes w !! i) = []) then 0%nat else S i) w
      end
  end.
Lemma drive_reachable n i w0 w : reachable sys code w0 w → reachable sys code w0 (drive n i w).
Proof.
  revert i w. induction n as [|n IH]; intros i w Hw; cbn [drive]; [done|]. destruct (step_proc sys code i w) as [w'|] eqn:E; [|by apply IH].
  apply IH. eapply rtc_r; [exact Hw|by exists i].
Qed.
End drive.

(** A file table that is large enough *)
Definition roomy : system := mk_system 120 61 (λ i, Z.of_nat i + 3).
Lemma primes_correct_witness :
  let code := main primes_printf (-1, -2) [0; 0; 0; 0] in
  let w := drive roomy code 100 0 (start M_pipe) in
  console w = concat (prime_line <$> [2; 3; 5; 7]) ∧ console w `prefix_of` expected ∧ Acc (λ w2 w1, step roomy code w1 w2) w.
Proof.
  intros code w. split; [vm_compute; reflexivity|].
  destruct (primes_correct roomy (-1, -2) [0; 0; 0; 0] w) as (H1 & H2 & _); [cbn; lia..|intros i; cbn; lia|done| |done].
  apply drive_reachable, rtc_refl.
Defined.

(** ** When the file table is full *)

Section full.
Context (sys : system) (printf : list Z → list Z → list Z) (junk_pfd : Z * Z) (junk : list Z).
Let code := main printf junk_pfd junk.

Lemma set_proc_lookup (i : nat) (p : uproc loc) w : is_Some (procs w !! i) → procs (set_proc i p w) !! i = Some p.
Proof. intros H. by apply list_lookup_insert_eq, lookup_lt_is_Some. Qed.
(** A process can take a step that only concerns itself. *)
Lemma step_self i w w' w'' : step_proc sys code i w = Some w' → rtc (step sys code) w' w'' → rtc (step sys code) w w''.
Proof. intros E H. eapply rtc_l; [by exists i|done]. Qed.

(** [printf] writes its line byte by byte. *)
Lemma print_line pfd v out i w p :
  procs w !! i = Some p → u_st p = Run (after_print pfd v out) → u_fds p !! 1 = Some Con →
  ∃ w', rtc (step sys code) w w' ∧ console w' = console w ++ out.
Proof.
  revert w p. induction out as [|c out IH]; intros w p Hp Hst Hfd; [exists w; by rewrite app_nil_r|].
  set (w1 := set_proc i (goes (Run (after_print pfd v out)) p) (put_console [c] w)).
  assert (step_proc sys code i w = Some w1) as E.
  { rewrite /step_proc Hp /= Hst. cbn [after_print code main sieve]. by rewrite /step_write Hfd. }
  destruct (IH w1 (goes (Run (after_print pfd v out)) p)) as (w' & Hr & Hc).
  - apply set_proc_lookup. cbn. by rewrite Hp.
  - done.
  - done.
  - exists w'. split; [by eapply step_self|]. rewrite Hc. cbn. by rewrite -app_assoc.
Qed.

(** A child of [sieve] with descriptors that are not open prints the number
    it has not read. *)
Lemma sieve_no_file pfd i w p :
  procs w !! i = Some p → u_st p = Run (C_close0 pfd junk_pfd) → u_fds p !! 1 = Some Con → pfd.1 ≠ 1 →
  u_fds p !! junk_pfd.1 = None → u_fds p !! junk_pfd.2 = None →
  ∃ w', rtc (step sys code) w w' ∧ console w' = console w ++ printf prime_fmt [int_of_bytes junk].
Proof.
  intros Hp Hst Hfd Hne Hj1 Hj2.
  set (f := delete pfd.1 (u_fds p)). set (p1 := mk_uproc (Run (S_close1 junk_pfd)) f (u_parent p)).
  assert (f !! 1 = Some Con ∧ f !! junk_pfd.1 = None ∧ f !! junk_pfd.2 = None) as (F1 & J1 & J2).
  { rewrite /f lookup_delete_ne // !lookup_delete_None. tauto. }
  assert (step_proc sys code i w = Some (set_proc i p1 w)) as E1.
  { rewrite /step_proc Hp /= Hst. cbn [code main sieve]. destruct (u_fds p !! pfd.1) eqn:E; [done|].
    rewrite /goes /p1 /f delete_id //. }
  assert (is_Some (procs w !! i)) as Hi by (by rewrite Hp).
  set (p2 := goes (Run (S_read junk_pfd)) p1). set (w1 := set_proc i p1 w) in *. set (w2 := set_proc i p2 w1).
  assert (procs w1 !! i = Some p1) as P1 by (by apply set_proc_lookup). assert (procs w2 !! i = Some p2) as P2 by (apply set_proc_lookup; by rewrite P1).
  assert (step_proc sys code i w1 = Some w2) as E2.
  { rewrite /step_proc P1 /=. cbn [code main sieve]. by rewrite J2. }
  set (v := int_of_bytes junk). set (p3 := goes (Run (after_print junk_pfd v (printf prime_fmt [v]))) p2). set (w3 := set_proc i p3 w2).
  assert (step_proc sys code i w2 = Some w3) as E3.
  { rewrite /step_proc P2. cbn [mbind option_bind p2 goes u_st code main sieve]. rewrite /step_read.
    change (u_fds (mk_uproc (Run (S_read junk_pfd)) (u_fds p1) (u_parent p1))) with f. rewrite J1. reflexivity. }
  destruct (print_line junk_pfd v (printf prime_fmt [v]) i w3 p3) as (w' & Hr & Hc); [apply set_proc_lookup; by rewrite P2|reflexivity|exact F1|].
  exists w'. split; [|exact Hc]. by eapply step_self, step_self, step_self; [exact E1|exact E2|exact E3|].
Qed.

(** A process of [sieve] whose pipe does not fit goes on all the same. *)
Lemma sieve_full pfd prime i w p :
  procs w !! i = Some p → u_st p = Run (S_pipe pfd prime) → (max_file sys < files w + 2)%nat → (length (procs w) < max_proc sys)%nat →
  u_fds p !! 1 = Some Con → pfd.1 ≠ 1 → u_fds p !! junk_pfd.1 = None → u_fds p !! junk_pfd.2 = None →
  let w1 := set_proc i (goes (Run (S_fork pfd prime junk_pfd)) p) w in
  step_proc sys code i w = Some w1 ∧
  ∃ w', rtc (step sys code) w1 w' ∧ console w' = console w ++ printf prime_fmt [int_of_bytes junk].
Proof.
  intros Hp Hst Hfull Hlive Hfd Hne Hj1 Hj2 w1. assert (is_Some (procs w !! i)) as Hi by (by rewrite Hp). split.
  { rewrite /step_proc Hp. cbn [mbind option_bind]. rewrite Hst. cbn [code main sieve]. rewrite /step_pipe.
    destruct (ufdalloc (u_fds p)); [|done]. destruct (ufdalloc _); [|done]. assert ((files w + 2 <=? max_file sys)%nat = false) as -> by (apply Nat.leb_gt; lia). done. }
  set (p1 := goes (Run (S_fork pfd prime junk_pfd)) p) in *. assert (procs w1 !! i = Some p1) as P1 by (by apply set_proc_lookup).
  assert (live w1 < max_proc sys)%nat as Hl.
  { eapply Nat.le_lt_trans; [apply live_bound|]. by rewrite /w1 /= length_insert. }
  set (k := λ pid, if pid =? 0 then C_close0 pfd junk_pfd else P_close0 pfd prime junk_pfd).
  set (w2 := mk_world (<[i := goes (Run (k (pid_of sys (length (procs w1))))) p1]> (procs w1) ++ [mk_uproc (Run (k 0)) (u_fds p1) (Some i)])
    (pipes w1) (console w1)).
  assert (step_proc sys code i w1 = Some w2) as E2.
  { rewrite /step_proc P1. cbn [mbind option_bind p1 goes u_st code main sieve]. rewrite /step_fork.
    assert ((live w1 <? max_proc sys)%nat = true) as -> by (by apply Nat.ltb_lt). reflexivity. }
  destruct (sieve_no_file pfd (length (procs w1)) w2 (mk_uproc (Run (k 0)) (u_fds p) (Some i))) as (w' & Hr & Hc); [|done..|].
  - cbn [w2 procs]. apply list_lookup_middle. symmetry. apply length_insert.
  - exists w'. split; [by eapply step_self|exact Hc].
Qed.
End full.
(** The schedule up to the call of [pipe] in the process for 227 *)
Definition full_world (junk_pfd : Z * Z) (junk : list Z) : world loc :=
  drive xv6 (main primes_printf junk_pfd junk) (52 * 100 + 58) 0 (start M_pipe).
(** Nothing indeterminate has been used until then. *)
Lemma full_world_junk junk_pfd a b c d : full_world junk_pfd [a; b; c; d] = full_world (-1, -1) [].
Proof. vm_compute. reflexivity. Qed.

Definition full_fds : fdtable := {[ 0 := Con; 1 := Con; 2 := Con; 3 := Rd 48 ]}.
Lemma full_world_227 :
  procs (full_world (-1, -1) []) !! 49%nat = Some (mk_uproc (Run (S_pipe (3, 5) 227)) full_fds (Some 48%nat)) ∧
  files (full_world (-1, -1) []) = 98%nat ∧ length (procs (full_world (-1, -1) [])) = 50%nat.
Proof. vm_compute. done. Qed.
(** The lines for the primes up to 227 *)
Definition lines_227 : list Z := concat (prime_line <$> List.filter primeb (seqZ 2 226)).
Lemma full_world_console : console (full_world (-1, -1) []) = lines_227.
Proof. vm_compute. reflexivity. Qed.
Lemma expected_227 : expected = lines_227 ++ prime_line 229 ++ drop (length (lines_227 ++ prime_line 229)) expected.
Proof. vm_compute. reflexivity. Qed.
Lemma full_fds_none fd : fd ∉ seqZ 0 NOFILE → full_fds !! fd = None.
Proof.
  rewrite elem_of_seqZ. intros Hn. unfold NOFILE in Hn. rewrite /full_fds !lookup_insert_ne; [apply lookup_empty|lia..].
Qed.

(** C17. primes.c ignores the result of [pipe].  With the 99 files that are
    left in the file table of the kernel there is an interleaving in which the
    primes up to 227 are printed and the process for 227 calls [pipe] while 98
    files are in use: the call fails and leaves [next_pfd] as it was.  When what
    [next_pfd] held does not happen to be a descriptor, the process goes on,
    and the next one, instead of 229, prints whatever its variable [prime]
    held: its [read] fails, and it only looks for the end of the file. *)
Theorem primes_runs_out_of_files junk_pfd (a b c d : Z) :
  junk_pfd.1 ∉ seqZ 0 NOFILE → junk_pfd.2 ∉ seqZ 0 NOFILE →
  let code := main primes_printf junk_pfd [a; b; c; d] in
  ∃ (i : nat) (w w' w'' : world loc) p pfd rest,
    reachable xv6 code M_pipe w ∧ console w = lines_227 ∧
    procs w !! i = Some p ∧ u_st p = Run (S_pipe pfd 227) ∧ files w = 98%nat ∧ max_file xv6 = 99%nat ∧
    step_proc xv6 code i w = Some w' ∧ procs w' !! i = Some (goes (Run (S_fork pfd 227 junk_pfd)) p) ∧
    rtc (step xv6 code) w' w'' ∧ console w'' = lines_227 ++ prime_line (int_of_bytes [a; b; c; d]) ∧
    expected = lines_227 ++ prime_line 229 ++ rest.
Proof.
  intros H1 H2 code. destruct full_world_227 as (Hp & Hf & Hl). pose proof full_world_console as Hc. pose proof expected_227 as He.
  assert (reachable xv6 code M_pipe (full_world (-1, -1) [])) as Hr.
  { rewrite -(full_world_junk junk_pfd a b c d). apply drive_reachable, rtc_refl. }
  revert Hp Hf Hl Hc Hr. generalize (full_world (-1, -1) []) as w. intros w Hp Hf Hl Hc Hr.
  destruct (sieve_full xv6 primes_printf junk_pfd [a; b; c; d] (3, 5) 227 49 w _ Hp eq_refl) as (Hs & w'' & Hr' & Hc').
  - rewrite Hf. apply Nat.ltb_lt. reflexivity.
  - rewrite Hl. apply Nat.ltb_lt. reflexivity.
  - reflexivity.
  - cbn. lia.
  - by apply full_fds_none.
  - by apply full_fds_none.
  - rewrite Hc in Hc'. eexists 49%nat, w, _, w'', _, (3, 5), _. split_and!; [exact Hr|exact Hc|exact Hp|reflexivity|exact Hf|reflexivity|exact Hs| |exact Hr'|exact Hc'|exact He].
    apply set_proc_lookup. by rewrite Hp.
Qed.

Lemma primes_runs_out_of_files_witness :
  ∃ w, reachable xv6 (main primes_printf (-1, -2) [4; 0; 0; 0]) M_pipe w ∧ console w = lines_227 ++ prime_line 4.
Proof.
  destruct (primes_runs_out_of_files (-1, -2) 4 0 0 0) as (i & w & w' & w'' & p & pfd & rest & Hr & _ & _ & _ & _ & _ & Hs & _ & Hr' & Hc & _);
    [rewrite elem_of_seqZ; cbn; lia..|].
  change (int_of_bytes [4; 0; 0; 0]) with 4 in Hc. exists w''. split; [|exact Hc]. apply (rtc_trans _ w); [exact Hr|]. eapply rtc_l; [exists i; exact Hs|exact Hr'].
Defined.
