(* ===== verification/Pingpong.v ===== *)
(** * user/pingpong.c: two processes that exchange a byte *)
From S2P Require Import Prelude Riscv Pipe UPrintf User.

(** The program points; [p] and [q] are the arrays [parent] and [child]. *)
Inductive loc :=
| G_pipe1
| G_pipe2 (p : Z * Z)
| G_fork (p q : Z * Z)
| G_error (ch : Z) (rest : list Z)
| G_exit1
(* the child *)
| C_close1 (p q : Z * Z)
| C_close2 (p q : Z * Z)
| C_read (p q : Z * Z)
| C_getpid (p q : Z * Z)
| C_print (p q : Z * Z) (ch : Z) (rest : list Z)
| C_write (p q : Z * Z)
| C_close3 (p q : Z * Z)
| C_close4 (p q : Z * Z)
(* the parent *)
| A_close1 (p q : Z * Z)
| A_close2 (p q : Z * Z)
| A_write (p q : Z * Z)
| A_read (p q : Z * Z)
| A_getpid (p q : Z * Z)
| A_print (p q : Z * Z) (ch : Z) (rest : list Z)
| A_close3 (p q : Z * Z)
| A_close4 (p q : Z * Z)
| A_wait
| G_exit0.

(** "fork failed\n", "%d: received ping\n", "%d: received pong\n" *)
Definition fork_failed : list Z := [102; 111; 114; 107; 32; 102; 97; 105; 108; 101; 100; 10].
Definition ping_fmt : list Z := [37; 100; 58; 32; 114; 101; 99; 101; 105; 118; 101; 100; 32; 112; 105; 110; 103; 10].
Definition pong_fmt : list Z := [37; 100; 58; 32; 114; 101; 99; 101; 105; 118; 101; 100; 32; 112; 111; 110; 103; 10].

Section pingpong.
(** The bytes that [printf] writes, and the indeterminate contents of
    [parent] and [child] *)
Context (printf : list Z → list Z → list Z) (junk_p junk_q : Z * Z).

Definition print_error (out : list Z) : loc := match out with ch :: rest => G_error ch rest | [] => G_exit1 end.
Definition print_ping (p q : Z * Z) (out : list Z) : loc := match out with ch :: rest => C_print p q ch rest | [] => C_write p q end.
Definition print_pong (p q : Z * Z) (out : list Z) : loc := match out with ch :: rest => A_print p q ch rest | [] => A_close3 p q end.

Definition main (l : loc) : call loc :=
  match l with
  | G_pipe1 => UPipe (λ r, G_pipe2 (default junk_p r))
  | G_pipe2 p => UPipe (λ r, G_fork p (default junk_q r))
  | G_fork p q => UFork (λ pid,
      if pid <? 0 then print_error (printf fork_failed [])
      else if pid =? 0 then C_close1 p q else A_close1 p q)
  | G_error ch rest => UWrite 2 [ch] (λ _, print_error rest)
  | G_exit1 => UExit 1
  | C_close1 p q => UClose p.2 (λ _, C_close2 p q)
  | C_close2 p q => UClose q.1 (λ _, C_read p q)
  | C_read p q => URead p.1 1 (λ _ _, C_getpid p q)
  | C_getpid p q => UGetpid (λ pid, print_ping p q (printf ping_fmt [pid]))
  | C_print p q ch rest => UWrite 1 [ch] (λ _, print_ping p q rest)
  | C_write p q => UWrite q.2 [98] (λ _, C_close3 p q)
  | C_close3 p q => UClose p.1 (λ _, C_close4 p q)
  | C_close4 p q => UClose q.2 (λ _, G_exit0)
  | A_close1 p q => UClose p.1 (λ _, A_close2 p q)
  | A_close2 p q => UClose q.2 (λ _, A_write p q)
  | A_write p q => UWrite p.2 [97] (λ _, A_read p q)
  | A_read p q => URead q.1 1 (λ _ _, A_getpid p q)
  | A_getpid p q => UGetpid (λ pid, print_pong p q (printf pong_fmt [pid]))
  | A_print p q ch rest => UWrite 1 [ch] (λ _, print_pong p q rest)
  | A_close3 p q => UClose p.2 (λ _, A_close4 p q)
  | A_close4 p q => UClose q.1 (λ _, A_wait)
  | A_wait => UWait (λ _, G_exit0)
  | G_exit0 => UExit 0
  end.
End pingpong.

(** ** The reachable states

    After the fork a state is given by the program points [a] of the parent
    and [c] of the child. *)
Section states.
Context (sys : system) (printf : list Z → list Z → list Z) (junk_p junk_q : Z * Z).
Hypothesis files_enough : (4 ≤ max_file sys)%nat.
Hypothesis procs_enough : (2 ≤ max_proc sys)%nat.
Hypothesis pid_pos : ∀ i, 0 < pid_of sys i.
Abbreviation code := (main printf junk_p junk_q).
Abbreviation pp := (3, 4).
Abbreviation qq := (5, 6).
Definition ping : list Z := printf ping_fmt [pid_of sys 1].
Definition pong : list Z := printf pong_fmt [pid_of sys 0].

(** How far a process is *)
Definition stage_of (st : ustatus loc) : Z :=
  match st with
  | Run (A_close1 _ _) | Run (C_close1 _ _) => 1
  | Run (A_close2 _ _) | Run (C_close2 _ _) => 2
  | Run (A_write _ _) | Run (C_read _ _) => 3
  | Run (A_read _ _) | Run (C_getpid _ _) => 4
  | Run (A_getpid _ _) | Run (C_print _ _ _ _) => 5
  | Run (A_print _ _ _ _) | Run (C_write _ _) => 6
  | Run (A_close3 _ _) | Run (C_close3 _ _) => 7
  | Run (A_close4 _ _) | Run (C_close4 _ _) => 8
  | Run A_wait => 9
  | Run G_exit0 => 10
  | Zombie _ => 11
  | Gone => 12
  | _ => 0
  end.
Definition parent_ok (a : ustatus loc) : Prop :=
  match a with
  | Run (A_close1 p q) | Run (A_close2 p q) | Run (A_write p q) | Run (A_read p q) | Run (A_getpid p q) | Run (A_close3 p q) | Run (A_close4 p q) => p = pp ∧ q = qq
  | Run (A_print p q ch rest) => p = pp ∧ q = qq ∧ ∃ pre, pong = pre ++ ch :: rest
  | Run A_wait | Run G_exit0 | Zombie 0 => True
  | _ => False
  end.
Definition child_ok (c : ustatus loc) : Prop :=
  match c with
  | Run (C_close1 p q) | Run (C_close2 p q) | Run (C_read p q) | Run (C_getpid p q) | Run (C_write p q) | Run (C_close3 p q) | Run (C_close4 p q) => p = pp ∧ q = qq
  | Run (C_print p q ch rest) => p = pp ∧ q = qq ∧ ∃ pre, ping = pre ++ ch :: rest
  | Run G_exit0 | Zombie 0 | Gone => True
  | _ => False
  end.
(** The child has read the byte of the parent, the parent the one of the
    child; the parent has waited when the child is gone. *)
Definition together (a c : ustatus loc) : Prop :=
  (4 ≤ stage_of c → 4 ≤ stage_of a) ∧ (5 ≤ stage_of a → 7 ≤ stage_of c) ∧ (10 ≤ stage_of a ↔ stage_of c = 12).

Definition parent_fds (a : ustatus loc) : fdtable :=
  match stage_of a with
  | 1 => <[6 := Wr 1]> (<[5 := Rd 1]> (<[4 := Wr 0]> (<[3 := Rd 0]> console_fds)))
  | 2 => <[6 := Wr 1]> (<[5 := Rd 1]> (<[4 := Wr 0]> console_fds))
  | 8 => <[5 := Rd 1]> console_fds
  | 9 | 10 => console_fds
  | 11 => ∅
  | _ => <[5 := Rd 1]> (<[4 := Wr 0]> console_fds)
  end.
Definition child_fds (c : ustatus loc) : fdtable :=
  match stage_of c with
  | 1 => <[6 := Wr 1]> (<[5 := Rd 1]> (<[4 := Wr 0]> (<[3 := Rd 0]> console_fds)))
  | 2 => <[6 := Wr 1]> (<[5 := Rd 1]> (<[3 := Rd 0]> console_fds))
  | 8 => <[6 := Wr 1]> console_fds
  | 10 => console_fds
  | 11 | 12 => ∅
  | _ => <[6 := Wr 1]> (<[3 := Rd 0]> console_fds)
  end.
Definition said (st : ustatus loc) (msg : list Z) : list Z :=
  match st with
  | Run (A_print _ _ _ rest) | Run (C_print _ _ _ rest) => take (length msg - S (length rest)) msg
  | Run (A_close3 _ _) | Run (A_close4 _ _) | Run A_wait | Run G_exit0 | Zombie _ | Gone => msg
  | Run (C_write _ _) | Run (C_close3 _ _) | Run (C_close4 _ _) => msg
  | _ => []
  end.
Definition both (a c : ustatus loc) : world loc :=
  mk_world [mk_uproc a (parent_fds a) None; mk_uproc c (child_fds c) (match c with Gone => None | _ => Some 0%nat end)]
    [ if (4 <=? stage_of a) && (stage_of c <=? 3) then [97] else []; if (7 <=? stage_of c) && (stage_of a <=? 4) then [98] else [] ]
    (said c ping ++ said a pong).

(** The work that is left *)
Definition todo (st : ustatus loc) : Z :=
  match st with
  | Run (A_print _ _ _ rest) | Run (C_print _ _ _ rest) => 50 + Z.of_nat (length rest)
  | Run (A_getpid _ _) | Run (C_getpid _ _) => 60 + Z.of_nat (length ping) + Z.of_nat (length pong)
  | Run (A_close3 _ _) | Run (C_write _ _) => 49
  | Run (C_close3 _ _) => 48
  | st => if stage_of st <=? 4 then 100 + Z.of_nat (length ping) + Z.of_nat (length pong) - stage_of st else 40 - stage_of st
  end.
Definition good (a c : ustatus loc) : Prop := parent_ok a ∧ child_ok c ∧ together a c.


(** The next state of each process, other than for the printing *)
Definition next_a (a : ustatus loc) : ustatus loc :=
  match a with
  | Run (A_close1 p q) => Run (A_close2 p q)
  | Run (A_close2 p q) => Run (A_write p q)
  | Run (A_write p q) => Run (A_read p q)
  | Run (A_read p q) => Run (A_getpid p q)
  | Run (A_getpid p q) => Run (print_pong p q pong)
  | Run (A_print p q _ rest) => Run (print_pong p q rest)
  | Run (A_close3 p q) => Run (A_close4 p q)
  | Run (A_close4 p q) => Run A_wait
  | Run A_wait => Run G_exit0
  | Run G_exit0 => Zombie 0
  | a => a
  end.
Definition next_c (c : ustatus loc) : ustatus loc :=
  match c with
  | Run (C_close1 p q) => Run (C_close2 p q)
  | Run (C_close2 p q) => Run (C_read p q)
  | Run (C_read p q) => Run (C_getpid p q)
  | Run (C_getpid p q) => Run (print_ping p q ping)
  | Run (C_print p q _ rest) => Run (print_ping p q rest)
  | Run (C_write p q) => Run (C_close3 p q)
  | Run (C_close3 p q) => Run (C_close4 p q)
  | Run (C_close4 p q) => Run G_exit0
  | Run G_exit0 => Zombie 0
  | c => c
  end.
(** A parent that waits goes on when the child is a zombie, and reaps it. *)
Definition after_a (a c : ustatus loc) : ustatus loc := match a with Run A_wait => Gone | _ => c end.

Lemma take_but (pre x : list Z) n : n = length x → take (length (pre ++ x) - n) (pre ++ x) = pre.
Proof. intros ->. rewrite length_app (_ : _ - _ = length pre)%nat; [apply take_app_length|lia]. Qed.
Lemma said_pong p q ch rest pre : pong = pre ++ ch :: rest →
  said (Run (print_pong p q rest)) pong = said (Run (A_print p q ch rest)) pong ++ [ch].
Proof.
  intros ->. destruct rest as [|ch' rest]; cbn [said print_pong]; [by rewrite take_but|].
  rewrite (take_but pre (ch :: ch' :: rest) (S (length (ch' :: rest)))) //.
  rewrite (_ : pre ++ ch :: ch' :: rest = (pre ++ [ch]) ++ ch' :: rest); [by apply take_but|by rewrite -app_assoc].
Qed.
Lemma said_ping p q ch rest pre : ping = pre ++ ch :: rest →
  said (Run (print_ping p q rest)) ping = said (Run (C_print p q ch rest)) ping ++ [ch].
Proof.
  intros ->. destruct rest as [|ch' rest]; cbn [said print_ping]; [by rewrite take_but|].
  rewrite (take_but pre (ch :: ch' :: rest) (S (length (ch' :: rest)))) //.
  rewrite (_ : pre ++ ch :: ch' :: rest = (pre ++ [ch]) ++ ch' :: rest); [by apply take_but|by rewrite -app_assoc].
Qed.

(** The steps that print *)
Lemma both_pong a c l : stage_of a = 5 ∨ stage_of a = 6 → stage_of (Run l) = 6 ∨ stage_of (Run l) = 7 →
  both (Run l) c = mk_world (<[0%nat := mk_uproc (Run l) (parent_fds a) None]> (procs (both a c))) (pipes (both a c)) (said c ping ++ said (Run l) pong).
Proof. intros [Ha|Ha] [Hl|Hl]; rewrite /both /parent_fds Ha Hl; done. Qed.
Lemma both_ping a c l : stage_of c = 4 ∨ stage_of c = 5 → stage_of (Run l) = 5 ∨ stage_of (Run l) = 6 →
  both a (Run l) = mk_world (<[1%nat := mk_uproc (Run l) (child_fds c) (Some 0%nat)]> (procs (both a c))) (pipes (both a c)) (said (Run l) ping ++ said a pong).
Proof. intros [Hc|Hc] [Hl|Hl]; rewrite /both /child_fds Hc Hl; done. Qed.
Lemma pong_stage p q out : stage_of (Run (print_pong p q out)) = 6 ∨ stage_of (Run (print_pong p q out)) = 7.
Proof. destruct out; [by right|by left]. Qed.
Lemma ping_stage p q out : stage_of (Run (print_ping p q out)) = 5 ∨ stage_of (Run (print_ping p q out)) = 6.
Proof. destruct out; [by right|by left]. Qed.

Lemma pong_starts c : step_proc sys code 0 (both (Run (A_getpid pp qq)) c) = Some (both (Run (print_pong pp qq pong)) c).
Proof.
  rewrite (both_pong (Run (A_getpid pp qq)) c (print_pong pp qq pong)); [|by left|apply pong_stage].
  assert (said (Run (print_pong pp qq pong)) pong = []) as ->; [|reflexivity]. destruct pong as [|ch rest]; cbn; [done|by rewrite Nat.sub_diag].
Qed.
Lemma ping_starts a : step_proc sys code 1 (both a (Run (C_getpid pp qq))) = Some (both a (Run (print_ping pp qq ping))).
Proof.
  rewrite (both_ping a (Run (C_getpid pp qq)) (print_ping pp qq ping)); [|by left|apply ping_stage].
  assert (said (Run (print_ping pp qq ping)) ping = []) as ->; [|reflexivity]. destruct ping as [|ch rest]; cbn; [done|by rewrite Nat.sub_diag].
Qed.
Lemma pong_prints c ch rest pre : pong = pre ++ ch :: rest →
  step_proc sys code 0 (both (Run (A_print pp qq ch rest)) c) = Some (both (Run (print_pong pp qq rest)) c).
Proof.
  intros Hp. rewrite (both_pong (Run (A_print pp qq ch rest)) c (print_pong pp qq rest)); [|by right|apply pong_stage]. rewrite (said_pong _ _ _ _ _ Hp) app_assoc. reflexivity.
Qed.
(** The child prints when the parent has not. *)
Lemma ping_prints a ch rest pre : stage_of a ≤ 4 → parent_ok a → ping = pre ++ ch :: rest →
  step_proc sys code 1 (both a (Run (C_print pp qq ch rest))) = Some (both a (Run (print_ping pp qq rest))).
Proof.
  intros Ha Hok Hp. rewrite (both_ping a (Run (C_print pp qq ch rest)) (print_ping pp qq rest)); [|by right|apply ping_stage]. rewrite (said_ping _ _ _ _ _ Hp).
  assert (said a pong = []) as E by (destruct a as [[]| | |]; cbn in Ha, Hok; first [done|lia]). rewrite E app_nil_r.
  rewrite /both E app_nil_r. reflexivity.
Qed.

Lemma parent_runs a c : good a c →
  step_proc sys code 0 (both a c) = Some (both (next_a a) (after_a a c)) ∧ stage_of a < 11 ∧ (stage_of a = 4 → 7 ≤ stage_of c) ∧ (stage_of a = 9 → stage_of c = 11) ∨
  step_proc sys code 0 (both a c) = None ∧ (stage_of a = 11 ∨ (stage_of a = 4 ∧ stage_of c < 7) ∨ (stage_of a = 9 ∧ stage_of c < 11)).
Proof.
  intros (Ha & Hc & H1 & H2 & H3). destruct (decide (stage_of a = 5)) as [H5|H5].
  { left. destruct a as [[]| | |]; cbn in Ha, H5; try done. destruct Ha as [-> ->]. split; [apply pong_starts|cbn; lia]. }
  destruct (decide (stage_of a = 6)) as [H6|H6].
  { left. destruct a as [[]| | |]; cbn in Ha, H6; try done. destruct Ha as (-> & -> & pre & Hp). split; [by eapply pong_prints|cbn; lia]. }
  destruct a as [[]| |[]|]; cbn [parent_ok] in Ha; try done; destruct c as [[]| |[]|]; cbn [child_ok] in Hc; try done.
  all: cbn [stage_of] in *; try (exfalso; lia).
  all: repeat match goal with H : _ ∧ _ |- _ => destruct H end; subst.
  all: first [left; split; [vm_compute; reflexivity|lia] | right; split; [vm_compute; reflexivity|lia]].
Qed.
Lemma child_runs a c : good a c →
  step_proc sys code 1 (both a c) = Some (both a (next_c c)) ∧ stage_of c < 11 ∧ (stage_of c = 3 → 4 ≤ stage_of a) ∨
  step_proc sys code 1 (both a c) = None ∧ (11 ≤ stage_of c ∨ (stage_of c = 3 ∧ stage_of a < 4)).
Proof.
  intros (Ha & Hc & H1 & H2 & H3). destruct (decide (stage_of c = 4)) as [H5|H5].
  { left. destruct c as [[]| | |]; cbn in Hc, H5; try done. destruct Hc as [-> ->]. split; [apply ping_starts|cbn; lia]. }
  destruct (decide (stage_of c = 5)) as [H6|H6].
  { left. destruct c as [[]| | |]; cbn in Hc, H6; try done. destruct Hc as (-> & -> & pre & Hp). split; [|cbn; lia]. eapply ping_prints; [|done..]. cbn in H2. lia. }
  destruct a as [[]| |[]|]; cbn [parent_ok] in Ha; try done; destruct c as [[]| |[]|]; cbn [child_ok] in Hc; try done.
  all: cbn [stage_of] in *; try (exfalso; lia).
  all: repeat match goal with H : _ ∧ _ |- _ => destruct H end; subst.
  all: first [left; split; [vm_compute; reflexivity|lia] | right; split; [vm_compute; reflexivity|lia]].
Qed.


Lemma next_a_ok a : parent_ok a → stage_of a < 11 →
  parent_ok (next_a a) ∧ stage_of a ≤ stage_of (next_a a) ∧ (5 ≤ stage_of (next_a a) → 4 ≤ stage_of a) ∧ (10 ≤ stage_of (next_a a) ↔ 9 ≤ stage_of a) ∧
  todo (next_a a) < todo a.
Proof.
  intros Ha H11. destruct a as [[]| |[]|]; cbn [parent_ok] in Ha; try done; cbn [next_a].
  all: try (split; [done|cbn [stage_of]; split_and!; try (rewrite /todo; cbn; lia); lia]).
  - destruct Ha as [-> ->]. split; [destruct pong eqn:E; [done|]; split_and!; [done..|by exists []]|].
    destruct pong eqn:E; cbn [print_pong]; cbn [stage_of]; (split_and!; [lia..|]); rewrite /todo E; cbn [length]; lia.
  - destruct Ha as (-> & -> & pre & Hp). split; [destruct rest; [done|]; split_and!; [done..|]; exists (pre ++ [ch]); by rewrite -app_assoc|].
    destruct rest; cbn [print_pong]; cbn [stage_of]; (split_and!; [lia..|]); rewrite /todo; cbn [length]; lia.
Qed.
Lemma next_c_ok c : child_ok c → stage_of c < 11 →
  child_ok (next_c c) ∧ stage_of c ≤ stage_of (next_c c) ∧ (4 ≤ stage_of (next_c c) → 3 ≤ stage_of c) ∧ stage_of (next_c c) < 12 ∧ todo (next_c c) < todo c.
Proof.
  intros Hc H11. destruct c as [[]| |[]|]; cbn [child_ok] in Hc; try done; cbn [next_c]; try (exfalso; cbn in H11; lia).
  all: try (split; [done|cbn [stage_of]; split_and!; try (rewrite /todo; cbn; lia); lia]).
  - destruct Hc as [-> ->]. split; [destruct ping eqn:E; [done|]; split_and!; [done..|by exists []]|].
    destruct ping eqn:E; cbn [print_ping]; cbn [stage_of]; (split_and!; [lia..|]); rewrite /todo E; cbn [length]; lia.
  - destruct Hc as (-> & -> & pre & Hp). split; [destruct rest; [done|]; split_and!; [done..|]; exists (pre ++ [ch]); by rewrite -app_assoc|].
    destruct rest; cbn [print_ping]; cbn [stage_of]; (split_and!; [lia..|]); rewrite /todo; cbn [length]; lia.
Qed.
Lemma good_parent a c : good a c → stage_of a < 11 → (stage_of a = 4 → 7 ≤ stage_of c) → (stage_of a = 9 → stage_of c = 11) →
  good (next_a a) (after_a a c) ∧ todo (next_a a) + todo (after_a a c) < todo a + todo c.
Proof.
  intros (Ha & Hc & H1 & H2 & H3) H11 H4 H9. destruct (next_a_ok a Ha H11) as (Ha' & Hle & H5 & H10 & Ht).
  destruct (decide (stage_of a = 9)) as [E9|Hn9].
  - specialize (H9 E9). destruct a as [[]| | |]; try discriminate E9. destruct c as [[]| | |]; try discriminate H9. cbn [after_a next_a] in *.
    split; [|rewrite /todo; cbn; lia]. split_and!; [exact I..|]. rewrite /together. cbn [stage_of]. lia.
  - assert (after_a a c = c) as -> by (destruct a as [[]| | |]; first [reflexivity|by destruct Hn9]). split; [|lia]. split_and!; [done..|]. rewrite /together. split_and!; lia.
Qed.
Lemma good_child a c : good a c → stage_of c < 11 → (stage_of c = 3 → 4 ≤ stage_of a) → good a (next_c c) ∧ todo a + todo (next_c c) < todo a + todo c.
Proof.
  intros (Ha & Hc & H1 & H2 & H3) H11 H4. destruct (next_c_ok c Hc H11) as (Hc' & Hle & H5 & H10 & Ht). split; [|lia].
  split_and!; [done..|]. rewrite /together. split_and!; lia.
Qed.

(** Before the fork *)
Definition opening (w : world loc) : Prop :=
  w = start G_pipe1 ∨
  w = mk_world [mk_uproc (Run (G_pipe2 pp)) (<[4 := Wr 0]> (<[3 := Rd 0]> console_fds)) None] [[]] [] ∨
  w = mk_world [mk_uproc (Run (G_fork pp qq)) (<[6 := Wr 1]> (<[5 := Rd 1]> (<[4 := Wr 0]> (<[3 := Rd 0]> console_fds)))) None] [[]; []] [].
(** The work that is left in a state *)
Definition left_in (w : world loc) (n : Z) : Prop :=
  opening w ∧ n = 1000 + 3 * Z.of_nat (length ping) + 3 * Z.of_nat (length pong) - Z.of_nat (length (pipes w)) ∨ ∃ a c, good a c ∧ w = both a c ∧ n = todo a + todo c.

Lemma only_two (w w' : world loc) i : (length (procs w) ≤ 2)%nat → step_proc sys code i w = Some w' → i = 0%nat ∨ i = 1%nat.
Proof.
  intros Hl. rewrite /step_proc. destruct (procs w !! i) as [p|] eqn:E; [|discriminate]. apply lookup_lt_Some in E. lia.
Qed.

Lemma open_pipe1 : step_proc sys code 0 (start G_pipe1) =
  Some (mk_world [mk_uproc (Run (G_pipe2 pp)) (<[4 := Wr 0]> (<[3 := Rd 0]> console_fds)) None] [[]] []).
Proof.
  rewrite /step_proc /=. rewrite /step_pipe. rewrite (_ : ufdalloc _ = Some 3) // (_ : ufdalloc _ = Some 4) //.
  rewrite (_ : files _ = 0%nat) // (proj2 (Nat.leb_le _ _)) //. lia.
Qed.
Lemma open_pipe2 : step_proc sys code 0 (mk_world [mk_uproc (Run (G_pipe2 pp)) (<[4 := Wr 0]> (<[3 := Rd 0]> console_fds)) None] [[]] []) =
  Some (mk_world [mk_uproc (Run (G_fork pp qq)) (<[6 := Wr 1]> (<[5 := Rd 1]> (<[4 := Wr 0]> (<[3 := Rd 0]> console_fds)))) None] [[]; []] []).
Proof.
  rewrite /step_proc /=. rewrite /step_pipe. rewrite (_ : ufdalloc _ = Some 5) // (_ : ufdalloc _ = Some 6) //.
  rewrite (_ : files _ = 2%nat) // (proj2 (Nat.leb_le _ _)) //.
Qed.
Lemma open_fork : step_proc sys code 0 (mk_world [mk_uproc (Run (G_fork pp qq)) (<[6 := Wr 1]> (<[5 := Rd 1]> (<[4 := Wr 0]> (<[3 := Rd 0]> console_fds)))) None] [[]; []] []) =
  Some (both (Run (A_close1 pp qq)) (Run (C_close1 pp qq))).
Proof.
  rewrite /step_proc /=. rewrite /step_fork. rewrite (_ : live _ = 1%nat) // (proj2 (Nat.ltb_lt _ _)); [|lia].
  pose proof (pid_pos 1). cbn. rewrite (proj2 (Z.ltb_ge _ _)); [|lia]. rewrite (proj2 (Z.eqb_neq _ _)); [|lia]. reflexivity.
Qed.

Lemma todo_bounds st : 0 ≤ todo st ≤ 100 + Z.of_nat (length ping) + Z.of_nat (length pong) ∨ ∃ p q ch rest, st = Run (A_print p q ch rest) ∨ st = Run (C_print p q ch rest).
Proof. destruct st as [[]| | |]; try (left; rewrite /todo; cbn; lia); right; eauto 10. Qed.
Lemma todo_nonneg st : 0 ≤ todo st.
Proof. destruct (todo_bounds st) as [?|(p & q & ch & rest & [->| ->])]; cbn; lia. Qed.

Lemma left_in_step w w' n : left_in w n → step sys code w w' → ∃ n', left_in w' n' ∧ 0 ≤ n' < n.
Proof.
  intros Hw [i Hi]. destruct Hw as [[Hw ->]|(a & c & Hg & -> & ->)].
  - assert (i = 0%nat) as ->.
    { destruct Hw as [->|[->| ->]]; (destruct i as [|i]; [done|]); rewrite /step_proc /= in Hi; discriminate. }
    destruct Hw as [->|[->| ->]]; [rewrite open_pipe1 in Hi|rewrite open_pipe2 in Hi|rewrite open_fork in Hi]; apply (inj Some) in Hi as <-.
    1,2: eexists; split; [left; split; [rewrite /opening; tauto|reflexivity]|cbn; lia].
    eexists. split; [right; do 2 eexists; split_and!; [|reflexivity..]|rewrite /todo; cbn; lia].
    split_and!; [done..|]. rewrite /together. cbn. lia.
  - destruct (only_two (both a c) w' i (le_n 2) Hi) as [->| ->].
    + destruct (parent_runs a c Hg) as [(Hs & H1 & H2 & H3)|[Hs _]]; rewrite Hs in Hi; [|discriminate]. apply (inj Some) in Hi as <-.
      destruct (good_parent a c Hg H1 H2 H3) as [Hg' Ht]. eexists. split; [right; do 2 eexists; split_and!; [exact Hg'|reflexivity..]|].
      pose proof (todo_nonneg (next_a a)). pose proof (todo_nonneg (after_a a c)). lia.
    + destruct (child_runs a c Hg) as [(Hs & H1 & H2)|[Hs _]]; rewrite Hs in Hi; [|discriminate]. apply (inj Some) in Hi as <-.
      destruct (good_child a c Hg H1 H2) as [Hg' Ht]. eexists. split; [right; do 2 eexists; split_and!; [exact Hg'|reflexivity..]|].
      pose proof (todo_nonneg a). pose proof (todo_nonneg (next_c c)). lia.
Qed.

Lemma reachable_left w : reachable sys code G_pipe1 w → ∃ n, left_in w n.
Proof.
  intros Hr. rewrite /reachable in Hr. assert (∃ n, left_in (start G_pipe1) n) as Hs by (eexists; left; split; [by left|reflexivity]).
  revert Hs. induction Hr as [w|w w' w'' Hstep _ IH]; [done|]. intros [n Hn]. apply IH. destruct (left_in_step _ _ _ Hn Hstep) as (n' & Hn' & _). by exists n'.
Qed.
Lemma left_terminates w n : left_in w n → Acc (λ w2 w1, step sys code w1 w2) w.
Proof.
  revert w. induction n as [n IH] using (well_founded_ind (Z.lt_wf 0)). intros w Hw. constructor. intros w' Hs.
  destruct (left_in_step _ _ _ Hw Hs) as (n' & Hn' & Hlt). by apply (IH n').
Qed.
Lemma left_output w n : left_in w n → console w `prefix_of` ping ++ pong.
Proof.
  intros [[[->|[->| ->]] _]|(a & c & (Ha & Hc & H1 & H2 & H3) & -> & _)]; [apply prefix_nil..|]. cbn [console both].
  destruct (decide (said a pong = [])) as [E|Hne].
  - rewrite E app_nil_r. transitivity ping; [|by apply prefix_app_r]. destruct c as [[]| |[]|]; cbn; first [apply prefix_nil|reflexivity|apply prefix_take].
  - assert (5 ≤ stage_of a) as H5 by (destruct a as [[]| |[]|]; cbn in Ha, Hne |- *; first [done|lia|by destruct Hne]). specialize (H2 H5).
    assert (said c ping = ping) as -> by (destruct c as [[]| |[]|]; cbn in Hc, H2 |- *; first [done|lia]). apply prefix_app.
    destruct a as [[]| |[]|]; cbn; first [apply prefix_nil|reflexivity|apply prefix_take].
Qed.
Lemma left_stuck w n : left_in w n → (∀ w', ¬ step sys code w w') → w = both (Zombie 0) Gone.
Proof.
  intros Hw Hstuck. assert (∀ i w', step_proc sys code i w ≠ Some w') as Hn by (intros i w' E; apply (Hstuck w'); by exists i).
  destruct Hw as [[[->|[->| ->]] _]|(a & c & Hg & -> & _)].
  - by destruct (Hn _ _ open_pipe1).
  - by destruct (Hn _ _ open_pipe2).
  - by destruct (Hn _ _ open_fork).
  - destruct (parent_runs a c Hg) as [(Hs & _)|[_ Hp]]; [by destruct (Hn _ _ Hs)|]. destruct (child_runs a c Hg) as [(Hs & _)|[_ Hq]]; [by destruct (Hn _ _ Hs)|].
    destruct Hg as (Ha & Hc & H1 & H2 & H3). assert (stage_of a = 11 ∧ stage_of c = 12) as [Ea Ec] by lia.
    destruct a as [[]| |[]|]; try discriminate Ea; try done. destruct c as [[]| | |]; try discriminate Ec. done.
Qed.
End states.

(** ** The lines it prints *)
Definition pingpong_printf (fmt args : list Z) : list Z := default [] (vprintf (λ _, []) fmt args).
(** ": received ping\n" and ": received pong\n" *)
Definition received_ping : list Z := drop 2 ping_fmt.
Definition received_pong : list Z := drop 2 pong_fmt.

Lemma vprintf_plain str fmt args : (∀ c, c ∈ fmt → c ≠ 37) → vprintf_loop str (length fmt) false fmt args = Some fmt.
Proof.
  intros Hf. induction fmt as [|c fmt IH]; [done|]. cbn. rewrite (proj2 (Z.eqb_neq c 37)); [|apply Hf; left]. rewrite IH; [done|].
  intros c' Hc'. apply Hf. by right.
Qed.
Lemma line_of pid rest : 0 < pid < 2 ^ 31 → (∀ c, c ∈ rest → c ≠ 37) →
  ∃ ds, pingpong_printf (37 :: 100 :: rest) [pid] = ds ++ rest ∧ uvalue 10 ds = pid ∧ hd_error ds ≠ Some 48.
Proof.
  intros Hpid Hrest. destruct (uprintint_digits pid 10 true (or_introl eq_refl)) as (ds & Hu & Hv & Hne & Hz & _).
  rewrite s32_small in Hu; [|lia]. rewrite (proj2 (Z.ltb_ge _ _)) in Hu; [|lia]. rewrite /umagnitude s32_small in Hv; [|lia].
  rewrite (proj2 (Z.ltb_ge _ _)) in Hv; [|lia]. cbn [andb app] in Hu, Hv. rewrite u32_small in Hv; [|lia]. exists ds. split_and!; [|done|].
  - rewrite /pingpong_printf /vprintf. cbn -[uprintint]. rewrite Hu. cbn [mbind option_bind]. rewrite drop_0 vprintf_plain //.
  - intros Hh. specialize (Hz Hh). subst ds. cbn in Hv. lia.
Qed.

(** C16. pingpong.c, when the kernel has four free files and two free
    processes for it: whatever the interleaving of the two processes, the child reports the ping before the parent reports the pong, each with its
    own process id in decimal, and the two lines are not mixed.  No sequence
    of steps is infinite, and the program does not deadlock: when nothing can
    run, both lines are printed, the child has exited and been waited for,
    and the parent has exited with status 0. *)
Theorem pingpong_correct sys junk_p junk_q w :
  (4 ≤ max_file sys)%nat → (2 ≤ max_proc sys)%nat → (∀ i, 0 < pid_of sys i < 2 ^ 31) →
  let code := main pingpong_printf junk_p junk_q in
  reachable sys code G_pipe1 w →
  ∃ d1 d0, uvalue 10 d1 = pid_of sys 1 ∧ uvalue 10 d0 = pid_of sys 0 ∧
    let expected := (d1 ++ received_ping) ++ d0 ++ received_pong in
    console w `prefix_of` expected ∧ Acc (λ w2 w1, step sys code w1 w2) w ∧
    ((∀ w', ¬ step sys code w w') →
      console w = expected ∧ (u_st <$> procs w) = [Zombie 0; Gone] ∧ Forall (λ p, u_fds p = ∅) (procs w) ∧ pipes w = [[]; []]).
Proof.
  intros Hf Hp Hpid code Hr. assert (∀ i, 0 < pid_of sys i) as Hpos by (intros i; by apply Hpid).
  destruct (line_of (pid_of sys 1) received_ping) as (d1 & E1 & V1 & _); [apply Hpid|by apply Forall_forall; repeat constructor; discriminate|].
  destruct (line_of (pid_of sys 0) received_pong) as (d0 & E0 & V0 & _); [apply Hpid|by apply Forall_forall; repeat constructor; discriminate|].
  destruct (reachable_left sys pingpong_printf junk_p junk_q Hf Hp Hpos w Hr) as [n Hn].
  exists d1, d0. split_and!; [done..|]. 
  assert (ping sys pingpong_printf = d1 ++ received_ping) as <- by exact E1.
  assert (pong sys pingpong_printf = d0 ++ received_pong) as <- by exact E0. split_and!.
  - by eapply left_output.
  - by eapply left_terminates.
  - intros Hstuck. assert (w = both sys pingpong_printf (Zombie 0) Gone) as -> by (by eapply left_stuck).
    split_and!; [done..| |done]. by repeat constructor.
Qed.

(** A run in which the processes take turns, with the process ids 10 and 11:
    it ends, after "11: received ping" and "10: received pong". *)
Definition two_pids : system := mk_system 100 64 (λ i, 10 + Z.of_nat (i `min` 1)).
Fixpoint turns (n : nat) (w : world loc) : world loc :=
  match n with
  | O => w
  | S n' =>
      let w := default w (step_proc two_pids (main pingpong_printf (0, 0) (0, 0)) 1 w) in
      turns n' (default w (step_proc two_pids (main pingpong_printf (0, 0) (0, 0)) 0 w))
  end.
Lemma turns_reachable n w : reachable two_pids (main pingpong_printf (0, 0) (0, 0)) G_pipe1 w → reachable two_pids (main pingpong_printf (0, 0) (0, 0)) G_pipe1 (turns n w).
Proof.
  assert (∀ i w, reachable two_pids (main pingpong_printf (0, 0) (0, 0)) G_pipe1 w →
    reachable two_pids (main pingpong_printf (0, 0) (0, 0)) G_pipe1 (default w (step_proc two_pids (main pingpong_printf (0, 0) (0, 0)) i w))) as H.
  { intros i w0 Hw. destruct (step_proc _ _ i w0) as [w1|] eqn:E; [|done]. eapply rtc_r; [done|]. by exists i. }
  revert w. induction n as [|n IH]; intros w Hw; [done|]. cbn. apply IH. by apply H, H.
Qed.
Lemma pingpong_correct_witness : let w := turns 60 (start G_pipe1) in
  console w = [49; 49] ++ received_ping ++ [49; 48] ++ received_pong ∧
  ∃ d1 d0, uvalue 10 d1 = 11 ∧ uvalue 10 d0 = 10 ∧ console w `prefix_of` (d1 ++ received_ping) ++ d0 ++ received_pong.
Proof.
  split; [vm_compute; reflexivity|].
  destruct (pingpong_correct two_pids (0, 0) (0, 0) (turns 60 (start G_pipe1))) as (d1 & d0 & V1 & V0 & Hpre & _).
  - cbn. lia.
  - cbn. lia.
  - intros i. cbn. lia.
  - apply turns_reachable. apply rtc_refl.
  - exists d1, d0. exact (conj V1 (conj V0 Hpre)).
Defined.
