(* ===== verification/Asm.v ===== *)
(** * The assembly files: trampoline.S, swtch.S, kernelvec.S and entry.S

    A model of a hart of RISC-V in supervisor mode: its registers, the
    control registers the code uses, physical memory, and the Sv39
    translation of every fetch, load and store through the page table that
    satp names.  A fault ends a run with [None]. *)
From S2P Require Import Prelude Riscv CString Kalloc Vm VmInv.

Inductive reg :=
| ZERO | RA | SP | GP | TP | T0 | T1 | T2 | S0 | S1 | A0 | A1 | A2 | A3 | A4 | A5 | A6 | A7
| S2 | S3 | S4 | S5 | S6 | S7 | S8 | S9 | S10 | S11 | T3 | T4 | T5 | T6.
#[export] Instance reg_eq_dec : EqDecision reg.
Proof. solve_decision. Defined.

Inductive csreg := SSCRATCH | SATP | MHARTID.

(** [LA] loads the address of a symbol. *)
Inductive instr :=
| SD (rs : reg) (o : Z) (b : reg)
| LD (rd : reg) (o : Z) (b : reg)
| LI (rd : reg) (imm : Z)
| LA (rd : reg) (sym : string)
| ADDI (rd rs : reg) (imm : Z)
| ADD (rd rs1 rs2 : reg)
| MUL (rd rs1 rs2 : reg)
| CSRW (c : csreg) (rs : reg)
| CSRR (rd : reg) (c : csreg)
| SFENCE_VMA
| CALL (f : string)
| JR (rs : reg)
| SRET.
Abbreviation RET := (JR RA).

Record hw := mk_hw { xr : reg → Z; satp : Z; sscratch : Z; mhartid : Z; hmem : mem }.
Definition rget (s : hw) (r : reg) : Z := match r with ZERO => 0 | _ => xr s r end.
Definition rset (r : reg) (v : Z) (s : hw) : hw :=
  mk_hw (λ r', if decide (r' = r) then v else xr s r') (satp s) (sscratch s) (mhartid s) (hmem s).
Definition set_hmem (m : mem) (s : hw) : hw := mk_hw (xr s) (satp s) (sscratch s) (mhartid s) m.
Definition set_satp (v : Z) (s : hw) : hw := mk_hw (xr s) v (sscratch s) (mhartid s) (hmem s).
Definition set_sscratch (v : Z) (s : hw) : hw := mk_hw (xr s) (satp s) v (mhartid s) (hmem s).

(** ** Address translation

    The lower half of the Sv39 address space, which is all xv6 uses; in
    supervisor mode a page with PTE_U is out of reach. *)
Inductive access := AccR | AccW | AccX.
Definition allows (a : access) (pte : Z) : bool :=
  has pte PTE_V && negb (has pte PTE_U) && has pte (match a with AccR => PTE_R | AccW => PTE_W | AccX => PTE_X end).
Definition root_of (v : Z) : Z := v mod 2 ^ 44 * PGSIZE.
Definition xlate (a : access) (m : mem) (v va : Z) : option Z :=
  if v =? 0 then Some va
  else if (0 <=? va) && (va <? MAXVA) then
    let pte := pte_at m (root_of v) va in
    if allows a pte then Some (PTE2PA pte + va mod PGSIZE) else None
  else None.

(** ** Execution *)
Definition hload (s : hw) (va : Z) : option Z :=
  if va mod 8 =? 0 then pa ← xlate AccR (hmem s) (satp s) va; Some (ld64 (hmem s) pa) else None.
Definition hstore (s : hw) (va v : Z) : option hw :=
  if va mod 8 =? 0 then pa ← xlate AccW (hmem s) (satp s) va; Some (set_hmem (st64 (hmem s) pa v) s) else None.

(** How a run leaves the code *)
Inductive leave := Jump (a : Z) | Sret.

Section run_code.
(** The C functions that the code calls, the addresses of symbols, and where
    the code is: instruction [k] at virtual address [va0 + off k], loaded at
    physical address [pa0 + off k]. *)
Context (callee : string → hw → option hw) (addr : string → Z) (va0 pa0 : Z) (off : nat → Z).

Definition step_instr (i : instr) (s : hw) : option hw :=
  match i with
  | SD rs o b => hstore s (u64 (rget s b + o)) (rget s rs)
  | LD rd o b => v ← hload s (u64 (rget s b + o)); Some (rset rd v s)
  | LI rd imm => Some (rset rd (u64 imm) s)
  | LA rd sym => Some (rset rd (addr sym) s)
  | ADDI rd rs imm => Some (rset rd (u64 (rget s rs + imm)) s)
  | ADD rd rs1 rs2 => Some (rset rd (u64 (rget s rs1 + rget s rs2)) s)
  | MUL rd rs1 rs2 => Some (rset rd (u64 (rget s rs1 * rget s rs2)) s)
  | CSRW SSCRATCH rs => Some (set_sscratch (rget s rs) s)
  | CSRW SATP rs => Some (set_satp (rget s rs) s)
  | CSRW MHARTID _ => None
  | CSRR rd c => Some (rset rd (match c with SSCRATCH => sscratch s | SATP => satp s | MHARTID => mhartid s end) s)
  | SFENCE_VMA => Some s
  | CALL _ | JR _ | SRET => None
  end.
Fixpoint run_code (k : nat) (l : list instr) (s : hw) : option (leave * hw) :=
  match l with
  | [] => None
  | i :: l' =>
      if decide (xlate AccX (hmem s) (satp s) (va0 + off k) = Some (pa0 + off k)) then
        match i with
        | JR rs => Some (Jump (rget s rs), s)
        | SRET => Some (Sret, s)
        | CALL f => s' ← callee f (rset RA (va0 + off (S k)) s); run_code (S k) l' s'
        | _ => s' ← step_instr i s; run_code (S k) l' s'
        end
      else None
  end.
End run_code.

(** ** trampoline.S *)
Definition uservec : list instr :=
  [ CSRW SSCRATCH A0;
    LI A0 TRAPFRAME;
    SD RA 40 A0; SD SP 48 A0; SD GP 56 A0; SD TP 64 A0; SD T0 72 A0; SD T1 80 A0; SD T2 88 A0; SD S0 96 A0; SD S1 104 A0;
    SD A1 120 A0; SD A2 128 A0; SD A3 136 A0; SD A4 144 A0; SD A5 152 A0; SD A6 160 A0; SD A7 168 A0;
    SD S2 176 A0; SD S3 184 A0; SD S4 192 A0; SD S5 200 A0; SD S6 208 A0; SD S7 216 A0; SD S8 224 A0; SD S9 232 A0;
    SD S10 240 A0; SD S11 248 A0; SD T3 256 A0; SD T4 264 A0; SD T5 272 A0; SD T6 280 A0;
    CSRR T0 SSCRATCH;
    SD T0 112 A0;
    LD SP 8 A0;
    LD TP 32 A0;
    LD T0 16 A0;
    LD T1 0 A0;
    SFENCE_VMA;
    CSRW SATP T1;
    SFENCE_VMA;
    JR T0 ].
Definition userret : list instr :=
  [ SFENCE_VMA;
    CSRW SATP A0;
    SFENCE_VMA;
    LI A0 TRAPFRAME;
    LD RA 40 A0; LD SP 48 A0; LD GP 56 A0; LD TP 64 A0; LD T0 72 A0; LD T1 80 A0; LD T2 88 A0; LD S0 96 A0; LD S1 104 A0;
    LD A1 120 A0; LD A2 128 A0; LD A3 136 A0; LD A4 144 A0; LD A5 152 A0; LD A6 160 A0; LD A7 168 A0;
    LD S2 176 A0; LD S3 184 A0; LD S4 192 A0; LD S5 200 A0; LD S6 208 A0; LD S7 216 A0; LD S8 224 A0; LD S9 232 A0;
    LD S10 240 A0; LD S11 248 A0; LD T3 256 A0; LD T4 264 A0; LD T5 272 A0; LD T6 280 A0;
    LD A0 112 A0;
    SRET ].

(** ** swtch.S *)
Definition swtch : list instr :=
  [ SD RA 0 A0; SD SP 8 A0; SD S0 16 A0; SD S1 24 A0; SD S2 32 A0; SD S3 40 A0; SD S4 48 A0; SD S5 56 A0;
    SD S6 64 A0; SD S7 72 A0; SD S8 80 A0; SD S9 88 A0; SD S10 96 A0; SD S11 104 A0;
    LD RA 0 A1; LD SP 8 A1; LD S0 16 A1; LD S1 24 A1; LD S2 32 A1; LD S3 40 A1; LD S4 48 A1; LD S5 56 A1;
    LD S6 64 A1; LD S7 72 A1; LD S8 80 A1; LD S9 88 A1; LD S10 96 A1; LD S11 104 A1;
    RET ].

(** ** kernelvec.S *)
Definition kernelvec : list instr :=
  [ ADDI SP SP (-256);
    SD RA 0 SP; SD SP 8 SP; SD GP 16 SP; SD TP 24 SP; SD T0 32 SP; SD T1 40 SP; SD T2 48 SP;
    SD A0 72 SP; SD A1 80 SP; SD A2 88 SP; SD A3 96 SP; SD A4 104 SP; SD A5 112 SP; SD A6 120 SP; SD A7 128 SP;
    SD T3 216 SP; SD T4 224 SP; SD T5 232 SP; SD T6 240 SP;
    CALL "kerneltrap";
    LD RA 0 SP; LD SP 8 SP; LD GP 16 SP; LD T0 32 SP; LD T1 40 SP; LD T2 48 SP;
    LD A0 72 SP; LD A1 80 SP; LD A2 88 SP; LD A3 96 SP; LD A4 104 SP; LD A5 112 SP; LD A6 120 SP; LD A7 128 SP;
    LD T3 216 SP; LD T4 224 SP; LD T5 232 SP; LD T6 240 SP;
    ADDI SP SP 256;
    SRET ].

(** ** entry.S, up to the loop [spin] that follows the call *)
Definition entry : list instr :=
  [ LA SP "stack0";
    LI A0 (1024 * 4);
    CSRR A1 MHARTID;
    ADDI A1 A1 1;
    MUL A0 A0 A1;
    ADD SP SP A0;
    CALL "start" ].

(** struct trapframe and struct context of proc.h: where each register is *)
Definition tf_slots : list (reg * Z) :=
  [ (RA, 40); (SP, 48); (GP, 56); (TP, 64); (T0, 72); (T1, 80); (T2, 88); (S0, 96); (S1, 104); (A0, 112); (A1, 120); (A2, 128);
    (A3, 136); (A4, 144); (A5, 152); (A6, 160); (A7, 168); (S2, 176); (S3, 184); (S4, 192); (S5, 200); (S6, 208); (S7, 216);
    (S8, 224); (S9, 232); (S10, 240); (S11, 248); (T3, 256); (T4, 264); (T5, 272); (T6, 280) ].
Definition context_slots : list (reg * Z) :=
  [ (RA, 0); (SP, 8); (S0, 16); (S1, 24); (S2, 32); (S3, 40); (S4, 48); (S5, 56); (S6, 64); (S7, 72); (S8, 80); (S9, 88);
    (S10, 96); (S11, 104) ].
