(* ===== verification/AsmInv.v ===== *)
(** * What the assembly code does *)
From S2P Require Import Prelude Riscv CString Kalloc Vm VmInv Asm.

(** ** Straight-line code *)

Lemma rget_rset r v s r' : r ≠ ZERO → rget (rset r v s) r' = if decide (r' = r) then v else rget s r'.
Proof. intros Hr. rewrite /rset /rget. cbn [xr]. destruct (decide (r' = r)) as [->|]; [by destruct r|]. by destruct r'. Qed.
Lemma rget_rset_eq r v s : r ≠ ZERO → rget (rset r v s) r = v.
Proof. intros Hr. rewrite rget_rset // decide_True //. Qed.
Lemma rget_rset_ne r v s r' : r ≠ ZERO → r' ≠ r → rget (rset r v s) r' = rget s r'.
Proof. intros Hr Hne. rewrite rget_rset // decide_False //. Qed.

Lemma rget_set_satp v s r : rget (set_satp v s) r = rget s r.
Proof. by destruct r. Qed.

(** The memory after the registers [f] are stored to the slots [l] of a
    structure at [pa]. *)
Fixpoint saved (pa : Z) (f : reg → Z) (l : list (reg * Z)) (m : mem) : mem :=
  match l with
  | [] => m
  | (r, o) :: l' => saved pa f l' (st64 m (pa + o) (f r))
  end.
(** The state after they are loaded from there. *)
Fixpoint loaded (pa : Z) (l : list (reg * Z)) (s : hw) : hw :=
  match l with
  | [] => s
  | (r, o) :: l' => loaded pa l' (rset r (ld64 (hmem s) (pa + o)) s)
  end.
(** The slots are words of the structure and do not overlap; every register
    has one slot at most. *)
Definition slots_ok (l : list (reg * Z)) : bool :=
  bool_decide (NoDup l.*1) && bool_decide (NoDup l.*2) && forallb (λ x, (x.2 mod 8 =? 0) && negb (bool_decide (x.1 = ZERO))) l.

Lemma slots_ok_cons r o l : slots_ok ((r, o) :: l) = true →
  slots_ok l = true ∧ r ∉ l.*1 ∧ o ∉ l.*2 ∧ o mod 8 = 0 ∧ r ≠ ZERO.
Proof.
  rewrite /slots_ok. cbn [fmap list_fmap fst snd forallb]. intros ([H1%bool_decide_eq_true H2%bool_decide_eq_true]%andb_true_iff & H3)%andb_true_iff.
  apply andb_true_iff in H3 as [[H3%Z.eqb_eq H4%negb_true_iff]%andb_true_iff H5]. apply bool_decide_eq_false in H4.
  apply NoDup_cons in H1 as [? H1]. apply NoDup_cons in H2 as [? H2]. split_and!; try done. by rewrite !bool_decide_true.
Qed.
Lemma slots_mod l r o : slots_ok l = true → (r, o) ∈ l → o mod 8 = 0.
Proof.
  induction l as [|[r' o'] l IH]; intros Hok Hin; [by apply elem_of_nil in Hin|]. apply slots_ok_cons in Hok as (Hok & _ & _ & Ho & _).
  apply elem_of_cons in Hin as [[= -> ->]|Hin]; [done|by apply IH].
Qed.
Lemma slots_apart l r o o' : slots_ok l = true → (r, o) ∈ l → o' mod 8 = 0 → o' ∉ l.*2 → o' + 8 ≤ o ∨ o + 8 ≤ o'.
Proof.
  intros Hok Hin Ho' Hnin. assert (o ≠ o') as Hne. { intros ->. apply Hnin. apply list_elem_of_fmap. by exists (r, o'). }
  pose proof (slots_mod _ _ _ Hok Hin). lia.
Qed.

Lemma ld64_saved_out pa f l m a : (∀ r o, (r, o) ∈ l → a + 8 ≤ pa + o ∨ pa + o + 8 ≤ a) → ld64 (saved pa f l m) a = ld64 m a.
Proof.
  revert m. induction l as [|[r o] l IH]; intros m Ha; [done|]. cbn [saved]. rewrite IH; [|intros r' o' H; apply (Ha r'); by right].
  apply ld64_st64_ne. destruct (Ha r o); [by left|lia|lia].
Qed.
Lemma ld8_saved_out pa f l m a : (∀ r o, (r, o) ∈ l → a < pa + o ∨ pa + o + 8 ≤ a) → ld8 (saved pa f l m) a = ld8 m a.
Proof.
  revert m. induction l as [|[r o] l IH]; intros m Ha; [done|]. cbn [saved]. rewrite IH; [|intros r' o' H; apply (Ha r'); by right].
  apply ld8_st64_ne. destruct (Ha r o); [by left|lia|lia].
Qed.
Lemma ld64_saved pa f l m r o : slots_ok l = true → (r, o) ∈ l → ld64 (saved pa f l m) (pa + o) = u64 (f r).
Proof.
  revert m. induction l as [|[r' o'] l IH]; intros m Hok Hin; [by apply elem_of_nil in Hin|]. cbn [saved].
  apply slots_ok_cons in Hok as (Hok & _ & Hn & Ho & _). apply elem_of_cons in Hin as [[= -> ->]|Hin]; [|by apply IH].
  rewrite ld64_saved_out; [apply ld64_st64_eq|]. intros r2 o2 H2. destruct (slots_apart l r2 o2 o'); [done..|lia|lia].
Qed.

Lemma loaded_same pa l s : hmem (loaded pa l s) = hmem s ∧ satp (loaded pa l s) = satp s ∧ sscratch (loaded pa l s) = sscratch s.
Proof. revert s. induction l as [|[r o] l IH]; intros s; [done|]. cbn [loaded]. by destruct (IH (rset r (ld64 (hmem s) (pa + o)) s)) as (-> & -> & ->). Qed.
Lemma rget_loaded_out pa l s r : slots_ok l = true → r ∉ l.*1 → rget (loaded pa l s) r = rget s r.
Proof.
  revert s. induction l as [|[r' o'] l IH]; intros s Hok Hr; [done|]. cbn [loaded]. apply slots_ok_cons in Hok as (Hok & _ & _ & _ & Hz).
  cbn [fmap list_fmap fst] in Hr. apply not_elem_of_cons in Hr as [Hne Hr]. rewrite IH // rget_rset_ne //.
Qed.
Lemma rget_loaded pa l s r o : slots_ok l = true → (r, o) ∈ l → rget (loaded pa l s) r = ld64 (hmem s) (pa + o).
Proof.
  revert s. induction l as [|[r' o'] l IH]; intros s Hok Hin; [by apply elem_of_nil in Hin|]. cbn [loaded].
  apply slots_ok_cons in Hok as (Hok & Hn & _ & _ & Hz). apply elem_of_cons in Hin as [[= -> ->]|Hin].
  - rewrite rget_loaded_out // rget_rset_eq //.
  - rewrite IH //.
Qed.

Section runs.
Context (callee : string → hw → option hw) (addr : string → Z) (va0 pa0 : Z) (off : nat → Z).
Abbreviation run := (run_code callee addr va0 pa0 off).
Definition fetches (m : mem) (v : Z) (k : nat) : Prop := xlate AccX m v (va0 + off k) = Some (pa0 + off k).

(** The code [l], from instruction [k] on, takes [s] to [s']. *)
Definition steps (k : nat) (l : list instr) (s s' : hw) : Prop := ∀ rest, run k (l ++ rest) s = run (k + length l) rest s'.

Lemma steps_app k l1 l2 s1 s2 s3 : steps k l1 s1 s2 → steps (k + length l1) l2 s2 s3 → steps k (l1 ++ l2) s1 s3.
Proof. intros H1 H2 rest. rewrite -app_assoc H1 H2 length_app. f_equal. lia. Qed.
Lemma steps_cons k i l s1 s2 s3 : steps k [i] s1 s2 → steps (S k) l s2 s3 → steps k (i :: l) s1 s3.
Proof. intros H1 H2. apply (steps_app k [i] l s1 s2 s3 H1). cbn. by rewrite Nat.add_1_r. Qed.
Lemma steps_nil k s : steps k [] s s.
Proof. intros rest. cbn. by rewrite Nat.add_0_r. Qed.
Lemma steps_instr k i s s' : fetches (hmem s) (satp s) k → step_instr addr i s = Some s' → steps k [i] s s'.
Proof.
  intros Hf Hi rest. cbn [app length]. rewrite Nat.add_1_r. cbn [run_code]. rewrite decide_True //.
  destruct i; try discriminate Hi; by rewrite Hi.
Qed.
Lemma steps_call k f s s' : fetches (hmem s) (satp s) k → callee f (rset RA (va0 + off (S k)) s) = Some s' → steps k [CALL f] s s'.
Proof. intros Hf Hc rest. cbn [app length]. rewrite Nat.add_1_r. cbn [run_code]. by rewrite decide_True // Hc. Qed.
Lemma run_jump k rs rest s : fetches (hmem s) (satp s) k → run k (JR rs :: rest) s = Some (Jump (rget s rs), s).
Proof. intros Hf. cbn [run_code]. by rewrite decide_True. Qed.
Lemma run_sret k rest s : fetches (hmem s) (satp s) k → run k (SRET :: rest) s = Some (Sret, s).
Proof. intros Hf. cbn [run_code]. by rewrite decide_True. Qed.

(** Stores of registers into a structure that [b] points to: [Inv] is what
    the stores keep of memory. *)
Lemma steps_saves (Inv : mem → Prop) b base pa v l k s :
  satp s = v → rget s b = base → Inv (hmem s) →
  (∀ m j, Inv m → (j < length l)%nat → fetches m v (k + j)) →
  (∀ m r o, Inv m → (r, o) ∈ l → (base + o) mod 8 = 0 ∧ 0 ≤ base + o < 2 ^ 64 ∧ xlate AccW m v (base + o) = Some (pa + o)) →
  (∀ m r o w, Inv m → (r, o) ∈ l → Inv (st64 m (pa + o) w)) →
  steps k ((λ x, SD x.1 x.2 b) <$> l) s (set_hmem (saved pa (rget s) l (hmem s)) s) ∧ Inv (saved pa (rget s) l (hmem s)).
Proof.
  intros Hv Hb HI Hf Hx HS. revert k s Hv Hb HI Hf. induction l as [|[r o] l IH]; intros k s Hv Hb HI Hf.
  { cbn [saved fmap list_fmap]. split; [|done]. replace (set_hmem (hmem s) s) with s by (by destruct s). apply steps_nil. }
  destruct (Hx (hmem s) r o) as (Hal & Hr & Ht); [done|by left|]. set (m1 := st64 (hmem s) (pa + o) (rget s r)).
  assert (Inv m1) as HI1 by (apply (HS _ r); [done|by left]).
  destruct (IH ltac:(intros; apply (Hx _ r0); [done|by right]) ltac:(intros; apply (HS _ r0); [done|by right]) (S k) (set_hmem m1 s)) as [Hs HI2]; [done..| |].
  { intros m j Hm Hj. rewrite Nat.add_succ_comm. apply Hf; [done|cbn; lia]. }
  change (rget (set_hmem m1 s)) with (rget s) in Hs, HI2. split; [|done]. eapply steps_cons; [|exact Hs].
  apply steps_instr; [rewrite Hv; specialize (Hf (hmem s) 0%nat HI); rewrite Nat.add_0_r in Hf; apply Hf; cbn; lia|].
  cbn [step_instr fst snd]. rewrite Hb u64_small // /hstore Hal. cbn [Z.eqb]. by rewrite Hv Ht.
Qed.

(** Loads from it, which may load [b] itself, with the value it has. *)
Lemma steps_loads b base pa v l k s :
  satp s = v → rget s b = base → slots_ok l = true →
  (∀ j, (j < length l)%nat → fetches (hmem s) v (k + j)) →
  (∀ r o, (r, o) ∈ l → (base + o) mod 8 = 0 ∧ 0 ≤ base + o < 2 ^ 64 ∧ xlate AccR (hmem s) v (base + o) = Some (pa + o)) →
  (∀ o, (b, o) ∈ l → ld64 (hmem s) (pa + o) = base) →
  steps k ((λ x, LD x.1 x.2 b) <$> l) s (loaded pa l s).
Proof.
  revert k s. induction l as [|[r o] l IH]; intros k s Hv Hb Hok Hf Hx Hself; [apply steps_nil|].
  apply slots_ok_cons in Hok as (Hok & _ & _ & _ & Hz). destruct (Hx r o) as (Hal & Hr & Ht); [by left|].
  cbn [loaded fmap list_fmap]. eapply steps_cons.
  - apply steps_instr; [rewrite Hv; specialize (Hf 0%nat); rewrite Nat.add_0_r in Hf; apply Hf; cbn; lia|].
    cbn [step_instr fst snd]. rewrite Hb u64_small // /hload Hal. cbn [Z.eqb]. by rewrite Hv Ht.
  - apply IH; [done| |done|intros j Hj; rewrite Nat.add_succ_comm; apply Hf; cbn; lia|intros r' o' H; apply (Hx r'); by right|intros o' H; apply Hself; by right].
    rewrite rget_rset //. destruct (decide (b = r)) as [->|]; [|done]. apply Hself. by left.
Qed.
End runs.

(** ** Translation *)
Section translation.
Context {LK : Linker}.

Lemma MAKE_SATP_eq p : page_ok p → MAKE_SATP p = 8 * 2 ^ 60 + p / 4096.
Proof.
  intros Hp. pose proof (page_ok_pos p Hp). rewrite /MAKE_SATP /SATP_SV39 Z.shiftl_mul_pow2; [|lia]. rewrite Z.shiftr_div_pow2; [|lia].
  rewrite lor_low_add; [|lia|]; [done|]. change (2 ^ 12) with 4096. lia.
Qed.
Lemma root_of_satp p : page_ok p → root_of (MAKE_SATP p) = p ∧ MAKE_SATP p ≠ 0 ∧ 0 ≤ MAKE_SATP p < 2 ^ 64.
Proof.
  intros Hp. pose proof (page_ok_pos p Hp). rewrite MAKE_SATP_eq //. destruct Hp as [Hal _]. rewrite /root_of. klia.
Qed.

(** [m'] has the page table of [m]. *)
Definition slots_same (G : gmap Z (nat * Z)) (m m' : mem) : Prop :=
  ∀ q i, is_Some (G !! q) → 0 ≤ i < 512 → ld64 m' (q + 8 * i) = ld64 m (q + 8 * i).
Lemma slots_same_trans G m1 m2 m3 : slots_same G m1 m2 → slots_same G m2 m3 → slots_same G m1 m3.
Proof. intros H1 H2 q i Hq Hi. by rewrite H2 // H1. Qed.

(** The bytes [[a, a + n)] are in no page of the tree. *)
Definition apart (G : gmap Z (nat * Z)) (a n : Z) : Prop := ∀ q, is_Some (G !! q) → q + PGSIZE ≤ a ∨ a + n ≤ q.
Lemma slots_same_st64 G m m' a v : apart G a 8 → slots_same G m m' → slots_same G m (st64 m' a v).
Proof. intros Ha Hs q i Hq Hi. rewrite ld64_st64_ne; [by apply Hs|]. destruct (Ha q Hq); klia. Qed.
Lemma apart_page G m root p : pt_inv G m root → page_ok p → G !! p = None → ∀ o n, 0 ≤ o → o + n ≤ PGSIZE → apart G (p + o) n.
Proof.
  intros [_ Hpt] Hp HG o n Ho Hn q [[l x] Hq]. destruct (Hpt _ _ _ Hq) as [Hq' _]. destruct (page_ok_sep p q) as [H|H]; [done..| | |].
  - intros ->. congruence.
  - right. klia.
  - left. klia.
Qed.
(** The image of the kernel is below the pages that are allocated. *)
Lemma apart_image G m root a n : pt_inv G m root → a + n ≤ kend → apart G a n.
Proof. intros [_ Hpt] Ha q [[l x] Hq]. destruct (Hpt _ _ _ Hq) as [[_ Hq'] _]. right. klia. Qed.

Lemma pt_root G m root : pt_inv G m root → page_ok root.
Proof. intros [Hr Hpt]. by destruct (Hpt _ _ _ Hr). Qed.
Lemma pte_same G m m' root va : pt_inv G m root → slots_same G m m' → 0 ≤ va < MAXVA → pte_at m' root va = pte_at m root va.
Proof. intros Hpt Hs Hva. apply (pte_of_ext G m m' root 2 root va); [done|lia|by eapply on_path_root|done]. Qed.
Lemma xlate_same G m m' root a va : pt_inv G m root → slots_same G m m' →
  xlate a m' (MAKE_SATP root) va = xlate a m (MAKE_SATP root) va.
Proof.
  intros Hpt Hs. pose proof (pt_root _ _ _ Hpt) as Hr. destruct (root_of_satp root Hr) as (Hro & Hne & _). rewrite /xlate Hro.
  rewrite (proj2 (Z.eqb_neq _ _) Hne). destruct (Z.leb_spec 0 va); [|done]. destruct (Z.ltb_spec va MAXVA); [|done]. cbn [andb].
  by rewrite (pte_same G m m').
Qed.

(** Virtual page [va] is mapped to [pa] with the flags [fl]. *)
Definition maps_page (m : mem) (root va pa fl : Z) : Prop :=
  PTE2PA (pte_at m root va) = pa ∧ PTE_FLAGS (pte_at m root va) = fl.
Lemma has_flags pte f : 0 ≤ f < 1024 → has (PTE_FLAGS pte) f = has pte f.
Proof.
  intros Hf. rewrite /has /PTE_FLAGS -Z.land_assoc (Z.land_comm 1023). change 1023 with (2 ^ 10 - 1).
  rewrite land_ones_mod; [|lia]. rewrite (Z.mod_small f); [done|]. change (2 ^ 10) with 1024. lia.
Qed.
Lemma allows_flags a pte : allows a (PTE_FLAGS pte) = allows a pte.
Proof. rewrite /allows !has_flags //; destruct a; vm_compute; split; congruence. Qed.
Lemma xlate_maps a m root va pa fl o :
  maps_page m root va pa fl → page_ok root → va mod PGSIZE = 0 → 0 ≤ va < MAXVA → 0 ≤ o < PGSIZE → allows a fl = true →
  xlate a m (MAKE_SATP root) (va + o) = Some (pa + o).
Proof.
  intros [Hpa Hfl] Hr Hal Hva Ho Hall. destruct (root_of_satp root Hr) as (Hro & Hne & _). rewrite /xlate Hro.
  rewrite (proj2 (Z.eqb_neq _ _) Hne). rewrite (pte_at_vpn m root (va + o) va); [|rewrite /vpn; klia].
  rewrite (proj2 (Z.leb_le _ _)); [|klia]. rewrite (proj2 (Z.ltb_lt _ _)); [|klia]. cbn [andb].
  rewrite -allows_flags Hfl Hall Hpa. do 2 f_equal. klia.
Qed.
End translation.

(** ** The trampoline *)

(** The registers [uservec] stores one by one, and those it loads *)
Definition user_slots : list (reg * Z) := filter (λ x, x.1 ≠ A0) tf_slots.
Definition kernel_slots : list (reg * Z) := [(SP, 8); (TP, 32); (T0, 16); (T1, 0)].
Lemma reg_slot_range r o : (r, o) ∈ tf_slots ∨ (r, o) ∈ kernel_slots → 0 ≤ o ∧ o + 8 ≤ PGSIZE ∧ o mod 8 = 0 ∧ r ≠ ZERO.
Proof.
  assert (forallb (λ x, (0 <=? x.2) && (x.2 + 8 <=? PGSIZE) && (x.2 mod 8 =? 0) && negb (bool_decide (x.1 = ZERO))) (tf_slots ++ kernel_slots) = true) as H by reflexivity.
  rewrite forallb_forall in H. intros Hin. specialize (H (r, o)). rewrite -list_elem_of_In elem_of_app in H. specialize (H Hin).
  rewrite !andb_true_iff Z.leb_le Z.leb_le Z.eqb_eq negb_true_iff bool_decide_eq_false in H. cbn [fst snd] in H. naive_solver.
Qed.
Lemma user_slot r o : (r, o) ∈ user_slots → (r, o) ∈ tf_slots.
Proof. rewrite /user_slots. by intros [_ ?]%list_elem_of_filter. Qed.
Lemma a0_slot : (A0, 112) ∈ tf_slots.
Proof. by do 9 right; left. Qed.
Lemma a0_offset o : (A0, o) ∈ tf_slots → o = 112.
Proof.
  rewrite /tf_slots. intros Hin. repeat (apply elem_of_cons in Hin as [Hin|Hin]; [first [discriminate Hin|by injection Hin]|]). by apply elem_of_nil in Hin.
Qed.
Section trampoline.
Context {LK : Linker} (callee : string → hw → option hw) (addr : string → Z).
(** Where the assembler puts the instructions of [uservec] and [userret]; the
    section fits in its page (the ASSERT of kernel.ld). *)
Context (off_vec off_ret : nat → Z).
Hypothesis vec_fits : ∀ k, 0 ≤ off_vec k < PGSIZE.
Hypothesis ret_fits : ∀ k, 0 ≤ off_ret k < PGSIZE.

Definition RW : Z := Z.lor (Z.lor PTE_R PTE_W) PTE_V.
Definition RX : Z := Z.lor (Z.lor PTE_R PTE_X) PTE_V.

(** Memory while a process runs: its page table [upt], of which [proc_pagetable]
    has mapped the trampoline and the trap frame [tf], and the page table [kpt]
    of the kernel, which has the trampoline at the same address. *)
Record trap_env (m : mem) (Gu Gk : gmap Z (nat * Z)) (upt kpt tf : Z) : Prop := {
  te_user : pt_inv Gu m upt;
  te_kernel : pt_inv Gk m kpt;
  te_tf : page_ok tf;
  te_tf_user : Gu !! tf = None;
  te_tf_kernel : Gk !! tf = None;
  te_frame : maps_page m upt TRAPFRAME tf RW;
  te_utramp : maps_page m upt TRAMPOLINE trampoline RX;
  te_ktramp : maps_page m kpt TRAMPOLINE trampoline RX;
}.

Section env.
Context (m : mem) (Gu Gk : gmap Z (nat * Z)) (upt kpt tf : Z).
Hypothesis env : trap_env m Gu Gk upt kpt tf.

(** What stores into the trap frame keep *)
Definition tables (m' : mem) : Prop := slots_same Gu m m' ∧ slots_same Gk m m'.
Lemma tables_store m' o v : tables m' → 0 ≤ o → o + 8 ≤ PGSIZE → tables (st64 m' (tf + o) v).
Proof.
  intros [H1 H2] Ho Hn. destruct env. split; (apply slots_same_st64; [|done]).
  - by eapply (apart_page Gu m upt).
  - by eapply (apart_page Gk m kpt).
Qed.
Lemma fetch_user off m' k : 0 ≤ off k < PGSIZE → tables m' → fetches TRAMPOLINE trampoline off m' (MAKE_SATP upt) k.
Proof.
  intros Ho [H1 _]. destruct env. rewrite /fetches (xlate_same Gu m) //.
  apply (xlate_maps _ _ _ _ _ RX); [done|by eapply pt_root|reflexivity|vm_compute; split; congruence|done|reflexivity].
Qed.
Lemma fetch_kernel off m' k : 0 ≤ off k < PGSIZE → tables m' → fetches TRAMPOLINE trampoline off m' (MAKE_SATP kpt) k.
Proof.
  intros Ho [_ H2]. destruct env. rewrite /fetches (xlate_same Gk m) //.
  apply (xlate_maps _ _ _ _ _ RX); [done|by eapply pt_root|reflexivity|vm_compute; split; congruence|done|reflexivity].
Qed.
Lemma frame_access a m' o : a ≠ AccX → tables m' → 0 ≤ o < PGSIZE → o mod 8 = 0 →
  (TRAPFRAME + o) mod 8 = 0 ∧ 0 ≤ TRAPFRAME + o < 2 ^ 64 ∧ xlate a m' (MAKE_SATP upt) (TRAPFRAME + o) = Some (tf + o).
Proof.
  intros Ha [H1 _] Ho Hal. destruct env. assert (TRAPFRAME = 0x3fffffe000) as Htf by reflexivity.
  split; [rewrite Htf; klia|]. split; [rewrite Htf; klia|]. rewrite (xlate_same Gu m) //.
  apply (xlate_maps _ _ _ _ _ RW); [done|by eapply pt_root|reflexivity|vm_compute; split; congruence|done|by destruct a].
Qed.


Abbreviation vec k := (steps callee addr TRAMPOLINE trampoline off_vec k).
(** The state in which [uservec] jumps *)
Definition vec_saved (s : hw) : hw :=
  let sb := rset A0 TRAPFRAME (set_sscratch (rget s A0) s) in
  let sd := rset T0 (rget s A0) (set_hmem (saved tf (rget sb) user_slots m) sb) in
  set_hmem (saved tf (rget sd) [(T0, 112)] (hmem sd)) sd.
Definition vec_out (s : hw) : hw := let sf := loaded tf kernel_slots (vec_saved s) in set_satp (rget sf T1) sf.

Lemma tables_refl : tables m.
Proof. done. Qed.
Lemma saves_frame l k s : (∀ r o, (r, o) ∈ l → ∃ r', (r', o) ∈ tf_slots) → satp s = MAKE_SATP upt → rget s A0 = TRAPFRAME → tables (hmem s) →
  vec k ((λ x, SD x.1 x.2 A0) <$> l) s (set_hmem (saved tf (rget s) l (hmem s)) s) ∧ tables (saved tf (rget s) l (hmem s)).
Proof.
  intros Hl Hs Ha Ht. apply (steps_saves callee addr TRAMPOLINE trampoline off_vec tables A0 TRAPFRAME tf (MAKE_SATP upt)); try done.
  - intros m' j Hm' Hj. by apply fetch_user.
  - intros m' r o Hm' [r' Hin]%Hl. destruct (reg_slot_range r' o) as (? & ? & ? & _); [by left|]. apply frame_access; [done|done|lia|done].
  - intros m' r o w Hm' [r' Hin]%Hl. destruct (reg_slot_range r' o) as (? & ? & ? & _); [by left|]. by apply tables_store.
Qed.
Lemma vec_saves s : hmem s = m → satp s = MAKE_SATP upt →
  vec 0 ([CSRW SSCRATCH A0; LI A0 TRAPFRAME] ++ ((λ x, SD x.1 x.2 A0) <$> user_slots) ++ [CSRR T0 SSCRATCH] ++ ((λ x, SD x.1 x.2 A0) <$> [(T0, 112)])) s (vec_saved s) ∧
  tables (hmem (vec_saved s)).
Proof.
  intros Hm Hs. set (sb := rset A0 TRAPFRAME (set_sscratch (rget s A0) s)).
  assert (vec 0 [CSRW SSCRATCH A0; LI A0 TRAPFRAME] s sb) as H1.
  { eapply steps_cons; [|eapply steps_cons; [|apply steps_nil]].
    - apply steps_instr; [|reflexivity]. rewrite Hm Hs. by apply fetch_user; [|apply tables_refl].
    - apply steps_instr; [|reflexivity]. cbn [hmem satp set_sscratch]. rewrite Hm Hs. by apply fetch_user; [|apply tables_refl]. }
  destruct (saves_frame user_slots 2 sb) as [H2 T2]; [by intros r o ?%user_slot; exists r|done|by apply rget_rset_eq|cbn; rewrite Hm; apply tables_refl|].
  assert (hmem sb = m) as Hb by done. rewrite Hb in H2, T2.
  set (sc := set_hmem (saved tf (rget sb) user_slots m) sb) in *. set (sd := rset T0 (rget s A0) sc).
  assert (vec 32 [CSRR T0 SSCRATCH] sc sd) as H3.
  { apply steps_instr; [|reflexivity]. cbn [hmem satp sc set_hmem sb rset set_sscratch]. rewrite Hs. by apply fetch_user. }
  destruct (saves_frame [(T0, 112)] 33 sd) as [H4 T4]; [|done|by etrans; [apply rget_rset_ne|exact (rget_rset_eq A0 TRAPFRAME (set_sscratch (rget s A0) s) ltac:(discriminate))]|done|].
  { intros r o [[= -> ->]|H]%elem_of_cons; [|by apply elem_of_nil in H]. exists A0. by apply a0_slot. }
  split; [|exact T4].
  eapply steps_app; [exact H1|]. eapply steps_app; [exact H2|]. eapply steps_app; [exact H3|]. exact H4.
Qed.

Lemma vec_values s : hmem s = m → (∀ r, 0 ≤ rget s r < 2 ^ 64) →
  let m' := hmem (vec_saved s) in
  same_outside tf m m' ∧ (∀ o, o ∈ [0; 8; 16; 24; 32] → ld64 m' (tf + o) = ld64 m (tf + o)) ∧ (∀ r o, (r, o) ∈ tf_slots → ld64 m' (tf + o) = rget s r).
Proof.
  intros Hm Hr. cbn [vec_saved hmem set_hmem rset set_sscratch]. set (sb := rset A0 TRAPFRAME (set_sscratch (rget s A0) s)).
  set (sd := rset T0 (rget s A0) (set_hmem (saved tf (rget sb) user_slots m) sb)). set (m1 := saved tf (rget sb) user_slots m).
  split_and!.
  - intros a Ha. assert (∀ r o, (r, o) ∈ tf_slots → a < tf + o ∨ tf + o + 8 ≤ a) as Hs.
    { intros r o Hin. destruct (reg_slot_range r o) as (? & ? & _); [by left|]. lia. }
    rewrite ld8_saved_out; [rewrite ld8_saved_out; [done|]; intros r o Hin; apply (Hs r), user_slot, Hin|].
    intros r o [[= -> ->]|H]%elem_of_cons; [|by apply elem_of_nil in H]. by apply (Hs A0), a0_slot.
  - intros o Ho. assert (o + 8 ≤ 40) as Hlt.
    { rewrite !elem_of_cons elem_of_nil in Ho. lia. }
    assert (∀ r o', (r, o') ∈ tf_slots → 40 ≤ o') as Hge.
    { intros r o' Hin. assert (forallb (λ x, 40 <=? x.2) tf_slots = true) as H by reflexivity. rewrite forallb_forall in H. apply Z.leb_le, (H (r, o')), list_elem_of_In, Hin. }
    rewrite ld64_saved_out; [rewrite ld64_saved_out; [done|]; intros r o' Hin%user_slot%Hge; lia|].
    intros r o' [[= -> ->]|H]%elem_of_cons; [lia|by apply elem_of_nil in H].
  - intros r o Hin. destruct (decide (r = A0)) as [->|Hne].
    + assert (o = 112) as ->. { by apply a0_offset. }
      rewrite (ld64_saved tf (rget sd) [(T0, 112)] m1 T0 112); [|reflexivity|by left]. rewrite u64_small; [by apply rget_rset_eq|]. rewrite rget_rset_eq //.
    + assert ((r, o) ∈ user_slots) as Hu by (by apply list_elem_of_filter).
      rewrite ld64_saved_out.
      { rewrite (ld64_saved tf (rget sb) user_slots m r o) //. rewrite rget_rset_ne //. by apply u64_small. }
      intros r' o' [[= -> ->]|H]%elem_of_cons; [|by apply elem_of_nil in H].
      destruct (slots_apart user_slots r o 112) as [H|H]; [reflexivity|done|reflexivity| |lia|lia].
      intros Hin'. by refine (eq_true_false_abs (bool_decide (112 ∈ user_slots.*2)) (bool_decide_eq_true_2 _ Hin') _); vm_compute.
Qed.

Lemma uservec_runs s : hmem s = m → satp s = MAKE_SATP upt → (∀ r, 0 ≤ rget s r < 2 ^ 64) → ld64 m (tf + 0) = MAKE_SATP kpt →
  run_code callee addr TRAMPOLINE trampoline off_vec 0 uservec s = Some (Jump (ld64 m (tf + 16)), vec_out s) ∧
  satp (vec_out s) = MAKE_SATP kpt ∧ rget (vec_out s) SP = ld64 m (tf + 8) ∧ rget (vec_out s) TP = ld64 m (tf + 32) ∧ hmem (vec_out s) = hmem (vec_saved s).
Proof.
  intros Hm Hs Hr Hk. destruct (vec_saves s Hm Hs) as [Hsteps Ht]. destruct (vec_values s Hm Hr) as (_ & Hv & _).
  set (se := vec_saved s) in *. set (sf := loaded tf kernel_slots se). destruct (loaded_same tf kernel_slots se) as (Hmf & Hsf & _). rewrite -/sf in Hmf, Hsf.
  assert (∀ r o, (r, o) ∈ kernel_slots → o ∈ [0; 8; 16; 24; 32] → rget sf r = ld64 m (tf + o)) as Hget.
  { intros r o Hin Ho. rewrite /sf (rget_loaded tf kernel_slots se r o) //. by apply Hv. }
  assert (rget sf T1 = MAKE_SATP kpt) as HT1.
  { rewrite (Hget T1 0) //; [|by left]. by do 3 right; left. }
  assert (satp se = MAKE_SATP upt) as Hse by done.
  assert (vec 34 ((λ x, LD x.1 x.2 A0) <$> kernel_slots) se sf) as H5.
  { apply (steps_loads callee addr TRAMPOLINE trampoline off_vec A0 TRAPFRAME tf (MAKE_SATP upt)); [done| |done|intros j _; by apply fetch_user| |].
    - reflexivity.
    - intros r o Hin. destruct (reg_slot_range r o) as (? & ? & ? & _); [by right|]. apply frame_access; [done|done|lia|done].
    - intros o Ho. rewrite /kernel_slots in Ho. repeat (apply elem_of_cons in Ho as [Ho|Ho]; [discriminate Ho|]). by apply elem_of_nil in Ho. }
  assert (vec 38 [SFENCE_VMA; CSRW SATP T1; SFENCE_VMA] sf (vec_out s)) as H6.
  { eapply steps_cons; [|eapply steps_cons; [|eapply steps_cons; [|apply steps_nil]]].
    - apply steps_instr; [|reflexivity]. rewrite Hmf Hsf Hse. by apply fetch_user.
    - apply steps_instr; [|reflexivity]. rewrite Hmf Hsf Hse. by apply fetch_user.
    - apply steps_instr; [|reflexivity]. cbn [hmem satp set_satp vec_out]. rewrite -/se -/sf HT1 Hmf. by apply fetch_kernel. }
  split_and!.
  - etrans; [exact (steps_app _ _ _ _ _ 0 _ _ _ _ _ Hsteps (steps_app _ _ _ _ _ _ _ _ _ _ _ H5 H6) [JR T0])|].
    rewrite run_jump; [|cbn [hmem satp set_satp vec_out]; rewrite -/se -/sf HT1 Hmf; by apply fetch_kernel].
    rewrite /vec_out -/se -/sf rget_set_satp. do 3 f_equal. apply (Hget T0 16); [by do 2 right; left|by do 2 right; left].
  - exact HT1.
  - rewrite /vec_out -/se -/sf rget_set_satp. apply (Hget SP 8); [by left|by right; left].
  - rewrite /vec_out -/se -/sf rget_set_satp. apply (Hget TP 32); [by right; left|by do 4 right; left].
  - exact Hmf.
Qed.

Abbreviation ret k := (steps callee addr TRAMPOLINE trampoline off_ret k).
Lemma userret_runs s : hmem s = m → satp s = MAKE_SATP kpt → rget s A0 = MAKE_SATP upt →
  ∃ s', run_code callee addr TRAMPOLINE trampoline off_ret 0 userret s = Some (Sret, s') ∧
    satp s' = MAKE_SATP upt ∧ hmem s' = m ∧ (∀ r o, (r, o) ∈ tf_slots → rget s' r = ld64 m (tf + o)).
Proof.
  intros Hm Hs Ha. set (sa := set_satp (rget s A0) s). set (sb := rset A0 TRAPFRAME sa). set (sc := loaded tf user_slots sb).
  destruct (loaded_same tf user_slots sb) as (Hmc & Hsc & _). rewrite -/sc in Hmc, Hsc. pose proof tables_refl as Ht.
  assert (ret 0 [SFENCE_VMA; CSRW SATP A0; SFENCE_VMA; LI A0 TRAPFRAME] s sb) as H1.
  { eapply steps_cons; [|eapply steps_cons; [|eapply steps_cons; [|eapply steps_cons; [|apply steps_nil]]]]; (apply steps_instr; [|reflexivity]); cbn [hmem satp sa set_satp rset].
    - rewrite Hm Hs. by apply fetch_kernel.
    - rewrite Hm Hs. by apply fetch_kernel.
    - rewrite Hm Ha. by apply fetch_user.
    - rewrite Hm Ha. by apply fetch_user. }
  assert (satp sb = MAKE_SATP upt) as Hsb by exact Ha. assert (hmem sb = m) as Hmb by exact Hm.
  assert (ret 4 ((λ x, LD x.1 x.2 A0) <$> user_slots) sb sc) as H2.
  { apply (steps_loads callee addr TRAMPOLINE trampoline off_ret A0 TRAPFRAME tf (MAKE_SATP upt)); [done|by apply rget_rset_eq|done|intros j _; rewrite Hmb; by apply fetch_user| |].
    - intros r o Hin%user_slot. destruct (reg_slot_range r o) as (? & ? & ? & _); [by left|]. rewrite Hmb. apply frame_access; [done|done|lia|done].
    - intros o Ho. by apply list_elem_of_filter in Ho as [? _]. }
  assert (rget sc A0 = TRAPFRAME) as HA0.
  { rewrite /sc rget_loaded_out; [by apply rget_rset_eq|reflexivity|]. intros Hin. apply list_elem_of_fmap in Hin as ([r o] & Hr & Hin). cbn [fst] in Hr. subst r. by apply list_elem_of_filter in Hin as [? _]. }
  assert (ret 34 [LD A0 112 A0] sc (rset A0 (ld64 m (tf + 112)) sc)) as H3.
  { apply steps_instr; [rewrite Hmc Hsc Hsb Hmb; by apply fetch_user|]. cbn [step_instr]. rewrite HA0.
    destruct (frame_access AccR m 112) as (Hal & Hr & Hx); [done..|]. rewrite u64_small // /hload Hal. cbn [Z.eqb]. by rewrite Hmc Hsc Hsb Hmb Hx. }
  exists (rset A0 (ld64 m (tf + 112)) sc). split_and!.
  - etrans; [exact (steps_app _ _ _ _ _ 0 _ _ _ _ _ H1 (steps_app _ _ _ _ _ _ _ _ _ _ _ H2 H3) [SRET])|].
    apply run_sret. cbn [hmem satp rset]. rewrite Hmc Hsc Hsb Hmb. by apply fetch_user.
  - cbn [satp rset]. by rewrite Hsc.
  - cbn [hmem rset]. by rewrite Hmc.
  - intros r o Hin. rewrite rget_rset //. destruct (decide (r = A0)) as [->|Hne]; [by rewrite (a0_offset o Hin)|].
    rewrite /sc (rget_loaded tf user_slots sb r o); [by rewrite Hmb|reflexivity|by apply list_elem_of_filter].
Qed.
End env.

(** C8. A trap from user space and the return from it.  [uservec], entered
    with the registers of the user and the user's page table, puts every
    register in its field of the trap frame and writes nothing else, and
    jumps to [kernel_trap] with the stack, hart number and page table the
    frame names; no instruction faults, before or after the switch of page
    tables.  Whatever the kernel does then, [userret] called with the user's
    page table loads every register from the trap frame: a register whose
    field the kernel has left alone has the value it had before the trap. *)
Theorem trap_roundtrip m Gu Gk upt kpt tf s :
  trap_env m Gu Gk upt kpt tf → hmem s = m → satp s = MAKE_SATP upt → (∀ r, 0 ≤ rget s r < 2 ^ 64) → ld64 m (tf + 0) = MAKE_SATP kpt →
  ∃ s1, run_code callee addr TRAMPOLINE trampoline off_vec 0 uservec s = Some (Jump (ld64 m (tf + 16)), s1) ∧
    satp s1 = MAKE_SATP kpt ∧ rget s1 SP = ld64 m (tf + 8) ∧ rget s1 TP = ld64 m (tf + 32) ∧
    same_outside tf m (hmem s1) ∧ (∀ o, o ∈ [0; 8; 16; 24; 32] → ld64 (hmem s1) (tf + o) = ld64 m (tf + o)) ∧
    (∀ r o, (r, o) ∈ tf_slots → ld64 (hmem s1) (tf + o) = rget s r) ∧
    ∀ s2 Gu2 Gk2, trap_env (hmem s2) Gu2 Gk2 upt kpt tf → satp s2 = MAKE_SATP kpt → rget s2 A0 = MAKE_SATP upt →
      ∃ s3, run_code callee addr TRAMPOLINE trampoline off_ret 0 userret s2 = Some (Sret, s3) ∧
        satp s3 = MAKE_SATP upt ∧ hmem s3 = hmem s2 ∧
        (∀ r o, (r, o) ∈ tf_slots → rget s3 r = ld64 (hmem s2) (tf + o)) ∧
        (∀ r o, (r, o) ∈ tf_slots → ld64 (hmem s2) (tf + o) = ld64 (hmem s1) (tf + o) → rget s3 r = rget s r).
Proof.
  intros Henv Hm Hs Hr Hk. destruct (uservec_runs m Gu Gk upt kpt tf Henv s Hm Hs Hr Hk) as (Hrun & Hsatp & Hsp & Htp & Hmem).
  destruct (vec_values m tf s Hm Hr) as (Hout & Hhead & Hslots). exists (vec_out m tf s). rewrite Hmem. split_and!; [done..|].
  intros s2 Gu2 Gk2 Henv2 Hs2 Ha2. destruct (userret_runs (hmem s2) Gu2 Gk2 upt kpt tf Henv2 s2 eq_refl Hs2 Ha2) as (s3 & Hrun3 & Hsatp3 & Hmem3 & Hslots3).
  exists s3. split_and!; [done..|]. intros r o Hin Hsame. rewrite (Hslots3 r o Hin) Hsame. by apply Hslots.
Qed.
End trampoline.

(** ** Example: a process on the small machine *)
#[local] Existing Instance demo_linker.

(** The mappings of [proc_pagetable] on an empty page table; the trap frame
    is the next free page. *)
Definition demo_tf : Z := PHYSTOP - 4 * PGSIZE.
Definition demo_traps : kmem :=
  let s := ret_state (mappages demo_top TRAMPOLINE (1 * PGSIZE) trampoline (Z.lor PTE_R PTE_X) demo_vm) demo_vm in
  ret_state (mappages demo_top TRAPFRAME (1 * PGSIZE) demo_tf (Z.lor PTE_R PTE_W) s) s.

Lemma map_one G s root pages va pa perm :
  vm_inv G s root pages → va mod PGSIZE = 0 → 0 ≤ va → va + 1 * PGSIZE ≤ MAXVA → pa mod PGSIZE = 0 → 0 ≤ pa → pa + 1 * PGSIZE ≤ 2 ^ 56 → 0 ≤ perm < 1024 →
  has (pte_at (km s) root va) PTE_V = false → ret_val (mappages root va (1 * PGSIZE) pa perm s) = 0 →
  let s' := ret_state (mappages root va (1 * PGSIZE) pa perm s) s in
  ∃ G' pages', vm_inv G' s' root pages' ∧ maps_page (km s') root va pa (Z.lor perm PTE_V) ∧
    (∀ va', 0 ≤ va' < MAXVA → vpn va' ≠ vpn va → pte_at (km s') root va' = pte_at (km s) root va').
Proof.
  intros Hinv Hal Hva Hlim Hpal Hpa Hplim Hperm Hfree Hz.
  destruct (mappages_spec G s root pages va 1 pa perm) as (r & s' & G' & used & pages' & k & E & []); try done.
  { intros va' Hv. rewrite (pte_at_vpn _ _ va' va); [done|lia]. }
  rewrite E in Hz |- *. cbn in Hz |- *. subst r. destruct mp_ret as [[_ ->]|[? _]]; [|done]. exists G', pages'. split_and!; [done| |].
  - rewrite /maps_page mp_pte; [|klia]. rewrite /mapped_to decide_True; [|lia]. rewrite Z.sub_diag Z.add_0_r.
    split; [apply PTE2PA_encode; [klia..|done]|apply PTE_FLAGS_encode; [klia|done]].
  - intros va' Hva' Hne. rewrite mp_pte // /mapped_to decide_False //. lia.
Qed.

Lemma demo_env : ∃ m G, trap_env m G G demo_top demo_top demo_tf ∧ ld64 m (demo_tf + 0) = MAKE_SATP demo_top.
Proof.
  destruct (map_one demo_pt demo_vm demo_top demo_pages TRAMPOLINE trampoline (Z.lor PTE_R PTE_X)) as (G1 & p1 & Hinv1 & Hm1 & _);
    [exact demo_vm_inv|reflexivity|vm_compute; congruence|vm_compute; congruence|reflexivity|vm_compute; congruence|vm_compute; congruence|vm_compute; intuition congruence|by rewrite demo_vm_pte has_0|vm_compute; reflexivity|].
  set (s1 := ret_state (mappages demo_top TRAMPOLINE (1 * PGSIZE) trampoline (Z.lor PTE_R PTE_X) demo_vm) demo_vm) in *.
  destruct (map_one G1 s1 demo_top p1 TRAPFRAME demo_tf (Z.lor PTE_R PTE_W)) as (G2 & p2 & Hinv2 & Hm2 & Hk2);
    [done|reflexivity|vm_compute; congruence|vm_compute; congruence|reflexivity|vm_compute; congruence|vm_compute; congruence|vm_compute; intuition congruence|vm_compute; reflexivity|vm_compute; reflexivity|].
  change (ret_state (mappages demo_top TRAPFRAME (1 * PGSIZE) demo_tf (Z.lor PTE_R PTE_W) s1) s1) with demo_traps in *.
  destruct Hinv2 as ((Hnd & Hok & Hrep) & Hpt & Hdis). assert (demo_tf ∈ p2) as Htf.
  { assert (freelist demo_traps = demo_tf) as Hf by (vm_compute; reflexivity). rewrite Hf in Hrep. destruct p2 as [|p p2]; [discriminate Hrep|]. destruct Hrep as [-> _]. by left. }
  rewrite Forall_forall in Hok. specialize (Hok _ Htf).
  assert (slots_same G2 (km demo_traps) (st64 (km demo_traps) (demo_tf + 0) (MAKE_SATP demo_top))) as Hsame.
  { apply slots_same_st64; [|done]. eapply apart_page; [done|done|by apply Hdis|lia|klia]. }
  assert (∀ va, 0 ≤ va < MAXVA → pte_at (st64 (km demo_traps) (demo_tf + 0) (MAKE_SATP demo_top)) demo_top va = pte_at (km demo_traps) demo_top va) as Hp.
  { intros va Hva. by apply (pte_same G2). }
  assert (maps_page (st64 (km demo_traps) (demo_tf + 0) (MAKE_SATP demo_top)) demo_top TRAMPOLINE trampoline RX) as Htr.
  { rewrite /maps_page Hp; [|vm_compute; intuition congruence]. rewrite Hk2; [exact Hm1|vm_compute; intuition congruence|vm_compute; congruence]. }
  assert (maps_page (st64 (km demo_traps) (demo_tf + 0) (MAKE_SATP demo_top)) demo_top TRAPFRAME demo_tf RW) as Hfr.
  { rewrite /maps_page Hp; [exact Hm2|vm_compute; intuition congruence]. }
  pose proof (pt_inv_ext G2 _ _ demo_top Hpt Hsame) as Hpt'.
  exists (st64 (km demo_traps) (demo_tf + 0) (MAKE_SATP demo_top)), G2. split; [split; [exact Hpt'|exact Hpt'|exact Hok|exact (Hdis _ Htf)|exact (Hdis _ Htf)|exact Hfr|exact Htr|exact Htr]|].
  rewrite ld64_st64_eq. apply u64_small. vm_compute. intuition congruence.
Qed.

(** Every register of the user is 7. *)
Definition sevens (m : mem) : hw := mk_hw (λ _, 7) (MAKE_SATP demo_top) 0 0 m.
Lemma trap_roundtrip_witness : let run := run_code (λ _ _, None) (λ _, 0) TRAMPOLINE trampoline (λ k, 4 * Z.of_nat (k `mod` 64)) in
  ∃ m a s1 s3, run 0%nat uservec (sevens m) = Some (Jump a, s1) ∧ satp s1 = MAKE_SATP demo_top ∧
    run 0%nat userret (rset A0 (MAKE_SATP demo_top) s1) = Some (Sret, s3) ∧ ∀ r o, (r, o) ∈ tf_slots → rget s3 r = 7.
Proof.
  destruct demo_env as (m & G & Henv & Hk). assert (∀ k, 0 ≤ 4 * Z.of_nat (k `mod` 64) < PGSIZE) as Hoff.
  { intros k. pose proof (Nat.mod_upper_bound k 64). klia. }
  destruct (trap_roundtrip (λ _ _, None) (λ _, 0) (λ k, 4 * Z.of_nat (k `mod` 64)) (λ k, 4 * Z.of_nat (k `mod` 64)) Hoff Hoff _ G G demo_top demo_top demo_tf (sevens m) Henv)
    as (s1 & Hrun & Hsatp & Hsp & _ & Hout & Hhead & Hslots & Hret); [reflexivity|reflexivity|intros []; vm_compute; intuition congruence|exact Hk|].
  assert (trap_env (hmem s1) G G demo_top demo_top demo_tf) as Henv1.
  { destruct Henv as [Hpt _ Hok HG _ Hf Ht _].
    assert (slots_same G m (hmem s1)) as Hs.
    { intros q i Hq Hi. exact (slot_frame G m (hmem s1) demo_top demo_tf q i Hpt Hok HG Hout Hq Hi). }
    pose proof (pt_inv_ext G _ _ demo_top Hpt Hs) as Hpt1.
    assert (∀ va, 0 ≤ va < MAXVA → pte_at (hmem s1) demo_top va = pte_at m demo_top va) as Hp by (intros va Hva; exact (pte_same G m (hmem s1) demo_top va Hpt Hs Hva)).
    split; [exact Hpt1|exact Hpt1|exact Hok|exact HG|exact HG|..]; (rewrite /maps_page Hp; [assumption|vm_compute; intuition congruence]). }
  destruct (Hret (rset A0 (MAKE_SATP demo_top) s1) G G) as (s3 & Hrun3 & _ & _ & _ & Hsame); [exact Henv1|exact Hsatp|by apply rget_rset_eq|].
  exists m, (ld64 m (demo_tf + 16)), s1, s3. split_and!; [exact Hrun|exact Hsatp|exact Hrun3|].
  intros r o Hin. rewrite (Hsame r o Hin eq_refl). destruct (reg_slot_range r o (or_introl Hin)) as (_ & _ & _ & Hr). by destruct r.
Defined.
