(* ===== verification/Swtch.v ===== *)
(** * Context switches, traps in the kernel, and the entry of the kernel *)
From S2P Require Import Prelude Riscv CString Kalloc Vm VmInv Asm AsmInv.

Section kernel.
Context {LK : Linker} (callee : string → hw → option hw) (addr : string → Z).

(** The kernel's page table maps the bytes [[a, a + n)] to themselves. *)
Definition direct (acc : access) (m : mem) (kpt a n : Z) : Prop :=
  ∀ o, 0 ≤ o < n → xlate acc m (MAKE_SATP kpt) (a + o) = Some (a + o).

(** ** swtch.S *)

Definition CONTEXT_SIZE : Z := 112.
(** A struct context in the image of the kernel, in [proc] or [cpus] *)
Record context_at (m : mem) (kpt a : Z) : Prop := {
  ca_range : 0 ≤ a ∧ a + CONTEXT_SIZE ≤ kend;
  ca_align : a mod 8 = 0;
  ca_read : direct AccR m kpt a CONTEXT_SIZE;
  ca_write : direct AccW m kpt a CONTEXT_SIZE;
}.
(** A hart that is about to run [swtch], the code of which is at [sw] *)
Record swtch_env (G : gmap Z (nat * Z)) (kpt sw : Z) (off : nat → Z) (s : hw) : Prop := {
  se_table : pt_inv G (hmem s) kpt;
  se_satp : satp s = MAKE_SATP kpt;
  se_code k : xlate AccX (hmem s) (MAKE_SATP kpt) (sw + off k) = Some (sw + off k);
  se_old : context_at (hmem s) kpt (rget s A0);
  se_new : context_at (hmem s) kpt (rget s A1);
  se_regs r : 0 ≤ rget s r < 2 ^ 64;
}.

Lemma context_slot r o : (r, o) ∈ context_slots → 0 ≤ o ∧ o + 8 ≤ CONTEXT_SIZE ∧ o mod 8 = 0 ∧ r ≠ A0 ∧ r ≠ A1.
Proof.
  assert (forallb (λ x, (0 <=? x.2) && (x.2 + 8 <=? CONTEXT_SIZE) && (x.2 mod 8 =? 0) && negb (bool_decide (x.1 = A0)) && negb (bool_decide (x.1 = A1))) context_slots = true) as H by reflexivity.
  rewrite forallb_forall in H. intros Hin. specialize (H (r, o)). rewrite -list_elem_of_In in H. specialize (H Hin).
  rewrite !andb_true_iff Z.leb_le Z.leb_le Z.eqb_eq !negb_true_iff !bool_decide_eq_false in H. cbn [fst snd] in H. naive_solver.
Qed.

Lemma kend_small : kend < 2 ^ 63.
Proof. destruct linker_end. klia. Qed.

Lemma swtch_runs G kpt sw off s : swtch_env G kpt sw off s →
  let old := rget s A0 in let new := rget s A1 in
  ∃ s', run_code callee addr sw sw off 0 swtch s = Some (Jump (rget s' RA), s') ∧ satp s' = satp s ∧ slots_same G (hmem s) (hmem s') ∧
    (∀ r o, (r, o) ∈ context_slots → ld64 (hmem s') (old + o) = rget s r ∧ rget s' r = ld64 (hmem s') (new + o)) ∧
    (∀ r, r ∉ context_slots.*1 → rget s' r = rget s r) ∧
    (∀ a, a < old ∨ old + CONTEXT_SIZE ≤ a → ld8 (hmem s') a = ld8 (hmem s) a).
Proof.
  intros [Hpt Hs Hcode Hold Hnew Hregs] old new. pose proof kend_small as Hk.
  assert (∀ m' k, slots_same G (hmem s) m' → fetches sw sw off m' (MAKE_SATP kpt) k) as Hf.
  { intros m' k Hm'. rewrite /fetches (xlate_same G (hmem s)) //. }
  assert (∀ acc a r o m', context_at (hmem s) kpt a → (r, o) ∈ context_slots → slots_same G (hmem s) m' → acc ≠ AccX →
    (a + o) mod 8 = 0 ∧ 0 ≤ a + o < 2 ^ 64 ∧ xlate acc m' (MAKE_SATP kpt) (a + o) = Some (a + o)) as Hacc.
  { intros acc a r o m' [? ? Hr Hw] (? & ? & ? & _)%context_slot Hm' Hx. split; [lia|]. split; [lia|]. rewrite (xlate_same G (hmem s)) //.
    destruct acc; [apply Hr; lia|apply Hw; lia|done]. }
  destruct (steps_saves callee addr sw sw off (slots_same G (hmem s)) A0 old old (MAKE_SATP kpt) context_slots 0 s) as [H1 Hm1]; try done.
  { intros m' j Hm' _. by apply Hf. }
  { intros m' r o Hm' Hin. by apply (Hacc AccW _ r). }
  { intros m' r o w Hm' (? & ? & _)%context_slot. apply slots_same_st64; [|done]. destruct Hold as [? _ _ _]. eapply apart_image; [done|]. rewrite -/old in ca_range0. lia. }
  set (m1 := saved old (rget s) context_slots (hmem s)) in *. set (s1 := set_hmem m1 s) in *.
  assert (steps callee addr sw sw off 14 ((λ x, LD x.1 x.2 A1) <$> context_slots) s1 (loaded new context_slots s1)) as H2.
  { apply (steps_loads callee addr sw sw off A1 new new (MAKE_SATP kpt)); [done|done|reflexivity|intros j _; by apply Hf| |].
    - intros r o Hin. by apply (Hacc AccR _ r).
    - intros o (_ & _ & _ & _ & Hne)%context_slot. done. }
  set (s2 := loaded new context_slots s1) in *. destruct (loaded_same new context_slots s1) as (Hm2 & Hs2 & _). rewrite -/s2 in Hm2, Hs2.
  exists s2. split_and!.
  - etrans; [exact (steps_app _ _ _ _ _ 0 _ _ _ _ _ H1 H2 [RET])|]. apply run_jump. rewrite Hm2 Hs2. cbn [hmem satp s1 set_hmem]. rewrite Hs. by apply Hf.
  - by rewrite Hs2.
  - by rewrite Hm2.
  - intros r o Hin. rewrite Hm2. split.
    + rewrite /s1 /m1. cbn [hmem set_hmem]. rewrite (ld64_saved old (rget s) context_slots (hmem s) r o); [by apply u64_small|reflexivity|done].
    + by apply rget_loaded.
  - intros r Hr. etrans; [by apply rget_loaded_out|by destruct r].
  - intros a Ha. rewrite Hm2. apply ld8_saved_out. intros r o (? & ? & _)%context_slot. lia.
Qed.

(** C27. [swtch(old, new)] puts ra, sp and the callee-saved registers in
    [old], loads them from [new] and goes on where [new] was left; it writes
    nothing else.  When a later [swtch(x, old)] finds [old] as it was left,
    the first call returns: execution goes on at its return address with
    the stack and the callee-saved registers it had. *)
Theorem swtch_resumes G kpt sw off s :
  swtch_env G kpt sw off s →
  let old := rget s A0 in let new := rget s A1 in
  ∃ s1, run_code callee addr sw sw off 0 swtch s = Some (Jump (ld64 (hmem s1) (new + 0)), s1) ∧
    (∀ r o, (r, o) ∈ context_slots → rget s1 r = ld64 (hmem s1) (new + o)) ∧
    (∀ a, a < old ∨ old + CONTEXT_SIZE ≤ a → ld8 (hmem s1) a = ld8 (hmem s) a) ∧
    ∀ G2 s2, swtch_env G2 kpt sw off s2 → rget s2 A1 = old →
      rget s2 A0 + CONTEXT_SIZE ≤ old ∨ old + CONTEXT_SIZE ≤ rget s2 A0 →
      (∀ r o, (r, o) ∈ context_slots → ld64 (hmem s2) (old + o) = ld64 (hmem s1) (old + o)) →
      ∃ s3, run_code callee addr sw sw off 0 swtch s2 = Some (Jump (rget s RA), s3) ∧ ∀ r, r ∈ context_slots.*1 → rget s3 r = rget s r.
Proof.
  intros Henv old new. destruct (swtch_runs G kpt sw off s Henv) as (s1 & Hrun & _ & _ & Hslots & _ & Hout).
  assert ((RA, 0) ∈ context_slots) as Hra by by left.
  exists s1. split_and!; [|intros r o Hin; by apply Hslots|done|].
  { rewrite Hrun. by rewrite (proj2 (Hslots RA 0 Hra)). }
  intros G2 s2 Henv2 Ha1 Hdis Hsame. destruct (swtch_runs G2 kpt sw off s2 Henv2) as (s3 & Hrun3 & _ & _ & Hslots3 & _ & Hout3).
  assert (∀ r o, (r, o) ∈ context_slots → rget s3 r = rget s r) as H.
  { intros r o Hin. destruct (context_slot r o Hin) as (? & ? & _). rewrite (proj2 (Hslots3 r o Hin)) Ha1.
    rewrite (ld64_ext _ (hmem s2)); [|intros b Hb; apply Hout3; lia]. rewrite (Hsame r o Hin). by apply Hslots. }
  exists s3. split; [by rewrite Hrun3 (H RA 0)|]. intros r Hr. apply list_elem_of_fmap in Hr as ([r' o] & -> & Hin). by apply (H r' o).
Qed.

(** ** kernelvec.S *)

(** A trap in the kernel: the stack of the process is the page [pa], mapped
    at [base], with [d] bytes below the top in use. *)
Record kvec_env (G : gmap Z (nat * Z)) (kpt kv : Z) (off : nat → Z) (base pa d : Z) (s : hw) : Prop := {
  ke_table : pt_inv G (hmem s) kpt;
  ke_satp : satp s = MAKE_SATP kpt;
  ke_code k : xlate AccX (hmem s) (MAKE_SATP kpt) (kv + off k) = Some (kv + off k);
  ke_base : base mod PGSIZE = 0 ∧ 0 ≤ base ∧ base + PGSIZE ≤ MAXVA;
  ke_page : page_ok pa ∧ G !! pa = None;
  ke_stack : maps_page (hmem s) kpt base pa RW;
  ke_room : 256 ≤ d ≤ PGSIZE ∧ d mod 8 = 0;
  ke_sp : rget s SP = base + d;
  ke_regs r : 0 ≤ rget s r < 2 ^ 64;
}.
Definition callee_saved : list reg := [S0; S1; S2; S3; S4; S5; S6; S7; S8; S9; S10; S11].
(** The calling convention of C: a call keeps the stack pointer, the
    callee-saved registers and the stack of its caller, here the 256 bytes
    at [frame]; the kernel's page table does not change. *)
Record c_call (G : gmap Z (nat * Z)) (frame : Z) (s s' : hw) : Prop := {
  cc_sp : rget s' SP = rget s SP;
  cc_saved r : r ∈ callee_saved → rget s' r = rget s r;
  cc_satp : satp s' = satp s;
  cc_table : slots_same G (hmem s) (hmem s');
  cc_frame b : frame ≤ b < frame + 256 → ld8 (hmem s') b = ld8 (hmem s) b;
}.

(** The frame of [kernelvec] *)
Definition kvec_slots : list (reg * Z) :=
  [ (RA, 0); (SP, 8); (GP, 16); (TP, 24); (T0, 32); (T1, 40); (T2, 48); (A0, 72); (A1, 80); (A2, 88); (A3, 96); (A4, 104); (A5, 112);
    (A6, 120); (A7, 128); (T3, 216); (T4, 224); (T5, 232); (T6, 240) ].
Definition kvec_loads : list (reg * Z) := filter (λ x, x.1 ≠ TP) kvec_slots.
Lemma kvec_slot r o : (r, o) ∈ kvec_slots → 0 ≤ o ∧ o + 8 ≤ 256 ∧ o mod 8 = 0.
Proof.
  assert (forallb (λ x, (0 <=? x.2) && (x.2 + 8 <=? 256) && (x.2 mod 8 =? 0)) kvec_slots = true) as H by reflexivity.
  rewrite forallb_forall in H. intros Hin. specialize (H (r, o)). rewrite -list_elem_of_In in H. specialize (H Hin).
  rewrite !andb_true_iff Z.leb_le Z.leb_le Z.eqb_eq in H. cbn [fst snd] in H. naive_solver.
Qed.
Lemma kvec_load r o : (r, o) ∈ kvec_loads → (r, o) ∈ kvec_slots.
Proof. by intros [_ ?]%list_elem_of_filter. Qed.
Lemma reg_cases r : r = ZERO ∨ r = TP ∨ r = SP ∨ r ∈ callee_saved ∨ ∃ o, (r, o) ∈ kvec_loads ∧ r ≠ SP.
Proof.
  destruct (decide (r = ZERO)) as [|Hz]; [by left|]. destruct (decide (r = TP)) as [|Ht]; [by right; left|]. destruct (decide (r = SP)) as [|Hs]; [by do 2 right; left|].
  do 3 right. destruct (decide (r ∈ callee_saved)) as [|Hn]; [by left|]. right.
  assert (r ∈ kvec_loads.*1) as H.
  { apply (bool_decide_eq_true_1 (r ∈ kvec_loads.*1)). destruct r; try reflexivity; try done; exfalso; apply Hn; match goal with |- ?P => exact (bool_decide_eq_true_1 P eq_refl) end. }
  apply list_elem_of_fmap in H as ([r' o] & -> & Hin). by exists o.
Qed.
End kernel.

Section kernelvec.
Context {LK : Linker} (kerneltrap : hw → hw) (addr : string → Z).
Definition only_kerneltrap (f : string) (s : hw) : option hw := if String.eqb f "kerneltrap" then Some (kerneltrap s) else None.
Context (G : gmap Z (nat * Z)) (kpt kv : Z) (off : nat → Z) (base pa d : Z) (s : hw).
Hypothesis env : kvec_env G kpt kv off base pa d s.
Abbreviation run := (steps only_kerneltrap addr kv kv off).
Abbreviation frame := (pa + (d - 256)).
Abbreviation sp0 := (base + (d - 256)).

Definition kvec_pushed : hw := let s0 := rset SP sp0 s in set_hmem (saved frame (rget s0) kvec_slots (hmem s)) s0.
Definition kvec_called : hw := rset RA (kv + off 21%nat) kvec_pushed.

Lemma kvec_fetch m' k : slots_same G (hmem s) m' → fetches kv kv off m' (MAKE_SATP kpt) k.
Proof. intros Hm'. destruct env. rewrite /fetches (xlate_same G (hmem s)) //. Qed.
Lemma kvec_access acc m' r o : acc ≠ AccX → slots_same G (hmem s) m' → (r, o) ∈ kvec_slots →
  (sp0 + o) mod 8 = 0 ∧ 0 ≤ sp0 + o < 2 ^ 64 ∧ xlate acc m' (MAKE_SATP kpt) (sp0 + o) = Some (frame + o).
Proof.
  intros Ha Hm' (? & ? & ?)%kvec_slot. destruct env as [Hpt _ _ (Hb & Hb0 & Hb1) _ Hst [Hd Hd8] _ _]. split; [klia|]. split; [klia|].
  rewrite (xlate_same G (hmem s)) // -!Z.add_assoc. apply (xlate_maps _ _ _ _ _ RW); [done|by eapply pt_root|done|klia|klia|by destruct acc].
Qed.
Lemma kvec_pushes : run 0 (ADDI SP SP (-256) :: ((λ x, SD x.1 x.2 SP) <$> kvec_slots)) s kvec_pushed ∧ slots_same G (hmem s) (hmem kvec_pushed).
Proof.
  destruct env as [Hpt Hs _ (Hb & Hb0 & Hb1) [Hpa HG] _ [Hd Hd8] Hsp Hr]. set (s0 := rset SP sp0 s).
  assert (run 0 [ADDI SP SP (-256)] s s0) as H1.
  { apply steps_instr; [rewrite Hs; by apply kvec_fetch|]. cbn [step_instr]. rewrite Hsp u64_small; [|klia]. do 2 f_equal. lia. }
  destruct (steps_saves only_kerneltrap addr kv kv off (slots_same G (hmem s)) SP sp0 frame (MAKE_SATP kpt) kvec_slots 1 s0) as [H2 Hm]; try done.
  { intros m' j Hm' _. by apply kvec_fetch. }
  { intros m' r o Hm' Hin. by apply (kvec_access AccW m' r). }
  { intros m' r o w Hm' (? & ? & _)%kvec_slot. apply slots_same_st64; [|done]. rewrite -Z.add_assoc. eapply apart_page; [done..|lia|lia]. }
  split; [|exact Hm]. eapply steps_cons; [exact H1|exact H2].
Qed.

Hypothesis abi : c_call G frame kvec_called (kerneltrap kvec_called).

Lemma kvec_word r o : (r, o) ∈ kvec_slots → ld64 (hmem (kerneltrap kvec_called)) (frame + o) = if decide (r = SP) then sp0 else rget s r.
Proof.
  intros Hin. destruct (kvec_slot r o Hin) as (? & ? & _). destruct env as [_ _ _ (Hb & Hb0 & Hb1) _ _ [Hd Hd8] _ Hr].
  rewrite (ld64_ext _ (hmem kvec_called)); [|intros b Hbb; apply abi; lia]. cbn [hmem kvec_called kvec_pushed rset set_hmem].
  rewrite (ld64_saved frame _ kvec_slots (hmem s) r o); [|reflexivity|done]. rewrite rget_rset //. destruct (decide (r = SP)); apply u64_small; [klia|done].
Qed.
Lemma kvec_runs : ∃ s', run_code only_kerneltrap addr kv kv off 0 kernelvec s = Some (Sret, s') ∧ satp s' = satp s ∧ hmem s' = hmem (kerneltrap kvec_called) ∧
  rget s' TP = rget (kerneltrap kvec_called) TP ∧ ∀ r, r ≠ TP → rget s' r = rget s r.
Proof.
  destruct kvec_pushes as [H1 Hm1]. pose proof kvec_word as Hw. destruct env as [Hpt Hs _ (Hb & Hb0 & Hb1) _ _ [Hd Hd8] Hsp Hr]. set (s2 := kerneltrap kvec_called) in *.
  assert (run 20 [CALL "kerneltrap"] kvec_pushed s2) as H2.
  { apply steps_call; [cbn [satp kvec_pushed set_hmem rset]; rewrite Hs; by apply kvec_fetch|reflexivity]. }
  assert (slots_same G (hmem s) (hmem s2)) as Hm2 by (eapply slots_same_trans; [exact Hm1|apply abi]).
  assert (satp s2 = MAKE_SATP kpt) as Hs2 by (rewrite (cc_satp _ _ _ _ abi); exact Hs).
  assert (rget s2 SP = sp0) as Hsp2 by (rewrite (cc_sp _ _ _ _ abi); reflexivity).
  assert (run 21 ((λ x, LD x.1 x.2 SP) <$> kvec_loads) s2 (loaded frame kvec_loads s2)) as H3.
  { apply (steps_loads only_kerneltrap addr kv kv off SP sp0 frame (MAKE_SATP kpt)); [done|done|reflexivity|intros j _; by apply kvec_fetch| |].
    - intros r o Hin%kvec_load. by apply (kvec_access AccR _ r).
    - intros o Hin%kvec_load. by rewrite (Hw SP o Hin). }
  set (s3 := loaded frame kvec_loads s2) in *. destruct (loaded_same frame kvec_loads s2) as (Hm3 & Hs3 & _). rewrite -/s3 in Hm3, Hs3.
  assert (rget s3 SP = sp0) as Hsp3.
  { rewrite /s3 (rget_loaded frame kvec_loads s2 SP 8); [|reflexivity|apply list_elem_of_filter; split; [discriminate|by right; left]].
    rewrite (Hw SP 8); [done|by right; left]. }
  assert (run 39 [ADDI SP SP 256] s3 (rset SP (rget s SP) s3)) as H4.
  { apply steps_instr; [rewrite Hm3 Hs3 Hs2; by apply kvec_fetch|]. cbn [step_instr]. rewrite Hsp3 Hsp u64_small; [|klia]. do 2 f_equal. lia. }
  exists (rset SP (rget s SP) s3). split_and!.
  - etrans; [exact (steps_app _ _ _ _ _ 0 _ _ _ _ _ H1 (steps_app _ _ _ _ _ _ _ _ _ _ _ H2 (steps_app _ _ _ _ _ _ _ _ _ _ _ H3 H4)) [SRET])|].
    apply run_sret. cbn [hmem satp rset]. rewrite Hm3 Hs3 Hs2. by apply kvec_fetch.
  - cbn [satp rset]. by rewrite Hs3 Hs2 Hs.
  - cbn [hmem rset]. by rewrite Hm3.
  - rewrite rget_rset_ne // /s3 rget_loaded_out //.
  - intros r Hne. rewrite rget_rset //. destruct (decide (r = SP)) as [->|Hnsp]; [done|].
    destruct (reg_cases r) as [->|[->|[->|[Hcs|(o & Hin & _)]]]]; [done..| |].
    + rewrite /s3 rget_loaded_out; [|reflexivity|]. { rewrite (cc_saved _ _ _ _ abi r Hcs). revert Hcs. clear. intros Hcs. apply (bool_decide_eq_true_2 (r ∈ callee_saved)) in Hcs. destruct r; first [discriminate Hcs|reflexivity]. }
      revert Hcs. clear. intros Hcs. apply (bool_decide_eq_false_1 (r ∈ kvec_loads.*1)). apply (bool_decide_eq_true_2 (r ∈ callee_saved)) in Hcs. destruct r; first [discriminate Hcs|reflexivity].
    + rewrite /s3 (rget_loaded frame kvec_loads s2 r o); [|reflexivity|done]. rewrite (Hw r o (kvec_load r o Hin)). by rewrite decide_False.
Qed.
End kernelvec.

(** C28. An interrupt in the kernel is transparent.  [kernelvec] calls
    [kerneltrap] with room of its own on the stack, and if [kerneltrap] keeps
    to the calling convention, then every register but tp has after the
    return the value it had when the interrupt came; tp, which holds the
    number of the hart, is the one [kerneltrap] returned with, since the
    process may have moved.  Memory is as [kerneltrap] left it. *)
Theorem kernelvec_transparent {LK : Linker} kerneltrap addr G kpt kv off base pa d s :
  kvec_env G kpt kv off base pa d s →
  (∀ s1, rget s1 SP = rget s SP - 256 → c_call G (pa + (d - 256)) s1 (kerneltrap s1)) →
  ∃ s1 s', rget s1 SP = rget s SP - 256 ∧
    run_code (only_kerneltrap kerneltrap) addr kv kv off 0 kernelvec s = Some (Sret, s') ∧ satp s' = satp s ∧ hmem s' = hmem (kerneltrap s1) ∧
    rget s' TP = rget (kerneltrap s1) TP ∧ ∀ r, r ≠ TP → rget s' r = rget s r.
Proof.
  intros Henv Habi. assert (rget (kvec_called kv off base pa d s) SP = rget s SP - 256) as Hsp.
  { rewrite (ke_sp _ _ _ _ _ _ _ _ Henv). etrans; [by apply (rget_rset_ne RA)|]. etrans; [exact (rget_rset_eq SP (base + (d - 256)) s ltac:(discriminate))|]. lia. }
  destruct (kvec_runs kerneltrap addr G kpt kv off base pa d s Henv (Habi _ Hsp)) as (s' & H). by exists (kvec_called kv off base pa d s), s'.
Qed.

(** ** entry.S *)

(** Every hart calls [start] on a stack of its own: the 4096 bytes below sp
    are the part of [stack0] (char stack0[4096 * NCPU], start.c) that belongs
    to it.  The call does not return. *)
Theorem entry_stack start_ addr pa off s :
  satp s = 0 → 0 ≤ mhartid s < NCPU → 0 ≤ addr "stack0" → addr "stack0" + 4096 * NCPU < 2 ^ 64 →
  ∃ s', run_code start_ addr pa pa off 0 entry s = (start_ "start" s' ≫= λ _, None) ∧
    rget s' SP = addr "stack0" + 4096 * (mhartid s + 1) ∧ rget s' SP ≤ addr "stack0" + 4096 * NCPU ∧ hmem s' = hmem s.
Proof.
  intros Hs Hh Ha Hlim. set (h := mhartid s) in *. set (base := addr "stack0"%string) in *.
  set (v := u64 (base + u64 (4096 * u64 (h + 1)))). assert (v = base + 4096 * (h + 1)) as Hv by (rewrite /v !u64_small; klia).
  set (s6 := rset SP v (rset A0 (u64 (4096 * u64 (h + 1))) (rset A1 (u64 (h + 1)) (rset A1 h (rset A0 4096 (rset SP base s)))))).
  assert (∀ m k, fetches pa pa off m 0 k) as Hf by done.
  assert (steps start_ addr pa pa off 0 [LA SP "stack0"; LI A0 (1024 * 4); CSRR A1 MHARTID; ADDI A1 A1 1; MUL A0 A0 A1; ADD SP SP A0] s s6) as H.
  { do 6 (eapply steps_cons; [apply steps_instr; [cbn [satp rset]; rewrite Hs; apply Hf|reflexivity]|]). apply steps_nil. }
  exists (rset RA (pa + off 7%nat) s6). split_and!.
  - etrans; [exact (H [CALL "start"])|]. cbn [run_code length]. rewrite decide_True //. cbn [satp s6 rset]. rewrite Hs. apply Hf.
  - rewrite -Hv. reflexivity.
  - transitivity v; [reflexivity|]. klia.
  - done.
Qed.

(** ** Example: a kernel on the small machine *)
#[local] Existing Instance demo_linker.

(** Its code is a page at KERNBASE, its data the page below [kend], and the
    stack of a process the page [demo_stack]. *)
Definition demo_data : Z := PHYSTOP - 9 * PGSIZE.
Definition demo_stack : Z := PHYSTOP - 7 * PGSIZE.
Definition demo_map (s : kmem) (va pa perm : Z) : kmem := ret_state (mappages demo_top va (1 * PGSIZE) pa perm s) s.
Definition demo_k1 : kmem := demo_map demo_vm KERNBASE KERNBASE (Z.lor PTE_R PTE_X).
Definition demo_k2 : kmem := demo_map demo_k1 demo_data demo_data (Z.lor PTE_R PTE_W).
Definition demo_k3 : kmem := demo_map demo_k2 (KSTACK 0) demo_stack (Z.lor PTE_R PTE_W).

Lemma demo_kernel : ∃ m G, pt_inv G m demo_top ∧ page_ok demo_stack ∧ G !! demo_stack = None ∧
  maps_page m demo_top KERNBASE KERNBASE RX ∧ maps_page m demo_top demo_data demo_data RW ∧ maps_page m demo_top (KSTACK 0) demo_stack RW.
Proof.
  destruct (map_one demo_pt demo_vm demo_top demo_pages KERNBASE KERNBASE (Z.lor PTE_R PTE_X)) as (G1 & p1 & Hi1 & Hm1 & _);
    [exact demo_vm_inv|reflexivity|vm_compute; congruence|vm_compute; congruence|reflexivity|vm_compute; congruence|vm_compute; congruence|vm_compute; intuition congruence|by rewrite demo_vm_pte has_0|vm_compute; reflexivity|].
  change (ret_state (mappages demo_top KERNBASE (1 * PGSIZE) KERNBASE (Z.lor PTE_R PTE_X) demo_vm) demo_vm) with demo_k1 in *.
  destruct (map_one G1 demo_k1 demo_top p1 demo_data demo_data (Z.lor PTE_R PTE_W)) as (G2 & p2 & Hi2 & Hm2 & Hk2);
    [exact Hi1|reflexivity|vm_compute; congruence|vm_compute; congruence|reflexivity|vm_compute; congruence|vm_compute; congruence|vm_compute; intuition congruence|vm_compute; reflexivity|vm_compute; reflexivity|].
  change (ret_state (mappages demo_top demo_data (1 * PGSIZE) demo_data (Z.lor PTE_R PTE_W) demo_k1) demo_k1) with demo_k2 in *.
  destruct (map_one G2 demo_k2 demo_top p2 (KSTACK 0) demo_stack (Z.lor PTE_R PTE_W)) as (G3 & p3 & Hi3 & Hm3 & Hk3);
    [exact Hi2|reflexivity|vm_compute; congruence|vm_compute; congruence|reflexivity|vm_compute; congruence|vm_compute; congruence|vm_compute; intuition congruence|vm_compute; reflexivity|vm_compute; reflexivity|].
  change (ret_state (mappages demo_top (KSTACK 0) (1 * PGSIZE) demo_stack (Z.lor PTE_R PTE_W) demo_k2) demo_k2) with demo_k3 in *.
  destruct Hi3 as ((_ & Hok & Hrep) & Hpt & Hdis). assert (demo_stack ∈ p3) as Hin.
  { assert (freelist demo_k3 = demo_stack) as Hf by (vm_compute; reflexivity). rewrite Hf in Hrep. destruct p3 as [|p p3]; [discriminate Hrep|]. destruct Hrep as [-> _]. by left. }
  rewrite Forall_forall in Hok. exists (km demo_k3), G3.
  split; [exact Hpt|]. split; [exact (Hok _ Hin)|]. split; [exact (Hdis _ Hin)|]. split; [|split; [|exact Hm3]].
  - rewrite /maps_page Hk3; [|vm_compute; intuition congruence|vm_compute; congruence]. rewrite Hk2; [exact Hm1|vm_compute; intuition congruence|vm_compute; congruence].
  - rewrite /maps_page Hk3; [exact Hm2|vm_compute; intuition congruence|vm_compute; congruence].
Qed.

Definition demo_off (k : nat) : Z := 4 * Z.of_nat (k `mod` 64).
Lemma demo_code m : maps_page m demo_top KERNBASE KERNBASE RX → page_ok demo_top →
  ∀ k, xlate AccX m (MAKE_SATP demo_top) (KERNBASE + demo_off k) = Some (KERNBASE + demo_off k).
Proof.
  intros Hm Hp k. apply (xlate_maps _ _ _ _ _ RX); [exact Hm|exact Hp|reflexivity|vm_compute; intuition congruence| |reflexivity].
  rewrite /demo_off. pose proof (Nat.mod_upper_bound k 64). klia.
Qed.
Lemma demo_context m o : maps_page m demo_top demo_data demo_data RW → page_ok demo_top → 0 ≤ o ≤ 1000 → o mod 8 = 0 → context_at m demo_top (demo_data + o).
Proof.
  intros Hm Hp Ho Hal. split; [rewrite /demo_data /CONTEXT_SIZE /kend /=; klia|rewrite /demo_data; klia|..].
  all: intros x Hx; rewrite -Z.add_assoc; apply (xlate_maps _ m demo_top demo_data demo_data RW (o + x)); [exact Hm|exact Hp|reflexivity|vm_compute; intuition congruence|rewrite /CONTEXT_SIZE in Hx; klia|reflexivity].
Qed.

(** A hart with contexts at the start of the data page and 112 and 224 bytes
    further: it switches from the first to the second. *)
Definition demo_hart (m : mem) : hw := mk_hw (λ r, match r with A0 => demo_data + 0 | A1 => demo_data + 112 | _ => 9 end) (MAKE_SATP demo_top) 0 0 m.
Lemma swtch_resumes_witness : ∃ m s1 a, run_code (λ _ _, None) (λ _, 0) KERNBASE KERNBASE demo_off 0 swtch (demo_hart m) = Some (Jump a, s1) ∧
  ∃ s3, run_code (λ _ _, None) (λ _, 0) KERNBASE KERNBASE demo_off 0 swtch (rset A0 (demo_data + 224) (rset A1 (demo_data + 0) s1)) = Some (Jump 9, s3) ∧ rget s3 S5 = 9.
Proof.
  destruct demo_kernel as (m & G & Hpt & _ & _ & Hc & Hd & _). pose proof (pt_root _ _ _ Hpt) as Hp.
  assert (swtch_env G demo_top KERNBASE demo_off (demo_hart m)) as Henv.
  { split; [exact Hpt|reflexivity|exact (demo_code m Hc Hp)|exact (demo_context m 0 Hd Hp ltac:(lia) eq_refl)|exact (demo_context m 112 Hd Hp ltac:(lia) eq_refl)|intros []; vm_compute; intuition congruence]. }
  destruct (swtch_runs (λ _ _, None) (λ _, 0) G demo_top KERNBASE demo_off (demo_hart m) Henv) as (t1 & Et & Hsatp & Hsame & _ & Hkeep & _).
  destruct (swtch_resumes (λ _ _, None) (λ _, 0) G demo_top KERNBASE demo_off (demo_hart m) Henv) as (s1 & E & Hslots & Hout & Hback).
  assert (t1 = s1) as -> by (rewrite E in Et; by injection Et).
  exists m, s1, (ld64 (hmem s1) (rget (demo_hart m) A1 + 0)). split; [exact E|].
  pose proof (pt_inv_ext G _ _ demo_top Hpt Hsame) as Hpt1.
  assert (∀ va, 0 ≤ va < MAXVA → pte_at (hmem s1) demo_top va = pte_at m demo_top va) as Hpte by (intros va Hva; exact (pte_same G m (hmem s1) demo_top va Hpt Hsame Hva)).
  assert (maps_page (hmem s1) demo_top KERNBASE KERNBASE RX) as Hc1 by (rewrite /maps_page Hpte; [exact Hc|vm_compute; intuition congruence]).
  assert (maps_page (hmem s1) demo_top demo_data demo_data RW) as Hd1 by (rewrite /maps_page Hpte; [exact Hd|vm_compute; intuition congruence]).
  destruct (Hback G (rset A0 (demo_data + 224) (rset A1 (demo_data + 0) s1))) as (s3 & E3 & H3).
  - split; [exact Hpt1|exact Hsatp|exact (demo_code _ Hc1 Hp)|exact (demo_context _ 224 Hd1 Hp ltac:(lia) eq_refl)|exact (demo_context _ 0 Hd1 Hp ltac:(lia) eq_refl)|].
    intros r. rewrite !rget_rset //. destruct (decide (r = A0)); [vm_compute; intuition congruence|]. destruct (decide (r = A1)); [vm_compute; intuition congruence|].
    destruct (decide (r ∈ context_slots.*1)) as [Hin|Hnin].
    + apply list_elem_of_fmap in Hin as ([r' o] & -> & Hin). rewrite (Hslots r' o Hin). apply ld64_range.
    + rewrite (Hkeep r Hnin). destruct r; vm_compute; intuition congruence.
  - reflexivity.
  - right. vm_compute. congruence.
  - done.
  - exists s3. split; [exact E3|]. rewrite (H3 S5); [reflexivity|]. exact (bool_decide_eq_true_1 (S5 ∈ context_slots.*1) eq_refl).
Defined.

(** A [kerneltrap] that returns on hart 3 and leaves other values in the
    temporary registers *)
Definition demo_kerneltrap (s : hw) : hw := rset TP 3 (rset T0 77 (rset A0 78 (rset RA 79 s))).
Definition demo_interrupted (m : mem) : hw := mk_hw (λ r, match r with SP => KSTACK 0 + 4000 | _ => 9 end) (MAKE_SATP demo_top) 0 0 m.
Lemma kernelvec_transparent_witness : ∃ m s', run_code (only_kerneltrap demo_kerneltrap) (λ _, 0) KERNBASE KERNBASE demo_off 0 kernelvec (demo_interrupted m) = Some (Sret, s') ∧
  rget s' TP = 3 ∧ rget s' T0 = 9 ∧ rget s' SP = KSTACK 0 + 4000.
Proof.
  destruct demo_kernel as (m & G & Hpt & Hok & HG & Hc & _ & Hs). pose proof (pt_root _ _ _ Hpt) as Hp.
  destruct (kernelvec_transparent demo_kerneltrap (λ _, 0) G demo_top KERNBASE demo_off (KSTACK 0) demo_stack 4000 (demo_interrupted m)) as (s1 & s' & Hsp & E & _ & _ & Htp & Hr).
  - split; [exact Hpt|reflexivity|exact (demo_code m Hc Hp)|vm_compute; intuition congruence|exact (conj Hok HG)|exact Hs|vm_compute; intuition congruence|reflexivity|intros []; vm_compute; intuition congruence].
  - intros s2 _. split; [reflexivity| |reflexivity|done|done]. intros r Hcs. apply (bool_decide_eq_true_2 (r ∈ callee_saved)) in Hcs. destruct r; first [discriminate Hcs|reflexivity].
  - exists m, s'. split; [exact E|]. split; [exact Htp|]. split; [exact (Hr T0 ltac:(discriminate))|exact (Hr SP ltac:(discriminate))].
Defined.
