(* ===== verification/Initcode.v ===== *)
(** * The first user program

    [initcode] of proc.c, the bytes of user/initcode.S: a decoder for the
    instructions it has, and their execution in user mode from address 0 of
    the page that [uvmfirst] has filled. *)
From S2P Require Import Prelude Riscv CString Kalloc Vm Cache Log Fs Kern Pipe Console File Proc Args Exec Sysfile Syscall Asm.

#[export] Instance reg_inhabited : Inhabited reg := populate ZERO.
(** The integer registers by their numbers *)
Definition xregs : list reg :=
  [ ZERO; RA; SP; GP; TP; T0; T1; T2; S0; S1; A0; A1; A2; A3; A4; A5; A6; A7; S2; S3; S4; S5; S6; S7; S8; S9; S10; S11; T3; T4; T5; T6 ].
Definition xreg (n : Z) : reg := xregs !!! Z.to_nat n.

Inductive uinstr := UAuipc (rd : reg) (imm : Z) | UAddi (rd rs : reg) (imm : Z) | UEcall | UJal (rd : reg) (imm : Z).
Definition bits (w lo n : Z) : Z := Z.shiftr w lo mod 2 ^ n.
(** Sign extension of an [n]-bit number *)
Definition sext (n x : Z) : Z := (x + 2 ^ (n - 1)) mod 2 ^ n - 2 ^ (n - 1).
Definition udecode (w : Z) : option uinstr :=
  let rd := xreg (bits w 7 5) in
  if bits w 0 7 =? 0x17 then Some (UAuipc rd (sext 32 (bits w 12 20 * 4096)))
  else if (bits w 0 7 =? 0x13) && (bits w 12 3 =? 0) then Some (UAddi rd (xreg (bits w 15 5)) (sext 12 (bits w 20 12)))
  else if w =? 0x73 then Some UEcall
  else if bits w 0 7 =? 0x6f then
    Some (UJal rd (sext 21 (bits w 31 1 * 2 ^ 20 + bits w 12 8 * 2 ^ 12 + bits w 20 1 * 2 ^ 11 + bits w 21 10 * 2)))
  else None.

(** ** The program

    user/initcode.S; [la] of a symbol near the code is auipc and addi.  In
    the bytes of proc.c [argv] follows the string at once, at 43; the
    [.p2align 2] of initcode.S would put it at 44. *)
Definition initcode_source : list uinstr :=
  [ UAuipc A0 0; UAddi A0 A0 36;
    UAuipc A1 0; UAddi A1 A1 35;
    UAddi A7 ZERO SYS_exec;
    UEcall;
    UAddi A7 ZERO SYS_exit;
    UEcall;
    UJal RA (-8) ].

(** ** Execution up to the next system call *)
Record ustate := mk_ustate { u_x : reg → Z; u_pc : Z }.
Definition uget (s : ustate) (r : reg) : Z := match r with ZERO => 0 | _ => u_x s r end.
Definition uset (r : reg) (v : Z) (pc : Z) (s : ustate) : ustate := mk_ustate (λ r', if decide (r' = r) then v else u_x s r') pc.
(** The state at the ecall, with the pc that the kernel returns to *)
Fixpoint to_ecall (fuel : nat) (m : mem) (s : ustate) : option ustate :=
  match fuel with
  | O => None
  | S fuel' =>
      let pc := u_pc s in
      i ← udecode (ld32 m pc);
      match i with
      | UAuipc rd imm => to_ecall fuel' m (uset rd (u64 (pc + imm)) (u64 (pc + 4)) s)
      | UAddi rd rs imm => to_ecall fuel' m (uset rd (u64 (uget s rs + imm)) (u64 (pc + 4)) s)
      | UEcall => Some (mk_ustate (u_x s) (u64 (pc + 4)))
      | UJal rd imm => to_ecall fuel' m (uset rd (u64 (pc + 4)) (u64 (pc + imm)) s)
      end
  end.
(** The page of the program *)
Definition init_page : mem := st_bytes (memset ∅ 0 0 PGSIZE) 0 initcode.

(** The bytes in proc.c decode to this program. *)
Theorem initcode_assembled : (λ k, udecode (ld32 init_page (4 * k))) <$> seqZ 0 9 = Some <$> initcode_source.
Proof. vm_compute. reflexivity. Qed.

Section run.
(** The registers of the process, and what exec and exit leave in them when
    they return. *)
Context (x0 : reg → Z).

Definition at_exec : ustate := mk_ustate (u_x (uset A7 SYS_exec 0 (uset A1 43 0 (uset A1 8 0 (uset A0 36 0 (uset A0 0 0 (mk_ustate x0 0))))))) 24.
Lemma first_ecall : to_ecall 10 init_page (mk_ustate x0 0) = Some at_exec.
Proof. vm_compute. reflexivity. Qed.
Lemma later_ecall x pc : pc = 24 ∨ pc = 32 → ∃ s, to_ecall 10 init_page (mk_ustate x pc) = Some s ∧ u_pc s = 32 ∧ uget s A7 = SYS_exit.
Proof. intros [->| ->]; (eexists; split; [vm_compute; reflexivity|done]). Qed.
End run.

(** The sequence of system calls: the [n]th ecall, when the kernel returns
    from each with registers of its choice *)
Fixpoint nth_ecall (n : nat) (x : nat → reg → Z) : option ustate :=
  match n with
  | O => to_ecall 10 init_page (mk_ustate (x 0%nat) 0)
  | S n' => s ← nth_ecall n' x; to_ecall 10 init_page (mk_ustate (x n) (u_pc s))
  end.

(** C29. The first process runs [exec("/init", argv)] with argv = {"/init", 0},
    whatever is in its registers: at the first ecall a7 is the number of exec,
    a0 points to the string and a1 to the array.  If exec returns, every
    further system call is exit, however often it returns. *)
Theorem initcode_execs_init x :
  (∃ s, nth_ecall 0 x = Some s ∧ uget s A7 = SYS_exec ∧
    cstrn 128 init_page (uget s A0) = [47; 105; 110; 105; 116] ∧
    ld64 init_page (uget s A1) = uget s A0 ∧ ld64 init_page (uget s A1 + 8) = 0) ∧
  ∀ n, ∃ s, nth_ecall (S n) x = Some s ∧ uget s A7 = SYS_exit.
Proof.
  split.
  - exists (at_exec (x 0%nat)). split; [apply first_ecall|]. split; [reflexivity|]. split; [vm_compute; reflexivity|]. split; vm_compute; reflexivity.
  - assert (∀ n, ∃ s, nth_ecall n x = Some s ∧ (u_pc s = 24 ∨ u_pc s = 32) ∧ (n ≠ 0%nat → uget s A7 = SYS_exit)) as H.
    { induction n as [|n (s & E & Hpc & _)]; [exists (at_exec (x 0%nat)); split; [apply first_ecall|]; split; [by left|done]|].
      cbn [nth_ecall]. rewrite E. cbn [mbind option_bind]. destruct (later_ecall (x (S n)) (u_pc s) Hpc) as (s' & E' & Hpc' & Ha). exists s'. split; [done|]. split; [by right|done]. }
    intros n. destruct (H (S n)) as (s & E & _ & Ha). exists s. split; [done|by apply Ha].
Qed.
