(* ===== verification/FsFile.v ===== *)
(** * The contents of files: [bmap], [readi] and [writei]

    The blocks of an inode and the bytes they hold, in a transaction. *)
From S2P Require Import Prelude Riscv CString Kalloc Vm Cache Log LogInv Crash Fs FsBlock.

(** ** The blocks of a file *)

(** The address of block [bn] of the file, 0 if it has none: a direct
    address or an entry of the indirect block. *)
Definition baddr (V : gmap Z mem) (x : inode) (bn : Z) : Z :=
  if bn <? NDIRECT then i_addr x bn
  else if i_addr x NDIRECT =? 0 then 0 else ld32 (blk V (i_addr x NDIRECT)) (4 * (bn - NDIRECT)).
(** Byte [o] of the file: 0 where the file has no block *)
Definition fbyte (V : gmap Z mem) (x : inode) (o : Z) : Z :=
  if baddr V x (o / BSIZE) =? 0 then 0 else ld8 (blk V (baddr V x (o / BSIZE))) (o mod BSIZE).

Lemma ld32_memset_0 m d n a : d ≤ a → a + 4 ≤ d + n → ld32 (memset m d 0 n) a = 0.
Proof.
  intros. transitivity (ld32 ∅ a); [|done]. apply (ld_le_ext 4). intros. by rewrite ld8_memset_in; [|lia].
Qed.

Section fsfile.
Context {S : Type} {BC : BlockCache S} {LK : Linker} {FR : Frames}.
Context (start lsz : Z).
Implicit Types (s : fs S) (l : logst S) (A : cache) (x : inode).
Abbreviation layout := (layout start lsz).
Abbreviation fs_tx := (fs_tx start lsz).
Abbreviation fs_rd := (fs_rd start lsz).
Abbreviation room := (room lsz).

(** A block that a file may have: in use, outside the log and the bitmap,
    not locked, and not the block of the inode. *)
Definition data_block (sb : superblock) A (inum a : Z) : Prop :=
  0 < a < sb_size sb ∧ bused (cview A) sb a = true ∧ ¬ in_log start lsz a ∧ not_held A a ∧
  (∀ b', 0 ≤ b' < sb_size sb → BBLOCK b' sb ≠ a) ∧ IBLOCK inum sb ≠ a.

(** The addresses of an inode: every block is a data block, and has one
    place in the file. *)
Record file_ok (sb : superblock) A x : Prop := {
  fo_dev : i_dev x = ROOTDEV;
  fo_len : length (i_addrs x) = 13%nat;
  fo_block bn : 0 ≤ bn < MAXFILE → baddr (cview A) x bn ≠ 0 → data_block sb A (i_inum x) (baddr (cview A) x bn);
  fo_ind : i_addr x NDIRECT ≠ 0 → data_block sb A (i_inum x) (i_addr x NDIRECT);
  fo_inj bn bn' : 0 ≤ bn < MAXFILE → 0 ≤ bn' < MAXFILE → baddr (cview A) x bn ≠ 0 → baddr (cview A) x bn = baddr (cview A) x bn' → bn = bn';
  fo_ind_ne bn : 0 ≤ bn < MAXFILE → baddr (cview A) x bn ≠ 0 → baddr (cview A) x bn ≠ i_addr x NDIRECT;
}.

Lemma i_addr_with x k a j : length (i_addrs x) = 13%nat → 0 ≤ k < 13 → 0 ≤ j → i_addr (with_addr k a x) j = if decide (j = k) then a else i_addr x j.
Proof.
  intros Hl Hk Hj. rewrite /i_addr /with_addr. cbn [i_addrs]. destruct (decide (j = k)) as [->|Hne].
  - rewrite list_lookup_total_insert_eq //. lia.
  - rewrite list_lookup_total_insert_ne //. lia.
Qed.

(** Files depend on the view through their blocks only. *)
Lemma baddr_ext V V' x bn : (i_addr x NDIRECT ≠ 0 → blk V' (i_addr x NDIRECT) = blk V (i_addr x NDIRECT)) → baddr V' x bn = baddr V x bn.
Proof. intros H. rewrite /baddr. destruct (bn <? NDIRECT); [done|]. destruct (Z.eqb_spec (i_addr x NDIRECT) 0); [done|]. by rewrite H. Qed.

(** ** Allocating a block for a file *)

Lemma data_block_alloc sb A inum a r : layout sb A → 0 ≤ r < sb_size sb → bused (cview A) sb r = false → data_block sb A inum a →
  data_block sb (alloc_upd sb A r) inum a ∧ blk (cview (alloc_upd sb A r)) a = blk (cview A) a ∧ a ≠ r.
Proof.
  intros HL Hr Hf (Ha & Hu & Hlog & Hh & Hbm & Hi). assert (a ≠ r) as Hne by (intros ->; congruence).
  split_and!; [|apply blk_alloc_other; [done|]|done].
  - split_and!; try done; try lia. rewrite (bused_alloc start lsz) //; [|lia]. by destruct (decide (a = r)).
  - intros ->. by apply (Hbm r).
Qed.
(** The block that was allocated is one a file may have. *)
Lemma data_block_new sb A inum r : layout sb A → 0 ≤ r < sb_size sb → bused (cview A) sb r = false → bused (cview A) sb 0 = true → IBLOCK inum sb ≠ r →
  data_block sb (alloc_upd sb A r) inum r.
Proof.
  intros HL Hr Hf H0 Hi. destruct (lay_free _ _ _ _ HL r Hr Hf) as (Hlog & Hh & Hbm). assert (r ≠ 0) by (intros ->; congruence).
  split_and!; try done; [lia|lia|]. rewrite (bused_alloc start lsz) //. by rewrite decide_True.
Qed.
Lemma file_ok_alloc sb A x r : layout sb A → 0 ≤ r < sb_size sb → bused (cview A) sb r = false → file_ok sb A x →
  file_ok sb (alloc_upd sb A r) x ∧ (∀ bn, baddr (cview (alloc_upd sb A r)) x bn = baddr (cview A) x bn).
Proof.
  intros HL Hr Hf [Hd Hlen Hb Hi Hinj Hne]. assert (∀ bn, baddr (cview (alloc_upd sb A r)) x bn = baddr (cview A) x bn) as E.
  { intros bn. apply baddr_ext. intros Hn. by apply (data_block_alloc sb A (i_inum x)), Hi. }
  split; [|done]. split; try done.
  - intros bn Hbn. rewrite E. intros Hn. by apply data_block_alloc, Hb.
  - intros Hn. by apply data_block_alloc, Hi.
  - intros bn bn' ??. rewrite !E. by apply Hinj.
  - intros bn ?. rewrite E. by apply Hne.
Qed.

(** ** [bmap] *)

(** Only entry [ip] of the inode table and the transaction changed. *)
Definition same_but (ip : Z) s s' : Prop :=
  fsb s' = fsb s ∧ fmem s' = fmem s ∧ fcur s' = fcur s ∧ ∀ j, j ≠ ip → itable s' !! j = itable s !! j.
Lemma same_but_trans ip s1 s2 s3 : same_but ip s1 s2 → same_but ip s2 s3 → same_but ip s1 s3.
Proof. intros (E1 & E2 & E3 & E4) (F1 & F2 & F3 & F4). split_and!; [congruence..|]. intros j Hj. by rewrite F4 // E4. Qed.

(** The block of the inode itself *)
Definition inode_block (sb : superblock) A (inum : Z) : Prop :=
  0 < IBLOCK inum sb < sb_size sb ∧ bused (cview A) sb (IBLOCK inum sb) = true ∧ ¬ in_log start lsz (IBLOCK inum sb) ∧ not_held A (IBLOCK inum sb) ∧
  ∀ b', 0 ≤ b' < sb_size sb → BBLOCK b' sb ≠ IBLOCK inum sb.

(** Entry [ip] of the inode table is the inode [x] of a file, in a
    transaction. *)
Record finv (ip : Z) s A x : Prop := {
  fi_tx : fs_tx (flog s) A;
  fi_lay : layout (fsb s) A;
  fi_boot : bused (cview A) (fsb s) 0 = true;
  fi_x : itable s !!! ip = x;
  fi_ok : file_ok (fsb s) A x;
  fi_iblk : inode_block (fsb s) A (i_inum x);
}.

(** All but the addresses of the blocks is the same. *)
Definition same_meta x x' : Prop := ∃ addrs, x' = mk_inode (i_dev x) (i_inum x) (i_ref x) (i_locked x) (i_pid x) (i_valid x)
  (i_type x) (i_major x) (i_minor x) (i_nlink x) (i_size x) addrs.
Lemma same_meta_refl x : same_meta x x.
Proof. exists (i_addrs x). by destruct x. Qed.
Lemma same_meta_trans x1 x2 x3 : same_meta x1 x2 → same_meta x2 x3 → same_meta x1 x3.
Proof. intros [l1 ->] [l2 ->]. by exists l2. Qed.
Lemma same_meta_addr k a x : same_meta x (with_addr k a x).
Proof. by eexists. Qed.

(** Block [bn] of the file now has the address [r]: its own, or the one of a
    new zeroed block, or 0 when the disk is full.  No other block of the
    disk that is in use has changed, but for the bitmap and the indirect
    block. *)
Record grown (sb : superblock) A x A' x' (bn r : Z) : Prop := {
  gr_addr bn' : 0 ≤ bn' < MAXFILE → baddr (cview A') x' bn' = if decide (bn' = bn) then r else baddr (cview A) x bn';
  gr_old : baddr (cview A) x bn ≠ 0 → r = baddr (cview A) x bn;
  gr_new : baddr (cview A) x bn = 0 → r ≠ 0 → ∀ a, 0 ≤ a < BSIZE → ld8 (blk (cview A') r) a = 0;
  gr_used b : 0 ≤ b < sb_size sb → bused (cview A) sb b = true → bused (cview A') sb b = true;
  gr_blk b : 0 < b < sb_size sb → bused (cview A) sb b = true → (∀ b', 0 ≤ b' < sb_size sb → BBLOCK b' sb ≠ b) → b ≠ i_addr x' NDIRECT →
    blk (cview A') b = blk (cview A) b;
  gr_ind : i_addr x NDIRECT ≠ 0 → i_addr x' NDIRECT = i_addr x NDIRECT;
  gr_fresh : baddr (cview A) x bn = 0 → r ≠ 0 → bused (cview A) sb r = false;
  gr_fresh_ind : i_addr x NDIRECT = 0 → i_addr x' NDIRECT ≠ 0 → bused (cview A) sb (i_addr x' NDIRECT) = false;
  gr_meta : same_meta x x';
  gr_disk : cdisk A' = cdisk A ∧ chold A' = chold A;
  gr_pin b : b ∈ cpin A' → b ∈ cpin A ∨ (∃ b', 0 ≤ b' < sb_size sb ∧ b = BBLOCK b' sb) ∨ (b = r ∧ r ≠ 0) ∨ (b = i_addr x' NDIRECT ∧ b ≠ 0);
}.

Lemma grown_refl sb A x bn : grown sb A x A x bn (baddr (cview A) x bn).
Proof. split; try done; [|apply same_meta_refl|by left]. intros bn' _. by destruct (decide (bn' = bn)) as [->|]. Qed.

Lemma alloc_pin sb A r : (size (cpin (alloc_upd sb A r)) ≤ size (cpin A) + 2)%nat.
Proof.
  rewrite /alloc_upd /set_used /log_upd. cbn [cpin]. pose proof (size_union_le {[r]} ({[BBLOCK r sb]} ∪ cpin A)) as H1.
  pose proof (size_union_le {[BBLOCK r sb]} (cpin A)) as H2. rewrite size_singleton in H1. rewrite size_singleton in H2. lia.
Qed.

Lemma alloc_pins sb A r b : b ∈ cpin (alloc_upd sb A r) → b = r ∨ b = BBLOCK r sb ∨ b ∈ cpin A.
Proof. rewrite /alloc_upd /set_used /log_upd. cbn [cpin]. set_solver. Qed.

(** The state after [updi] *)
Lemma itable_upd ip f (s : fs S) : itable (set_itable (<[ip := f (itable s !!! ip)]> (itable s)) s) !!! ip = f (itable s !!! ip).
Proof. cbn [itable set_itable]. by rewrite lookup_total_insert_eq. Qed.
Lemma same_but_upd ip f l s : same_but ip s (set_itable (<[ip := f (itable s !!! ip)]> (itable s)) (set_flog l s)).
Proof. split_and!; try done. intros j Hj. cbn [itable set_itable]. by rewrite lookup_insert_ne. Qed.
Lemma same_but_flog ip l s : same_but ip s (set_flog l s).
Proof. done. Qed.

Lemma inode_block_alloc sb A inum r : layout sb A → 0 ≤ r < sb_size sb → bused (cview A) sb r = false → inode_block sb A inum → inode_block sb (alloc_upd sb A r) inum.
Proof.
  intros HL Hr Hf (Hi & Hu & Hrest). split; [done|]. split; [|done]. rewrite (bused_alloc start lsz) //; [|lia]. by destruct (decide (IBLOCK inum sb = r)).
Qed.
Lemma finv_alloc ip s A x l r : finv ip s A x → 0 ≤ r < sb_size (fsb s) → bused (cview A) (fsb s) r = false → fs_tx l (alloc_upd (fsb s) A r) →
  finv ip (set_flog l s) (alloc_upd (fsb s) A r) x.
Proof.
  intros [Htx HL H0 Hx Hok Hib] Hr Hf Hl. pose proof (lay_size _ _ _ _ HL). split; cbn [flog fsb itable set_flog]; [done|by apply layout_alloc| |done|by apply file_ok_alloc|by apply inode_block_alloc].
  rewrite (bused_alloc start lsz) //; [|lia]. by destruct (decide (0 = r)).
Qed.

(** Giving the new block [r] the place [bn] in the file *)
Lemma file_ok_place sb A A' x x' bn r :
  file_ok sb A x → (∀ a, data_block sb A (i_inum x) a → data_block sb A' (i_inum x) a) → same_meta x x' → length (i_addrs x') = 13%nat → i_addr x' NDIRECT = i_addr x NDIRECT →
  (∀ bn', 0 ≤ bn' < MAXFILE → baddr (cview A') x' bn' = if decide (bn' = bn) then r else baddr (cview A) x bn') →
  data_block sb A' (i_inum x) r → (∀ bn', 0 ≤ bn' < MAXFILE → baddr (cview A) x bn' ≠ r) → r ≠ i_addr x NDIRECT → file_ok sb A' x'.
Proof.
  intros [Hd Hlen Hb Hi Hinj Hne] Hdb [l Hx'] Hl Hind Hadr Hr Hfresh Hri. assert (i_inum x' = i_inum x) as En by (by rewrite Hx'). split; try rewrite En; try done.
  - by rewrite Hx'.
  - intros bn' Hbn'. rewrite Hadr //. destruct (decide (bn' = bn)); [done|]. intros Hn. by apply Hdb, Hb.
  - rewrite Hind. intros Hn. by apply Hdb, Hi.
  - intros b1 b2 H1 H2. rewrite !Hadr //. destruct (decide (b1 = bn)) as [->|], (decide (b2 = bn)) as [->|]; [done| | |by apply Hinj].
    + intros _ E. by destruct (Hfresh b2 H2).
    + intros _ E. by destruct (Hfresh b1 H1).
  - intros b1 H1. rewrite Hadr // Hind. destruct (decide (b1 = bn)); [done|by apply Hne].
Qed.

Section alloc_step.
Context (ip : Z) s A x (r : Z).
Hypothesis Hinv : finv ip s A x.
Hypothesis (Hr : 0 ≤ r < sb_size (fsb s)) (Hfree : bused (cview A) (fsb s) r = false).
Abbreviation A1 := (alloc_upd (fsb s) A r).

Lemma new_nonzero : r ≠ 0.
Proof. intros ->. destruct Hinv. congruence. Qed.
Lemma new_iblock : IBLOCK (i_inum x) (fsb s) ≠ r.
Proof. intros E. destruct Hinv as [_ _ _ _ _ (_ & Hu & _)]. congruence. Qed.
Lemma new_fresh bn : 0 ≤ bn < MAXFILE → baddr (cview A) x bn ≠ r.
Proof.
  intros Hbn E. destruct Hinv as [_ _ _ _ [_ _ Hb _ _ _] _]. destruct (Hb bn Hbn) as (_ & Hu & _); [rewrite E; apply new_nonzero|]. congruence.
Qed.
Lemma new_ind : r ≠ i_addr x NDIRECT.
Proof.
  intros E. destruct Hinv as [_ _ _ _ [_ _ _ Hi _ _] _]. destruct Hi as (_ & Hu & _); [rewrite -E; apply new_nonzero|]. congruence.
Qed.
Lemma alloc_blk b : 0 < b < sb_size (fsb s) → bused (cview A) (fsb s) b = true → (∀ b', 0 ≤ b' < sb_size (fsb s) → BBLOCK b' (fsb s) ≠ b) →
  blk (cview A1) b = blk (cview A) b.
Proof. intros Hb Hu Hbm. apply blk_alloc_other; [intros ->; congruence|]. intros ->. by apply (Hbm r). Qed.
Lemma alloc_used b : 0 ≤ b < sb_size (fsb s) → bused (cview A) (fsb s) b = true → bused (cview A1) (fsb s) b = true.
Proof. intros Hb Hu. rewrite (bused_alloc start lsz) //; [|apply Hinv]. by destruct (decide (b = r)). Qed.
Context l (Hl : fs_tx l (alloc_upd (fsb s) A r)).
Abbreviation upd f := (set_itable (<[ip := f (itable (set_flog l s) !!! ip)]> (itable (set_flog l s))) (set_flog l s)).

(** A direct address *)
Lemma place_direct bn : 0 ≤ bn < NDIRECT → i_addr x bn = 0 →
  finv ip (upd (with_addr bn r)) A1 (with_addr bn r x) ∧ grown (fsb s) A x A1 (with_addr bn r x) bn r.
Proof.
  intros Hbn H0. pose proof Hinv as [Htx HL Hb0 Hx Hok Hib]. destruct (finv_alloc ip s A x l r Hinv Hr Hfree Hl) as [Htx1 HL1 Hb1 Hx1 Hok1 Hib1].
  destruct (file_ok_alloc (fsb s) A x r HL Hr Hfree Hok) as [_ Ea]. pose proof (fo_len _ _ _ Hok) as Hlen.
  assert (i_addr (with_addr bn r x) NDIRECT = i_addr x NDIRECT) as Ei.
  { rewrite i_addr_with //; [|unfold NDIRECT in *; lia..]. rewrite decide_False //. unfold NDIRECT in *. lia. }
  assert (∀ bn', 0 ≤ bn' < MAXFILE → baddr (cview A1) (with_addr bn r x) bn' = if decide (bn' = bn) then r else baddr (cview A) x bn') as Ead.
  { intros bn' Hbn'. rewrite -Ea /baddr Ei. destruct (Z.ltb_spec bn' NDIRECT).
    - rewrite i_addr_with //; [unfold NDIRECT in *; lia|lia].
    - rewrite decide_False //. lia. }
  split.
  - split; try done; [by rewrite itable_upd Hx1|]. eapply file_ok_place; [exact Hok1|done|apply same_meta_addr|cbn; by rewrite length_insert|exact Ei| | | |apply new_ind].
    + intros bn' Hbn'. rewrite Ead // Ea //.
    + apply data_block_new; try done. apply new_iblock.
    + intros bn' Hbn'. rewrite Ea. by apply new_fresh.
  - split; try done.
    + rewrite /baddr. rewrite (proj2 (Z.ltb_lt _ _)); [|lia]. done.
    + intros _ _ a Ha. by apply blk_alloc_zero.
    + apply alloc_used.
    + intros b Hb Hu Hbm _. by apply alloc_blk.
    + by rewrite Ei.
    + apply same_meta_addr.
    + intros b [->|[?|?]]%alloc_pins; [right; right; left; split; [done|apply new_nonzero]|right; left; by exists r|by left].
Qed.

(** The indirect block: a zeroed one has no addresses. *)
Lemma place_indirect bn : NDIRECT ≤ bn < MAXFILE → i_addr x NDIRECT = 0 →
  finv ip (upd (with_addr NDIRECT r)) A1 (with_addr NDIRECT r x) ∧ grown (fsb s) A x A1 (with_addr NDIRECT r x) bn 0 ∧ (size (cpin A1) ≤ size (cpin A) + 2)%nat.
Proof.
  intros Hbn H0. pose proof Hinv as [Htx HL Hb0 Hx Hok Hib]. destruct (finv_alloc ip s A x l r Hinv Hr Hfree Hl) as [Htx1 HL1 Hb1 Hx1 Hok1 Hib1].
  pose proof (fo_len _ _ _ Hok) as Hlen. assert (i_addr (with_addr NDIRECT r x) NDIRECT = r) as Ei.
  { rewrite i_addr_with //; unfold NDIRECT; lia. }
  assert (∀ a, 0 ≤ a < 256 → ld32 (blk (cview A1) r) (4 * a) = 0) as Hz.
  { intros a Ha. rewrite /A1 /alloc_upd. cbn [cview log_upd]. rewrite blk_insert_eq. apply ld32_memset_0; unfold BSIZE; lia. }
  assert (∀ bn', 0 ≤ bn' < MAXFILE → baddr (cview A1) (with_addr NDIRECT r x) bn' = baddr (cview A) x bn') as Ead.
  { intros bn' Hbn'. rewrite /baddr Ei H0. destruct (Z.ltb_spec bn' NDIRECT).
    - rewrite i_addr_with //; [|unfold NDIRECT; lia|lia]. rewrite decide_False //. lia.
    - cbn [Z.eqb]. rewrite (proj2 (Z.eqb_neq r 0)); [|apply new_nonzero]. apply Hz. unfold MAXFILE, NINDIRECT, BSIZE, NDIRECT in *. lia. }
  assert (∀ bn', 0 ≤ bn' < MAXFILE → baddr (cview A) x bn' ≠ 0 → baddr (cview A) x bn' ≠ r) as Hf by (intros; by apply new_fresh).
  destruct Hok1 as [Hd1 _ Hb1' Hi1 Hinj1 Hne1]. destruct (file_ok_alloc (fsb s) A x r HL Hr Hfree Hok) as [_ Ea].
  split; [|split; [|apply alloc_pin]].
  - split; try done; [by rewrite itable_upd Hx1|]. split; [done|cbn; by rewrite length_insert|..].
    + intros bn' Hbn'. rewrite Ead // -Ea. by apply Hb1'.
    + intros _. rewrite Ei. apply data_block_new; try done. apply new_iblock.
    + intros b1 b2 H1 H2. rewrite !Ead // -!Ea. by apply Hinj1.
    + intros b1 H1. rewrite Ead // Ei. by apply Hf.
  - assert (baddr (cview A) x bn = 0) as Hbz. { rewrite /baddr H0. rewrite (proj2 (Z.ltb_ge _ _)) //. lia. }
    split; try done.
    + intros bn' Hbn'. rewrite Ead //. by destruct (decide (bn' = bn)) as [->|].
    + apply alloc_used.
    + intros b Hb Hu Hbm _. by apply alloc_blk.
    + by rewrite Ei.
    + apply same_meta_addr.
    + intros b [->|[?|?]]%alloc_pins; [do 3 right; split; [done|apply new_nonzero]|right; left; by exists r|by left].
Qed.
End alloc_step.

(** *** Changing a block that is not of the bitmap *)
Section upd_step.
Context (sb : superblock) A (b : Z) (m : mem).
Hypothesis Hbm : ∀ b', 0 ≤ b' < sb_size sb → BBLOCK b' sb ≠ b.
Lemma bused_upd b' : 0 ≤ b' < sb_size sb → bused (cview (log_upd A b m)) sb b' = bused (cview A) sb b'.
Proof. intros Hb'. rewrite /bused. cbn [cview log_upd]. rewrite blk_insert_ne //. by apply Hbm. Qed.
Lemma layout_upd : layout sb A → layout sb (log_upd A b m).
Proof.
  intros [H1 H2 H3 H4]. split; try done. intros b' Hb'. rewrite bused_upd //. by apply H4.
Qed.
Lemma data_block_upd inum a : data_block sb A inum a → data_block sb (log_upd A b m) inum a.
Proof. intros (Ha & Hu & Hrest). split; [done|]. split; [|done]. rewrite bused_upd //. lia. Qed.
Lemma inode_block_upd inum : inode_block sb A inum → inode_block sb (log_upd A b m) inum.
Proof. intros (Ha & Hu & Hrest). split; [done|]. split; [|done]. rewrite bused_upd //. lia. Qed.
Lemma file_ok_upd x : i_addr x NDIRECT = 0 ∨ i_addr x NDIRECT ≠ b → file_ok sb A x →
  file_ok sb (log_upd A b m) x ∧ ∀ bn, baddr (cview (log_upd A b m)) x bn = baddr (cview A) x bn.
Proof.
  intros Hne [Hd Hlen Hb Hi Hinj Hni]. assert (∀ bn, baddr (cview (log_upd A b m)) x bn = baddr (cview A) x bn) as E.
  { intros bn. apply baddr_ext. intros Hn. cbn [cview log_upd]. apply blk_insert_ne. naive_solver. }
  split; [|done]. split; try done.
  - intros bn Hbn. rewrite E. intros Hn. by apply data_block_upd, Hb.
  - intros Hn. by apply data_block_upd, Hi.
  - intros bn bn' ??. rewrite !E. by apply Hinj.
  - intros bn ?. rewrite E. by apply Hni.
Qed.
End upd_step.
Lemma finv_upd ip s A x b m l :
  finv ip s A x → (∀ b', 0 ≤ b' < sb_size (fsb s) → BBLOCK b' (fsb s) ≠ b) → i_addr x NDIRECT = 0 ∨ i_addr x NDIRECT ≠ b → fs_tx l (log_upd A b m) →
  finv ip (set_flog l s) (log_upd A b m) x.
Proof.
  intros [Htx HL H0 Hx Hok Hib] Hbm Hne Hl. pose proof (lay_size _ _ _ _ HL). split; cbn [flog fsb itable set_flog]; [done|by apply layout_upd| |done|by apply file_ok_upd|by apply inode_block_upd].
  rewrite bused_upd //. lia.
Qed.

(** An entry of the indirect block *)
Lemma place_entry ip s A x r l bn :
  finv ip s A x → 0 ≤ r < sb_size (fsb s) → bused (cview A) (fsb s) r = false → NDIRECT ≤ bn < MAXFILE → i_addr x NDIRECT ≠ 0 → baddr (cview A) x bn = 0 →
  let A1 := alloc_upd (fsb s) A r in let ind := i_addr x NDIRECT in
  let A2 := log_upd A1 ind (st32 (blk (cview A1) ind) (4 * (bn - NDIRECT)) r) in
  fs_tx l A2 → finv ip (set_flog l s) A2 x ∧ grown (fsb s) A x A2 x bn r.
Proof.
  intros Hinv Hr Hfree Hbn Hi0 Hz A1 ind A2 Hl. pose proof Hinv as [Htx HL Hb0 Hx Hok Hib].
  assert (data_block (fsb s) A (i_inum x) ind) as Hdi by (by apply (fo_ind _ _ _ Hok)).
  destruct (data_block_alloc _ _ _ _ r HL Hr Hfree Hdi) as (Hdi1 & Hbi & Hir). pose proof Hdi as (Hia & Hiu & Hilog & Hih & Hibm & _).
  destruct (file_ok_alloc _ _ _ r HL Hr Hfree Hok) as [Hok1 Ea]. pose proof (layout_alloc start lsz _ _ r HL Hr Hfree) as HL1.
  assert (0 ≤ bn - NDIRECT < 256) as Hj by (unfold MAXFILE, NINDIRECT, BSIZE, NDIRECT in *; lia).
  assert (∀ bn', 0 ≤ bn' < MAXFILE → baddr (cview A2) x bn' = if decide (bn' = bn) then r else baddr (cview A) x bn') as Ead.
  { intros bn' Hbn'. rewrite /baddr. destruct (Z.ltb_spec bn' NDIRECT); [rewrite decide_False //; lia|]. rewrite (proj2 (Z.eqb_neq _ _)) //.
    rewrite -/ind. cbn [cview A2 log_upd]. rewrite blk_insert_eq. destruct (decide (bn' = bn)) as [->|Hne].
    - rewrite ld32_st32_eq. apply u32_small. pose proof (lay_size _ _ _ _ HL). lia.
    - rewrite ld32_st32_ne; [|lia]. rewrite /ind in Hbi. by rewrite Hbi. }
  assert (data_block (fsb s) A1 (i_inum x) r) as Hdr by (apply data_block_new; try done; by eapply new_iblock).
  split.
  - split; cbn [flog fsb itable set_flog]; [done|by apply layout_upd| |done| |].
    + rewrite bused_upd; [|done|lia]. rewrite (bused_alloc start lsz) //; [|lia]. by destruct (decide (0 = r)).
    + eapply file_ok_place; [exact Hok1|intros a; by apply data_block_upd|apply same_meta_refl|by destruct Hok|done| |by apply data_block_upd| |done].
      * intros bn' Hbn'. rewrite Ead // Ea //.
      * intros bn' Hbn'. rewrite Ea. eapply new_fresh; eassumption.
    + by apply inode_block_upd, inode_block_alloc.
  - split; try done.
    + intros _ Hrn a Ha. cbn [cview A2 log_upd]. rewrite blk_insert_ne //. by apply blk_alloc_zero.
    + intros b Hb Hu. rewrite bused_upd //. by eapply alloc_used.
    + intros b Hb Hu Hbm Hne. cbn [cview A2 log_upd]. rewrite blk_insert_ne //. by eapply alloc_blk.
    + apply same_meta_refl.
    + intros b. rewrite /A2 /log_upd. cbn [cpin]. intros [->%elem_of_singleton|[->|[?|?]]%alloc_pins]%elem_of_union; [by do 3 right| |right; left; by exists r|by left].
      right; right; left. split; [done|]. by eapply new_nonzero.
Qed.

(** Two steps, the first of which found no block *)
Lemma grown_trans sb A x A1 x1 A2 x2 bn r :
  0 ≤ bn < MAXFILE → baddr (cview A) x bn = 0 → grown sb A x A1 x1 bn 0 → grown sb A1 x1 A2 x2 bn r → (0 ≤ r < sb_size sb) → i_addr x2 NDIRECT = i_addr x1 NDIRECT → grown sb A x A2 x2 bn r.
Proof.
  intros Hbn Hz [a1 o1 n1 u1 b1 i1 f1 g1 m1 d1 p1] [a2 o2 n2 u2 b2 i2 f2 g2 m2 d2 p2] Hr He.
  assert (baddr (cview A1) x1 bn = 0) as Hz1 by (rewrite a1 // decide_True //). split; try done.
  - intros bn' Hbn'. rewrite a2 //. destruct (decide (bn' = bn)); [done|]. rewrite a1 // decide_False //.
  - intros _ Hrn. by apply n2.
  - intros b Hb Hu. by apply u2, u1.
  - intros b Hb Hu Hbm Hn. rewrite b2 //; [|apply u1; [lia|done]]. apply b1; try done. by rewrite -He.
  - intros Hn. rewrite i2; [by apply i1|]. rewrite i1 //.
  - intros _ Hrn. destruct (bused (cview A) sb r) eqn:Eu; [|done]. apply u1 in Eu; [|done]. rewrite f2 // in Eu.
  - rewrite He. done.
  - by eapply same_meta_trans.
  - destruct d2 as [-> ->], d1 as [-> ->]. done.
  - intros b [Hb|[Hb|[Hb|Hb]]]%p2; [|by right; left|by right; right; left|by do 3 right].
    destruct (p1 b Hb) as [?|[?|[[_ ?]|[Eb ?]]]]; [by left|by right; left|done|]. do 3 right. by rewrite He.
Qed.

(** *** The code *)
(** The disk has no free block. *)
Definition full (sb : superblock) A : Prop := ∀ b, 0 ≤ b < sb_size sb → bused (cview A) sb b = true.
Definition bmap_post (ip : Z) s A x (bn r : Z) s' : Prop :=
  ∃ A' x', finv ip s' A' x' ∧ same_but ip s s' ∧ grown (fsb s) A x A' x' bn r ∧ (r = 0 → full (fsb s) A').

Lemma set_flog_same s : set_flog (flog s) s = s.
Proof. by destruct s. Qed.
Lemma wp_geti ip s Q : Q (itable s !!! ip) s → wp (geti ip) s Q.
Proof. intros HQ. by apply wp_gets. Qed.
Lemma wp_updi ip f s Q : Q tt (set_itable (<[ip := f (itable s !!! ip)]> (itable s)) s) → wp (updi ip f) s Q.
Proof. intros HQ. by apply wp_modify. Qed.

(** [balloc] for a file: the lowest free block, never block 0; or none. *)
Lemma wp_balloc s A Q : fs_tx (flog s) A → layout (fsb s) A → room A (2 + Z.of_nat (size (chold A))) → bused (cview A) (fsb s) 0 = true →
  (∀ l, fs_tx l A → full (fsb s) A → Q 0 (set_flog l s)) →
  (∀ r l, r ≠ 0 → 0 ≤ r < sb_size (fsb s) → bused (cview A) (fsb s) r = false → fs_tx l (alloc_upd (fsb s) A r) → Q r (set_flog l s)) →
  wp (balloc ROOTDEV) s Q.
Proof.
  intros Htx HL Hroom H0 HQ0 HQ. eapply wp_mono; [by apply balloc_spec|]. intros r s' (l & -> & [(Hr & Hf & _ & Hl)|(-> & Hall & Hl)]); [|by apply HQ0].
  apply HQ; try done. intros ->. congruence.
Qed.

Lemma bmap_direct ip bn s A x : finv ip s A x → 0 ≤ bn < NDIRECT → room A (2 + Z.of_nat (size (chold A))) → wp (bmap ip bn) s (bmap_post ip s A x bn).
Proof.
  intros Hinv Hbn Hroom. pose proof Hinv as [Htx HL H0 Hx Hok Hib]. apply wp_bind, wp_geti. rewrite Hx. rewrite (proj2 (Z.ltb_lt _ _)); [|lia]. cbv zeta.
  assert (baddr (cview A) x bn = i_addr x bn) as Ea by (rewrite /baddr (proj2 (Z.ltb_lt _ _)) //; lia).
  destruct (Z.eqb_spec (i_addr x bn) 0) as [Hz|Hnz].
  - rewrite (fo_dev _ _ _ Hok). apply wp_bind, (wp_balloc _ A); try done.
    + intros l Hl Hfull. cbn [Z.eqb]. apply wp_mret. exists A, x. split_and!; [by split|done| |done]. replace 0 with (baddr (cview A) x bn) by congruence. apply grown_refl.
    + intros r l Hr0 Hr Hf Hl. rewrite (proj2 (Z.eqb_neq _ _)) //. apply wp_bind, wp_updi, wp_mret.
      destruct (place_direct ip s A x r Hinv Hr Hf l Hl bn Hbn Hz) as [Hi Hg]. exists (alloc_upd (fsb s) A r), (with_addr bn r x). split_and!; [exact Hi|exact (same_but_upd ip (with_addr bn r) l s)|exact Hg|done].
  - apply wp_mret. exists A, x. split_and!; [done|done| |done]. rewrite -Ea. apply grown_refl.
Qed.

(** The second half of [bmap], with the address [ind] of the indirect block *)
Definition bmap_entry (dev ind bn : Z) : M (fs S) Z :=
  bp ← onb (c_bread dev ind);
  m ← onb (c_data bp);
  addr ← (let addr := ld32 m (4 * bn) in
          if addr =? 0 then
            addr ← balloc dev;
            (if negb (addr =? 0) then
               onb (c_store bp (λ m, st32 m (4 * bn) addr));;
               onl (log_write bp)
             else mret tt);;
            mret addr
          else mret addr);
  onb (c_brelse bp);;
  mret addr.

Lemma layout_hold sb A i b inum : data_block sb A inum b → layout sb A → layout sb (hold_blk A i b).
Proof.
  intros (Hb & Hu & Hlog & Hh & Hbm & _) [H1 H2 H3 H4].
  assert (∀ b', not_held A b' → b' ≠ b → not_held (hold_blk A i b) b') as Hnh.
  { intros b' Hn Hne j Hj. cbn [chold hold_blk] in Hj. destruct (decide (j = i)) as [->|]; [rewrite lookup_insert_eq in Hj; congruence|].
    rewrite lookup_insert_ne // in Hj. by apply (Hn j). }
  split; try done.
  - intros b' Hb'. destruct (H3 b' Hb') as [Hl Hn]. split; [done|]. apply Hnh; [done|by apply Hbm].
  - intros b' Hb' Hf. destruct (H4 b' Hb' Hf) as (Hl & Hn & Hm). split_and!; [done| |done]. apply Hnh; [done|]. intros ->. cbn [cview hold_blk] in Hf. congruence.
Qed.
Lemma size_hold A i b : chold A !! i = None → size (chold (hold_blk A i b)) = Datatypes.S (size (chold A)).
Proof. intros Hi. cbn [chold hold_blk]. by apply map_size_insert_None. Qed.

Lemma bmap_entry_spec ip bn s A x : finv ip s A x → NDIRECT ≤ bn < MAXFILE → i_addr x NDIRECT ≠ 0 → room A (4 + Z.of_nat (size (chold A))) →
  wp (bmap_entry ROOTDEV (i_addr x NDIRECT) (bn - NDIRECT)) s (λ r s', ∃ l A', s' = set_flog l s ∧ finv ip s' A' x ∧ grown (fsb s) A x A' x bn r ∧ (r = 0 → full (fsb s) A')).
Proof.
  intros Hinv Hbn Hi0 Hroom. pose proof Hinv as [Htx HL H0 Hx Hok Hib]. set (ind := i_addr x NDIRECT) in *.
  assert (data_block (fsb s) A (i_inum x) ind) as Hdi by (by apply (fo_ind _ _ _ Hok)). pose proof Hdi as (Hia & Hiu & Hilog & Hih & Hibm & _).
  assert (baddr (cview A) x bn = ld32 (blk (cview A) ind) (4 * (bn - NDIRECT))) as Ea.
  { rewrite /baddr -/ind. rewrite (proj2 (Z.ltb_ge _ _)); [|lia]. rewrite (proj2 (Z.eqb_neq _ _)) //. }
  apply wp_bind. eapply wp_fbread; [exact Htx|done|eapply room_mono; [exact Hroom|lia]|]. intros i l Hl Hi.
  assert (chold (hold_blk A i ind) !! i = Some ind) as Hib' by apply lookup_insert_eq.
  apply wp_bind. eapply wp_fdata; [exact Hl|exact Hib'|]. cbn [cview hold_blk]. rewrite -Ea. cbv zeta.
  assert (∀ l', fs_tx l' A → finv ip (set_flog l' s) A x) as Hsame by (intros; by split).
  destruct (Z.eqb_spec (baddr (cview A) x bn) 0) as [Hz|Hnz].
  - apply wp_bind, wp_bind, (wp_balloc _ (hold_blk A i ind)); [exact Hl|by eapply layout_hold|rewrite size_hold //; eapply room_mono; [exact Hroom|lia]|done| |].
    + intros l2 Hl2 Hfull. cbn [Z.eqb negb]. apply wp_bind, wp_mret, wp_mret, wp_bind. eapply wp_fbrelse; [exact Hl2|exact Hib'|]. intros l3 Hl3. rewrite unhold_hold // in Hl3. apply wp_mret.
      assert (grown (fsb s) A x A x bn 0) as Hg by (replace 0 with (baddr (cview A) x bn) by congruence; apply grown_refl).
      exists l3, A. split_and!; [done|by apply Hsame|done|done].
    + intros r l2 Hr0 Hr Hf Hl2. rewrite (proj2 (Z.eqb_neq _ _)) //. cbn [negb]. cbn [fsb set_flog] in Hr, Hf, Hl2 |- *.
      change (alloc_upd (fsb s) (hold_blk A i ind) r) with (hold_blk (alloc_upd (fsb s) A r) i ind) in Hl2.
      apply wp_bind, wp_bind. eapply (wp_fupd start lsz _ _ i ind); [exact Hl2|apply lookup_insert_eq|split; [pose proof (lay_size _ _ _ _ HL); lia|done]| |].
      { rewrite /FsBlock.room in Hroom |- *. pose proof (alloc_pin (fsb s) A r). cbn [cpin hold_blk] in *. lia. }
      intros l3 Hl3. apply wp_mret, wp_bind. eapply wp_fbrelse; [exact Hl3|apply lookup_insert_eq|]. intros l4 Hl4. rewrite unhold_upd // in Hl4. apply wp_mret.
      destruct (place_entry ip s A x r l4 bn Hinv Hr Hf Hbn Hi0 Hz Hl4) as [Hi4 Hg4]. do 2 eexists. split_and!; [reflexivity|exact Hi4|exact Hg4|done].
  - apply wp_bind, wp_mret, wp_bind. eapply wp_fbrelse; [exact Hl|exact Hib'|]. intros l3 Hl3. rewrite unhold_hold // in Hl3. apply wp_mret.
    exists l3, A. split_and!; [done|by apply Hsame|apply grown_refl|done].
Qed.

Lemma grown_range ip s s' A x A' x' bn r : fsb s' = fsb s → finv ip s' A' x' → grown (fsb s) A x A' x' bn r → 0 ≤ bn < MAXFILE → 0 ≤ r < sb_size (fsb s).
Proof.
  intros E [_ HL _ _ Hok _] Hg Hbn. rewrite -E. destruct (decide (r = 0)) as [->|Hr]; [pose proof (lay_size _ _ _ _ HL); lia|].
  pose proof (gr_addr _ _ _ _ _ _ _ Hg bn Hbn) as Ea. rewrite decide_True // in Ea. destruct (fo_block _ _ _ Hok bn Hbn) as (Ha & _); [by rewrite Ea|]. rewrite Ea in Ha. lia.
Qed.
Lemma bmap_far ip bn s A x : finv ip s A x → NDIRECT ≤ bn < MAXFILE → room A (6 + Z.of_nat (size (chold A))) → wp (bmap ip bn) s (bmap_post ip s A x bn).
Proof.
  intros Hinv Hbn Hroom. pose proof Hinv as [Htx HL H0 Hx Hok Hib]. apply wp_bind, wp_geti. rewrite Hx. rewrite (proj2 (Z.ltb_ge _ _)); [|lia]. cbv zeta.
  rewrite (proj2 (Z.ltb_lt _ _)); [|unfold MAXFILE in *; lia]. rewrite (fo_dev _ _ _ Hok). destruct (Z.eqb_spec (i_addr x NDIRECT) 0) as [Hz|Hnz].
  - assert (baddr (cview A) x bn = 0) as Hb0 by (rewrite /baddr Hz (proj2 (Z.ltb_ge _ _)) //; lia).
    apply wp_bind, wp_bind, (wp_balloc _ A); try done; [eapply room_mono; [exact Hroom|lia]|..].
    + intros l Hl Hfull. cbn [Z.eqb]. apply wp_mret. cbn [Z.eqb]. apply wp_mret. exists A, x. split_and!; [by split|done| |done]. replace 0 with (baddr (cview A) x bn) by congruence. apply grown_refl.
    + intros r l Hr0 Hr Hf Hl. rewrite (proj2 (Z.eqb_neq _ _)) //. apply wp_bind, wp_updi, wp_mret. rewrite (proj2 (Z.eqb_neq _ _)) //.
      destruct (place_indirect ip s A x r Hinv Hr Hf l Hl bn Hbn Hz) as (Hi1 & Hg1 & Hp1). set (s1 := set_itable _ _) in *. set (x1 := with_addr NDIRECT r x) in *.
      assert (i_addr x1 NDIRECT = r) as Er by (rewrite /x1 i_addr_with; [done|apply Hok|unfold NDIRECT; lia|unfold NDIRECT; lia]).
      rewrite -Er. eapply wp_mono; [apply (bmap_entry_spec ip bn s1 _ x1 Hi1 Hbn)|].
      * by rewrite Er.
      * rewrite /FsBlock.room in Hroom |- *. destruct (gr_disk _ _ _ _ _ _ _ Hg1) as [_ ->]. lia.
      * intros r' s2 (l2 & A2 & -> & Hi2 & Hg2 & Hfull). exists A2, x1. split_and!; [exact Hi2| | |exact Hfull].
        { eapply same_but_trans; [exact (same_but_upd ip (with_addr NDIRECT r) l s)|apply same_but_flog]. }
        eapply grown_trans; [unfold NDIRECT in *; lia|exact Hb0|exact Hg1|exact Hg2| |done].
        eapply (grown_range ip s1); [|exact Hi2|exact Hg2|unfold NDIRECT in *; lia]. done.
  - apply wp_bind, wp_mret. rewrite (proj2 (Z.eqb_neq _ _)) //. eapply wp_mono; [apply (bmap_entry_spec ip bn s A x Hinv Hbn Hnz); eapply room_mono; [exact Hroom|lia]|]. intros r s' (l & A' & -> & Hi & Hg & Hfull). exists A', x. by split_and!.
Qed.

Lemma bmap_spec ip bn s A x : finv ip s A x → 0 ≤ bn < MAXFILE → room A (6 + Z.of_nat (size (chold A))) → wp (bmap ip bn) s (bmap_post ip s A x bn).
Proof.
  intros Hinv Hbn Hroom. destruct (decide (bn < NDIRECT)); [apply bmap_direct; [done|lia|eapply room_mono; [exact Hroom|lia]]|apply bmap_far; [done|lia|done]].
Qed.

(** [bmap] does not change what is in the file. *)
Lemma grown_fbyte sb A x A' x' bn r o : file_ok sb A x → file_ok sb A' x' → grown sb A x A' x' bn r → 0 ≤ o < MAXFILE * BSIZE →
  fbyte (cview A') x' o = fbyte (cview A) x o.
Proof.
  intros Hok Hok' Hg Ho. assert (0 ≤ o / BSIZE < MAXFILE) as Hb by (unfold BSIZE in *; lia). rewrite /fbyte.
  assert (baddr (cview A) x (o / BSIZE) ≠ 0 → baddr (cview A') x' (o / BSIZE) = baddr (cview A) x (o / BSIZE) → blk (cview A') (baddr (cview A) x (o / BSIZE)) = blk (cview A) (baddr (cview A) x (o / BSIZE))) as Hblk.
  { intros Hn He. destruct (fo_block _ _ _ Hok _ Hb Hn) as (Ha & Hu & _ & _ & Hbm & _). apply (gr_blk _ _ _ _ _ _ _ Hg); try done.
    rewrite -He. apply (fo_ind_ne _ _ _ Hok'); [done|by rewrite He]. }
  rewrite (gr_addr _ _ _ _ _ _ _ Hg _ Hb) in Hblk |- *. destruct (decide (o / BSIZE = bn)) as [E|_].
  - rewrite E in Hblk |- *. destruct (decide (baddr (cview A) x bn = 0)) as [Hz|Hn].
    + rewrite Hz. cbn [Z.eqb]. destruct (Z.eqb_spec r 0) as [|Hr]; [done|]. apply (gr_new _ _ _ _ _ _ _ Hg Hz Hr). unfold BSIZE. lia.
    + rewrite (gr_old _ _ _ _ _ _ _ Hg Hn) in Hblk |- *. destruct (Z.eqb_spec (baddr (cview A) x bn) 0); [done|]. by rewrite Hblk.
  - destruct (Z.eqb_spec (baddr (cview A) x (o / BSIZE)) 0); [done|]. by rewrite Hblk.
Qed.

(** ** [readi] *)

(** A file that is read; no transaction is needed. *)
Record frd (ip : Z) s A x : Prop := {
  rd_log : fs_rd (flog s) A;
  rd_x : itable s !!! ip = x;
  rd_ok : file_ok (fsb s) A x;
}.

(** The log after reads only *)
Definition read_log l l' A : Prop := fs_rd l' A ∧ outstanding l' = outstanding l.
Lemma bmap_present ip bn s A x : frd ip s A x → 0 ≤ bn < MAXFILE → baddr (cview A) x bn ≠ 0 → room A (Z.of_nat (size (chold A))) →
  wp (bmap ip bn) s (λ r s', r = baddr (cview A) x bn ∧ ∃ l, s' = set_flog l s ∧ read_log (flog s) l A).
Proof.
  intros [Hrd Hx Hok] Hbn Hn Hroom. apply wp_bind, wp_geti. rewrite Hx. remember (baddr (cview A) x bn) as a eqn:Ea. rewrite /baddr in Ea.
  destruct (Z.ltb_spec bn NDIRECT); cbv zeta.
  - rewrite -Ea (proj2 (Z.eqb_neq _ _) Hn). apply wp_mret. split; [done|]. exists (flog s). by rewrite set_flog_same.
  - rewrite (proj2 (Z.ltb_lt _ _)); [|unfold MAXFILE in *; lia]. destruct (Z.eqb_spec (i_addr x NDIRECT) 0) as [Hz|Hi0]; [done|].
    apply wp_bind, wp_mret. rewrite (proj2 (Z.eqb_neq _ _) Hi0). rewrite (fo_dev _ _ _ Hok). destruct (fo_ind _ _ _ Hok Hi0) as (_ & _ & _ & Hnh & _).
    apply wp_bind. eapply wp_rbread; [done..|]. intros i l Hl El Hi. apply wp_bind. eapply wp_rdata; [exact Hl|apply lookup_insert_eq|]. cbn [cview hold_blk].
    rewrite -Ea (proj2 (Z.eqb_neq _ _) Hn). apply wp_bind, wp_mret, wp_bind. eapply wp_rbrelse; [exact Hl|apply lookup_insert_eq|]. intros l2 Hl2 El2. rewrite unhold_hold // in Hl2.
    apply wp_mret. split; [done|]. exists l2. split; [done|]. split; [done|]. by rewrite El2.
Qed.

(** Bytes [off .. off + k) of the file *)
Definition fbytes (V : gmap Z mem) x (off k : Z) : list Z := fbyte V x <$> seqZ off k.
Lemma length_fbytes V x off k : length (fbytes V x off k) = Z.to_nat k.
Proof. by rewrite /fbytes length_fmap length_seqZ. Qed.
Lemma fbytes_app V x off k1 k2 : 0 ≤ k1 → 0 ≤ k2 → fbytes V x off (k1 + k2) = fbytes V x off k1 ++ fbytes V x (off + k1) k2.
Proof. intros H1 H2. by rewrite /fbytes seqZ_app // fmap_app. Qed.
Lemma fbytes_block V x off k : 0 ≤ off → 0 ≤ k → off mod BSIZE + k ≤ BSIZE → baddr V x (off / BSIZE) ≠ 0 →
  fbytes V x off k = ld_bytes (Z.to_nat k) (blk V (baddr V x (off / BSIZE))) (off mod BSIZE).
Proof.
  intros Ho Hk Hb Hn. apply list_eq. intros i. destruct (decide (i < Z.to_nat k)%nat) as [Hi|Hi].
  - rewrite lookup_ld_bytes // /fbytes list_lookup_fmap lookup_seqZ_lt; [|lia]. cbn. rewrite /fbyte.
    replace ((off + Z.of_nat i) / BSIZE) with (off / BSIZE) by (unfold BSIZE in *; lia).
    replace ((off + Z.of_nat i) mod BSIZE) with (off mod BSIZE + Z.of_nat i) by (unfold BSIZE in *; lia). by rewrite (proj2 (Z.eqb_neq _ _) Hn).
  - rewrite !lookup_ge_None_2 //; [rewrite length_ld_bytes; lia|rewrite length_fbytes; lia].
Qed.
Lemma st_bytes_app m a (l1 l2 : list Z) : st_bytes m a (l1 ++ l2) = st_bytes (st_bytes m a l1) (a + Z.of_nat (length l1)) l2.
Proof. revert m a. induction l1 as [|b l1 IH]; intros m a; cbn [st_bytes app length]; [by rewrite Z.add_0_r|]. rewrite IH. f_equal. lia. Qed.

(** The kernel's memory with [bs] stored at [dst] *)
Definition stored (dst : Z) (bs : list Z) s : fs S := set_fmem (mk_kmem (st_bytes (km (fmem s)) dst bs) (freelist (fmem s))) s.

Lemma readi_loop_spec fuel ip dst off n tot s A x :
  frd ip s A x → 0 ≤ tot ≤ n → n < 2 ^ 31 → 0 ≤ off → off + (n - tot) ≤ MAXFILE * BSIZE → 0 ≤ dst → dst + (n - tot) < 2 ^ 64 →
  (tot < n → off mod BSIZE + (n - tot) ≤ Z.of_nat fuel * BSIZE) → room A (Z.of_nat (size (chold A))) →
  (∀ bn, off / BSIZE ≤ bn → bn * BSIZE < off + (n - tot) → baddr (cview A) x bn ≠ 0) →
  wp (readi_loop fuel ip false dst off n tot) s (λ r s', r = n ∧ ∃ l, s' = stored dst (fbytes (cview A) x off (n - tot)) (set_flog l s) ∧ read_log (flog s) l A).
Proof.
  revert dst off tot s. induction fuel as [|fuel IH]; intros dst off tot s Hf Ht Hn Ho Hlim Hd Hd2 Hfuel Hroom Hpres.
  { assert (tot = n) as -> by (destruct (decide (tot < n)); unfold BSIZE in *; lia). apply wp_mret. rewrite s32_small; [|lia]. split; [done|]. exists (flog s). rewrite Z.sub_diag. split; [by destruct s as [? ? ? [] ?]|split; [by destruct Hf|done]]. }
  cbn [readi_loop]. destruct (Z.ltb_spec tot n); cbn [negb].
  2:{ assert (tot = n) as -> by lia. apply wp_mret. rewrite s32_small; [|lia]. split; [done|]. exists (flog s). rewrite Z.sub_diag. split; [by destruct s as [? ? ? [] ?]|split; [by destruct Hf|done]]. }
  assert (baddr (cview A) x (off / BSIZE) ≠ 0) as Hb by (apply Hpres; unfold BSIZE in *; lia).
  assert (0 ≤ off / BSIZE < MAXFILE) as Hbn by (unfold BSIZE, MAXFILE, NDIRECT, NINDIRECT in *; lia).
  apply wp_bind. eapply wp_mono; [by apply (bmap_present ip (off / BSIZE) s A x)|]. intros a s1 (-> & l & -> & Hl & El).
  rewrite (proj2 (Z.eqb_neq _ _) Hb). apply wp_bind, wp_geti. destruct Hf as [_ Hx Hok]. cbn [itable set_flog]. rewrite Hx (fo_dev _ _ _ Hok).
  destruct (fo_block _ _ _ Hok _ Hbn Hb) as (_ & _ & _ & Hnh & _).
  apply wp_bind. eapply wp_rbread; [done..|]. intros i l1 Hl1 El1 Hi. set (m := Z.min (n - tot) (BSIZE - off mod BSIZE)). cbv zeta.
  apply wp_bind. eapply wp_rdata; [exact Hl1|apply lookup_insert_eq|]. cbn [cview hold_blk].
  assert (0 < m ≤ n - tot ∧ off mod BSIZE + m ≤ BSIZE) as [Hm Hm2] by (rewrite /m; unfold BSIZE in *; lia).
  rewrite -fbytes_block; [|lia|lia|done|done]. apply wp_bind. apply wp_bind, wp_gets, wp_bind, wp_lift, wp_modify, wp_mret. cbn [Z.eqb].
  apply wp_bind. eapply wp_rbrelse; [exact Hl1|apply lookup_insert_eq|]. intros l2 Hl2 El2. rewrite unhold_hold // in Hl2.
  assert (MAXFILE = 268) as EM by reflexivity. rewrite !u32_small; [|unfold BSIZE in *; lia..]. rewrite u64_small; [|lia].
  set (s2 := set_flog l2 _). assert (frd ip s2 A x) as Hf2 by (by split).
  eapply wp_mono; [apply (IH (dst + m) (off + m) (tot + m) s2); try done; try lia|].
  - rewrite /m. unfold BSIZE in *. lia.
  - intros bn Hb1 Hb2. apply Hpres; [unfold BSIZE in *; lia|lia].
  - intros r s3 (-> & l3 & -> & Hl3 & El3). split; [done|]. exists l3. split; [|split; [done|]; rewrite El3 El2 El1; exact El]. replace (n - tot) with (m + (n - (tot + m))) by lia.
    rewrite fbytes_app; [|lia..]. rewrite /stored st_bytes_app length_fbytes Z2Nat.id; [done|lia].
Qed.

(** The number of bytes [readi] reads *)
Definition readable x (off n : Z) : Z := if (off >? i_size x) || (2 ^ 32 <=? off + n) then 0 else Z.min n (i_size x - off).
(** Every block up to the size is there. *)
Definition no_holes (V : gmap Z mem) x : Prop := ∀ bn, 0 ≤ bn → bn * BSIZE < i_size x → baddr V x bn ≠ 0.

Lemma readi_spec ip dst off n s A x :
  frd ip s A x → i_size x ≤ MAXFILE * BSIZE → no_holes (cview A) x → 0 ≤ off < 2 ^ 32 → 0 ≤ n < 2 ^ 31 → 0 ≤ dst → dst + n < 2 ^ 64 → room A (Z.of_nat (size (chold A))) →
  wp (readi ip false dst off n) s (λ r s', r = readable x off n ∧ ∃ l, s' = stored dst (fbytes (cview A) x off (readable x off n)) (set_flog l s) ∧ read_log (flog s) l A).
Proof.
  intros Hf Hsz Hh Ho Hn Hd Hd2 Hroom. apply wp_bind, wp_geti. pose proof Hf as [Hrd Hx Hok]. rewrite Hx.
  assert (u32 (off + n) <? off = (2 ^ 32 <=? off + n)) as ->.
  { destruct (Z.leb_spec (2 ^ 32) (off + n)); [apply Z.ltb_lt; rewrite /u32; lia|apply Z.ltb_ge; rewrite u32_small; lia]. }
  rewrite /readable. destruct (Z.gtb_spec off (i_size x)); cbn [orb]; [|destruct (Z.leb_spec (2 ^ 32) (off + n))].
  1,2: apply wp_mret; split; [done|]; exists (flog s); split; [by destruct s as [? ? ? [] ?]|by split].
  rewrite u32_small; [|lia]. set (k := if off + n >? i_size x then i_size x - off else n).
  assert (k = Z.min n (i_size x - off)) as <- by (rewrite /k; destruct (Z.gtb_spec (off + n) (i_size x)); lia).
  assert (0 ≤ k ≤ n ∧ off + k ≤ i_size x) as [Hk Hk2] by (rewrite /k; destruct (Z.gtb_spec (off + n) (i_size x)); lia).
  eapply wp_mono; [apply (readi_loop_spec _ _ _ _ _ _ s A x); try done; try lia|].
  - intros _. unfold BSIZE in *. lia.
  - intros bn Hb1 Hb2. apply Hh; [unfold BSIZE in *; lia|lia].
  - intros r s' (-> & l & -> & Hl). rewrite Z.sub_0_r. split; [done|]. by exists l.
Qed.
(** [readi] into kernel memory, on a file with a block at every offset
    below its size, returns the number of bytes between [off] and the end of the
    file, [n] at most, 0 for an offset past the end; it puts those bytes of the
    file at [dst], whatever blocks they are in, and changes neither the files nor
    anything else in memory. *)
Theorem readi_correct ip dst off n s A x :
  frd ip s A x → i_size x ≤ MAXFILE * BSIZE → no_holes (cview A) x → 0 ≤ off < 2 ^ 32 → 0 ≤ n < 2 ^ 31 → 0 ≤ dst → dst + n < 2 ^ 64 → room A (Z.of_nat (size (chold A))) →
  wp (readi ip false dst off n) s (λ r s', r = readable x off n ∧ ∃ l, s' = stored dst (fbytes (cview A) x off r) (set_flog l s) ∧ read_log (flog s) l A).
Proof. intros. eapply wp_mono; [by apply (readi_spec _ _ _ _ s A x)|]. intros r s1 (-> & l & -> & Hl). split; [done|]. by exists l. Qed.
End fsfile.
