(* ===== verification/FsWrite.v ===== *)
(** * Writing files: [writei] *)
From S2P Require Import Prelude Riscv CString Kalloc Vm Cache Log LogInv Crash Fs FsBlock FsFile.

Section fswrite.
Context {S : Type} {BC : BlockCache S} {LK : Linker} {FR : Frames}.
Context (start lsz : Z).
Implicit Types (s : fs S) (l : logst S) (A : cache) (x : inode).
Abbreviation fs_tx := (fs_tx start lsz).
Abbreviation room := (room lsz).
Abbreviation finv := (finv start lsz).
Abbreviation file_ok := (file_ok start lsz).

(** ** The blocks of a transaction that writes a file

    The blocks of the bitmap and the indirect block are counted from the
    start, so that every turn of the loop adds one block at most. *)
Definition bm_blocks (sb : superblock) : gset Z := list_to_set ((λ k, BBLOCK (k * BPB) sb) <$> seqZ 0 (sb_size sb / BPB + 1)).
Lemma elem_of_bm_blocks sb b : 0 ≤ b < sb_size sb → BBLOCK b sb ∈ bm_blocks sb.
Proof.
  intros Hb. apply elem_of_list_to_set, list_elem_of_fmap. exists (b / BPB). split.
  - rewrite /BBLOCK Z.div_mul; [done|]. unfold BPB, BSIZE. lia.
  - apply elem_of_seqZ. unfold BPB, BSIZE in *. lia.
Qed.
Definition ind_block x : gset Z := if i_addr x NDIRECT =? 0 then ∅ else {[ i_addr x NDIRECT ]}.
Definition load (sb : superblock) A x : Z :=
  Z.of_nat (size (cpin A ∪ bm_blocks sb ∪ ind_block x)) + (if i_addr x NDIRECT =? 0 then 1 else 0).

Lemma load_pin sb A x : Z.of_nat (size (cpin A)) ≤ load sb A x.
Proof.
  rewrite /load. assert (size (cpin A) ≤ size (cpin A ∪ bm_blocks sb ∪ ind_block x))%nat by (apply subseteq_size; set_solver). destruct (i_addr x NDIRECT =? 0); lia.
Qed.
(** Finding a place for a block, and logging it *)
Lemma load_grown sb A x A' x' bn r m : grown sb A x A' x' bn r → load sb (log_upd A' r m) x' ≤ load sb A x + 1.
Proof.
  intros Hg. rewrite /load /log_upd. cbn [cpin]. set (B := cpin A ∪ bm_blocks sb ∪ ind_block x).
  assert ({[r]} ∪ cpin A' ∪ bm_blocks sb ∪ ind_block x' ⊆ {[r]} ∪ (ind_block x' ∪ B)) as Hsub.
  { assert (∀ b, b ∈ cpin A' → b ∈ {[r]} ∪ (ind_block x' ∪ B)) as Hp; [|set_solver].
    intros b [?|[(b' & Hb' & ->)|[[-> _]|[-> Hn]]]]%(gr_pin _ _ _ _ _ _ _ Hg); [set_solver|pose proof (elem_of_bm_blocks sb b' Hb'); set_solver|set_solver|].
    apply elem_of_union_r, elem_of_union_l. rewrite /ind_block (proj2 (Z.eqb_neq _ _) Hn). set_solver. }
  apply subseteq_size in Hsub. pose proof (size_union_le {[r]} (ind_block x' ∪ B)) as H1. rewrite size_singleton in H1.
  destruct (Z.eqb_spec (i_addr x NDIRECT) 0) as [Hz|Hn].
  - pose proof (size_union_le (ind_block x') B) as H2. assert (size (ind_block x') ≤ if Z.eqb (i_addr x' NDIRECT) 0 then 0 else 1)%nat as H3.
    { rewrite /ind_block. destruct (Z.eqb (i_addr x' NDIRECT) 0); [by rewrite size_empty|by rewrite size_singleton]. }
    destruct (Z.eqb (i_addr x' NDIRECT) 0); lia.
  - assert (i_addr x' NDIRECT = i_addr x NDIRECT) as E by (by apply (gr_ind _ _ _ _ _ _ _ Hg)). rewrite E (proj2 (Z.eqb_neq _ _) Hn).
    assert (ind_block x' ∪ B = B) as E2; [|rewrite E2 in H1; rewrite E2 in Hsub; lia].
    assert (ind_block x' = ind_block x) as -> by (by rewrite /ind_block E). rewrite /B. set_solver.
Qed.

Lemma load_grown' sb A x A' x' bn r : grown sb A x A' x' bn r → load sb A' x' ≤ load sb A x + 1.
Proof.
  intros Hg. pose proof (load_grown _ _ _ _ _ _ _ (blk ∅ 0) Hg) as Hl. assert (load sb A' x' ≤ load sb (log_upd A' r (blk ∅ 0)) x'); [|lia].
  rewrite /load /log_upd. cbn [cpin]. apply Z.add_le_mono_r, inj_le, subseteq_size. set_solver.
Qed.

(** ** What a write does to the file *)
Record wrote (sb : superblock) A x A' x' (off : Z) (bs : list Z) : Prop := {
  wr_byte o : 0 ≤ o < MAXFILE * BSIZE → fbyte (cview A') x' o = if decide (off ≤ o < off + Z.of_nat (length bs)) then nth (Z.to_nat (o - off)) bs 0 else fbyte (cview A) x o;
  wr_keep bn : 0 ≤ bn < MAXFILE → baddr (cview A) x bn ≠ 0 → baddr (cview A') x' bn = baddr (cview A) x bn;
  wr_have o : off ≤ o < off + Z.of_nat (length bs) → baddr (cview A') x' (o / BSIZE) ≠ 0;
  wr_used b : 0 ≤ b < sb_size sb → bused (cview A) sb b = true → bused (cview A') sb b = true;
  wr_fresh bn : 0 ≤ bn < MAXFILE → baddr (cview A) x bn = 0 → baddr (cview A') x' bn ≠ 0 → bused (cview A) sb (baddr (cview A') x' bn) = false;
  wr_ind : i_addr x NDIRECT ≠ 0 → i_addr x' NDIRECT = i_addr x NDIRECT;
  wr_fresh_ind : i_addr x NDIRECT = 0 → i_addr x' NDIRECT ≠ 0 → bused (cview A) sb (i_addr x' NDIRECT) = false;
  wr_blk b : 0 < b < sb_size sb → bused (cview A) sb b = true → (∀ b', 0 ≤ b' < sb_size sb → BBLOCK b' sb ≠ b) →
    (∀ bn, 0 ≤ bn < MAXFILE → baddr (cview A) x bn ≠ b) → b ≠ i_addr x NDIRECT → blk (cview A') b = blk (cview A) b;
  wr_meta : same_meta x x';
  wr_disk : cdisk A' = cdisk A ∧ chold A' = chold A;
}.

Lemma wrote_app sb A x A1 x1 A2 x2 off bs1 bs2 : 0 ≤ off → off + Z.of_nat (length (bs1 ++ bs2)) ≤ MAXFILE * BSIZE → file_ok sb A1 x1 → (∀ bn, 0 ≤ bn < MAXFILE → 0 ≤ baddr (cview A2) x2 bn < sb_size sb) → 0 ≤ i_addr x2 NDIRECT < sb_size sb →
  wrote sb A x A1 x1 off bs1 → wrote sb A1 x1 A2 x2 (off + Z.of_nat (length bs1)) bs2 → wrote sb A x A2 x2 off (bs1 ++ bs2).
Proof.
  intros Ho Hlim Hok1 Hr Hri [b1 k1 h1 u1 f1 i1 g1 c1 m1 d1] [b2 k2 h2 u2 f2 i2 g2 c2 m2 d2]. rewrite length_app in Hlim |- *. split.
  - intros o Hoo. rewrite b2 // b1 // length_app. destruct (decide (off + Z.of_nat (length bs1) ≤ o < off + Z.of_nat (length bs1) + Z.of_nat (length bs2))).
    + rewrite decide_True; [|lia]. rewrite app_nth2; [|lia]. f_equal. lia.
    + destruct (decide (off ≤ o < off + Z.of_nat (length bs1))); [rewrite decide_True; [|lia]; rewrite app_nth1 //; lia|]. rewrite decide_False //. lia.
  - intros bn Hbn Hn. rewrite k2 // k1 //.
  - intros o Hoo. rewrite length_app in Hoo. destruct (decide (o < off + Z.of_nat (length bs1))) as [Hlt|Hge]; [|apply h2; clear -Hge Hoo; lia].
    assert (baddr (cview A1) x1 (o / BSIZE) ≠ 0) as Hn by (apply h1; clear -Hlt Hoo; lia). rewrite k2 //. clear -Ho Hlim Hoo. unfold BSIZE in *. lia.
  - intros b Hb Hu. by apply u2, u1.
  - intros bn Hbn Hz Hn. destruct (decide (baddr (cview A1) x1 bn = 0)) as [Hz1|Hn1].
    + destruct (bused (cview A) sb (baddr (cview A2) x2 bn)) eqn:Eu; [|done]. apply u1 in Eu; [|by apply Hr]. rewrite f2 // in Eu.
    + rewrite k2 //. by apply f1.
  - intros Hn. rewrite i2; [by apply i1|]. by rewrite i1.
  - intros Hz Hn. destruct (decide (i_addr x1 NDIRECT = 0)) as [Hz1|Hn1].
    + destruct (bused (cview A) sb (i_addr x2 NDIRECT)) eqn:Eu; [|done]. apply u1 in Eu; [|done]. rewrite g2 // in Eu.
    + rewrite i2 //. by apply g1.
  - intros b Hb Hu Hbm Hf Hi. rewrite c2 //; [by apply c1|by apply u1; [lia|]| |].
    + intros bn Hbn E. destruct (decide (baddr (cview A) x bn = 0)) as [Hz|Hn].
      * rewrite -E f1 // in Hu. rewrite E. clear -Hb. lia.
      * rewrite k1 // in E. by apply (Hf bn).
    + intros ->. destruct (decide (i_addr x NDIRECT = 0)) as [Hz|Hn]; [rewrite g1 // in Hu; clear -Hb; lia|]. rewrite i1 // in Hi.
  - by eapply same_meta_trans.
  - destruct d2 as [-> ->], d1 as [-> ->]. done.
Qed.
Lemma wrote_nil sb A x off : wrote sb A x A x off [].
Proof.
  split; try done; [| |apply same_meta_refl]; cbn [length]; intros o Ho; [rewrite decide_False //; lia|lia].
Qed.

(** One turn of the loop: block [bn] is found... *)
Lemma grown_wrote sb A x A1 x1 r bn off : file_ok sb A x → file_ok sb A1 x1 → 0 ≤ bn < MAXFILE → grown sb A x A1 x1 bn r → wrote sb A x A1 x1 off [].
Proof.
  intros Hok Hok1 Hbn Hg. split; cbn [length].
  - intros o Ho. rewrite decide_False; [|lia]. by eapply grown_fbyte.
  - intros bn' Hbn' Hn. rewrite (gr_addr _ _ _ _ _ _ _ Hg) //. destruct (decide (bn' = bn)) as [->|]; [by apply (gr_old _ _ _ _ _ _ _ Hg)|done].
  - lia.
  - apply (gr_used _ _ _ _ _ _ _ Hg).
  - intros bn' Hbn' Hz Hn. rewrite (gr_addr _ _ _ _ _ _ _ Hg) // in Hn |- *. destruct (decide (bn' = bn)) as [->|]; [by apply (gr_fresh _ _ _ _ _ _ _ Hg)|done].
  - apply (gr_ind _ _ _ _ _ _ _ Hg).
  - apply (gr_fresh_ind _ _ _ _ _ _ _ Hg).
  - intros b Hb Hu Hbm Hf Hi. apply (gr_blk _ _ _ _ _ _ _ Hg); try done. intros ->. destruct (decide (i_addr x NDIRECT = 0)) as [Hz|Hn].
    + rewrite (gr_fresh_ind _ _ _ _ _ _ _ Hg) // in Hu. clear -Hb. lia.
    + rewrite (gr_ind _ _ _ _ _ _ _ Hg) // in Hi.
  - apply (gr_meta _ _ _ _ _ _ _ Hg).
  - apply (gr_disk _ _ _ _ _ _ _ Hg).
Qed.
(** ...and written. *)
Lemma upd_wrote sb A x r off bs : 0 ≤ off → off + Z.of_nat (length bs) ≤ MAXFILE * BSIZE → off mod BSIZE + Z.of_nat (length bs) ≤ BSIZE → (0 < length bs)%nat → Forall (λ b, 0 ≤ b < 256) bs →
  file_ok sb A x → baddr (cview A) x (off / BSIZE) = r → r ≠ 0 →
  wrote sb A x (log_upd A r (st_bytes (blk (cview A) r) (off mod BSIZE) bs)) x off bs ∧ file_ok sb (log_upd A r (st_bytes (blk (cview A) r) (off mod BSIZE) bs)) x.
Proof.
  intros Ho Hlim Hin Hpos Hbs Hok Er Hr. set (bn := off / BSIZE) in *. assert (0 ≤ bn < MAXFILE) as Hbn by (rewrite /bn; unfold BSIZE in *; lia).
  destruct (fo_block _ _ _ _ _ Hok bn Hbn) as (Hra & Hru & _ & _ & Hrbm & _); [by rewrite Er|]. rewrite Er in Hra, Hru, Hrbm.
  assert (r ≠ i_addr x NDIRECT) as Hri by (rewrite -Er; apply (fo_ind_ne _ _ _ _ _ Hok bn Hbn); by rewrite Er).
  set (m := st_bytes (blk (cview A) r) (off mod BSIZE) bs). destruct (file_ok_upd start lsz sb A r m Hrbm x) as [Hok2 Ea]; [by right|done|].
  split; [|done]. split.
  - intros o Hoo. assert (0 ≤ o / BSIZE < MAXFILE) as Hob by (unfold BSIZE in *; lia). rewrite /fbyte Ea.
    destruct (decide (o / BSIZE = bn)) as [E|Hne].
    + rewrite E Er (proj2 (Z.eqb_neq _ _) Hr). cbn [cview log_upd]. rewrite blk_insert_eq /m ld8_st_bytes. destruct (decide (off ≤ o < off + Z.of_nat (length bs))) as [Hoff|Hoff].
      * rewrite decide_True; [|rewrite /bn in E; unfold BSIZE in *; lia]. replace (o mod BSIZE - off mod BSIZE) with (o - off) by (rewrite /bn in E; unfold BSIZE in *; lia).
        apply u8_small. rewrite Forall_forall in Hbs. apply Hbs, list_elem_of_In, nth_In. lia.
      * rewrite decide_False //. rewrite /bn in E. unfold BSIZE in *. lia.
    + rewrite decide_False; [|rewrite /bn in Hne; unfold BSIZE in *; lia]. destruct (Z.eqb_spec (baddr (cview A) x (o / BSIZE)) 0) as [|Hn]; [done|]. cbn [cview log_upd]. rewrite blk_insert_ne //.
      intros E. apply Hne. apply (fo_inj _ _ _ _ _ Hok); try done. by rewrite E Er.
  - intros bn' Hbn' Hn. by rewrite Ea.
  - intros o Hoo. replace (o / BSIZE) with bn by (rewrite /bn; unfold BSIZE in *; lia). by rewrite Ea Er.
  - intros b Hb Hu. rewrite (bused_upd sb) //.
  - intros bn' Hbn' Hz Hn. by rewrite Ea in Hn.
  - done.
  - done.
  - intros b Hb Hu Hbm Hf Hi. cbn [cview log_upd]. apply blk_insert_ne. intros ->. by apply (Hf bn).
  - apply same_meta_refl.
  - done.
Qed.
Lemma file_ok_range sb A x : 0 < sb_size sb → file_ok sb A x → (∀ bn, 0 ≤ bn < MAXFILE → 0 ≤ baddr (cview A) x bn < sb_size sb) ∧ 0 ≤ i_addr x NDIRECT < sb_size sb.
Proof.
  intros Hsz Hok. split.
  - intros bn Hbn. destruct (decide (baddr (cview A) x bn = 0)) as [->|Hn]; [lia|]. destruct (fo_block _ _ _ _ _ Hok bn Hbn Hn). lia.
  - destruct (decide (i_addr x NDIRECT = 0)) as [->|Hn]; [lia|]. destruct (fo_ind _ _ _ _ _ Hok Hn). lia.
Qed.
Lemma wrote_block sb A x A1 x1 r off bs : 0 < sb_size sb → 0 ≤ off → off + Z.of_nat (length bs) ≤ MAXFILE * BSIZE → off mod BSIZE + Z.of_nat (length bs) ≤ BSIZE → (0 < length bs)%nat → Forall (λ b, 0 ≤ b < 256) bs →
  file_ok sb A x → file_ok sb A1 x1 → grown sb A x A1 x1 (off / BSIZE) r → r ≠ 0 →
  wrote sb A x (log_upd A1 r (st_bytes (blk (cview A1) r) (off mod BSIZE) bs)) x1 off bs.
Proof.
  intros Hsz Ho Hlim Hin Hpos Hbs Hok Hok1 Hg Hr. assert (0 ≤ off / BSIZE < MAXFILE) as Hbn by (unfold BSIZE in *; lia).
  pose proof (gr_addr _ _ _ _ _ _ _ Hg _ Hbn) as Er. rewrite decide_True // in Er.
  destruct (upd_wrote sb A1 x1 r off bs) as [Hw Hok2]; try done. destruct (file_ok_range _ _ _ Hsz Hok2) as [Hr1 Hr2].
  apply (wrote_app sb A x A1 x1 _ x1 off [] bs); try done; [by eapply grown_wrote|]. by rewrite Z.add_0_r.
Qed.

(** ** The loop *)
(** After [k] of the [len] bytes at [src] have been written at [off]: fewer than
    [len] only when the disk is full. *)
Definition write_post (ip : Z) s A x (T : nat) (src off len k : Z) s' : Prop :=
  ∃ A' x', 0 ≤ k ≤ len ∧ finv ip s' A' x' ∧ same_but ip s s' ∧ wrote (fsb s) A x A' x' off (ld_bytes (Z.to_nat k) (km (fmem s)) src) ∧
    load (fsb s) A' x' ≤ load (fsb s) A x + Z.of_nat T ∧ (k < len → full (fsb s) A').
Lemma write_post_0 ip s A x T src off : finv ip s A x → write_post ip s A x T src off 0 0 s.
Proof. intros Hf. exists A, x. split; [lia|]. split; [done|]. split; [by split_and!|]. split; [apply wrote_nil|]. lia. Qed.

(** One block of bytes is stored and logged. *)
Lemma write_post_block ip s A x A1 x1 r s1 l T src off len m :
  finv ip s A x → finv ip s1 A1 x1 → same_but ip s s1 → grown (fsb s) A x A1 x1 (off / BSIZE) r → r ≠ 0 → 0 ≤ off → off + len ≤ MAXFILE * BSIZE → 0 < m → m ≤ len → off mod BSIZE + m ≤ BSIZE →
  fs_tx l (log_upd A1 r (st_bytes (blk (cview A1) r) (off mod BSIZE) (ld_bytes (Z.to_nat m) (km (fmem s)) src))) →
  (1 ≤ T)%nat → write_post ip s A x T src off m m (set_flog l s1).
Proof.
  intros Hf Hf1 Hsame Hg Hr Ho Hlim Hm Hml Hin Hl HT. assert (MAXFILE = 268) as EM by reflexivity. assert (0 ≤ off / BSIZE < MAXFILE) as Hbn by (unfold BSIZE in *; lia).
  pose proof (fi_ok _ _ _ _ _ _ Hf) as Hok. pose proof (fi_ok _ _ _ _ _ _ Hf1) as Hok1. pose proof Hsame as (Esb & _). rewrite Esb in Hok1.
  pose proof (gr_addr _ _ _ _ _ _ _ Hg _ Hbn) as Er. rewrite decide_True // in Er.
  destruct (fo_block _ _ _ _ _ Hok1 _ Hbn) as (Hra & Hru & _ & _ & Hrbm & _); [by rewrite Er|]. rewrite Er in Hra, Hru, Hrbm.
  assert (r ≠ i_addr x1 NDIRECT) as Hri by (rewrite -Er; apply (fo_ind_ne _ _ _ _ _ Hok1 _ Hbn); by rewrite Er).
  eexists _, x1. split; [lia|]. split; [apply finv_upd; [done|by rewrite Esb|by right|exact Hl]|]. split; [by eapply same_but_trans; [|apply same_but_flog]|]. split; [|split].
  - apply wrote_block; rewrite ?length_ld_bytes; try done; try (apply ld_bytes_range); lia.
  - pose proof (load_grown _ _ _ _ _ _ _ (st_bytes (blk (cview A1) r) (off mod BSIZE) (ld_bytes (Z.to_nat m) (km (fmem s)) src)) Hg). lia.
  - lia.
Qed.
Lemma write_post_app ip s A x T T1 src off len m s1 A1 x1 k s2 :
  0 ≤ off → off + len ≤ MAXFILE * BSIZE → 0 ≤ m ≤ len →
  finv ip s1 A1 x1 → same_but ip s s1 → wrote (fsb s) A x A1 x1 off (ld_bytes (Z.to_nat m) (km (fmem s)) src) → load (fsb s) A1 x1 ≤ load (fsb s) A x + Z.of_nat T →
  write_post ip s1 A1 x1 T1 (src + m) (off + m) (len - m) k s2 → write_post ip s A x (T + T1) src off len (m + k) s2.
Proof.
  intros Ho Hlim Hm Hf1 Hsame Hw Hload (A2 & x2 & Hk & Hf2 & Hsame2 & Hw2 & Hload2 & Hfull). pose proof Hsame as (Esb & Em & _). rewrite Esb Em in Hw2, Hload2, Hfull.
  pose proof (fi_ok _ _ _ _ _ _ Hf1) as Hok1. pose proof (fi_ok _ _ _ _ _ _ Hf2) as Hok2. pose proof Hsame2 as (Esb2 & _). rewrite Esb in Hok1. rewrite Esb2 Esb in Hok2.
  pose proof (lay_size _ _ _ _ (fi_lay _ _ _ _ _ _ Hf1)) as Hsz. rewrite Esb in Hsz. assert (0 < sb_size (fsb s)) by lia.
  exists A2, x2. split; [lia|]. split; [done|]. split; [by eapply same_but_trans|]. split; [|split; [lia|intros; apply Hfull; lia]].
  rewrite Z2Nat.inj_add; [|lia..]. rewrite ld_bytes_app Z2Nat.id; [|lia]. eapply wrote_app; [done| |exact Hok1| | |exact Hw|].
  - rewrite length_app !length_ld_bytes. lia.
  - by apply (file_ok_range _ _ _ ltac:(eassumption) Hok2).
  - by apply (file_ok_range _ _ _ ltac:(eassumption) Hok2).
  - rewrite length_ld_bytes Z2Nat.id; [done|lia].
Qed.

Lemma writei_loop_spec fuel ip src off n tot s A x :
  finv ip s A x → 0 ≤ tot ≤ n → n < 2 ^ 31 → 0 ≤ off → off + (n - tot) ≤ MAXFILE * BSIZE → 0 ≤ src → src + (n - tot) < 2 ^ 64 →
  (tot < n → off mod BSIZE + (n - tot) ≤ Z.of_nat fuel * BSIZE) → load (fsb s) A x + Z.of_nat fuel + 6 + Z.of_nat (size (chold A)) ≤ Z.min LOGSIZE lsz - 1 →
  wp (writei_loop fuel ip false src off n tot) s (λ r s', ∃ k, r = (tot + k, off + k) ∧ write_post ip s A x fuel src off (n - tot) k s').
Proof.
  revert src off tot s A x. induction fuel as [|fuel IH]; intros src off tot s A x Hf Ht Hn Ho Hlim Hd Hd2 Hfuel Hroom.
  { assert (tot = n) as -> by (destruct (decide (tot < n)); unfold BSIZE in *; lia). apply wp_mret. exists 0. rewrite !Z.add_0_r Z.sub_diag. split; [done|by apply write_post_0]. }
  cbn [writei_loop]. destruct (Z.ltb_spec tot n); cbn [negb].
  2:{ assert (tot = n) as -> by lia. apply wp_mret. exists 0. rewrite !Z.add_0_r Z.sub_diag. split; [done|by apply write_post_0]. }
  assert (MAXFILE = 268) as EM by reflexivity. assert (0 ≤ off / BSIZE < MAXFILE) as Hbn by (unfold BSIZE in *; lia).
  pose proof (load_pin (fsb s) A x) as Hpin.
  apply wp_bind. eapply wp_mono; [apply (bmap_spec start lsz ip (off / BSIZE) s A x); [done..|rewrite /FsBlock.room; lia]|]. intros r s1 (A1 & x1 & Hf1 & Hsame & Hg & Hfull).
  pose proof Hsame as (Esb & Em & Ecur & _). destruct (gr_disk _ _ _ _ _ _ _ Hg) as [_ Eh].
  destruct (Z.eqb_spec r 0) as [->|Hr].
  { apply wp_mret. exists 0. rewrite !Z.add_0_r. split; [done|]. exists A1, x1. pose proof (fi_ok _ _ _ _ _ _ Hf1) as Hok1. rewrite Esb in Hok1. split; [lia|]. split; [done|]. split; [done|]. split; [by eapply grown_wrote; [apply (fi_ok _ _ _ _ _ _ Hf)|exact Hok1|exact Hbn|exact Hg]|]. pose proof (load_grown' _ _ _ _ _ _ _ Hg). split; [lia|auto]. }
  apply wp_bind, wp_geti. pose proof Hf1 as [Htx1 HL1 _ Hx1 Hok1 _]. rewrite Hx1 (fo_dev _ _ _ _ _ Hok1).
  pose proof (gr_addr _ _ _ _ _ _ _ Hg _ Hbn) as Er. rewrite decide_True // in Er.
  destruct (fo_block _ _ _ _ _ Hok1 _ Hbn) as (Hra & Hru & Hrl & Hrh & Hrbm & _); [by rewrite Er|]. rewrite Er in Hra, Hru, Hrl, Hrh, Hrbm.
  assert (Z.of_nat (size (cpin A1)) + 1 + Z.of_nat (size (chold A)) ≤ Z.min LOGSIZE lsz - 1) as Hr1 by (pose proof (load_grown' _ _ _ _ _ _ _ Hg); pose proof (load_pin (fsb s) A1 x1); lia).
  apply wp_bind. eapply wp_fbread; [exact Htx1|exact Hrh|rewrite /FsBlock.room Eh; lia|]. intros i l Hl Hi. set (m := Z.min (n - tot) (BSIZE - off mod BSIZE)). cbv zeta.
  assert (0 < m ≤ n - tot ∧ off mod BSIZE + m ≤ BSIZE) as [Hm Hm2] by (rewrite /m; unfold BSIZE in *; lia).
  apply wp_bind. apply wp_bind, wp_gets, wp_bind, wp_gets, wp_mret. cbn [fst snd Z.eqb fmem set_flog]. rewrite Em.
  eapply (wp_fupd_seq start lsz _ _ i r); [exact Hl|apply lookup_insert_eq|split; [pose proof (lay_size _ _ _ _ HL1); lia|done]|rewrite /FsBlock.room; cbn; lia|].
  intros l2 Hl2. apply wp_bind. eapply wp_fbrelse; [exact Hl2|apply lookup_insert_eq|]. intros l3 Hl3. rewrite unhold_upd // in Hl3.
  rewrite !u32_small; [|unfold BSIZE in *; lia..]. rewrite u64_small; [|lia].
  destruct (write_post_block ip s A x A1 x1 r s1 l3 1 src off (n - tot) m) as (A2 & x2 & _ & Hf2 & Hsame2 & Hw2 & Hload2 & _); try done; try lia.
  set (s2 := set_flog l3 _). pose proof Hsame2 as (Esb2 & Em2 & _). destruct (wr_disk _ _ _ _ _ _ _ Hw2) as [_ Eh2].
  eapply wp_mono; [apply (IH (src + m) (off + m) (tot + m) s2 A2 x2); try done; try lia|].
  - rewrite /m. unfold BSIZE in *. lia.
  - rewrite Esb2 Eh2. lia.
  - intros r3 s3 (k & -> & Hk). exists (m + k). split; [f_equal; lia|]. apply (write_post_app ip s A x 1 fuel src off (n - tot) m s2 A2 x2); try done; try lia. by replace (n - tot - m) with (n - (tot + m)) by lia.
Qed.

End fswrite.
