(* ===== verification/FsRw.v ===== *)
(** * [iupdate] and [writei], and what [readi] reads back *)
From S2P Require Import Prelude Riscv CString Kalloc Vm Cache Log LogInv Crash Fs FsBlock FsFile FsWrite.

(** ** The inode on the disk *)
(** The fields fit in those of struct dinode. *)
Definition inode_fits (x : inode) : Prop :=
  Forall (λ v, - 2 ^ 15 ≤ v < 2 ^ 15) [i_type x; i_major x; i_minor x; i_nlink x] ∧ 0 ≤ i_size x < 2 ^ 32.
(** [y] with the fields of [x] that are on the disk *)
Definition loaded_as (x y : inode) : inode := mk_inode (i_dev y) (i_inum y) (i_ref y) (i_locked y) (i_pid y) (i_valid y)
  (i_type x) (i_major x) (i_minor x) (i_nlink x) (i_size x) (i_addrs x).

Lemma ld16_st16_eq m a v : ld16 (st16 m a v) a = v mod 2 ^ 16.
Proof. apply (ld_st_le_eq 2). Qed.
Lemma ld16_st16_ne m a v b : b + 2 ≤ a ∨ a + 2 ≤ b → ld16 (st16 m a v) b = ld16 m b.
Proof. intros. apply (ld_st_le_ne 2 2). lia. Qed.
Lemma ld16_st32_ne m a v b : b + 2 ≤ a ∨ a + 4 ≤ b → ld16 (st32 m a v) b = ld16 m b.
Proof. intros. apply (ld_st_le_ne 2 4). lia. Qed.
Lemma ld32_st16_ne m a v b : b + 4 ≤ a ∨ a + 2 ≤ b → ld32 (st16 m a v) b = ld32 m b.
Proof. intros. apply (ld_st_le_ne 4 2). lia. Qed.
Lemma s16_mod v : - 2 ^ 15 ≤ v < 2 ^ 15 → s16 (v mod 2 ^ 16) = v.
Proof. intros. rewrite /s16. lia. Qed.

Lemma ld8_st_addrs m a l b : b < a ∨ a + 4 * Z.of_nat (length l) ≤ b → ld8 (st_addrs m a l) b = ld8 m b.
Proof.
  revert m a. induction l as [|v l IH]; intros m a Hb; [done|]. cbn [st_addrs length] in *. rewrite IH; [|lia]. apply (ld8_st_le_ne 4). lia.
Qed.
Lemma ld_st_addrs m a l : Forall (λ v, 0 ≤ v < 2 ^ 32) l → ld_addrs (length l) (st_addrs m a l) a = l.
Proof.
  revert m a. induction l as [|v l IH]; intros m a Hl; [done|]. apply Forall_cons in Hl as [Hv Hl]. cbn [st_addrs length ld_addrs]. f_equal; [|by apply IH].
  trans (ld32 (st32 m a v) a); [|by rewrite ld32_st32_eq u32_small]. apply (ld_le_ext 4). intros b Hb. apply ld8_st_addrs. lia.
Qed.
Lemma dinode_reload dip x y m : inode_fits x → length (i_addrs x) = 13%nat → Forall (λ v, 0 ≤ v < 2 ^ 32) (i_addrs x) →
  dinode_load dip (dinode_store dip x m) y = loaded_as x y.
Proof.
  intros [Hs Hsz] Hlen Ha. rewrite !Forall_cons in Hs. destruct Hs as (H1 & H2 & H3 & H4 & _). rewrite /dinode_load /dinode_store /loaded_as.
  set (m5 := st32 _ _ _). assert (∀ a, dip ≤ a → a + 2 ≤ dip + 12 → ld16 (st_addrs m5 (dip + 12) (i_addrs x)) a = ld16 m5 a) as E16.
  { intros a ? ?. apply (ld_le_ext 2). intros b Hb. apply ld8_st_addrs. lia. }
  assert (ld32 (st_addrs m5 (dip + 12) (i_addrs x)) (dip + 8) = ld32 m5 (dip + 8)) as E32.
  { apply (ld_le_ext 4). intros b Hb. apply ld8_st_addrs. lia. }
  rewrite !E16; [|lia..]. rewrite E32 /m5 ld32_st32_eq u32_small // -Hlen ld_st_addrs //.
  repeat (rewrite ld16_st32_ne; [|lia]). rewrite !ld16_st16_eq. repeat (rewrite ?ld16_st16_eq ld16_st16_ne; [|lia]).
  by rewrite ld16_st16_eq !s16_mod.
Qed.
Lemma dinode_store_other dip x m b : length (i_addrs x) = 13%nat → b < dip ∨ dip + DINODE_SIZE ≤ b → ld8 (dinode_store dip x m) b = ld8 m b.
Proof.
  intros Hlen Hb. unfold DINODE_SIZE in Hb. rewrite /dinode_store ld8_st_addrs; [|lia].
  trans (ld8 (st16 (st16 (st16 (st16 m dip (i_type x)) (dip + 2) (i_major x)) (dip + 4) (i_minor x)) (dip + 6) (i_nlink x)) b); [apply (ld8_st_le_ne 4); lia|].
  do 4 (etrans; [apply (ld8_st_le_ne 2); lia|]). done.
Qed.

Section fsrw.
Context {S : Type} {BC : BlockCache S} {LK : Linker} {FR : Frames}.
Context (start lsz : Z).
Implicit Types (s : fs S) (l : logst S) (A : cache) (x : inode).
Abbreviation fs_tx := (fs_tx start lsz).
Abbreviation fs_rd := (fs_rd start lsz).
Abbreviation room := (room lsz).
Abbreviation finv := (finv start lsz).
Abbreviation file_ok := (file_ok start lsz).

Lemma addrs_range sb A x : 0 < sb_size sb < 2 ^ 31 → file_ok sb A x → Forall (λ v, 0 ≤ v < 2 ^ 32) (i_addrs x).
Proof.
  intros Hsz Hok. destruct (file_ok_range start lsz sb A x) as [Hb Hi]; [lia|done|]. apply Forall_lookup. intros k v Hk.
  assert (i_addr x (Z.of_nat k) = v) as Ev by (rewrite /i_addr Nat2Z.id; by apply list_lookup_total_correct). pose proof (lookup_lt_Some _ _ _ Hk) as Hlt. rewrite (fo_len _ _ _ _ _ Hok) in Hlt.
  destruct (decide (k = 12)%nat) as [->|Hne]; [rewrite /NDIRECT Ev in Hi; lia|].
  specialize (Hb (Z.of_nat k) ltac:(unfold MAXFILE, NDIRECT, NINDIRECT, BSIZE; lia)). rewrite /baddr (proj2 (Z.ltb_lt _ _)) in Hb; [rewrite Ev in Hb; lia|unfold NDIRECT; lia].
Qed.

(** [iupdate] logs the block of the inode, with the inode in it. *)
Definition iupdated (sb : superblock) A x : cache :=
  log_upd A (IBLOCK (i_inum x) sb) (dinode_store (dinode_off (i_inum x)) x (blk (cview A) (IBLOCK (i_inum x) sb))).
Lemma iupdate_spec ip s A x Q : finv ip s A x → room A (1 + Z.of_nat (size (chold A))) →
  (∀ l, finv ip (set_flog l s) (iupdated (fsb s) A x) x → Q tt (set_flog l s)) → wp (iupdate ip) s Q.
Proof.
  intros Hf Hroom HQ. pose proof Hf as [Htx HL H0 Hx Hok Hib]. pose proof Hib as (Hbr & Hbu & Hbl & Hbh & Hbb). apply wp_bind, wp_geti. rewrite Hx. apply wp_bind, wp_gets. rewrite (fo_dev _ _ _ _ _ Hok).
  apply wp_bind. eapply wp_fbread; [exact Htx|exact Hbh|eapply room_mono; [exact Hroom|lia]|]. intros i l Hl Hi.
  eapply (wp_fupd_seq start lsz _ _ i); [exact Hl|apply lookup_insert_eq|split; [pose proof (lay_size _ _ _ _ HL); lia|done]|eapply room_mono; [exact Hroom|lia]|].
  intros l2 Hl2. eapply wp_fbrelse; [exact Hl2|apply lookup_insert_eq|]. intros l3 Hl3. rewrite unhold_upd // in Hl3.
  apply (HQ l3). apply finv_upd; [exact Hf|exact Hbb| |exact Hl3]. destruct (decide (i_addr x NDIRECT = 0)) as [|Hn]; [by left|right].
  destruct (fo_ind _ _ _ _ _ Hok Hn) as (_ & _ & _ & _ & _ & Hne). congruence.
Qed.
Lemma iupdated_same sb A x : file_ok sb A x → inode_block start lsz sb A (i_inum x) →
  (∀ bn, baddr (cview (iupdated sb A x)) x bn = baddr (cview A) x bn) ∧
  ∀ o, 0 ≤ o < MAXFILE * BSIZE → fbyte (cview (iupdated sb A x)) x o = fbyte (cview A) x o.
Proof.
  intros Hok (Hbr & _ & _ & _ & Hbb). destruct (file_ok_upd start lsz sb A (IBLOCK (i_inum x) sb) (dinode_store (dinode_off (i_inum x)) x (blk (cview A) (IBLOCK (i_inum x) sb))) Hbb x) as [_ Ea]; [|done|].
  { destruct (decide (i_addr x NDIRECT = 0)) as [|Hn]; [by left|right]. destruct (fo_ind _ _ _ _ _ Hok Hn) as (_ & _ & _ & _ & _ & Hne). congruence. }
  split; [exact Ea|]. intros o Ho. rewrite /fbyte Ea. destruct (Z.eqb_spec (baddr (cview A) x (o / BSIZE)) 0) as [|Hn]; [done|]. cbn [iupdated cview log_upd]. rewrite blk_insert_ne //.
  destruct (fo_block _ _ _ _ _ Hok (o / BSIZE)) as (_ & _ & _ & _ & _ & Hne); [assert (MAXFILE = 268) by reflexivity; unfold BSIZE in *; lia|done|]. congruence.
Qed.

(** A new size *)
Lemma finv_size ip s A x n : finv ip s A x → finv ip (set_itable (<[ip := with_size n x]> (itable s)) s) A (with_size n x).
Proof.
  intros [Htx HL H0 Hx Hok Hib]. split; try done; [cbn [itable set_itable]; apply lookup_total_insert_eq|]. destruct Hok as [h1 h2 h3 h4 h5 h6]. by split.
Qed.

(** ** [writei] *)
(** The write would leave a hole or does not fit in a file. *)
Definition rejected x (off n : Z) : bool := (off >? i_size x) || (MAXFILE * BSIZE <? off + n).

(** [k] of the [n] bytes at [src] are in the file at [off], all of them unless
    the disk is full; the inode is in its block; no other block in use has
    changed. *)
Record written (ip : Z) s A x (src off n k : Z) s' A' x' : Prop := {
  wn_k : 0 ≤ k ≤ n;
  wn_full : k < n → full (fsb s) A';
  wn_inv : finv ip s' A' x';
  wn_same : same_but ip s s';
  wn_meta : ∃ addrs, x' = mk_inode (i_dev x) (i_inum x) (i_ref x) (i_locked x) (i_pid x) (i_valid x)
              (i_type x) (i_major x) (i_minor x) (i_nlink x) (Z.max (i_size x) (off + k)) addrs;
  wn_byte o : 0 ≤ o < MAXFILE * BSIZE → fbyte (cview A') x' o = if decide (off ≤ o < off + k) then ld8 (km (fmem s)) (src + (o - off)) else fbyte (cview A) x o;
  wn_holes : no_holes (cview A) x → no_holes (cview A') x';
  wn_inode y : inode_fits x → dinode_load (dinode_off (i_inum x)) (blk (cview A') (IBLOCK (i_inum x) (fsb s))) y = loaded_as x' y;
  wn_inodes a : a < dinode_off (i_inum x) ∨ dinode_off (i_inum x) + DINODE_SIZE ≤ a → ld8 (blk (cview A') (IBLOCK (i_inum x) (fsb s))) a = ld8 (blk (cview A) (IBLOCK (i_inum x) (fsb s))) a;
  wn_blk b : 0 < b < sb_size (fsb s) → bused (cview A) (fsb s) b = true → (∀ b', 0 ≤ b' < sb_size (fsb s) → BBLOCK b' (fsb s) ≠ b) →
    (∀ bn, 0 ≤ bn < MAXFILE → baddr (cview A) x bn ≠ b) → b ≠ i_addr x NDIRECT → b ≠ IBLOCK (i_inum x) (fsb s) → blk (cview A') b = blk (cview A) b;
  wn_used b : 0 ≤ b < sb_size (fsb s) → bused (cview A) (fsb s) b = true → bused (cview A') (fsb s) b = true;
  wn_disk : cdisk A' = cdisk A ∧ chold A' = chold A;
}.

(** The end of [writei]: the size and the inode *)
Lemma iblock_kept ip s A x A1 x1 off bs : finv ip s A x → wrote (fsb s) A x A1 x1 off bs →
  blk (cview A1) (IBLOCK (i_inum x) (fsb s)) = blk (cview A) (IBLOCK (i_inum x) (fsb s)).
Proof.
  intros [_ _ _ _ Hok (Hbr & Hbu & _ & _ & Hbb)] Hw. apply (wr_blk _ _ _ _ _ _ _ Hw); try done.
  - intros bn Hbn E. destruct (fo_block _ _ _ _ _ Hok bn Hbn) as (_ & _ & _ & _ & _ & Hne); [rewrite E; lia|congruence].
  - intros E. destruct (fo_ind _ _ _ _ _ Hok) as (_ & _ & _ & _ & _ & Hne); [rewrite -E; lia|congruence].
Qed.
Lemma written_iupdate ip s A x src off n k A1 x1 s2 l :
  let x2 := with_size (Z.max (i_size x) (off + k)) x1 in
  finv ip s A x → i_size x ≤ MAXFILE * BSIZE → 0 ≤ off ≤ i_size x → off + n ≤ MAXFILE * BSIZE → 0 ≤ k ≤ n → (k < n → full (fsb s) A1) →
  wrote (fsb s) A x A1 x1 off (ld_bytes (Z.to_nat k) (km (fmem s)) src) → finv ip s2 A1 x2 → same_but ip s s2 → finv ip (set_flog l s2) (iupdated (fsb s) A1 x2) x2 →
  written ip s A x src off n k (set_flog l s2) (iupdated (fsb s) A1 x2) x2.
Proof.
  intros x2 Hf Hsz Ho Hlim Hk Hfull Hw Hf2 Hsame Hf3. pose proof Hsame as (Esb & _). assert (MAXFILE = 268) as EM by reflexivity.
  pose proof (iblock_kept _ _ _ _ _ _ _ _ Hf Hw) as Eib. destruct (wr_meta _ _ _ _ _ _ _ Hw) as [addrs Ex1]. assert (i_inum x2 = i_inum x) as Ein by (by rewrite /x2 Ex1).
  pose proof Hf2 as [_ HL2 _ _ Hok2 Hib2]. rewrite Esb in HL2, Hok2, Hib2. pose proof Hib2 as (_ & _ & _ & _ & Hbb). destruct (iupdated_same _ _ _ Hok2 Hib2) as [Ea Eb]. pose proof (lay_size _ _ _ _ HL2) as Hss.
  split.
  - done.
  - intros Hlt b Hb. rewrite (bused_upd (fsb s)) //. by apply Hfull.
  - done.
  - by eapply same_but_trans; [|apply same_but_flog].
  - exists addrs. by rewrite /x2 Ex1.
  - intros o Hoo. rewrite Eb //. trans (fbyte (cview A1) x1 o); [done|]. rewrite (wr_byte _ _ _ _ _ _ _ Hw) // length_ld_bytes Z2Nat.id; [|lia].
    destruct (decide _) as [Hin|]; [|done]. rewrite nth_lookup lookup_ld_bytes; [|lia]. cbn [default]. rewrite Z2Nat.id; [done|lia].
  - intros Hh bn Hbn Hlt. rewrite Ea. change (baddr (cview A1) x1 bn ≠ 0). change (i_size x2) with (Z.max (i_size x) (off + k)) in Hlt. destruct (decide (bn * BSIZE < i_size x)) as [Hl|Hl].
    + specialize (Hh bn Hbn Hl). rewrite (wr_keep _ _ _ _ _ _ _ Hw); [done| |done]. clear -Hl Hbn Hsz EM. unfold BSIZE in *. lia.
    + pose proof (wr_have _ _ _ _ _ _ _ Hw (bn * BSIZE)) as Hhave. rewrite length_ld_bytes Z2Nat.id in Hhave; [|lia]. rewrite Z.div_mul in Hhave; [|unfold BSIZE; lia]. apply Hhave. lia.
  - intros y [Hfs Hfz]. rewrite /iupdated Ein. cbn [cview log_upd]. rewrite blk_insert_eq. apply dinode_reload; [|by apply (fo_len _ _ _ _ _ Hok2)|by eapply addrs_range].
    split; [|cbn; unfold BSIZE in *; lia]. by rewrite /x2 Ex1.
  - intros a Ha. rewrite /iupdated Ein. cbn [cview log_upd]. rewrite blk_insert_eq dinode_store_other; [by rewrite Eib|by apply (fo_len _ _ _ _ _ Hok2)|done].
  - intros b Hb Hu Hbm Hfb Hi Hne. rewrite /iupdated Ein. cbn [cview log_upd]. rewrite blk_insert_ne //. by apply (wr_blk _ _ _ _ _ _ _ Hw).
  - intros b Hb Hu. rewrite (bused_upd (fsb s)) //. by apply (wr_used _ _ _ _ _ _ _ Hw).
  - apply (wr_disk _ _ _ _ _ _ _ Hw).
Qed.

Lemma set_size_spec ip s A x k : finv ip s A x → 0 ≤ k →
  wp (if k >? i_size x then updi ip (with_size k) else mret tt) s (λ _ s', finv ip s' A (with_size (Z.max (i_size x) k) x) ∧ same_but ip s s' ∧ flog s' = flog s).
Proof.
  intros Hf Hk. pose proof (fi_x _ _ _ _ _ _ Hf) as Hx. destruct (Z.gtb_spec k (i_size x)).
  - apply wp_updi. rewrite Hx Z.max_r; [|lia]. split; [by apply finv_size|]. split; [|done]. rewrite -Hx. destruct s. exact (same_but_upd ip (with_size k) flog _).
  - apply wp_mret. rewrite Z.max_l; [|lia]. split; [by destruct x|]. done.
Qed.
Lemma writei_spec ip src off n s A x :
  finv ip s A x → 0 ≤ i_size x ≤ MAXFILE * BSIZE → 0 ≤ off < 2 ^ 32 → 0 ≤ n < 2 ^ 31 → 0 ≤ src → src + n < 2 ^ 64 →
  load (fsb s) A x + n / BSIZE + 9 + Z.of_nat (size (chold A)) ≤ Z.min LOGSIZE lsz - 1 →
  wp (writei ip false src off n) s (λ r s', if rejected x off n then r = -1 ∧ s' = s
    else ∃ A' x', written ip s A x src off n r s' A' x' ∧ Z.of_nat (size (cpin A')) ≤ load (fsb s) A x + n / BSIZE + 3).
Proof.
  intros Hf Hsz Ho Hn Hs Hs2 Hroom. assert (MAXFILE = 268) as EM by reflexivity. apply wp_bind, wp_geti. rewrite (fi_x _ _ _ _ _ _ Hf) /rejected.
  destruct (Z.gtb_spec off (i_size x)); cbn [orb]; [by apply wp_mret|]. rewrite u32_small; [|unfold BSIZE in *; lia]. rewrite (proj2 (Z.ltb_ge (off + n) off)); [|lia].
  rewrite Z.gtb_ltb. destruct (Z.ltb_spec (MAXFILE * BSIZE) (off + n)); [by apply wp_mret|].
  apply wp_bind. eapply wp_mono; [apply (writei_loop_spec start lsz _ ip src off n 0 s A x); try done; try lia; unfold BSIZE in *; lia|].
  intros r s1 (k & -> & A1 & x1 & Hk & Hf1 & Hsame & Hw & Hload & Hfull). rewrite Z.sub_0_r in Hk, Hfull. rewrite Z.add_0_l.
  pose proof Hsame as (Esb & _). pose proof (fi_x _ _ _ _ _ _ Hf1) as Hx1. apply wp_bind, wp_geti. rewrite Hx1.
  destruct (wr_meta _ _ _ _ _ _ _ Hw) as [addrs Ex1]. assert (i_size x1 = i_size x) as Es by (by rewrite Ex1). pose proof (load_pin (fsb s) A1 x1). destruct (wr_disk _ _ _ _ _ _ _ Hw) as [_ Eh].
  apply wp_bind. eapply wp_mono; [apply (set_size_spec ip s1 A1 x1 (off + k)); [done|lia]|]. rewrite Es. intros _ s2 (Hf2 & Hsame2 & _). pose proof Hsame2 as (Esb2 & _).
  apply wp_bind. eapply iupdate_spec; [exact Hf2|rewrite /FsBlock.room Eh; unfold BSIZE in *; lia|]. intros l Hf3. rewrite Esb2 Esb in Hf3. apply wp_mret. rewrite s32_small; [|lia].
  eexists _, _. split; [eapply written_iupdate; try done; try lia; by eapply same_but_trans|].
  pose proof (size_union_le {[ IBLOCK (i_inum x1) (fsb s) ]} (cpin A1)) as Hu. rewrite size_singleton in Hu. cbn [iupdated cpin log_upd i_inum with_size]. unfold BSIZE in *. lia.
Qed.

(** ** Reading back *)
Lemma finv_frd ip s A x : finv ip s A x → frd start lsz ip s A x.
Proof. intros [[Hrd _] _ _ Hx Hok _]. by split. Qed.
Lemma written_readi ip s A x src off n k s1 A1 x1 dst r l : written ip s A x src off n k s1 A1 x1 → 0 ≤ off → off + n ≤ MAXFILE * BSIZE → k ≤ r →
  ld_bytes (Z.to_nat k) (km (fmem (stored dst (fbytes (cview A1) x1 off r) (set_flog l s1)))) dst = ld_bytes (Z.to_nat k) (km (fmem s)) src.
Proof.
  intros Hw Ho Hlim Hr. pose proof (wn_k _ _ _ _ _ _ _ _ _ _ _ Hw) as Hk. apply list_eq_same_length with (Z.to_nat k); [by rewrite length_ld_bytes|by rewrite length_ld_bytes|].
  intros i v v' Hi. rewrite !lookup_ld_bytes // => -[<-] [<-]. cbn [stored fmem set_fmem km]. rewrite ld8_st_bytes length_fbytes decide_True; [|lia].
  replace (Z.to_nat (dst + Z.of_nat i - dst)) with i by lia. rewrite nth_lookup /fbytes list_lookup_fmap lookup_seqZ_lt. 2:{ lia. } cbn [fmap option_fmap option_map default].
  rewrite (wn_byte _ _ _ _ _ _ _ _ _ _ _ Hw); [|lia]. rewrite decide_True; [|lia]. rewrite u8_small; [|apply ld8_range]. rewrite /id. f_equal. lia.
Qed.

(** C25. [writei] from kernel memory rejects a write that starts past the end of
    the file or ends past the largest file, changing nothing.  Otherwise it
    returns the number [r] of bytes written, [n] unless the disk has no free
    block left: the file has the bytes of memory at [off] and its old bytes
    elsewhere, its size is the larger of the old one and [off + r], no hole
    appears, the inode can be loaded back from its block, the other inodes of
    that block and every other block in use are unchanged, and the log has
    room. *)
Theorem writei_correct ip src off n s A x :
  finv ip s A x → 0 ≤ i_size x ≤ MAXFILE * BSIZE → 0 ≤ off < 2 ^ 32 → 0 ≤ n < 2 ^ 31 → 0 ≤ src → src + n < 2 ^ 64 →
  load (fsb s) A x + n / BSIZE + 9 + Z.of_nat (size (chold A)) ≤ Z.min LOGSIZE lsz - 1 →
  wp (writei ip false src off n) s (λ r s', if rejected x off n then r = -1 ∧ s' = s else ∃ A' x', written ip s A x src off n r s' A' x').
Proof.
  intros. eapply wp_mono; [by apply (writei_spec ip src off n s A x)|]. intros r s'. destruct (rejected x off n); [done|]. intros (A' & x' & Hw & _). by exists A', x'.
Qed.

(** C9. What [writei] wrote is what [readi] reads at the same offset: after a
    write that returned [w], the first [w] bytes at [dst] are those that were at
    [src], across direct and indirect blocks. *)
Theorem writei_readi ip src dst off n s A x :
  finv ip s A x → 0 ≤ i_size x ≤ MAXFILE * BSIZE → no_holes (cview A) x → 0 ≤ off < 2 ^ 32 → 0 ≤ n < 2 ^ 31 → 0 ≤ src → src + n < 2 ^ 64 → 0 ≤ dst → dst + n < 2 ^ 64 →
  load (fsb s) A x + n / BSIZE + 9 + Z.of_nat (size (chold A)) ≤ Z.min LOGSIZE lsz - 1 → rejected x off n = false →
  wp (w ← writei ip false src off n; r ← readi ip false dst off n; mret (w, r)) s
     (λ '(w, r) s', 0 ≤ w ≤ r ∧ r ≤ n ∧ ld_bytes (Z.to_nat w) (km (fmem s')) dst = ld_bytes (Z.to_nat w) (km (fmem s)) src).
Proof.
  intros Hf Hsz Hh Ho Hn Hs Hs2 Hd Hd2 Hroom Hrej. assert (MAXFILE = 268) as EM by reflexivity. apply wp_bind. eapply wp_mono; [by apply (writei_spec ip src off n s A x)|].
  cbv beta. rewrite Hrej. rewrite /rejected in Hrej. apply orb_false_iff in Hrej as [Hoff Hlim%Z.ltb_ge]. rewrite Z.gtb_ltb in Hoff. apply Z.ltb_ge in Hoff. intros w s1 (A1 & x1 & Hw & Hpin).
  destruct (wn_meta _ _ _ _ _ _ _ _ _ _ _ Hw) as [addrs Ex1]. assert (i_size x1 = Z.max (i_size x) (off + w)) as Es1 by (by rewrite Ex1).
  pose proof (wn_k _ _ _ _ _ _ _ _ _ _ _ Hw) as Hk. destruct (wn_disk _ _ _ _ _ _ _ _ _ _ _ Hw) as [_ Eh].
  assert (readable x1 off n = Z.min n (i_size x1 - off)) as Er.
  { rewrite /readable. rewrite Z.gtb_ltb (proj2 (Z.ltb_ge (i_size x1) off)); [|lia]. rewrite (proj2 (Z.leb_gt (2 ^ 32) (off + n))) //. unfold BSIZE in *. lia. }
  apply wp_bind. eapply wp_mono; [apply (readi_spec start lsz ip dst off n s1 A1 x1); try done; try lia|].
  - by apply finv_frd, (wn_inv _ _ _ _ _ _ _ _ _ _ _ Hw).
  - by apply (wn_holes _ _ _ _ _ _ _ _ _ _ _ Hw).
  - rewrite /FsBlock.room Eh. lia.
  - intros r s2 (-> & l & -> & Hl). apply wp_mret. rewrite Er. split; [lia|]. split; [lia|]. eapply written_readi; [exact Hw|lia..].
Qed.
End fsrw.
