(* ===== verification/FsDir.v ===== *)
(** * Directories: [iget], [dirlookup] and [dirlink] *)
From S2P Require Import Prelude Riscv CString Kalloc Vm Cache Log LogInv Crash Fs FsBlock FsFile FsWrite FsRw.

(** ** Directory entries

    A directory is a file of struct dirent: two bytes of inode number and 14
    bytes of name. *)
Fixpoint until0 (l : list Z) : list Z :=
  match l with
  | [] => []
  | b :: l' => if b =? 0 then [] else b :: until0 l'
  end.
Definition d_inum (V : gmap Z mem) (x : inode) (k : Z) : Z := fbyte V x (16 * k) + 256 * fbyte V x (16 * k + 1).
Definition d_name (V : gmap Z mem) (x : inode) (k : Z) : list Z := until0 (fbytes V x (16 * k + 2) 14).
(** Entry [k] is in use and has the name [nm]. *)
Definition d_is (V : gmap Z mem) (x : inode) (nm : list Z) (k : Z) : Prop := d_inum V x k ≠ 0 ∧ d_name V x k = nm.
#[export] Instance d_is_dec V x nm k : Decision (d_is V x nm k) := _.
(** The first such entry, from entry [k] on, of [n] *)
Fixpoint d_find (V : gmap Z mem) (x : inode) (nm : list Z) (k : Z) (n : nat) : option Z :=
  match n with
  | O => None
  | S n' => if decide (d_is V x nm k) then Some k else d_find V x nm (k + 1) n'
  end.
Definition dir_find (V : gmap Z mem) (x : inode) (nm : list Z) : option Z := d_find V x nm 0 (Z.to_nat (i_size x / 16)).

Lemma fbyte_range V x o : 0 ≤ fbyte V x o < 256.
Proof. rewrite /fbyte. destruct (_ =? _); [lia|apply ld8_range]. Qed.
Lemma fbytes_range V x off n : Forall (λ b, 0 ≤ b < 256) (fbytes V x off n).
Proof. apply Forall_forall. intros b (o & -> & _)%list_elem_of_fmap. apply fbyte_range. Qed.
Lemma cstrn_until0 n m p : cstrn n m p = until0 (ld_bytes n m p).
Proof. revert p. induction n as [|n IH]; intros p; [done|]. cbn [cstrn ld_bytes until0]. by rewrite IH. Qed.
Lemma ld16_bytes m a : ld16 m a = ld8 m a + 256 * ld8 m (a + 1).
Proof. transitivity (ld_le 2 m a); [done|]. cbn [ld_le]. lia. Qed.
Lemma ld8_st16 m a v : ld8 (st16 m a v) a = u8 v ∧ ld8 (st16 m a v) (a + 1) = u8 (v / 256).
Proof.
  change (st16 m a v) with (st_le 2 m a v). cbn [st_le]. rewrite !ld8_st8. split; [by rewrite decide_True|]. rewrite decide_False; [|lia]. by rewrite decide_True.
Qed.
Lemma until0_pad l k : 0 ∉ l → until0 (l ++ replicate k 0) = l.
Proof.
  induction l as [|b l IH]; intros Hn; [by destruct k|]. rewrite not_elem_of_cons in Hn. destruct Hn as [Hb Hn]. cbn [app until0]. rewrite (proj2 (Z.eqb_neq b 0)); [by rewrite IH|done].
Qed.
Lemma cstrn_nonzero n m p : 0 ∉ cstrn n m p.
Proof.
  revert p. induction n as [|n IH]; intros p; cbn [cstrn]; [apply not_elem_of_nil|]. destruct (Z.eqb_spec (ld8 m p) 0); [apply not_elem_of_nil|]. apply not_elem_of_cons. split; [done|apply IH].
Qed.

Lemma d_find_Some V x nm k n k' : d_find V x nm k n = Some k' ↔ k ≤ k' < k + Z.of_nat n ∧ d_is V x nm k' ∧ ∀ j, k ≤ j < k' → ¬ d_is V x nm j.
Proof.
  revert k. induction n as [|n IH]; intros k; cbn [d_find]; [split; [done|lia]|]. destruct (decide (d_is V x nm k)) as [Hd|Hd].
  - split; [intros [= <-]; split; [lia|split; [done|lia]]|]. intros (Hr & Hd' & Hn). destruct (decide (k = k')) as [->|]; [done|]. destruct (Hn k); [lia|done].
  - rewrite IH. split; intros (Hr & Hd' & Hn); (split; [|split; [done|]]).
    + lia.
    + intros j Hj. destruct (decide (j = k)) as [->|]; [done|]. apply Hn. lia.
    + destruct (decide (k = k')) as [->|]; [done|lia].
    + intros j Hj. apply Hn. lia.
Qed.
Lemma d_find_None V x nm k n : d_find V x nm k n = None ↔ ∀ j, k ≤ j < k + Z.of_nat n → ¬ d_is V x nm j.
Proof.
  split.
  - revert k. induction n as [|n IH]; intros k; cbn [d_find]; [lia|]. destruct (decide (d_is V x nm k)) as [Hd|Hd]; [done|]. intros Hf j Hj. destruct (decide (j = k)) as [->|]; [done|]. apply (IH (k + 1)); [done|lia].
  - intros Hn. destruct (d_find V x nm k n) as [k'|] eqn:E; [|done]. apply d_find_Some in E as (Hr & Hd & _). by destruct (Hn k').
Qed.
(** The first free entry, or the one after the last *)
Fixpoint d_slot (V : gmap Z mem) (x : inode) (k : Z) (n : nat) : Z :=
  match n with
  | O => k
  | S n' => if d_inum V x k =? 0 then k else d_slot V x (k + 1) n'
  end.
Lemma d_slot_spec V x k n : k ≤ d_slot V x k n ≤ k + Z.of_nat n ∧ (d_slot V x k n < k + Z.of_nat n → d_inum V x (d_slot V x k n) = 0).
Proof.
  revert k. induction n as [|n IH]; intros k; cbn [d_slot]; [lia|]. destruct (Z.eqb_spec (d_inum V x k) 0) as [E|]; [split; [lia|done]|]. destruct (IH (k + 1)) as [H1 H2]. split; [lia|]. intros. apply H2. lia.
Qed.
(** Searches agree when the entries do. *)
Lemma d_find_ext V x V' x' nm (n n' : nat) : (∀ j, 0 ≤ j → (j < Z.of_nat n' ∧ d_is V' x' nm j) ↔ (j < Z.of_nat n ∧ d_is V x nm j)) → d_find V' x' nm 0 n' = d_find V x nm 0 n.
Proof.
  intros Hiff. destruct (d_find V x nm 0 n) as [k|] eqn:E.
  - apply d_find_Some in E as (Hk & Hd & Hn). apply d_find_Some. destruct (proj2 (Hiff k ltac:(lia)) ltac:(split; [lia|done])) as [? ?]. split; [lia|]. split; [done|].
    intros j Hj Hd'. destruct (proj1 (Hiff j ltac:(lia)) ltac:(split; [lia|done])) as [_ Hd2]. by apply (Hn j Hj).
  - pose proof (proj1 (d_find_None _ _ _ _ _) E) as Hn. apply d_find_None. intros j Hj Hd'. destruct (proj1 (Hiff j ltac:(lia)) ltac:(split; [lia|done])) as [? ?]. apply (Hn j); [lia|done].
Qed.

Section fsdir.
Context {S : Type} {BC : BlockCache S} {LK : Linker} {FR : Frames}.
Context (start lsz : Z).
Implicit Types (s : fs S) (l : logst S) (A : cache) (x : inode).
Abbreviation fs_tx := (fs_tx start lsz).
Abbreviation fs_rd := (fs_rd start lsz).
Abbreviation room := (room lsz).
Abbreviation finv := (finv start lsz).
Abbreviation file_ok := (file_ok start lsz).

(** ** [iget] *)
(** The entry is in use for inode [inum]. *)
Definition cached (dev inum : Z) x : Prop := 0 < i_ref x ∧ i_dev x = dev ∧ i_inum x = inum.
Definition iget_entry (dev inum : Z) x : inode :=
  if decide (0 < i_ref x) then with_ref (i_ref x + 1) x
  else mk_inode dev inum 1 (i_locked x) (i_pid x) false (i_type x) (i_major x) (i_minor x) (i_nlink x) (i_size x) (i_addrs x).
(** Entry [ip]: the one the inode has, or else a free one. *)
Definition iget_slot s (dev inum ip : Z) : Prop := 0 ≤ ip < NINODE ∧
  (cached dev inum (itable s !!! ip) ∨ i_ref (itable s !!! ip) = 0 ∧ ∀ j, 0 ≤ j < NINODE → ¬ cached dev inum (itable s !!! j)).

Lemma iget_scan_spec n ip empty dev inum s : 0 ≤ ip →
  wp (iget_scan n ip empty dev inum) s (λ r s', s' = s ∧ let '(found, j) := r in
    if found : bool then ip ≤ j < ip + Z.of_nat n ∧ cached dev inum (itable s !!! j)
    else (∀ k, ip ≤ k < ip + Z.of_nat n → ¬ cached dev inum (itable s !!! k)) ∧
         (if decide (empty = NULL) then (j = NULL ∧ ∀ k, ip ≤ k < ip + Z.of_nat n → i_ref (itable s !!! k) ≠ 0) ∨ ip ≤ j < ip + Z.of_nat n ∧ i_ref (itable s !!! j) = 0 else j = empty)).
Proof.
  revert ip empty. induction n as [|n IH]; intros ip empty Hip; cbn [iget_scan].
  { apply wp_mret. split; [done|]. split; [lia|]. destruct (decide (empty = NULL)); [left; split; [done|lia]|done]. }
  apply wp_bind, wp_geti. set (x := itable s !!! ip). destruct ((i_ref x >? 0) && (i_dev x =? dev) && (i_inum x =? inum)) eqn:E.
  { apply wp_mret. split; [done|]. split; [lia|]. rewrite !andb_true_iff in E. destruct E as [[Hr Hd%Z.eqb_eq] Hi%Z.eqb_eq]. rewrite Z.gtb_ltb in Hr. apply Z.ltb_lt in Hr. done. }
  assert (¬ cached dev inum x) as Hnc. { intros (Hr & Hd & Hi). rewrite Hd Hi !Z.eqb_refl Z.gtb_ltb (proj2 (Z.ltb_lt _ _) Hr) in E. discriminate E. }
  cbv zeta. set (e := if _ && _ then ip else empty). eapply wp_mono; [apply (IH (ip + 1) e); lia|]. cbv beta. intros [found j] s' [-> HP]. split; [done|]. destruct found.
  - destruct HP as [? ?]. split; [lia|done].
  - destruct HP as [Hn He]. split; [intros k Hk; destruct (decide (k = ip)) as [->|]; [done|apply Hn; lia]|].
    subst e. destruct (Z.eqb_spec empty NULL) as [->|Hne]; cbn [andb] in He.
    + destruct (decide (NULL = NULL)) as [_|]; [|done]. destruct (Z.eqb_spec (i_ref x) 0) as [Hz|Hnz].
      * destruct (decide (ip = NULL)); [unfold NULL in *; lia|]. right. rewrite He. split; [lia|done].
      * destruct (decide (NULL = NULL)) as [_|]; [|done]. destruct He as [[-> Hf]|[? ?]]; [left; split; [done|]|right; split; [lia|done]]. intros k Hk. destruct (decide (k = ip)) as [->|]; [done|apply Hf; lia].
    + destruct (decide (empty = NULL)); done.
Qed.
Lemma iget_spec dev inum s Q : (∃ j, 0 ≤ j < NINODE ∧ i_ref (itable s !!! j) = 0) →
  (∀ ip, iget_slot s dev inum ip → Q ip (set_itable (<[ip := iget_entry dev inum (itable s !!! ip)]> (itable s)) s)) → wp (iget dev inum) s Q.
Proof.
  intros (f & Hf & Hfr) HQ. apply wp_bind. eapply wp_mono; [apply iget_scan_spec; lia|]. intros [found j] s' [-> HP]. destruct found.
  - destruct HP as [Hj Hc]. apply wp_bind, wp_updi, wp_mret. assert (iget_entry dev inum (itable s !!! j) = with_ref (i_ref (itable s !!! j) + 1) (itable s !!! j)) as <- by (rewrite /iget_entry decide_True //; apply Hc).
    apply HQ. split; [unfold NINODE in *; lia|by left].
  - destruct HP as [Hn He]. destruct (decide (NULL = NULL)) as [_|]; [|done]. destruct He as [[-> Hnf]|[Hj Hr]]; [exfalso; by apply (Hnf f); [unfold NINODE in *; lia|]|].
    rewrite (proj2 (Z.eqb_neq j NULL)); [|unfold NULL; lia]. apply wp_bind, wp_updi, wp_mret. pose proof (HQ j) as HQj. rewrite /iget_entry decide_False in HQj; [|lia]. apply HQj.
    split; [unfold NINODE in *; lia|]. right. split; [done|]. intros k Hk. apply Hn. unfold NINODE in *. lia.
Qed.

(** ** Reading entries *)
(** Only the entry buffer at [de] and the cache changed. *)
Definition scanned (de : Z) s A s' : Prop := ∃ l m, s' = set_fmem (mk_kmem m (freelist (fmem s))) (set_flog l s) ∧
  (∀ a, a < de ∨ de + 16 ≤ a → ld8 m a = ld8 (km (fmem s)) a) ∧ read_log start lsz (flog s) l A.
Lemma scanned_refl de s A : fs_rd (flog s) A → scanned de s A s.
Proof. intros. exists (flog s), (km (fmem s)). split; [by destruct s as [? ? ? [] ?]|]. done. Qed.
Lemma scanned_trans de s1 s2 s3 A : scanned de s1 A s2 → scanned de s2 A s3 → scanned de s1 A s3.
Proof.
  intros (l & m & -> & Hm & Hl & El) (l' & m' & -> & Hm' & Hl' & El'). exists l', m'. split; [done|]. split; [intros a Ha; rewrite Hm' //; by apply Hm|]. split; [done|]. by rewrite El'.
Qed.

(** A directory: a whole number of entries *)
Record dir_ok A x : Prop := {
  dk_size : 0 ≤ i_size x ≤ MAXFILE * BSIZE;
  dk_div : i_size x mod 16 = 0;
  dk_holes : no_holes (cview A) x;
}.
(** A buffer for an entry, with the name elsewhere *)
Definition buffer_ok (de name : Z) : Prop := 0 ≤ de ∧ de + 16 < 2 ^ 64 ∧ (name + 14 ≤ de ∨ de + 16 ≤ name).

Lemma fbytes_2 V x o : fbytes V x o 2 = [fbyte V x o; fbyte V x (o + 1)].
Proof. rewrite /fbytes seqZ_cons; [|lia]. rewrite seqZ_cons; [|lia]. by rewrite -Z.add_1_r. Qed.
Lemma entry_read V x k m de : let m' := st_bytes m de (fbytes V x (16 * k) 16) in ld16 m' de = d_inum V x k ∧ cstrn 14 m' (de + 2) = d_name V x k.
Proof.
  intros m'. assert (ld_bytes 16 m' de = fbytes V x (16 * k) 16) as E.
  { pose proof (ld_st_bytes_eq m de _ (fbytes_range V x (16 * k) 16)) as E. by rewrite length_fbytes in E. }
  change (fbytes V x (16 * k) 16) with (fbytes V x (16 * k) (2 + 14)) in E. rewrite fbytes_app in E; [|lia..]. rewrite (ld_bytes_app 2 14) in E. apply app_inj_1 in E as [E1 E2]; [|by rewrite length_ld_bytes length_fbytes].
  split; [|by rewrite cstrn_until0 /d_name -E2]. rewrite fbytes_2 in E1. cbn [ld_bytes] in E1. injection E1 as E1a E1b. by rewrite ld16_bytes E1a E1b.
Qed.
Lemma read_entry dp de k s A x : frd start lsz dp s A x → dir_ok A x → 0 ≤ k < i_size x / 16 → 0 ≤ de → de + 16 < 2 ^ 64 → room A (Z.of_nat (size (chold A))) →
  wp (readi dp false de (16 * k) DIRENT_SIZE) s (λ r s', r = 16 ∧ scanned de s A s' ∧ frd start lsz dp s' A x ∧
    ld16 (km (fmem s')) de = d_inum (cview A) x k ∧ cstrn 14 (km (fmem s')) (de + 2) = d_name (cview A) x k).
Proof.
  intros Hf [Hsz Hdiv Hh] Hk Hde Hde2 Hroom. assert (MAXFILE = 268) as EM by reflexivity.
  eapply wp_mono; [apply (readi_spec start lsz dp de (16 * k) DIRENT_SIZE s A x); try done; unfold DIRENT_SIZE, BSIZE in *; lia|].
  assert (readable x (16 * k) DIRENT_SIZE = 16) as ->.
  { rewrite /readable Z.gtb_ltb (proj2 (Z.ltb_ge _ _)); [|lia]. rewrite (proj2 (Z.leb_gt _ _)); [|unfold DIRENT_SIZE, BSIZE in *; lia]. unfold DIRENT_SIZE in *. cbn [orb]. lia. }
  intros r s' (-> & l & -> & Hl). split; [done|]. destruct (entry_read (cview A) x k (km (fmem s)) de) as [E1 E2]. split; [|split; [|by split]].
  - eexists l, _. split; [reflexivity|]. split; [|done]. intros a Ha. rewrite ld8_st_bytes length_fbytes decide_False //. lia.
  - destruct Hf as [_ Hx Hok], Hl as [Hl _]. by split.
Qed.

(** ** [dirlookup] *)
Definition free_slot s : Prop := ∃ j, 0 ≤ j < NINODE ∧ i_ref (itable s !!! j) = 0.
(** The result of a search that gives entry [o] *)
Definition looked_up (de : Z) s A x (o : option Z) (r : Z * Z) s' : Prop :=
  match o with
  | None => r = (NULL, 0) ∧ scanned de s A s'
  | Some k => ∃ s1 ip, scanned de s A s1 ∧ iget_slot s (i_dev x) (d_inum (cview A) x k) ip ∧
      s' = set_itable (<[ip := iget_entry (i_dev x) (d_inum (cview A) x k) (itable s !!! ip)]> (itable s)) s1 ∧ r = (ip, 16 * k)
  end.
Lemma looked_up_trans de s s1 A x o r s2 : scanned de s A s1 → looked_up de s1 A x o r s2 → looked_up de s A x o r s2.
Proof.
  intros Hs. assert (itable s1 = itable s) as E by (by destruct Hs as (l & m & -> & _)). destruct o as [k|]; cbn [looked_up].
  - intros (s3 & ip & Hs3 & Hslot & -> & ->). exists s3, ip. split; [by eapply scanned_trans|]. rewrite /iget_slot E in Hslot. split; [exact Hslot|]. by rewrite E.
  - intros [-> Hs2]. split; [done|]. by eapply scanned_trans.
Qed.

Lemma dirlookup_loop_spec fuel dp name k s A x :
  frd start lsz dp s A x → dir_ok A x → 0 ≤ k ≤ i_size x / 16 → i_size x / 16 - k ≤ Z.of_nat fuel → buffer_ok (local "dirlookup.de") name → room A (Z.of_nat (size (chold A))) → free_slot s →
  wp (dirlookup_loop fuel dp name (16 * k)) s (looked_up (local "dirlookup.de") s A x (d_find (cview A) x (cstrn 14 (km (fmem s)) name) k (Z.to_nat (i_size x / 16 - k)))).
Proof.
  set (de := local "dirlookup.de"). revert k s. induction fuel as [|fuel IH]; intros k s Hf Hd Hk Hfuel Hb Hroom Hfree.
  { replace (Z.to_nat _) with 0%nat by lia. apply wp_mret. split; [done|]. apply scanned_refl, Hf. }
  pose proof Hb as (Hde & Hde2 & Hap). pose proof (dk_size _ _ Hd) as Hsz. pose proof (dk_div _ _ Hd) as Hdiv. assert (MAXFILE = 268) as EM by reflexivity. cbn [dirlookup_loop]. apply wp_bind, wp_geti. rewrite (rd_x _ _ _ _ _ _ Hf).
  destruct (Z.ltb_spec (16 * k) (i_size x)); cbn [negb].
  2:{ replace (Z.to_nat _) with 0%nat by lia. apply wp_mret. split; [done|]. apply scanned_refl, Hf. }
  replace (Z.to_nat (i_size x / 16 - k)) with (Datatypes.S (Z.to_nat (i_size x / 16 - (k + 1)))) by lia. cbn [d_find]. fold de.
  apply wp_bind. eapply wp_mono; [apply (read_entry dp de k s A x); try done; lia|]. intros r s1 (-> & Hs1 & Hf1 & Ei & En). cbn [negb Z.eqb DIRENT_SIZE]. apply wp_bind, wp_gets. cbv zeta. rewrite Ei.
  assert (cstrn 14 (km (fmem s1)) name = cstrn 14 (km (fmem s)) name) as Enm.
  { destruct Hs1 as (l & m & -> & Hm & _). cbn [km fmem set_fmem]. apply cstrn_ext. intros a Ha. apply Hm. lia. }
  assert (free_slot s1) as Hfree1 by (by destruct Hs1 as (l & m & -> & _)).
  assert (wp (dirlookup_loop fuel dp name (u32 (16 * k + DIRENT_SIZE))) s1 (looked_up de s A x (d_find (cview A) x (cstrn 14 (km (fmem s)) name) (k + 1) (Z.to_nat (i_size x / 16 - (k + 1)))))) as Hrec.
  { rewrite u32_small; [|unfold DIRENT_SIZE, BSIZE in *; lia]. replace (16 * k + DIRENT_SIZE) with (16 * (k + 1)) by (unfold DIRENT_SIZE; lia).
    eapply wp_mono; [apply (IH (k + 1) s1); try done; lia|]. rewrite Enm. intros r' s2. by apply looked_up_trans. }
  rewrite /d_is. destruct (Z.eqb_spec (d_inum (cview A) x k) 0) as [Hz|Hnz]; [rewrite decide_False; [exact Hrec|tauto]|].
  destruct (Z.eqb_spec (namecmp (km (fmem s1)) name (de + 2)) 0) as [Hc|Hc]; rewrite /namecmp /strncmp strncmp_loop_0 in Hc; change (Z.to_nat DIRSIZ) with 14%nat in Hc; rewrite Enm En in Hc.
  - rewrite decide_True; [|done]. apply wp_bind, (iget_spec _ _ s1); [done|]. intros ip Hslot. apply wp_mret. assert (itable s1 = itable s) as Eit by (by destruct Hs1 as (l & m & -> & _)).
    exists s1, ip. split; [done|]. rewrite /iget_slot Eit in Hslot. split; [exact Hslot|]. by rewrite Eit.
  - rewrite decide_False; [exact Hrec|]. intros [_ E]. by apply Hc.
Qed.
Lemma dirlookup_spec dp name s A x :
  frd start lsz dp s A x → i_type x = T_DIR → dir_ok A x → buffer_ok (local "dirlookup.de") name → room A (Z.of_nat (size (chold A))) → free_slot s →
  wp (dirlookup dp name) s (looked_up (local "dirlookup.de") s A x (dir_find (cview A) x (cstrn 14 (km (fmem s)) name))).
Proof.
  intros Hf Ht Hd Hb Hroom Hfree. pose proof (dk_size _ _ Hd) as Hsz. apply wp_bind, wp_geti. rewrite (rd_x _ _ _ _ _ _ Hf) Ht. cbn [negb Z.eqb T_DIR].
  pose proof (dirlookup_loop_spec (Z.to_nat (i_size x / DIRENT_SIZE + 1)) dp name 0 s A x) as H. rewrite Z.sub_0_r in H. apply H; try done; unfold DIRENT_SIZE; lia.
Qed.

(** ** [dirlink] *)
Lemma dirlink_loop_spec fuel dp k s A x :
  frd start lsz dp s A x → dir_ok A x → 0 ≤ k ≤ i_size x / 16 → i_size x / 16 - k ≤ Z.of_nat fuel → 0 ≤ local "dirlink.de" → local "dirlink.de" + 16 < 2 ^ 64 → room A (Z.of_nat (size (chold A))) →
  wp (dirlink_loop fuel dp (16 * k)) s (λ r s', r = 16 * d_slot (cview A) x k (Z.to_nat (i_size x / 16 - k)) ∧ scanned (local "dirlink.de") s A s').
Proof.
  set (de := local "dirlink.de"). revert k s. induction fuel as [|fuel IH]; intros k s Hf Hd Hk Hfuel Hde Hde2 Hroom.
  { replace (Z.to_nat _) with 0%nat by lia. apply wp_mret. split; [done|]. apply scanned_refl, Hf. }
  pose proof (dk_size _ _ Hd) as Hsz. pose proof (dk_div _ _ Hd) as Hdiv. assert (MAXFILE = 268) as EM by reflexivity. cbn [dirlink_loop]. apply wp_bind, wp_geti. rewrite (rd_x _ _ _ _ _ _ Hf).
  rewrite u32_small; [|unfold BSIZE in *; lia]. destruct (Z.ltb_spec (16 * k) (i_size x)); cbn [negb].
  2:{ replace (Z.to_nat _) with 0%nat by lia. apply wp_mret. split; [done|]. apply scanned_refl, Hf. }
  replace (Z.to_nat (i_size x / 16 - k)) with (Datatypes.S (Z.to_nat (i_size x / 16 - (k + 1)))) by lia. cbn [d_slot]. fold de.
  apply wp_bind. eapply wp_mono; [apply (read_entry dp de k s A x); try done; lia|]. intros r s1 (-> & Hs1 & Hf1 & Ei & En). cbn [negb Z.eqb DIRENT_SIZE]. apply wp_bind, wp_gets. rewrite Ei.
  destruct (Z.eqb_spec (d_inum (cview A) x k) 0) as [Hz|Hnz]; [by apply wp_mret|].
  replace (16 * k + DIRENT_SIZE) with (16 * (k + 1)) by (unfold DIRENT_SIZE; lia). eapply wp_mono; [apply (IH (k + 1) s1); try done; lia|]. intros r s2 [-> Hs2]. split; [done|by eapply scanned_trans].
Qed.

Lemma finv_scanned de dp s A x s' : finv dp s A x → scanned de s A s' → finv dp s' A x.
Proof. intros [[Hrd Ho] HL H0 Hx Hok Hib] (l & m & -> & _ & Hl & El). split; try done. split; [done|]. cbn. by rewrite El. Qed.
Lemma finv_mem dp s A x m : finv dp s A x → finv dp (set_fmem m s) A x.
Proof. intros [Htx HL H0 Hx Hok Hib]. by split. Qed.

Lemma iput_spec dp s Q : let x := itable s !!! dp in ¬ (i_ref x = 1 ∧ i_valid x = true ∧ i_nlink x = 0) →
  Q tt (set_itable (<[dp := with_ref (i_ref x - 1) x]> (itable s)) s) → wp (iput dp) s Q.
Proof.
  intros x Hn HQ. apply wp_bind, wp_geti. fold x. assert ((i_ref x =? 1) && i_valid x && (i_nlink x =? 0) = false) as ->.
  { apply not_true_is_false. rewrite !andb_true_iff !Z.eqb_eq. tauto. }
  apply wp_bind, wp_mret, wp_updi. exact HQ.
Qed.

(** The bytes of the new entry *)
Lemma dirent_bytes m de name inum : 0 ≤ inum < 2 ^ 16 → name + 14 ≤ de ∨ de + 16 ≤ name →
  ld_bytes 16 (st16 (strncpy m (de + 2) name DIRSIZ) de inum) de = [inum mod 256; inum / 256] ++ cstrn 14 m name ++ replicate (14 - length (cstrn 14 m name)) 0.
Proof.
  intros Hi Hap. rewrite (ld_bytes_app 2 14). f_equal.
  - destruct (ld8_st16 (strncpy m (de + 2) name DIRSIZ) de inum) as [E1 E2]. cbn [ld_bytes]. rewrite E1 E2 /u8 (Z.mod_small (inum / 256)) //. lia.
  - rewrite -(ld_bytes_strncpy 14 m (de + 2) name); [|lia]. apply ld_bytes_ext. intros b Hb. apply (ld8_st_le_ne 2). lia.
Qed.

(** An entry written *)
Lemma fbytes_same V x V' x' off n : (∀ o, off ≤ o < off + n → fbyte V' x' o = fbyte V x o) → fbytes V' x' off n = fbytes V x off n.
Proof. intros Hs. apply list_fmap_ext. intros i o Ho%list_elem_of_lookup_2%elem_of_seqZ. by apply Hs. Qed.
Lemma d_same V x V' x' k : (∀ o, 16 * k ≤ o < 16 * k + 16 → fbyte V' x' o = fbyte V x o) → d_inum V' x' k = d_inum V x k ∧ d_name V' x' k = d_name V x k.
Proof.
  intros Hs. split; [rewrite /d_inum !Hs //; lia|]. rewrite /d_name. f_equal. apply fbytes_same. intros o Ho. apply Hs. lia.
Qed.
Section entry.
Context (ip : Z) s A x (de k : Z) (s' : fs S) (A' : cache) (x' : inode) (inum : Z) (nm : list Z).
Hypothesis (Hw : written start lsz ip s A x de (16 * k) 16 16 s' A' x') (Hk : 0 ≤ k) (Hlim : 16 * k + 16 ≤ MAXFILE * BSIZE).
Lemma written_other j : 0 ≤ j → 16 * j + 16 ≤ MAXFILE * BSIZE → j ≠ k → d_inum (cview A') x' j = d_inum (cview A) x j ∧ d_name (cview A') x' j = d_name (cview A) x j.
Proof.
  intros Hj Hjl Hne. apply d_same. intros o Ho. rewrite (wn_byte _ _ _ _ _ _ _ _ _ _ _ _ _ Hw); [|lia]. rewrite decide_False //. lia.
Qed.
Lemma written_new : 0 ∉ nm → (length nm ≤ 14)%nat → 0 ≤ inum < 2 ^ 16 → ld_bytes 16 (km (fmem s)) de = [inum mod 256; inum / 256] ++ nm ++ replicate (14 - length nm) 0 →
  d_inum (cview A') x' k = inum ∧ d_name (cview A') x' k = nm.
Proof.
  intros Hn0 Hnl Hi Hb. assert (fbytes (cview A') x' (16 * k) (2 + 14) = ld_bytes 16 (km (fmem s)) de) as E.
  { apply (list_eq_same_length _ _ 16); [by rewrite length_ld_bytes|by rewrite length_fbytes|]. intros i v v' Hi'. rewrite lookup_ld_bytes // list_lookup_fmap lookup_seqZ_lt; [|lia].
    intros [= <-] [= <-]. rewrite (wn_byte _ _ _ _ _ _ _ _ _ _ _ _ _ Hw); [|lia]. rewrite decide_True; [|lia]. f_equal. lia. }
  rewrite Hb fbytes_app in E; [|lia..]. apply app_inj_1 in E as [E1 E2]; [|by rewrite length_fbytes]. rewrite fbytes_2 in E1. injection E1 as E1a E1b.
  split; [rewrite /d_inum E1a E1b; lia|]. by rewrite /d_name E2 until0_pad.
Qed.
End entry.

(** The directory with the entry [k] for [nm] *)
Record linked (dp : Z) s A x (nm : list Z) (inum k : Z) s' A' x' : Prop := {
  lk_inv : finv dp s' A' x';
  lk_dir : dir_ok A' x';
  lk_type : i_type x' = i_type x;
  lk_slots j : j ≠ dp → itable s' !! j = itable s !! j;
  lk_inum : d_inum (cview A') x' k = inum;
  lk_find nm' : dir_find (cview A') x' nm' = if decide (nm' = nm) then Some k else dir_find (cview A) x nm';
  lk_entry nm' k' : dir_find (cview A) x nm' = Some k' → d_inum (cview A') x' k' = d_inum (cview A) x k';
}.
Lemma written_linked dp s0 s A x de k s' A' x' inum nm :
  written start lsz dp s A x de (16 * k) 16 16 s' A' x' → 16 * k + 16 ≤ MAXFILE * BSIZE → dir_ok A x → k = d_slot (cview A) x 0 (Z.to_nat (i_size x / 16)) → 0 < inum < 2 ^ 16 → 0 ∉ nm → (length nm ≤ 14)%nat →
  ld_bytes 16 (km (fmem s)) de = [inum mod 256; inum / 256] ++ nm ++ replicate (14 - length nm) 0 → dir_find (cview A) x nm = None → (∀ j, itable s !! j = itable s0 !! j) →
  linked dp s0 A x nm inum k s' A' x'.
Proof.
  intros Hw Hlim [Hsz Hdiv Hh] Ek Hi Hn0 Hnl Hb Hnone Hit. destruct (d_slot_spec (cview A) x 0 (Z.to_nat (i_size x / 16))) as [Hk Hfree]. rewrite -Ek in Hk, Hfree. assert (MAXFILE = 268) as EM by reflexivity.
  destruct (written_new _ _ _ _ _ _ _ _ _ inum nm Hw ltac:(lia) Hlim Hn0 Hnl ltac:(lia) Hb) as [Ei En]. destruct (wn_meta _ _ _ _ _ _ _ _ _ _ _ _ _ Hw) as [addrs Ex].
  assert (i_size x' = Z.max (i_size x) (16 * k + 16)) as Es by (by rewrite Ex).
  assert (∀ j, 0 ≤ j → j < i_size x' / 16 → 16 * j + 16 ≤ MAXFILE * BSIZE) as Hin by (intros; unfold BSIZE in *; lia).
  split.
  - apply (wn_inv _ _ _ _ _ _ _ _ _ _ _ _ _ Hw).
  - split; [lia|rewrite Es; lia|by apply (wn_holes _ _ _ _ _ _ _ _ _ _ _ _ _ Hw)].
  - by rewrite Ex.
  - intros j Hj. rewrite -Hit. by apply (wn_same _ _ _ _ _ _ _ _ _ _ _ _ _ Hw).
  - done.
  - intros nm'. rewrite /dir_find in Hnone |- *. destruct (decide (nm' = nm)) as [->|Hne].
    + apply d_find_Some. split; [lia|]. split; [split; [lia|done]|]. intros j Hj [Hj1 Hj2]. destruct (written_other _ _ _ _ _ _ _ _ _ Hw (proj1 Hk) Hlim j) as [E1 E2]; [lia|apply Hin; lia|lia|].
      apply (proj1 (d_find_None _ _ _ _ _) Hnone j); [lia|]. by rewrite /d_is -E1 -E2.
    + apply d_find_ext. intros j Hj. destruct (decide (j = k)) as [->|Hjk].
      * split; [intros (_ & _ & E); congruence|]. intros (Hlt & Hnz & _). destruct Hnz. apply Hfree. lia.
      * assert (j < i_size x' / 16 → d_inum (cview A') x' j = d_inum (cview A) x j ∧ d_name (cview A') x' j = d_name (cview A) x j) as Hsame by (intros; apply (written_other _ _ _ _ _ _ _ _ _ Hw (proj1 Hk) Hlim); [lia|by apply Hin|done]).
        assert (i_size x / 16 ≤ i_size x' / 16) by lia. split; intros [Hlt Hd]; (split; [lia|]); destruct Hsame as [E1 E2]; try lia; rewrite /d_is in Hd |- *; congruence.
  - intros nm' k' (Hk' & (Hnz & _) & _)%d_find_Some. destruct (decide (k' = k)) as [->|Hne]; [destruct Hnz; apply Hfree; lia|]. apply (written_other _ _ _ _ _ _ _ _ _ Hw (proj1 Hk) Hlim); [lia|apply Hin; lia|done].
Qed.

(** The result of [dirlink] *)
Definition dirlink_post (dp : Z) s A x (nm : list Z) (inum r : Z) s' : Prop :=
  let k := d_slot (cview A) x 0 (Z.to_nat (i_size x / 16)) in
  match dir_find (cview A) x nm with
  | Some _ => r = -1 ∧ fs_tx (flog s') A ∧ ∀ j, i_ref (itable s' !!! j) = i_ref (itable s !!! j)
  | None => r = 0 ∧ (∃ A' x', linked dp s A x nm inum k s' A' x') ∨
            r = -1 ∧ (MAXFILE * BSIZE < 16 * k + 16 ∨ ∃ A' x', finv dp s' A' x' ∧ full (fsb s) A')
  end.

Lemma dirlink_exists dp s A x nm inum de o r s1 : finv dp s A x → looked_up de s A x (Some o) r s1 → dir_find (cview A) x nm = Some o → wp (iput r.1;; mret (-1)) s1 (dirlink_post dp s A x nm inum).
Proof.
  intros Hf (s2 & ip & Hs2 & [Hip Hslot] & -> & ->) Hfind. cbn [fst]. set (e := iget_entry _ _ _). pose proof (fi_tx _ _ _ _ _ _ (finv_scanned _ _ _ _ _ _ Hf Hs2)) as Htx.
  assert (i_ref e = i_ref (itable s !!! ip) + 1 ∧ (i_ref e = 1 → i_valid e = false)) as [Er Ev].
  { rewrite /e /iget_entry. destruct (decide (0 < i_ref (itable s !!! ip))) as [Hr|Hr]; cbn; [split; [done|lia]|]. split; [|done]. destruct Hslot as [(? & _)|[-> _]]; [done|lia]. }
  apply wp_bind, iput_spec; cbn [itable set_itable]; rewrite lookup_total_insert_eq.
  { intros (H1 & H2 & _). rewrite Ev in H2; [discriminate H2|done]. }
  apply wp_mret. rewrite /dirlink_post Hfind. split; [done|]. split; [exact Htx|]. intros j. cbn [itable set_itable]. rewrite insert_insert_eq. destruct (decide (j = ip)) as [->|Hne].
  - rewrite lookup_total_insert_eq. cbn. lia.
  - by rewrite lookup_total_insert_ne.
Qed.

Lemma dirlink_spec dp name inum s A x (nm := cstrn 14 (km (fmem s)) name) :
  finv dp s A x → i_type x = T_DIR → dir_ok A x → 0 < inum < 2 ^ 16 → buffer_ok (local "dirlookup.de") name → buffer_ok (local "dirlink.de") name → free_slot s →
  load (fsb s) A x + 9 + Z.of_nat (size (chold A)) ≤ Z.min LOGSIZE lsz - 1 →
  wp (dirlink dp name inum) s (dirlink_post dp s A x nm inum).
Proof.
  intros Hf Ht Hd Hi Hb1 Hb2 Hfree Hroom. pose proof (load_pin (fsb s) A x) as Hpin. assert (MAXFILE = 268) as EM by reflexivity. pose proof (dk_size _ _ Hd) as Hsz. pose proof Hb2 as (Hde & Hde2 & Hap). pose proof Hb1 as (_ & _ & Hap1).
  apply wp_bind. eapply wp_mono; [apply (dirlookup_spec dp name s A x); try done; [by apply finv_frd|rewrite /FsBlock.room; lia]|]. fold nm. intros r s1 Hr.
  destruct (dir_find (cview A) x nm) as [o|] eqn:Efind.
  { assert (r.1 =? NULL = false) as -> by (destruct Hr as (s2 & ip & _ & [Hip _] & _ & ->); cbn [fst]; apply Z.eqb_neq; unfold NULL; lia). cbn [negb]. by eapply dirlink_exists. }
  destruct Hr as [-> Hs1]. cbn [fst]. rewrite Z.eqb_refl. cbn [negb]. pose proof (finv_scanned _ _ _ _ _ _ Hf Hs1) as Hf1. apply wp_bind, wp_geti. rewrite (fi_x _ _ _ _ _ _ Hf1).
  set (de := local "dirlink.de") in *. set (k := d_slot (cview A) x 0 (Z.to_nat (i_size x / 16))).
  apply wp_bind. eapply wp_mono; [apply (dirlink_loop_spec _ dp 0 s1 A x); try done; [by apply finv_frd|unfold DIRENT_SIZE; lia..|rewrite /FsBlock.room; lia]|].
  rewrite Z.sub_0_r. fold k de. intros off s2 [-> Hs2]. pose proof (finv_scanned _ _ _ _ _ _ Hf1 Hs2) as Hf2. cbv zeta.
  apply wp_bind, wp_lift, wp_modify, wp_bind, wp_lift, wp_modify. cbn [fmem set_fmem km freelist]. set (s3 := set_fmem _ _).
  assert (cstrn 14 (km (fmem s2)) name = nm) as Enm.
  { destruct Hs1 as (l & m & -> & Hm & _), Hs2 as (l2 & m2 & -> & Hm2 & _). cbn [km fmem set_fmem] in *. apply cstrn_ext. intros a Ha. rewrite Hm2; [apply Hm; lia|lia]. }
  assert (fsb s3 = fsb s ∧ itable s3 = itable s) as [Esb Eit] by (destruct Hs1 as (l & m & -> & _), Hs2 as (l2 & m2 & -> & _); done).
  destruct (d_slot_spec (cview A) x 0 (Z.to_nat (i_size x / 16))) as [Hk _]. fold k in Hk.
  assert (finv dp s3 A x) as Hf3 by (by apply finv_mem, finv_mem).
  apply wp_bind. eapply wp_mono; [apply (writei_spec start lsz dp de (16 * k) DIRENT_SIZE s3 A x); try done; unfold DIRENT_SIZE, BSIZE in *; rewrite ?Esb; lia|].
  intros w s4. rewrite /dirlink_post Efind. fold k. rewrite /rejected Z.gtb_ltb (proj2 (Z.ltb_ge (i_size x) (16 * k))); [|lia]. cbn [orb]. destruct (Z.ltb_spec (MAXFILE * BSIZE) (16 * k + DIRENT_SIZE)).
  { intros [-> ->]. cbn [negb Z.eqb DIRENT_SIZE]. apply wp_mret. right. split; [done|]. left. done. }
  intros (A' & x' & Hw & _). destruct (Z.eqb_spec w DIRENT_SIZE) as [->|Hne]; cbn [negb]; apply wp_mret.
  - left. split; [done|]. exists A', x'. eapply (written_linked _ s s3 _ _ de); try done; [apply cstrn_nonzero|apply length_cstrn| |intros; by rewrite Eit].
    rewrite -Enm. apply dirent_bytes; [lia|exact Hap].
  - right. split; [done|]. right. exists A', x'. split; [apply (wn_inv _ _ _ _ _ _ _ _ _ _ _ _ _ Hw)|]. pose proof (wn_full _ _ _ _ _ _ _ _ _ _ _ _ _ Hw) as Hfl. rewrite Esb in Hfl. apply Hfl. pose proof (wn_k _ _ _ _ _ _ _ _ _ _ _ _ _ Hw). lia.
Qed.

(** C26. [dirlookup] of a directory finds the first entry in use with the given
    name, comparing 14 bytes: it returns the entry's offset and, from [iget], the
    table entry of its inode, the one the inode already has with one more
    reference or else a free one.  Without such an entry it returns 0.  It
    changes nothing else but its buffer and the block cache. *)
Theorem dirlookup_correct dp name s A x :
  frd start lsz dp s A x → i_type x = T_DIR → dir_ok A x → buffer_ok (local "dirlookup.de") name → room A (Z.of_nat (size (chold A))) → free_slot s →
  wp (dirlookup dp name) s (looked_up (local "dirlookup.de") s A x (dir_find (cview A) x (cstrn 14 (km (fmem s)) name))).
Proof. apply dirlookup_spec. Qed.

(** C10. [dirlink] fails if the name is in the directory, and then changes no block
    and no reference count.  Otherwise it writes the entry in the first free
    place, or at the end: afterwards the directory is well-formed, a search for
    the name finds the new entry with the inode number, and a search for any
    other name finds what it found before.  It fails only if the directory
    cannot grow or the disk is full. *)
Theorem dirlink_correct dp name inum s A x :
  finv dp s A x → i_type x = T_DIR → dir_ok A x → 0 < inum < 2 ^ 16 → buffer_ok (local "dirlookup.de") name → buffer_ok (local "dirlink.de") name → free_slot s →
  load (fsb s) A x + 9 + Z.of_nat (size (chold A)) ≤ Z.min LOGSIZE lsz - 1 →
  wp (dirlink dp name inum) s (dirlink_post dp s A x (cstrn 14 (km (fmem s)) name) inum).
Proof. apply dirlink_spec. Qed.
End fsdir.
