(* ===== verification/Split.v ===== *)
(** * Lists of bytes cut at separators

    Path names are cut at slashes, the lines that xargs reads at blanks, and its
    input at newlines. *)
From S2P Require Import Prelude.

Section split.
Context (sep : Z → bool).

(** The pieces between separators *)
Fixpoint pieces (l : list Z) : list (list Z) :=
  match l with
  | [] => [[]]
  | b :: l' => if sep b then [] :: pieces l' else match pieces l' with e :: es => (b :: e) :: es | [] => [[b]] end
  end.
(** The elements: the pieces that are not empty *)
Definition elems (l : list Z) : list (list Z) := filter (λ e, e ≠ []) (pieces l).

(** Without the leading separators *)
Fixpoint strip (l : list Z) : list Z :=
  match l with
  | [] => []
  | b :: l' => if sep b then strip l' else l
  end.
(** Up to the first separator, and from it on *)
Fixpoint first_elem (l : list Z) : list Z * list Z :=
  match l with
  | [] => ([], [])
  | b :: l' => if sep b then ([], l) else let '(e, r) := first_elem l' in (b :: e, r)
  end.
(** The next element, and the rest without its leading separators *)
Definition next_elem (l : list Z) : option (list Z * list Z) :=
  match strip l with
  | [] => None
  | l' => let '(e, r) := first_elem l' in Some (e, strip r)
  end.

Lemma elems_sep b l : sep b = true → elems (b :: l) = elems l.
Proof. intros Hb. rewrite /elems. cbn [pieces]. rewrite Hb filter_cons_False //. naive_solver. Qed.
Lemma elems_strip l : elems (strip l) = elems l.
Proof. induction l as [|b l IH]; [done|]. cbn [strip]. destruct (sep b) eqn:E; [|done]. by rewrite IH elems_sep. Qed.
Lemma strip_head l b l' : strip l = b :: l' → sep b = false.
Proof. induction l as [|c l IH]; cbn [strip]; [done|]. destruct (sep c) eqn:E; [apply IH|]. by intros [= -> _]. Qed.
Lemma length_strip l : (length (strip l) ≤ length l)%nat.
Proof. induction l as [|b l IH]; cbn [strip length]; [done|]. destruct (sep b); cbn [length]; lia. Qed.
Lemma first_elem_app l : l = (first_elem l).1 ++ (first_elem l).2.
Proof. induction l as [|b l IH]; [done|]. cbn [first_elem]. destruct (sep b); [done|]. destruct (first_elem l) as [e r]. cbn in *. by rewrite IH. Qed.
Lemma first_elem_sep l : Forall (λ b, sep b = false) (first_elem l).1.
Proof. induction l as [|b l IH]; cbn [first_elem]; [done|]. destruct (sep b) eqn:E; [done|]. destruct (first_elem l). cbn in *. by constructor. Qed.
Lemma first_elem_rest l : (first_elem l).2 = [] ∨ ∃ b r, (first_elem l).2 = b :: r ∧ sep b = true.
Proof. induction l as [|b l IH]; [by left|]. cbn [first_elem]. destruct (sep b) eqn:E; [right; by exists b, l|]. by destruct (first_elem l). Qed.
Lemma pieces_first l : ∃ es, pieces l = (first_elem l).1 :: es ∧ elems (first_elem l).2 = filter (λ e, e ≠ []) es.
Proof.
  induction l as [|b l (es & E & Ef)]; [by exists []|]. cbn [pieces first_elem]. destruct (sep b) eqn:Hb.
  - exists (pieces l). split; [done|]. cbn [snd]. by rewrite elems_sep.
  - rewrite E. destruct (first_elem l) as [e r]. by exists es.
Qed.
Lemma elems_cons b l : sep b = false → elems (b :: l) = (first_elem (b :: l)).1 :: elems (first_elem (b :: l)).2 ∧ (first_elem (b :: l)).1 ≠ [].
Proof.
  intros Hb. destruct (pieces_first (b :: l)) as (es & E & Ef). assert ((first_elem (b :: l)).1 ≠ []) as Hne by (cbn [first_elem]; rewrite Hb; destruct (first_elem l); discriminate).
  split; [|done]. rewrite Ef /elems E filter_cons_True //.
Qed.
Lemma elems_next l : elems l = match next_elem l with None => [] | Some (e, r) => e :: elems r end.
Proof.
  rewrite -elems_strip /next_elem. destruct (strip l) as [|b l'] eqn:E; [done|]. destruct (elems_cons b l' (strip_head _ _ _ E)) as [-> _]. destruct (first_elem (b :: l')) as [e r]. by rewrite elems_strip.
Qed.
Lemma next_rest l e r : next_elem l = Some (e, r) → (length r < length l)%nat ∧ (r = [] ↔ elems r = []).
Proof.
  rewrite /next_elem. intros E. pose proof (length_strip l) as Hl. destruct (strip l) as [|b l'] eqn:Es; [discriminate E|].
  destruct (elems_cons b l' (strip_head _ _ _ Es)) as [_ Hne]. pose proof (first_elem_app (b :: l')) as Ea. destruct (first_elem (b :: l')) as [e' r'] eqn:Ef. injection E as <- <-. pose proof (length_strip r') as Hr. cbn [fst snd] in *.
  split.
  - rewrite Ea length_app in Hl. destruct e'; [done|]. cbn [length] in Hl. lia.
  - split; [by intros ->|]. destruct (strip r') as [|c r2] eqn:E2; [done|]. destruct (elems_cons c r2 (strip_head _ _ _ E2)) as [-> _]. done.
Qed.
End split.
