(* ===== verification/FsPath.v ===== *)
(** * Path names: [skipelem] *)
From S2P Require Import Prelude Riscv CString Kalloc Vm Cache Log LogInv Crash Fs Split.

(** ** Paths as lists of bytes *)
Definition SLASH : Z := 47.
Definition is_slash (b : Z) : bool := b =? SLASH.
Definition path_elems : list Z → list (list Z) := elems is_slash.

(** ** Paths in memory *)
Lemma skip_slashes_spec fuel m p l : cstr_at m p l → (length l ≤ fuel)%nat →
  ∃ s, l = s ++ strip is_slash l ∧ skip_slashes fuel m p = p + Z.of_nat (length s).
Proof.
  revert p l. induction fuel as [|fuel IH]; intros p l Hl Hlen; cbn [skip_slashes].
  { destruct l; [|cbn in Hlen; lia]. exists []. split; [done|cbn; lia]. }
  destruct l as [|b l]; cbn [cstr_at strip length] in *; [rewrite Hl; exists []; split; [done|cbn; lia]|]. destruct Hl as (-> & Hb & Hl). rewrite /is_slash /SLASH. destruct (Z.eqb_spec b 47) as [->|Hne].
  - destruct (IH (p + 1) l Hl ltac:(lia)) as (s & E & ->). exists (47 :: s). split; [cbn; by rewrite -E|]. cbn [length]. lia.
  - exists []. split; [done|cbn; lia].
Qed.
Lemma skip_elem_spec fuel m p l : cstr_at m p l → (length l ≤ fuel)%nat →
  skip_elem fuel m p = p + Z.of_nat (length (first_elem is_slash l).1).
Proof.
  revert p l. induction fuel as [|fuel IH]; intros p l Hl Hlen; cbn [skip_elem].
  { destruct l; [|cbn in Hlen; lia]. cbn. lia. }
  destruct l as [|b l]; cbn [cstr_at first_elem length] in *; [rewrite Hl; cbn; lia|]. destruct Hl as (-> & Hb & Hl). rewrite (proj2 (Z.eqb_neq _ _) Hb). change (b =? 47) with (is_slash b). destruct (is_slash b); cbn [negb andb].
  - cbn. lia.
  - rewrite (IH (p + 1) l Hl ltac:(lia)). destruct (first_elem is_slash l) as [e r]. cbn [fst length]. lia.
Qed.

(** ** [skipelem] *)
(** The copy of an element to [name] *)
Definition copy_elem (m : mem) (name s len : Z) : mem :=
  if len >=? DIRSIZ then memmove m name s DIRSIZ else st8 (memmove m name s len) (name + len) 0.
Lemma copy_elem_out m name s len a : 0 ≤ len → a < name ∨ name + 14 ≤ a → ld8 (copy_elem m name s len) a = ld8 m a.
Proof.
  intros Hl Ha. rewrite /copy_elem Z.geb_leb. destruct (Z.leb_spec DIRSIZ len).
  - rewrite ld8_memmove; [|unfold DIRSIZ; lia]. rewrite decide_False //. unfold DIRSIZ. lia.
  - unfold DIRSIZ in *. rewrite ld8_st8_ne; [|lia]. rewrite ld8_memmove; [|unfold DIRSIZ; lia]. rewrite decide_False //. lia.
Qed.
Lemma copy_elem_name m name s e r : cstr_at m s (e ++ r) → cstrn 14 (copy_elem m name s (Z.of_nat (length e))) name = take 14 e.
Proof.
  intros Hs. rewrite /copy_elem Z.geb_leb. unfold DIRSIZ.
  assert (∀ (i : nat) b, e !! i = Some b → ld8 m (s + Z.of_nat i) = b ∧ b ≠ 0) as Hlk by (intros i b Hi; eapply cstr_at_lookup; [exact Hs|by apply lookup_app_l_Some]).
  destruct (Z.leb_spec 14 (Z.of_nat (length e))); apply cstrn_bytes.
  - intros i b Hi Hb. rewrite ld8_memmove; [|lia]. rewrite decide_True; [|lia]. replace (s + _) with (s + Z.of_nat i) by lia. by apply Hlk.
  - lia.
  - intros i b Hi Hb. pose proof (lookup_lt_Some _ _ _ Hb). rewrite ld8_st8_ne; [|lia]. rewrite ld8_memmove; [|lia]. rewrite decide_True; [|lia]. replace (s + _) with (s + Z.of_nat i) by lia. by apply Hlk.
  - intros _. by rewrite ld8_st8_eq.
Qed.

(** Applied to the path [l] at [path]: either nothing is left, or the next
    element, cut to 14 bytes, is in [name] and the rest of the path is where
    the result points. *)
Lemma skipelem_spec m path name l : cstr_at m path l → (length l < Z.to_nat MAXPATH)%nat → (name + 14 ≤ path ∨ path + Z.of_nat (length l) < name) →
  match next_elem is_slash l with
  | None => skipelem_mem m path name = (m, 0)
  | Some (e, r) => ∃ m' p', skipelem_mem m path name = (m', p') ∧ path ≤ p' ∧ p' + Z.of_nat (length r) = path + Z.of_nat (length l) ∧ cstr_at m' p' r ∧
      cstrn 14 m' name = take 14 e ∧ ∀ a, a < name ∨ name + 14 ≤ a → ld8 m' a = ld8 m a
  end.
Proof.
  intros Hl Hlen Hap. rewrite /skipelem_mem /next_elem. destruct (skip_slashes_spec (Z.to_nat MAXPATH) m path l Hl) as (s1 & E1 & ->); [lia|].
  pose proof Hl as Hl1. rewrite E1 in Hl1. apply cstr_at_app in Hl1. assert (length l = length s1 + length (strip is_slash l))%nat as EL by (rewrite {1}E1 length_app //).
  set (p1 := path + Z.of_nat (length s1)) in *. destruct (strip is_slash l) as [|b l'] eqn:Es; [cbn [cstr_at] in Hl1; by rewrite Hl1|]. rewrite -Es. rewrite -Es in Hl1, EL. clear E1.
  assert (ld8 m p1 =? 0 = false) as ->. { rewrite Es in Hl1. destruct Hl1 as (-> & Hb & _). by apply Z.eqb_neq. }
  rewrite (skip_elem_spec _ _ _ _ Hl1); [|lia]. pose proof (first_elem_app is_slash (strip is_slash l)) as Ea. destruct (first_elem is_slash (strip is_slash l)) as [e r0]. cbn [fst snd] in *. rewrite Ea in Hl1. rewrite Ea length_app in EL.
  replace (p1 + Z.of_nat (length e) - p1) with (Z.of_nat (length e)) by lia. change (if Z.of_nat (length e) >=? DIRSIZ then _ else _) with (copy_elem m name p1 (Z.of_nat (length e))). set (m' := copy_elem _ _ _ _).
  assert (∀ a, a < name ∨ name + 14 ≤ a → ld8 m' a = ld8 m a) as Hout by (intros; apply copy_elem_out; lia).
  assert (cstr_at m' (p1 + Z.of_nat (length e)) r0) as Hr0. { eapply cstr_at_ext; [|eapply cstr_at_app, Hl1]. intros a Ha. apply Hout. rewrite /p1 in Ha. lia. }
  destruct (skip_slashes_spec (Z.to_nat MAXPATH) m' _ _ Hr0) as (s2 & E2 & ->); [lia|]. rewrite E2 in Hr0. apply cstr_at_app in Hr0. assert (length r0 = length s2 + length (strip is_slash r0))%nat as ER by (rewrite {1}E2 length_app //).
  eexists _, _. split; [reflexivity|]. split; [rewrite /p1; lia|]. split; [rewrite /p1; lia|]. split; [exact Hr0|]. split; [by eapply copy_elem_name|done].
Qed.
