(* ===== verification/FsName.v ===== *)
(** * Name resolution: [ilock], [iunlockput] and [namex] *)
From S2P Require Import Prelude Riscv CString Kalloc Vm Cache Log LogInv Crash Fs FsBlock FsFile FsWrite FsRw FsDir Split FsPath.

(** ** The tree on the disk *)
(** Inode [i], as its block has it *)
Definition dinode (V : gmap Z mem) (sb : superblock) (i : Z) : inode :=
  dinode_load (dinode_off i) (blk V (IBLOCK i sb)) (mk_inode ROOTDEV i 0 false 0 true 0 0 0 0 0 []).

(** The inode that the elements [es] of a path lead to from inode [i], or the
    directory of the last element *)
Fixpoint resolve (V : gmap Z mem) (sb : superblock) (parent : bool) (i : Z) (es : list (list Z)) : option Z :=
  match es with
  | [] => if parent then None else Some i
  | e :: es' =>
      if negb (i_type (dinode V sb i) =? T_DIR) then None
      else if parent && bool_decide (es' = []) then Some i
      else k ← dir_find V (dinode V sb i) (take 14 e); resolve V sb parent (d_inum V (dinode V sb i) k) es'
  end.

Section fsname.
Context {S : Type} {BC : BlockCache S} {LK : Linker} {FR : Frames}.
Context (start lsz : Z).
Implicit Types (s : fs S) (l : logst S) (A : cache) (x : inode).
Abbreviation fs_rd := (fs_rd start lsz).
Abbreviation room := (room lsz).
Abbreviation file_ok := (file_ok start lsz).

(** The inodes of [G] are allocated and linked, and the entries of directories
    among them lead to [G]. *)
Record tree_ok (G : Z → Prop) (sb : superblock) A : Prop := {
  tr_type i : G i → i_type (dinode (cview A) sb i) ≠ 0;
  tr_link i : G i → i_nlink (dinode (cview A) sb i) ≠ 0;
  tr_blk i : G i → not_held A (IBLOCK i sb);
  tr_file i : G i → i_type (dinode (cview A) sb i) = T_DIR → file_ok sb A (dinode (cview A) sb i) ∧ dir_ok A (dinode (cview A) sb i);
  tr_entry i k : G i → i_type (dinode (cview A) sb i) = T_DIR → 0 ≤ k < i_size (dinode (cview A) sb i) / 16 → d_inum (cview A) (dinode (cview A) sb i) k ≠ 0 →
    G (d_inum (cview A) (dinode (cview A) sb i) k);
}.

(** An entry of the inode table in use is one of [G], as on the disk if it has
    been loaded. *)
Definition entry_ok (G : Z → Prop) (sb : superblock) A x : Prop :=
  0 ≤ i_ref x ∧ (0 < i_ref x → i_dev x = ROOTDEV ∧ G (i_inum x) ∧ (i_valid x = true → loaded_as (dinode (cview A) sb (i_inum x)) x = x)).
(** The table, with no entry locked but [lk] *)
Definition tab_ok (G : Z → Prop) (sb : superblock) A (lk : Z) (t : gmap Z inode) : Prop :=
  ∀ j, 0 ≤ j < NINODE → entry_ok G sb A (t !!! j) ∧ (j ≠ lk → i_locked (t !!! j) = false).
Lemma tab_insert G sb A lk lk' t ip x : tab_ok G sb A lk t → entry_ok G sb A x → (ip ≠ lk' → i_locked x = false) → (∀ j, 0 ≤ j < NINODE → j ≠ ip → j ≠ lk' → j ≠ lk) → tab_ok G sb A lk' (<[ip := x]> t).
Proof.
  intros Ht Hx Hl Hlk j Hj. destruct (Ht j Hj) as [He Hlj]. destruct (decide (j = ip)) as [->|Hne]; [by rewrite lookup_total_insert_eq|]. rewrite lookup_total_insert_ne //. split; [done|]. intros Hj'. apply Hlj. by apply Hlk.
Qed.

(** ** The operations on an inode *)
Definition locked_entry (sb : superblock) A (pid : Z) x : inode := with_ilock true pid (with_ivalid true (loaded_as (dinode (cview A) sb (i_inum x)) x)).
Lemma ilock_spec G ip s A Q (x := itable s !!! ip) :
  fs_rd (flog s) A → tree_ok G (fsb s) A → tab_ok G (fsb s) A NULL (itable s) → 0 ≤ ip < NINODE → 0 < i_ref x → room A (Z.of_nat (size (chold A))) →
  (∀ l, read_log start lsz (flog s) l A → Q tt (set_itable (<[ip := locked_entry (fsb s) A (fp_pid (fcur s)) x]> (itable s)) (set_flog l s))) → wp (ilock ip) s Q.
Proof.
  intros Hl HG Ht Hip Hr Hroom HQ. destruct (Ht ip Hip) as [[_ He] Hlk]. fold x in He, Hlk. destruct (He Hr) as (Hdev & HGi & Hval). assert (ip ≠ NULL) as Hn by (unfold NULL; lia).
  apply wp_bind, wp_geti. fold x. rewrite (proj2 (Z.eqb_neq _ _) Hn) (proj2 (Z.ltb_ge (i_ref x) 1)); [|lia]. cbn [orb].
  apply wp_bind, wp_bind, wp_geti. fold x. rewrite (Hlk Hn). apply wp_bind, wp_gets, wp_updi. fold x. apply wp_bind, wp_geti. cbn [itable set_itable]. rewrite lookup_total_insert_eq. cbn [i_valid with_ilock i_dev i_inum].
  destruct (i_valid x) eqn:Ev; cbn [negb].
  - apply wp_mret. pose proof (HQ (flog s)) as HQ'. rewrite /locked_entry Hval // in HQ'. replace (with_ivalid true x) with x in HQ' by (rewrite -Ev; by destruct x). destruct s. by apply HQ'.
  - apply wp_bind, wp_gets. cbn [fsb set_itable]. rewrite Hdev. apply wp_bind. eapply wp_rbread; [exact Hl|by apply (tr_blk _ _ _ HG)|done|]. intros i l1 Hl1 El1 Hi.
    apply wp_bind. eapply wp_rdata; [exact Hl1|apply lookup_insert_eq|]. cbn [cview hold_blk]. apply wp_bind, wp_updi. cbn [itable set_itable set_flog]. rewrite lookup_total_insert_eq insert_insert_eq.
    apply wp_bind. eapply wp_rbrelse; [exact Hl1|apply lookup_insert_eq|]. intros l2 Hl2 El2. rewrite unhold_hold // in Hl2. apply wp_bind, wp_updi. cbn [itable set_itable set_flog]. rewrite lookup_total_insert_eq insert_insert_eq.
    apply wp_bind, wp_geti. cbn [itable set_itable set_flog]. rewrite lookup_total_insert_eq.
    set (e := with_ivalid true _). assert (e = locked_entry (fsb s) A (fp_pid (fcur s)) x) as Ee by done. rewrite (proj2 (Z.eqb_neq (i_type e) 0)); [|apply (tr_type _ _ _ HG _ HGi)].
    apply wp_mret. rewrite Ee. apply (HQ l2). split; [done|]. by rewrite El2.
Qed.
Lemma iunlock_spec ip s Q (x := itable s !!! ip) : 0 ≤ ip → i_locked x = true → i_pid x = fp_pid (fcur s) → 0 < i_ref x →
  Q tt (set_itable (<[ip := with_ilock false 0 x]> (itable s)) s) → wp (iunlock ip) s Q.
Proof.
  intros Hip Hlk Hpid Hr HQ. apply wp_bind, wp_geti. fold x. apply wp_bind, wp_bind, wp_geti. fold x. apply wp_bind, wp_gets, wp_mret. rewrite Hlk Hpid Z.eqb_refl (proj2 (Z.eqb_neq ip NULL)); [|unfold NULL; lia].
  rewrite (proj2 (Z.ltb_ge (i_ref x) 1)); [|lia]. cbn [andb negb orb]. by apply wp_updi.
Qed.
Lemma iunlockput_spec ip s Q (x := itable s !!! ip) : 0 ≤ ip → i_locked x = true → i_pid x = fp_pid (fcur s) → 0 < i_ref x → i_nlink x ≠ 0 →
  Q tt (set_itable (<[ip := with_ref (i_ref x - 1) (with_ilock false 0 x)]> (itable s)) s) → wp (iunlockput ip) s Q.
Proof.
  intros Hip Hlk Hpid Hr Hn HQ. apply wp_bind, iunlock_spec; try done. apply iput_spec; cbn [itable set_itable]; rewrite lookup_total_insert_eq; [cbn; tauto|]. rewrite insert_insert_eq. exact HQ.
Qed.

(** ** Entries and references *)
Lemma entry_ilock G sb A x b p : entry_ok G sb A x → entry_ok G sb A (with_ilock b p x).
Proof. intros [Hr Hx]. split; [done|]. intros H0. destruct (Hx H0) as (Hd & HG & Hv). split; [done|]. split; [done|]. intros Ev. specialize (Hv Ev). cbn [i_inum with_ilock]. change (with_ilock b p (loaded_as (dinode (cview A) sb (i_inum x)) x) = with_ilock b p x). by rewrite Hv. Qed.
Lemma entry_ref G sb A x n : entry_ok G sb A x → 0 < i_ref x → 0 ≤ n → entry_ok G sb A (with_ref n x).
Proof. intros [_ Hx] H0 Hn. destruct (Hx H0) as (Hd & HG & Hv). split; [done|]. intros _. split; [done|]. split; [done|]. intros Ev. specialize (Hv Ev). change (with_ref n (loaded_as (dinode (cview A) sb (i_inum x)) x) = with_ref n x). by rewrite Hv. Qed.
Lemma entry_locked G sb A x pid : entry_ok G sb A x → entry_ok G sb A (locked_entry sb A pid x).
Proof. intros [Hr Hx]. split; [done|]. intros H0. by destruct (Hx H0) as (Hd & HG & _). Qed.
Lemma entry_iget G sb A x i : entry_ok G sb A x → G i → cached ROOTDEV i x ∨ i_ref x = 0 → entry_ok G sb A (iget_entry ROOTDEV i x) ∧ i_ref (iget_entry ROOTDEV i x) = i_ref x + 1 ∧ i_inum (iget_entry ROOTDEV i x) = i ∧ i_locked (iget_entry ROOTDEV i x) = i_locked x ∧ i_pid (iget_entry ROOTDEV i x) = i_pid x.
Proof.
  intros Hx HG Hc. rewrite /iget_entry. destruct (decide (0 < i_ref x)) as [Hr|Hr].
  - destruct Hc as [(_ & _ & <-)|]; [|lia]. split; [|done]. apply entry_ref; [done|done|lia].
  - assert (i_ref x = 0) as -> by (destruct Hc as [(? & _)|]; lia). split; [|done]. split; [cbn; lia|]. intros _. split; [done|]. split; [exact HG|]. intros Ev. discriminate Ev.
Qed.

(** The references of the table are [r0] and one to [ip]. *)
Definition held_ref (r0 : Z → Z) (ip : Z) (t : gmap Z inode) : Prop :=
  ∀ j, 0 ≤ j < NINODE → i_ref (t !!! j) = r0 j + (if decide (j = ip) then 1 else 0).
Definition two_free (r0 : Z → Z) : Prop := (∀ j, 0 ≤ j < NINODE → 0 ≤ r0 j) ∧ ∃ j1 j2, j1 ≠ j2 ∧ 0 ≤ j1 < NINODE ∧ 0 ≤ j2 < NINODE ∧ r0 j1 = 0 ∧ r0 j2 = 0.
Record nstate (G : Z → Prop) A (r0 : Z → Z) (ip : Z) s : Prop := {
  ns_log : fs_rd (flog s) A;
  ns_tree : tree_ok G (fsb s) A;
  ns_tab : tab_ok G (fsb s) A NULL (itable s);
  ns_ip : 0 ≤ ip < NINODE;
  ns_ref : held_ref r0 ip (itable s);
}.
Lemma lookup_total_ins (t : gmap Z inode) i j x : <[i := x]> t !!! j = if decide (j = i) then x else t !!! j.
Proof. destruct (decide (j = i)) as [->|]; [by rewrite lookup_total_insert_eq|by rewrite lookup_total_insert_ne]. Qed.
Lemma held_free r0 ip t : two_free r0 → held_ref r0 ip t → ∃ j, 0 ≤ j < NINODE ∧ i_ref (t !!! j) = 0.
Proof.
  intros (_ & j1 & j2 & Hne & Hj1 & Hj2 & E1 & E2) Ht. destruct (decide (j1 = ip)) as [->|].
  - exists j2. split; [done|]. rewrite Ht // decide_False //. lia.
  - exists j1. split; [done|]. rewrite Ht // decide_False //. lia.
Qed.

(** The table after [ilock], [iget] of an entry and [iunlockput] *)
Section step.
Context (G : Z → Prop) (sb : superblock) A (r0 : Z → Z) (ip : Z) (t : gmap Z inode) (pid : Z).
Hypothesis (HG : tree_ok G sb A) (Ht : tab_ok G sb A NULL t) (Hip : 0 ≤ ip < NINODE) (Hr0 : ∀ j, 0 ≤ j < NINODE → 0 ≤ r0 j) (Hh : held_ref r0 ip t).
Let x := t !!! ip.
Let x2 := locked_entry sb A pid x.
Let t2 := <[ip := x2]> t.
Lemma step_ref : 0 < i_ref x.
Proof using Hh Hip Hr0. rewrite /x Hh // decide_True //. specialize (Hr0 ip Hip). lia. Qed.
Lemma step_entry : i_dev x = ROOTDEV ∧ G (i_inum x).
Proof using Hh Hip Hr0 Ht. destruct (Ht ip Hip) as [[_ He] _]. by destruct (He step_ref) as (? & ? & _). Qed.
Lemma step_locked : tab_ok G sb A ip t2 ∧ held_ref r0 ip t2 ∧ i_nlink x2 ≠ 0.
Proof using Hh Hip Hr0 Ht HG.
  split; [|split].
  - eapply tab_insert; [exact Ht|by apply entry_locked, Ht|done|]. unfold NULL. lia.
  - intros j Hj. rewrite /t2 lookup_total_ins. destruct (decide (j = ip)) as [->|]; [pose proof (Hh ip Hip) as E; destruct (decide (ip = ip)); [exact E|done]|pose proof (Hh j Hj) as E; destruct (decide (j = ip)); done].
  - apply (tr_link _ _ _ HG), step_entry.
Qed.

(** [iunlockput] straight away *)
Lemma step_put : let t3 := <[ip := with_ref (i_ref x2 - 1) (with_ilock false 0 x2)]> t2 in tab_ok G sb A NULL t3 ∧ ∀ j, 0 ≤ j < NINODE → i_ref (t3 !!! j) = r0 j.
Proof using Hh Hip Hr0 Ht HG.
  destruct step_locked as (Ht2 & Hh2 & _). pose proof step_ref as Hr. split.
  - eapply tab_insert; [exact Ht2| |done|done]. apply entry_ref; [by apply entry_ilock, entry_locked, Ht|done|cbn; lia].
  - intros j Hj. rewrite lookup_total_ins. destruct (decide (j = ip)) as [->|Hne].
    + pose proof (Hh ip Hip) as E. destruct (decide (ip = ip)); [|done]. cbn. fold x in E. lia.
    + rewrite (Hh2 j Hj). destruct (decide (j = ip)); [done|lia].
Qed.
(** [iunlock] alone *)
Lemma step_unlock : let t3 := <[ip := with_ilock false 0 x2]> t2 in tab_ok G sb A NULL t3 ∧ held_ref r0 ip t3 ∧ i_inum (t3 !!! ip) = i_inum x.
Proof using Hh Hip Hr0 Ht HG.
  destruct step_locked as (Ht2 & Hh2 & _). split; [|split].
  - eapply tab_insert; [exact Ht2| |done|done]. by apply entry_ilock, entry_locked, Ht.
  - intros j Hj. rewrite lookup_total_ins. destruct (decide (j = ip)) as [->|Hne]; [|rewrite (Hh2 j Hj); by destruct (decide (j = ip))].
    pose proof (Hh ip Hip) as E. by destruct (decide (ip = ip)).
  - by rewrite lookup_total_insert_eq.
Qed.
(** [iget] of inode [i], then [iunlockput] *)
Lemma step_next ip2 i : 0 ≤ ip2 < NINODE → G i → cached ROOTDEV i (t2 !!! ip2) ∨ i_ref (t2 !!! ip2) = 0 →
  let t4 := <[ip2 := iget_entry ROOTDEV i (t2 !!! ip2)]> t2 in let x4 := t4 !!! ip in let t5 := <[ip := with_ref (i_ref x4 - 1) (with_ilock false 0 x4)]> t4 in
  (i_locked x4 = true ∧ i_pid x4 = pid ∧ 0 < i_ref x4 ∧ i_nlink x4 ≠ 0) ∧ tab_ok G sb A NULL t5 ∧ held_ref r0 ip2 t5 ∧ i_inum (t5 !!! ip2) = i.
Proof using Hh Hip Hr0 Ht HG.
  intros Hip2 HGi Hc t4 x4 t5. destruct step_locked as (Ht2 & Hh2 & Hn). pose proof step_ref as Hr. destruct (entry_iget G sb A (t2 !!! ip2) i) as (He & Er & Ei & El & Ep); [by apply Ht2|done|done|].
  assert (x4 = if decide (ip = ip2) then with_ref (i_ref x2 + 1) x2 else x2) as E4.
  { rewrite /x4 /t4 lookup_total_ins. destruct (decide (ip = ip2)) as [<-|]; [|by rewrite /t2 lookup_total_insert_eq]. rewrite /iget_entry /t2 lookup_total_insert_eq decide_True //. }
  assert (i_locked x4 = true ∧ i_pid x4 = pid ∧ 0 < i_ref x4 ∧ i_nlink x4 ≠ 0) as Hx4 by (rewrite E4; destruct (decide (ip = ip2)); cbn; split_and!; try done; lia).
  assert (tab_ok G sb A ip t4) as Ht4. { eapply tab_insert; [exact Ht2|exact He| |done]. intros Hne. rewrite El. by apply Ht2. }
  split; [done|]. destruct Hx4 as (_ & _ & Hx4 & _). split; [|split].
  - eapply tab_insert; [exact Ht4| |done|done]. apply entry_ref; [by apply entry_ilock, Ht4|done|lia].
  - intros j Hj. rewrite /t5 lookup_total_ins. destruct (decide (j = ip)) as [->|Hne].
    + cbn [i_ref with_ref]. rewrite E4. pose proof (Hh ip Hip) as E. fold x in E. destruct (decide (ip = ip)); [|done]. destruct (decide (ip = ip2)); cbn; lia.
    + rewrite /t4 lookup_total_ins. destruct (decide (j = ip2)) as [->|]; [rewrite Er (Hh2 _ Hj); destruct (decide (ip2 = ip)); [done|lia]|rewrite (Hh2 _ Hj); destruct (decide (j = ip)); [done|lia]].
  - rewrite /t5 lookup_total_ins. destruct (decide (ip2 = ip)) as [->|]; [|by rewrite /t4 lookup_total_insert_eq]. cbn. by rewrite /x4 /t4 lookup_total_insert_eq.
Qed.
(** [iput] of an unlocked entry *)
Lemma step_iput : ¬ (i_ref x = 1 ∧ i_valid x = true ∧ i_nlink x = 0) ∧ let t3 := <[ip := with_ref (i_ref x - 1) x]> t in tab_ok G sb A NULL t3 ∧ ∀ j, 0 ≤ j < NINODE → i_ref (t3 !!! j) = r0 j.
Proof using Hh Hip Hr0 Ht HG.
  pose proof step_ref as Hr. destruct (Ht ip Hip) as [He Hlk]. fold x in He, Hlk. pose proof He as [_ He2]. destruct (He2 Hr) as (_ & HGi & Hv). split; [|split].
  - intros (_ & Ev & En). specialize (Hv Ev). apply (tr_link _ _ _ HG _ HGi). rewrite -En -{2}Hv. done.
  - eapply tab_insert; [exact Ht| |by intros; apply Hlk|done]. apply entry_ref; [done|done|lia].
  - intros j Hj. rewrite lookup_total_ins. destruct (decide (j = ip)) as [->|Hne]; [|rewrite (Hh j Hj); destruct (decide (j = ip)); [done|lia]].
    pose proof (Hh ip Hip) as E. destruct (decide (ip = ip)); [|done]. cbn. fold x in E. lia.
Qed.
End step.

(** ** [namex] *)
(** The path [l] is at [path], apart from the buffers. *)
Definition path_ok (m : mem) (path name de : Z) (l : list Z) : Prop :=
  cstr_at m path l ∧ 0 < path ∧ (name + 14 ≤ path ∨ path + Z.of_nat (length l) < name) ∧ (de + 16 ≤ path ∨ path + Z.of_nat (length l) < de).
(** [r] is a table entry for the inode [o], with a reference of its own; for
    [nameiparent] the last element is in [name]. *)
Definition named (G : Z → Prop) A (r0 : Z → Z) (sb : superblock) (parent : bool) (es : list (list Z)) (name : Z) (o : option Z) (r : Z) s' : Prop :=
  fs_rd (flog s') A ∧ fsb s' = sb ∧ tab_ok G sb A NULL (itable s') ∧
  match o with
  | None => r = NULL ∧ ∀ j, 0 ≤ j < NINODE → i_ref (itable s' !!! j) = r0 j
  | Some i => 0 ≤ r < NINODE ∧ i_inum (itable s' !!! r) = i ∧ held_ref r0 r (itable s') ∧ (parent = true → cstrn 14 (km (fmem s')) name = take 14 (List.last es []))
  end.

Lemma wp_skipelem path name s (Q : Z → fs S → Prop) : (∀ m' p', skipelem_mem (km (fmem s)) path name = (m', p') → Q p' (set_fmem (mk_kmem m' (freelist (fmem s))) s)) → wp (skipelem path name) s Q.
Proof. intros HQ. apply wp_bind, wp_gets, wp_bind, wp_lift, wp_modify, wp_mret. apply HQ. by destruct (skipelem_mem _ _ _). Qed.

Lemma file_ok_loaded sb A pid x : i_dev x = ROOTDEV → file_ok sb A (dinode (cview A) sb (i_inum x)) → file_ok sb A (locked_entry sb A pid x).
Proof. intros Hd [h1 h2 h3 h4 h5 h6]. by split. Qed.

Lemma dir_find_loaded sb A pid x nm : dir_find (cview A) (locked_entry sb A pid x) nm = dir_find (cview A) (dinode (cview A) sb (i_inum x)) nm.
Proof. by apply d_find_ext. Qed.

(** The turn of the loop for element [e], the rest of the path being [l'] at
    [path'] *)
Section turn.
Context (G : Z → Prop) A (r0 : Z → Z) (parent : bool) (name : Z).
Hypothesis (H2 : two_free r0) (Hroom : room A (Z.of_nat (size (chold A)))) (Hbuf : buffer_ok (local "dirlookup.de") name).
Abbreviation de := (local "dirlookup.de").

(** What is left to do after the directory has been searched *)
Definition next_ok (fuel : nat) s (path' : Z) (es : list (list Z)) (i : Z) : Prop :=
  ∀ ip2 s2, nstate G A r0 ip2 s2 → fsb s2 = fsb s → fcur s2 = fcur s → i_inum (itable s2 !!! ip2) = i → (∀ a, a < de ∨ de + 16 ≤ a → ld8 (km (fmem s2)) a = ld8 (km (fmem s)) a) →
    wp (namex_loop fuel ip2 path' parent name) s2 (named G A r0 (fsb s) parent es name (resolve (cview A) (fsb s) parent i es)).

Definition namex_turn (fuel : nat) (ip path : Z) : M (fs S) Z :=
  ilock ip;;
  x ← geti ip;
  if negb (i_type x =? T_DIR) then iunlockput ip;; mret NULL
  else
    c ← gets (λ s, ld8 (km (fmem s)) path);
    if parent && (c =? 0) then iunlock ip;; mret ip
    else
      r ← dirlookup ip name;
      if r.1 =? NULL then iunlockput ip;; mret NULL
      else
        iunlockput ip;;
        namex_loop fuel r.1 path parent name.

Lemma namex_turn_spec fuel ip path' s e es' :
  nstate G A r0 ip s → cstrn 14 (km (fmem s)) name = take 14 e → (ld8 (km (fmem s)) path' = 0 ↔ es' = []) → (∀ i, next_ok fuel s path' es' i) →
  wp (namex_turn fuel ip path') s (named G A r0 (fsb s) parent (e :: es') name (resolve (cview A) (fsb s) parent (i_inum (itable s !!! ip)) (e :: es'))).
Proof.
  intros [Hlog HG Ht Hip Hh] Hname Hend Hnext. pose proof H2 as [Hr0 _]. set (x := itable s !!! ip). set (pid := fp_pid (fcur s)). set (sb := fsb s) in *.
  pose proof (step_ref _ _ _ Hip Hr0 Hh) as Hr. pose proof (step_entry _ _ _ _ _ _ Ht Hip Hr0 Hh) as [Hdev HGi]. fold x in Hr, Hdev, HGi.
  apply wp_bind, (ilock_spec G ip s A); try done. intros l [Hl El]. fold x. set (x2 := locked_entry sb A pid x). set (s2 := set_itable _ _). apply wp_bind, wp_geti.
  assert (itable s2 !!! ip = x2) as Ex2 by apply lookup_total_insert_eq. rewrite Ex2. cbn [resolve]. change (i_type (dinode (cview A) sb (i_inum x))) with (i_type x2).
  destruct (step_put G sb A r0 ip _ pid HG Ht Hip Hr0 Hh) as [Hput Hput0]. destruct (step_locked G sb A r0 ip _ pid HG Ht Hip Hr0 Hh) as (Ht2 & Hh2 & Hnl).
  assert (∀ s', itable s' = itable s2 → fcur s' = fcur s → fs_rd (flog s') A → fsb s' = sb → wp (iunlockput ip;; mret NULL) s' (named G A r0 sb parent (e :: es') name None)) as Hfail.
  { intros s' Eit Ecur Hl' Esb. apply wp_bind, iunlockput_spec; rewrite ?Eit ?Ex2 ?Ecur; try done; [lia|]. apply wp_mret. by split_and!. }
  destruct (i_type x2 =? T_DIR) eqn:Etype; cbn [negb]; [|by apply Hfail]. apply Z.eqb_eq in Etype.
  apply wp_bind, wp_gets. change (km (fmem s2)) with (km (fmem s)). assert (ld8 (km (fmem s)) path' =? 0 = bool_decide (es' = [])) as ->.
  { destruct (Z.eqb_spec (ld8 (km (fmem s)) path') 0); symmetry; [apply bool_decide_eq_true_2; tauto|apply bool_decide_eq_false_2; tauto]. }
  destruct (parent && bool_decide (es' = [])) eqn:Elast.
  { destruct (step_unlock G sb A r0 ip _ pid HG Ht Hip Hr0 Hh) as (Hu1 & Hu2 & Hu3). apply wp_bind, iunlock_spec; rewrite ?Ex2; try done; [lia|]. apply wp_mret. split_and!; try done; try lia. intros _.
    apply andb_true_iff in Elast as [_ ->%bool_decide_eq_true_1]. exact Hname. }
  destruct (tr_file _ _ _ HG _ HGi Etype) as [Hfok Hdok].
  apply wp_bind. eapply wp_mono; [apply (dirlookup_spec start lsz ip name s2 A x2); try done|].
  { split; [done|done|by apply file_ok_loaded]. }
  { destruct Hdok. by split. }
  { by apply (held_free r0 ip). }
  change (km (fmem s2)) with (km (fmem s)). rewrite Hname -(dir_find_loaded sb A pid x). fold x2. intros r s3 Hlk.
  destruct (dir_find (cview A) x2 (take 14 e)) as [k|] eqn:Efind; cbn [mbind option_bind].
  2:{ destruct Hlk as [-> (l3 & m3 & -> & _ & Hl3 & _)]. cbn [fst]. rewrite Z.eqb_refl. by apply Hfail. }
  destruct Hlk as (s4 & ip2 & (l3 & m3 & -> & Hm3 & Hl3 & El3) & [Hip2 Hslot] & -> & ->). cbn [fst]. rewrite (proj2 (Z.eqb_neq ip2 NULL)); [|unfold NULL; lia].
  change (d_inum (cview A) (dinode (cview A) sb (i_inum x)) k) with (d_inum (cview A) x2 k). set (i2 := d_inum (cview A) x2 k) in *.
  assert (G i2) as HG2. { apply d_find_Some in Efind as (Hk & (Hnz & _) & _). apply (tr_entry _ _ _ HG _ _ HGi Etype); [|exact Hnz]. change (i_size (dinode (cview A) sb (i_inum x))) with (i_size x2). lia. }
  change (i_dev x2) with (i_dev x) in *. rewrite Hdev in Hslot |- *. destruct (step_next G sb A r0 ip _ pid HG Ht Hip Hr0 Hh ip2 i2 Hip2 HG2) as ((Hx1 & Hx2 & Hx3 & Hx4) & Hn1 & Hn2 & Hn3); [destruct Hslot as [Hc|[Hc _]]; [by left|by right]|].
  apply wp_bind, iunlockput_spec; try done; [lia|]. eapply wp_mono; [apply (Hnext i2); done|].
  intros r s' (Ha & Hb & Hc & Hd). split_and!; try done. destruct (resolve _ _ _ _ _); [|done]. destruct Hd as (Hd1 & Hd2 & Hd3 & Hd4). split_and!; try done; try lia. intros Hp. rewrite Hd4 //. rewrite Hp andb_true_l in Elast. apply bool_decide_eq_false_1 in Elast. by destruct es'.
Qed.

Lemma nstate_mem ip s m : nstate G A r0 ip s → nstate G A r0 ip (set_fmem m s).
Proof. intros [? ? ? ? ?]. by split. Qed.
Lemma namex_loop_spec fuel ip path (p : list Z) s :
  nstate G A r0 ip s → path_ok (km (fmem s)) path name de p → (length p < fuel)%nat → (length p < Z.to_nat MAXPATH)%nat →
  wp (namex_loop fuel ip path parent name) s (named G A r0 (fsb s) parent (path_elems p) name (resolve (cview A) (fsb s) parent (i_inum (itable s !!! ip)) (path_elems p))).
Proof using All.
  revert ip path p s. induction fuel as [|fuel IH]; intros ip path p s Hs (Hp & Hpos & Hap1 & Hap2) Hfuel Hlen; [lia|].
  cbn [namex_loop]. apply wp_bind, wp_skipelem. intros m' path' Esk. pose proof (skipelem_spec _ _ _ _ Hp Hlen Hap1) as Hsk. rewrite /path_elems elems_next. pose proof (nstate_mem ip s (mk_kmem m' (freelist (fmem s))) Hs) as Hs1.
  destruct (next_elem is_slash p) as [[e p']|] eqn:Enext.
  - destruct Hsk as (m2 & path2 & E2 & Hge & Hlen' & Hp' & Hnm & Hout). rewrite Esk in E2. injection E2 as -> ->. destruct (next_rest _ _ _ _ Enext) as [Hlt Hend]. rewrite (proj2 (Z.eqb_neq path2 0)); [|lia].
    apply (namex_turn_spec fuel ip path2 _ e (elems is_slash p') Hs1 Hnm).
    + rewrite -Hend. cbn [fmem set_fmem km]. destruct p' as [|b p']; [done|]. destruct Hp' as (-> & Hb & _). by split.
    + intros i ip2 s2 Hs2 Esb Ecur Ei Hm. rewrite -Ei. cbn [fsb set_fmem] in Esb. cbn [fsb set_fmem]. rewrite -Esb. apply (IH ip2 path2 p' s2 Hs2); [|lia|lia].
      split; [|split; [lia|split; lia]]. eapply cstr_at_ext; [|exact Hp']. intros a Ha. apply Hm. lia.
  - rewrite Esk in Hsk. injection Hsk as -> ->. cbn [Z.eqb resolve]. destruct Hs1 as [Hlog HG Ht Hip Hh]. pose proof H2 as [Hr0 _]. destruct parent.
    + destruct (step_iput G _ A r0 ip _ HG Ht Hip Hr0 Hh) as (Hn & Hi1 & Hi2). apply wp_bind, iput_spec; [exact Hn|]. apply wp_mret. by split_and!.
    + apply wp_mret. split_and!; try done; lia.
Qed.
End turn.

(** Where a path starts: the root or the current directory *)
Definition path_start s (p : list Z) : Z := if bool_decide (head p = Some SLASH) then ROOTINO else i_inum (itable s !!! fp_cwd (fcur s)).

(** C11. [namex], and so [namei] and [nameiparent], resolve a path name as the
    directories on the disk say.  The result is a table entry of the inode that
    the elements of the path lead to, from the root or from the current
    directory, or of the directory that has the last element, whose name is then
    in [name]; it is 0 when an element is not found or is looked up in something
    that is not a directory.  The caller gets one reference; the references taken
    on the way are given back, no inode stays locked, and the loop ends within
    its bound. *)
Theorem namex_correct (G : Z → Prop) A parent path name (p : list Z) s (r0 := λ j, i_ref (itable s !!! j)) :
  fs_rd (flog s) A → tree_ok G (fsb s) A → tab_ok G (fsb s) A NULL (itable s) → two_free r0 → G ROOTINO → 0 ≤ fp_cwd (fcur s) < NINODE → 0 < r0 (fp_cwd (fcur s)) →
  path_ok (km (fmem s)) path name (local "dirlookup.de") p → (length p < Z.to_nat MAXPATH)%nat → buffer_ok (local "dirlookup.de") name → room A (Z.of_nat (size (chold A))) →
  wp (namex path parent name) s (named G A r0 (fsb s) parent (path_elems p) name (resolve (cview A) (fsb s) parent (path_start s p) (path_elems p))).
Proof.
  intros Hlog HG Ht H2 Hroot Hcwd Hcref Hp Hlen Hbuf Hroom. apply wp_bind, wp_gets. assert (ld8 (km (fmem s)) path =? 47 = bool_decide (head p = Some SLASH)) as Eb.
  { destruct Hp as (Hp & _). destruct p as [|b p]; cbn [cstr_at] in Hp; [by rewrite Hp|]. destruct Hp as (-> & _). cbn [head]. destruct (Z.eqb_spec b 47) as [->|]; symmetry; [by apply bool_decide_eq_true_2|apply bool_decide_eq_false_2; rewrite /SLASH; congruence]. }
  rewrite Eb /path_start. apply wp_bind. destruct (bool_decide (head p = Some SLASH)).
  - apply iget_spec; [destruct H2 as (_ & j & _ & _ & Hj & _ & E & _); by exists j|]. intros ip [Hip Hslot]. set (t := <[ip := _]> _).
    destruct (entry_iget G (fsb s) A (itable s !!! ip) ROOTINO) as (He & Er & Ei & El & _); [by apply Ht|done|destruct Hslot as [?|[? _]]; [by left|by right]|].
    assert (i_inum (itable (set_itable t s) !!! ip) = ROOTINO) as Eip by (cbn; by rewrite /t lookup_total_insert_eq).
    pose proof (namex_loop_spec G A r0 parent name H2 Hroom Hbuf (Z.to_nat MAXPATH) ip path p (set_itable t s)) as Hloop. rewrite Eip in Hloop. apply Hloop; [|done|lia|done]. split; try done.
    + eapply tab_insert; [exact Ht|exact He|intros Hn; rewrite El; by apply Ht|done].
    + intros j Hj. cbn [itable set_itable]. rewrite /t lookup_total_ins. destruct (decide (j = ip)) as [->|]; [by rewrite Er|rewrite /r0; lia].
  - apply wp_bind, wp_gets, wp_bind, wp_updi, wp_mret. set (ip := fp_cwd (fcur s)) in *. set (t := <[ip := _]> _). destruct (Ht ip Hcwd) as [He Hlk].
    assert (i_inum (itable (set_itable t s) !!! ip) = i_inum (itable s !!! ip)) as Eip by (cbn; by rewrite /t lookup_total_insert_eq).
    pose proof (namex_loop_spec G A r0 parent name H2 Hroom Hbuf (Z.to_nat MAXPATH) ip path p (set_itable t s)) as Hloop. rewrite Eip in Hloop. apply Hloop; [|done|lia|done]. split; try done.
    + eapply tab_insert; [exact Ht|apply entry_ref; [done|exact Hcref|rewrite /r0 in Hcref; lia]|done|done].
    + intros j Hj. cbn [itable set_itable]. rewrite /t lookup_total_ins. destruct (decide (j = ip)) as [->|]; [done|rewrite /r0; lia].
Qed.
End fsname.
