(* ===== verification/FsFileDemo.v ===== *)
(** * Reading and writing a file of the small file system *)
From S2P Require Import Prelude Riscv CString Kalloc Vm Cache Bio BioInv Log LogInv Crash Fs FsBlock FsDemo FsFile FsWrite FsRw FsDir FsPath FsName.

#[local] Existing Instance demo_linker.

(** Entry 1 of the inode table is the file [a], locked; the kernel has the bytes
    of [" world"] at 0x5000. *)
Definition demo_f : inode := mk_inode 1 2 1 true 1 true T_FILE 0 0 1 5 (47 :: replicate 12 0).
Definition demo_rw : fs bio :=
  mk_fs demo_flog demo_sb {[1 := demo_f]} (mk_kmem (st_bytes ∅ 0x5000 [32; 119; 111; 114; 108; 100]) 0) (mk_fproc 1 0 0).

(** Entry 0 is the root directory; the names [a] and [b] are at 0x5000 and
    0x5010. *)
Definition demo_d : inode := mk_inode 1 1 1 true 1 true T_DIR 0 0 1 48 (46 :: replicate 12 0).
Definition demo_dir : fs bio :=
  mk_fs demo_flog demo_sb {[0 := demo_d]} (mk_kmem (st_bytes (st_bytes ∅ 0x5000 [97; 0]) 0x5010 [98; 0]) 0) (mk_fproc 1 0 0).

(** A file with the one block [b] *)
Section one_block.
Context (b : Z) (x : inode).
Hypothesis (Hb : b = 46 ∨ b = 47) (Hx : i_addrs x = b :: replicate 12 0) (Hdev : i_dev x = 1) (Hinum : i_inum x = 1 ∨ i_inum x = 2).
Lemma demo_baddr bn : 0 ≤ bn < MAXFILE → baddr demo_fsdisk x bn = if decide (bn = 0) then b else 0.
Proof.
  intros Hbn. rewrite /baddr /i_addr Hx. destruct (Z.ltb_spec bn NDIRECT).
  - assert (bn ∈ seqZ 0 12) as Hin by (apply elem_of_seqZ; unfold NDIRECT in *; lia). change (seqZ 0 12) with [0;1;2;3;4;5;6;7;8;9;10;11] in Hin. set_unfold in Hin. naive_solver.
  - rewrite decide_False; [|unfold NDIRECT in *; lia]. done.
Qed.
Lemma demo_iblock : IBLOCK (i_inum x) demo_sb = 32.
Proof. by destruct Hinum as [-> | ->]. Qed.
Lemma demo_file_ok : file_ok 2 LOGSIZE demo_sb demo_cache x.
Proof.
  split.
  - done.
  - by rewrite Hx.
  - intros bn Hbn. cbn [cview demo_cache]. rewrite demo_baddr //. destruct (decide (bn = 0)) as [->|]; [|done]. intros _. rewrite /data_block demo_iblock.
    destruct Hb as [-> | ->]; (split_and!; [by vm_compute|by vm_compute|by vm_compute|vm_compute; intuition congruence|by apply not_held_empty|intros b' Hb'; rewrite demo_bblock //|done]).
  - rewrite /i_addr Hx. done.
  - intros bn bn' Hbn Hbn'. cbn [cview demo_cache]. rewrite !demo_baddr //. destruct (decide (bn = 0)), (decide (bn' = 0)); try congruence; destruct Hb; congruence.
  - intros bn Hbn. cbn [cview demo_cache]. rewrite demo_baddr // /i_addr Hx. done.
Qed.
Lemma demo_finv ip s : flog s = demo_flog → fsb s = demo_sb → itable s !!! ip = x → finv 2 LOGSIZE ip s demo_cache x.
Proof.
  intros El Es Ei. split; rewrite ?El ?Es; [exact demo_fs_tx|by apply demo_layout|by vm_compute|done|exact demo_file_ok|]. rewrite /inode_block demo_iblock. split_and!; [by vm_compute|by vm_compute|by vm_compute|vm_compute; intuition congruence|by apply not_held_empty|].
  intros b' Hb'. rewrite demo_bblock; [by vm_compute|done].
Qed.
Lemma demo_no_holes : i_size x ≤ 1024 → no_holes (cview demo_cache) x.
Proof.
  intros Hs bn Hbn Hlt. cbn [cview demo_cache]. assert (bn = 0) as -> by (unfold BSIZE in *; lia). rewrite demo_baddr; [|by vm_compute]. destruct Hb as [-> | ->]; by vm_compute.
Qed.
End one_block.
Lemma demo_f_inv : finv 2 LOGSIZE 1 demo_rw demo_cache demo_f.
Proof. apply (demo_finv 47); first [reflexivity|by right|by vm_compute]. Qed.
Lemma demo_f_holes : no_holes (cview demo_cache) demo_f.
Proof. apply (demo_no_holes 47); first [reflexivity|by right|by vm_compute]. Qed.
Lemma demo_d_inv : finv 2 LOGSIZE 0 demo_dir demo_cache demo_d.
Proof. apply (demo_finv 46); first [reflexivity|by left|by vm_compute]. Qed.
Lemma demo_d_ok : dir_ok demo_cache demo_d.
Proof. split; [vm_compute; intuition congruence|done|]. apply (demo_no_holes 46); first [reflexivity|by left|by vm_compute]. Qed.
Lemma demo_load : load demo_sb demo_cache demo_f = 2.
Proof. by vm_compute. Qed.

Lemma readi_correct_witness :
  wp (readi 1 false 0x6000 1 10) demo_rw (λ r s', r = 4 ∧ ld_bytes 4 (km (fmem s')) 0x6000 = [101; 108; 108; 111]).
Proof.
  eapply wp_mono; [apply (readi_correct 2 LOGSIZE 1 0x6000 1 10 demo_rw demo_cache demo_f); try lia|].
  - apply finv_frd, demo_f_inv.
  - by vm_compute.
  - exact demo_f_holes.
  - apply demo_room. change (size (chold demo_cache)) with 0%nat. lia.
  - cbv beta. intros r s' (-> & l & -> & _). by split; vm_compute.
Defined.

Lemma demo_rw_room n : 0 ≤ n < 100 → load (fsb demo_rw) demo_cache demo_f + n / BSIZE + 9 + Z.of_nat (size (chold demo_cache)) ≤ Z.min LOGSIZE LOGSIZE - 1.
Proof. intros. change (fsb demo_rw) with demo_sb. rewrite demo_load. change (size (chold demo_cache)) with 0%nat. rewrite Z.div_small; [by vm_compute|unfold BSIZE; lia]. Qed.

(** Six bytes at the end of [a]; past its end, the write is rejected. *)
Lemma writei_correct_witness :
  wp (writei 1 false 0x5000 5 6) demo_rw (λ r s', ∃ A' x', written 2 LOGSIZE 1 demo_rw demo_cache demo_f 0x5000 5 6 r s' A' x' ∧ fbytes (cview A') x' 0 5 = [104; 101; 108; 108; 111]) ∧
  wp (writei 1 false 0x5000 7 6) demo_rw (λ r s', r = -1 ∧ s' = demo_rw).
Proof.
  split.
  - eapply wp_mono; [apply (writei_correct 2 LOGSIZE 1 0x5000 5 6 demo_rw demo_cache demo_f); [exact demo_f_inv|vm_compute; intuition congruence|lia..|by apply demo_rw_room]|].
    intros r s' (A' & x' & Hw). exists A', x'. split; [exact Hw|]. trans (fbytes demo_fsdisk demo_f 0 5); [|by vm_compute].
    apply list_fmap_ext. intros i o Ho%list_elem_of_lookup_2%elem_of_seqZ. rewrite (wn_byte _ _ _ _ _ _ _ _ _ _ _ _ _ Hw); [by rewrite decide_False; [|lia]|]. assert (MAXFILE = 268) by reflexivity. unfold BSIZE. lia.
  - exact (writei_correct 2 LOGSIZE 1 0x5000 7 6 demo_rw demo_cache demo_f demo_f_inv ltac:(vm_compute; intuition congruence) ltac:(lia) ltac:(lia) ltac:(lia) ltac:(lia) ltac:(by apply demo_rw_room)).
Defined.

Lemma writei_readi_witness :
  wp (w ← writei 1 false 0x5000 5 6; r ← readi 1 false 0x6000 5 6; mret (w, r)) demo_rw
     (λ '(w, r) s', 0 ≤ w ≤ r ∧ r ≤ 6 ∧ ld_bytes (Z.to_nat w) (km (fmem s')) 0x6000 = ld_bytes (Z.to_nat w) (km (fmem demo_rw)) 0x5000).
Proof.
  apply (writei_readi 2 LOGSIZE 1 0x5000 0x6000 5 6 demo_rw demo_cache demo_f); [exact demo_f_inv|vm_compute; intuition congruence|exact demo_f_holes|lia..|by apply demo_rw_room|reflexivity].
Defined.

Lemma demo_free_slot : free_slot demo_dir.
Proof. exists 3. split; [unfold NINODE; lia|by vm_compute]. Qed.
Lemma demo_buffer n name : n = "dirlookup.de"%string ∨ n = "dirlink.de"%string → name = 0x5000 ∨ name = 0x5010 → buffer_ok (local n) name.
Proof. intros [-> | ->] Hn; (split; [by vm_compute|]; split; [by vm_compute|]; right; destruct Hn as [-> | ->]; by vm_compute). Qed.

(** Entry 2 of the root is [a]; there is no [b]. *)
Lemma dirlookup_correct_witness :
  wp (dirlookup 0 0x5000) demo_dir (λ r s', r.2 = 32 ∧ i_inum (itable s' !!! r.1) = 2) ∧ wp (dirlookup 0 0x5010) demo_dir (λ r s', r = (NULL, 0)).
Proof.
  split; (eapply wp_mono; [apply (dirlookup_correct 2 LOGSIZE 0 _ demo_dir demo_cache demo_d);
    [apply finv_frd, demo_d_inv|done|exact demo_d_ok|apply demo_buffer; [by left|first [by left|by right]]|apply demo_room; change (size (chold demo_cache)) with 0%nat; lia|exact demo_free_slot]|]).
  - assert (dir_find (cview demo_cache) demo_d (cstrn 14 (km (fmem demo_dir)) 0x5000) = Some 2) as -> by (vm_compute; reflexivity).
    intros r s' (s1 & ip & _ & Hslot & -> & ->). split; [done|]. cbn [fst itable set_itable]. rewrite lookup_total_insert_eq. change (d_inum (cview demo_cache) demo_d 2) with 2 in *. rewrite /iget_entry.
    destruct Hslot as [_ [(Hr & _ & Hi)|[-> _]]]; [rewrite decide_True //|done].
  - assert (dir_find (cview demo_cache) demo_d (cstrn 14 (km (fmem demo_dir)) 0x5010) = None) as -> by (vm_compute; reflexivity). by intros r s' [-> _].
Defined.
Lemma dirlink_correct_witness :
  wp (dirlink 0 0x5000 7) demo_dir (λ r s', r = -1) ∧
  wp (dirlink 0 0x5010 7) demo_dir (λ r s', r = 0 → ∃ A' x', finv 2 LOGSIZE 0 s' A' x' ∧ dir_find (cview A') x' [98] = Some 3 ∧ dir_find (cview A') x' [97] = Some 2 ∧ d_inum (cview A') x' 3 = 7).
Proof.
  split; (eapply wp_mono; [apply (dirlink_correct 2 LOGSIZE 0 _ 7 demo_dir demo_cache demo_d);
    [exact demo_d_inv|done|exact demo_d_ok|lia|apply demo_buffer; [by left|first [by left|by right]]|apply demo_buffer; [by right|first [by left|by right]]|exact demo_free_slot|by vm_compute]|]).
  - intros r s'. rewrite /dirlink_post. assert (dir_find (cview demo_cache) demo_d (cstrn 14 (km (fmem demo_dir)) 0x5000) = Some 2) as -> by (vm_compute; reflexivity). by intros [-> _].
  - intros r s'. rewrite /dirlink_post. assert (dir_find (cview demo_cache) demo_d (cstrn 14 (km (fmem demo_dir)) 0x5010) = None) as -> by (vm_compute; reflexivity).
    assert (d_slot (cview demo_cache) demo_d 0 (Z.to_nat (i_size demo_d / 16)) = 3) as -> by (vm_compute; reflexivity).
    assert (cstrn 14 (km (fmem demo_dir)) 0x5010 = [98]) as -> by (vm_compute; reflexivity).
    intros [[-> (A' & x' & Hl)]|[-> _]] Hr; [|discriminate Hr]. exists A', x'. split; [apply Hl|]. split; [exact (lk_find _ _ _ _ _ _ _ _ _ _ _ _ Hl [98])|]. split; [|exact (lk_inum _ _ _ _ _ _ _ _ _ _ _ _ Hl)]. rewrite (lk_find _ _ _ _ _ _ _ _ _ _ _ _ Hl). by vm_compute.
Defined.

(** Process 1, in the root directory, has the path [/a] at 0x5000. *)
Definition demo_ns : fs bio :=
  mk_fs demo_flog demo_sb {[0 := with_ref 1 demo_root]} (mk_kmem (st_bytes ∅ 0x5000 [47; 97; 0]) 0) (mk_fproc 1 0 0).
Definition demo_inodes (i : Z) : Prop := i = 1 ∨ i = 2.

Lemma demo_dinode_1 : i_addrs (dinode demo_fsdisk demo_sb 1) = 46 :: replicate 12 0 ∧ i_size (dinode demo_fsdisk demo_sb 1) = 48.
Proof. by vm_compute. Qed.
Lemma demo_tree : tree_ok 2 LOGSIZE demo_inodes demo_sb demo_cache.
Proof.
  destruct demo_dinode_1 as [Ea Es]. split; cbn [cview demo_cache].
  - intros i [-> | ->]; by vm_compute.
  - intros i [-> | ->]; by vm_compute.
  - intros i _. by apply not_held_empty.
  - intros i [-> | ->] Ht; [|vm_compute in Ht; discriminate Ht]. split; [apply (demo_file_ok 46); first [by left|exact Ea|done]|]. split; rewrite ?Es; [vm_compute; intuition congruence|done|]. apply (demo_no_holes 46); [by left|exact Ea|lia].
  - intros i k [-> | ->] Ht Hk _; [|vm_compute in Ht; discriminate Ht]. rewrite Es in Hk. assert (k ∈ seqZ 0 3) as Hin by (apply elem_of_seqZ; lia). change (seqZ 0 3) with [0; 1; 2] in Hin. set_unfold in Hin.
    destruct Hin as [-> |[-> |[-> |[]]]]; [left|left|right]; by vm_compute.
Qed.
Lemma demo_entry j : itable demo_ns !!! j = if decide (j = 0) then with_ref 1 demo_root else inhabitant.
Proof. destruct (decide (j = 0)) as [->|Hne]; [done|]. cbn [itable demo_ns]. rewrite lookup_total_alt lookup_singleton_ne //. Qed.
Lemma demo_tab : tab_ok demo_inodes demo_sb demo_cache NULL (itable demo_ns).
Proof.
  intros j Hj. rewrite demo_entry. destruct (decide (j = 0)); (split; [|done]); (split; [by vm_compute|]); cbn; intros Hr; [|lia]. split; [done|]. split; [by left|done].
Qed.
Lemma demo_two : two_free (λ j, i_ref (itable demo_ns !!! j)).
Proof.
  split.
  - intros j Hj. rewrite demo_entry. destruct (decide (j = 0)); cbn; lia.
  - exists 1, 2. rewrite !demo_entry. split; [lia|]. split; [unfold NINODE; lia|]. split; [unfold NINODE; lia|]. split; reflexivity.
Qed.
Lemma demo_path : path_ok (km (fmem demo_ns)) 0x5000 (local "namei.name") (local "dirlookup.de") [47; 97].
Proof. split; [vm_compute; intuition congruence|]. split; [lia|]. split; left; by vm_compute. Qed.
Lemma demo_name_buffer : buffer_ok (local "dirlookup.de") (local "namei.name").
Proof. split; [by vm_compute|]. split; [by vm_compute|]. right. by vm_compute. Qed.
Lemma namex_correct_witness : wp (namei 0x5000) demo_ns (λ r s', 0 ≤ r < NINODE ∧ i_inum (itable s' !!! r) = 2).
Proof.
  assert (0 ≤ fp_cwd (fcur demo_ns) < NINODE) as H1 by (vm_compute; intuition congruence). assert (0 < i_ref (itable demo_ns !!! fp_cwd (fcur demo_ns))) as H2 by (vm_compute; reflexivity).
  assert (length [47; 97] < Z.to_nat MAXPATH)%nat as H3 by (vm_compute; lia). assert (room LOGSIZE demo_cache (Z.of_nat (size (chold demo_cache)))) as H4 by (apply demo_room; change (size (chold demo_cache)) with 0%nat; lia).
  pose proof (namex_correct 2 LOGSIZE demo_inodes demo_cache false 0x5000 (local "namei.name") [47; 97] demo_ns (ft_rd _ _ _ _ demo_fs_tx) demo_tree demo_tab demo_two (or_introl eq_refl) H1 H2 demo_path H3 demo_name_buffer H4) as Hw.
  assert (resolve (cview demo_cache) (fsb demo_ns) false (path_start demo_ns [47; 97]) (path_elems [47; 97]) = Some 2) as E by (vm_compute; reflexivity). rewrite E in Hw.
  eapply wp_mono; [exact Hw|]. intros r s' (_ & _ & _ & Hr & Hi & _). by split.
Defined.
