(* ===== verification/Ulib.v ===== *)
(** * user/ulib.c: the library of the user programs

    Strings and buffers are in the memory of the process; the loops that run to
    a NUL take a bound, and [None] means that it was reached. *)
From S2P Require Import Prelude Riscv CString Kern Console Printf PrintfInv UPrintf.

(** [while(( *s++ = *t++) != 0);] *)
Fixpoint strcpy (fuel : nat) (m : mem) (s t : Z) : option mem :=
  match fuel with
  | O => None
  | S fuel' =>
      let c := ld8 m t in
      let m := st8 m s c in
      if negb (c =? 0) then strcpy fuel' m (s + 1) (t + 1) else Some m
  end.
Fixpoint strcmp (fuel : nat) (m : mem) (p q : Z) : option Z :=
  match fuel with
  | O => None
  | S fuel' =>
      if negb (ld8 m p =? 0) && (ld8 m p =? ld8 m q) then strcmp fuel' m (p + 1) (q + 1)
      else Some (ld8 m p - ld8 m q)
  end.
Fixpoint ustrlen_loop (fuel : nat) (m : mem) (s n : Z) : option Z :=
  match fuel with
  | O => None
  | S fuel' => if negb (ld8 m (s + n) =? 0) then ustrlen_loop fuel' m s (n + 1) else Some n
  end.
Definition ustrlen (fuel : nat) (m : mem) (s : Z) : option Z := ustrlen_loop fuel m s 0.

Fixpoint umemset_loop (k : nat) (m : mem) (cdst c i : Z) : mem :=
  match k with
  | O => m
  | S k' => umemset_loop k' (st8 m (cdst + i) c) cdst c (i + 1)
  end.
Definition umemset (m : mem) (dst c n : Z) : mem := umemset_loop (Z.to_nat n) m dst c 0.

Fixpoint umemmove_fwd (n : nat) (m : mem) (dst src : Z) : mem :=
  match n with
  | O => m
  | S n' => umemmove_fwd n' (st8 m dst (ld8 m src)) (dst + 1) (src + 1)
  end.
Fixpoint umemmove_bwd (n : nat) (m : mem) (dst src : Z) : mem :=
  match n with
  | O => m
  | S n' => umemmove_bwd n' (st8 m (dst - 1) (ld8 m (src - 1))) (dst - 1) (src - 1)
  end.
Definition umemmove (m : mem) (vdst vsrc n : Z) : mem :=
  if vsrc >? vdst then umemmove_fwd (Z.to_nat n) m vdst vsrc
  else umemmove_bwd (Z.to_nat n) m (vdst + n) (vsrc + n).
Definition umemcpy (m : mem) (dst src n : Z) : mem := umemmove m dst src n.

Fixpoint umemcmp (n : nat) (m : mem) (p1 p2 : Z) : Z :=
  match n with
  | O => 0
  | S n' => if negb (ld8 m p1 =? ld8 m p2) then ld8 m p1 - ld8 m p2 else umemcmp n' m (p1 + 1) (p2 + 1)
  end.

(** [n = n*10 + *s++ - '0'] in int arithmetic *)
Fixpoint atoi_loop (fuel : nat) (m : mem) (s n : Z) : option Z :=
  match fuel with
  | O => None
  | S fuel' =>
      let c := ld8 m s in
      if (48 <=? c) && (c <=? 57) then atoi_loop fuel' m (s + 1) (s32 (n * 10 + c - 48)) else Some n
  end.
Definition atoi (fuel : nat) (m : mem) (s : Z) : option Z := atoi_loop fuel m s 0.

(** [gets] on the bytes [inp] that the standard input still has: the memory and
    what is left of the input.  [read] returns 0 at the end. *)
Fixpoint gets_loop (k : nat) (m : mem) (buf max i : Z) (inp : list Z) : mem * Z * list Z :=
  match k with
  | O => (m, i, inp)
  | S k' =>
      if i + 1 <? max then
        match inp with
        | [] => (m, i, [])
        | c :: inp' =>
            let m := st8 m (buf + i) c in
            if (c =? 10) || (c =? 13) then (m, i + 1, inp') else gets_loop k' m buf max (i + 1) inp'
        end
      else (m, i, inp)
  end.
Definition ugets (m : mem) (buf max : Z) (inp : list Z) : mem * list Z :=
  let '(m, i, inp) := gets_loop (Z.to_nat max) m buf max 0 inp in
  (st8 m (buf + i) 0, inp).

(** ** Strings *)
Lemma strcpy_spec fuel m s t l : cstr_at m t l → (length l < fuel)%nat → s + Z.of_nat (length l) < t ∨ t + Z.of_nat (length l) < s →
  ∃ m', strcpy fuel m s t = Some m' ∧ cstr_at m' s l ∧ ∀ a, a < s ∨ s + Z.of_nat (length l) < a → ld8 m' a = ld8 m a.
Proof.
  revert m s t l. induction fuel as [|fuel IH]; intros m s t l Hl Hlen Hap; [lia|]. cbn [strcpy]. destruct l as [|b l]; cbn [cstr_at length] in *.
  - rewrite Hl. exists (st8 m s 0). split; [done|]. split; [by rewrite ld8_st8_eq|]. intros a Ha. apply ld8_st8_ne. lia.
  - destruct Hl as (Hb & Hb0 & Hl). rewrite Hb (proj2 (Z.eqb_neq _ _) Hb0). cbn [negb]. destruct (IH (st8 m s b) (s + 1) (t + 1) l) as (m' & E & Hm' & Hout); [|lia|lia|].
    { eapply cstr_at_ext; [|exact Hl]. intros a Ha. apply ld8_st8_ne. lia. }
    exists m'. split; [done|]. split; [|intros a Ha; rewrite Hout; [apply ld8_st8_ne; lia|lia]]. split; [|done]. rewrite Hout; [|lia]. rewrite ld8_st8_eq u8_small //. rewrite -Hb. apply ld8_range.
Qed.
Lemma strcmp_spec fuel m p q l1 l2 : cstr_at m p l1 → cstr_at m q l2 → (length l1 < fuel)%nat → ∃ r, strcmp fuel m p q = Some r ∧ (r = 0 ↔ l1 = l2).
Proof.
  revert p q l1 l2. induction fuel as [|fuel IH]; intros p q l1 l2 H1 H2 Hlen; [lia|]. cbn [strcmp]. destruct l1 as [|a l1], l2 as [|b l2]; cbn [cstr_at length] in *.
  - rewrite H1 H2. exists 0. by split.
  - destruct H2 as (-> & Hb & _). rewrite H1. cbn [Z.eqb negb andb]. eexists. split; [done|]. split; [lia|done].
  - destruct H1 as (-> & Ha & _). rewrite H2 (proj2 (Z.eqb_neq _ _) Ha). cbn [negb andb]. eexists. split; [done|]. split; [lia|done].
  - destruct H1 as (-> & Ha & H1), H2 as (-> & Hb & H2). rewrite (proj2 (Z.eqb_neq _ _) Ha). cbn [negb andb]. destruct (Z.eqb_spec a b) as [->|Hne].
    + destruct (IH _ _ _ _ H1 H2 ltac:(lia)) as (r & E & Hr). exists r. split; [done|]. rewrite Hr. split; [by intros ->|by intros [= ->]].
    + eexists. split; [done|]. split; [lia|]. intros [= E _]. lia.
Qed.
Lemma ustrlen_spec fuel m s l : cstr_at m s l → (length l < fuel)%nat → ustrlen fuel m s = Some (Z.of_nat (length l)).
Proof.
  rewrite /ustrlen. assert (∀ n, cstr_at m (s + n) l → (length l < fuel)%nat → ustrlen_loop fuel m s n = Some (n + Z.of_nat (length l))) as H; [|intros Hl Hf; rewrite (H 0) //; by rewrite Z.add_0_r].
  revert l. induction fuel as [|fuel IH]; intros l n Hl Hf; [lia|]. cbn [ustrlen_loop]. destruct l as [|b l]; cbn [cstr_at length] in *; [rewrite Hl; cbn; f_equal; lia|].
  destruct Hl as (-> & Hb & Hl). rewrite (proj2 (Z.eqb_neq _ _) Hb). cbn [negb]. rewrite (IH l); [f_equal; lia| |lia]. by rewrite Z.add_assoc.
Qed.

(** ** Buffers *)
Lemma ld8_umemset_loop k m d c i a : ld8 (umemset_loop k m d c i) a = if decide (d + i ≤ a < d + i + Z.of_nat k) then u8 c else ld8 m a.
Proof.
  revert m i. induction k as [|k IH]; intros m i; cbn [umemset_loop]; [case_decide; [lia|done]|]. rewrite IH ld8_st8. repeat case_decide; done || lia.
Qed.
Lemma ld8_umemmove_fwd n m d s a : d < s → ld8 (umemmove_fwd n m d s) a = if decide (d ≤ a < d + Z.of_nat n) then ld8 m (s + (a - d)) else ld8 m a.
Proof.
  revert m d s. induction n as [|n IH]; intros m d s Hlt; cbn [umemmove_fwd]; [case_decide; [lia|done]|]. rewrite IH; [|lia].
  destruct (decide (a = d)) as [->|Hne].
  - rewrite decide_False; [|lia]. rewrite ld8_st8_eq u8_small; [|apply ld8_range]. rewrite decide_True; [|lia]. f_equal. lia.
  - destruct (decide (d + 1 ≤ a < d + 1 + Z.of_nat n)).
    + rewrite decide_True; [|lia]. rewrite ld8_st8_ne; [f_equal; lia|lia].
    + rewrite decide_False; [|lia]. by apply ld8_st8_ne.
Qed.
Lemma ld8_umemmove_bwd n m d s a : s ≤ d → ld8 (umemmove_bwd n m d s) a = if decide (d - Z.of_nat n ≤ a < d) then ld8 m (s + (a - d)) else ld8 m a.
Proof.
  revert m d s. induction n as [|n IH]; intros m d s Hle; cbn [umemmove_bwd]; [case_decide; [lia|done]|]. rewrite IH; [|lia].
  destruct (decide (a = d - 1)) as [->|Hne].
  - rewrite decide_False; [|lia]. rewrite ld8_st8_eq u8_small; [|apply ld8_range]. rewrite decide_True; [|lia]. f_equal. lia.
  - destruct (decide (d - 1 - Z.of_nat n ≤ a < d - 1)).
    + rewrite decide_True; [|lia]. rewrite ld8_st8_ne; [f_equal; lia|lia].
    + rewrite decide_False; [|lia]. by apply ld8_st8_ne.
Qed.
(** The [memmove] of the library and that of the kernel (string.c), which choose
    the direction differently, leave the same memory. *)
Theorem umemmove_memmove m d s n a : 0 ≤ n → ld8 (umemmove m d s n) a = ld8 (memmove m d s n) a.
Proof.
  intros Hn. rewrite ld8_memmove // /umemmove. destruct (Z.gtb_spec s d).
  - rewrite ld8_umemmove_fwd; [|lia]. by rewrite Z2Nat.id.
  - rewrite ld8_umemmove_bwd; [|lia]. rewrite Z2Nat.id //. repeat case_decide; try lia; first [done|f_equal; lia].
Qed.
Theorem umemcmp_memcmp n m p q : umemcmp n m p q = 0 ↔ ld_bytes n m p = ld_bytes n m q.
Proof.
  revert p q. induction n as [|n IH]; intros p q; cbn [umemcmp ld_bytes]; [done|]. destruct (Z.eqb_spec (ld8 m p) (ld8 m q)) as [E|E]; cbn [negb].
  - rewrite IH E. split; [by intros ->|by intros [= ->]].
  - split; [lia|]. intros [= ?]. lia.
Qed.

(** ** Numbers *)
Lemma fold_digits_ge l n : 0 ≤ n → Forall (λ c, 48 ≤ c ≤ 57) l → n ≤ fold_left (λ a c, a * 10 + (c - 48)) l n.
Proof.
  revert n. induction l as [|c l IH]; intros n Hn Hl; cbn [fold_left]; [done|]. apply Forall_cons in Hl as [Hc Hl]. specialize (IH (n * 10 + (c - 48)) ltac:(lia) Hl). lia.
Qed.
Lemma atoi_loop_spec fuel m s l n : cstr_at m s l → Forall (λ c, 48 ≤ c ≤ 57) l → 0 ≤ n → fold_left (λ a c, a * 10 + (c - 48)) l n < 2 ^ 31 → (length l < fuel)%nat →
  atoi_loop fuel m s n = Some (fold_left (λ a c, a * 10 + (c - 48)) l n).
Proof.
  revert s l n. induction fuel as [|fuel IH]; intros s l n Hs Hl Hn Hv Hf; [lia|]. cbn [atoi_loop]. destruct l as [|c l]; cbn [cstr_at length fold_left] in *; [by rewrite Hs|].
  destruct Hs as (-> & _ & Hs). apply Forall_cons in Hl as [Hc Hl]. pose proof (fold_digits_ge l (n * 10 + (c - 48)) ltac:(lia) Hl). rewrite (proj2 (Z.leb_le _ _)); [|lia]. rewrite (proj2 (Z.leb_le _ _)); [|lia]. cbn [andb].
  rewrite s32_small; [|lia]. replace (n * 10 + c - 48) with (n * 10 + (c - 48)) by lia. apply IH; try done; lia.
Qed.
Lemma uvalue_digits l n : Forall (λ c, 48 ≤ c ≤ 57) l → fold_left (λ a c, a * 10 + (if c <=? 57 then c - 48 else c - 55)) l n = fold_left (λ a c, a * 10 + (c - 48)) l n.
Proof.
  revert n. induction l as [|c l IH]; intros n Hl; cbn [fold_left]; [done|]. apply Forall_cons in Hl as [Hc Hl]. rewrite (proj2 (Z.leb_le _ _)); [|lia]. by apply IH.
Qed.
Lemma atoi_digits n : 0 ≤ n < 2 ^ 31 →
  ∃ ds, uprintint n 10 true = Some ds ∧ ∀ fuel m s, cstr_at m s ds → (length ds < fuel)%nat → atoi fuel m s = Some n.
Proof.
  intros Hn. destruct (uprintint_digits n 10 true) as (ds & E & Hv & _ & _ & Hd); [by left|]. assert (s32 n = n) as En by (apply s32_small; lia). rewrite /umagnitude En (proj2 (Z.ltb_ge n 0)) in E, Hv; [|lia..]. cbn [andb app] in E, Hv. specialize (Hd eq_refl).
  exists ds. split; [done|]. intros fuel m s Hs Hf. rewrite /uvalue uvalue_digits // u32_small in Hv; [|lia]. rewrite /atoi (atoi_loop_spec fuel m s ds 0) //; [by rewrite Hv|lia].
Qed.

(** [atoi] reads back what [printf] prints for [%d] of a number that is not
    negative. *)
Theorem atoi_printint n : 0 ≤ n < 2 ^ 31 →
  ∃ ds, uprintint n 10 true = Some ds ∧ ∀ fuel m s, cstr_at m s ds → (length ds < fuel)%nat → atoi fuel m s = Some n.
Proof. apply atoi_digits. Qed.
