(* ===== verification/Xargs.v ===== *)
(** * user/xargs.c

    The standard input is the list of the bytes that are still to be read.  Each
    fork, exec and wait is recorded with the arguments and with what came of it:
    the k-th fork may fail, and so may the exec in the child; a command that runs
    may itself read from the standard input, and ends.  The arrays [buf] and [cmd] are
    lists, and an index beyond their end is a panic.

    [char c] is declared in the body of the loop without a value: [fresh] gives
    the value it has at the start of a turn from the one it had at the end of
    the turn before, which is the identity when the variable keeps its place on
    the stack. *)
From S2P Require Import Prelude Riscv Split.

Definition XBUF : nat := Z.to_nat 512.
Inductive xrun := Ran (argv : list (list Z)) | ExecFailed (argv : list (list Z)) | ForkFailed (argv : list (list Z)).
Record xworld := mk_xworld { x_in : list Z; x_runs : list xrun }.

(** Entries of [cmd]: an argument of the program, or an address in [buf]. *)
Inductive carg := Argv (a : list Z) | Buf (j : nat).

Definition buf_get (buf : list Z) (j : nat) : M xworld Z :=
  match buf !! j with Some c => mret c | None => panic "buf" end.
Definition buf_set (buf : list Z) (j : nat) (c : Z) : M xworld (list Z) :=
  if decide (j < XBUF)%nat then mret (<[j := c]> buf) else panic "buf".
Definition is_blank (c : Z) : bool := (c =? 32) || (c =? 9).

(** [read(0, &c, 1) == 1] *)
Definition read1 : M xworld (option Z) :=
  inp ← gets x_in;
  match inp with
  | [] => mret None
  | c :: inp' => modify (λ w, mk_xworld inp' (x_runs w));; mret (Some c)
  end.
(** The loop that reads a line: [c], [n] and [buf] *)
Fixpoint read_line (fuel : nat) (c : Z) (n : nat) (buf : list Z) : M xworld (Z * nat * list Z) :=
  match fuel with
  | O => mret (c, n, buf)
  | S fuel' =>
      r ← read1;
      match r with
      | None => mret (c, n, buf)
      | Some c =>
          if c =? 10 then mret (c, n, buf)
          else if decide (n < XBUF - 1)%nat then buf ← buf_set buf n c; read_line fuel' c (n + 1) buf
          else read_line fuel' c n buf
      end
  end.
(** [while(buf[j] == ' ' || buf[j] == '\t') j++;] *)
Fixpoint skip_blanks (fuel : nat) (buf : list Z) (j : nat) : M xworld nat :=
  match fuel with
  | O => mret j
  | S fuel' => c ← buf_get buf j; if is_blank c then skip_blanks fuel' buf (j + 1) else mret j
  end.
(** [while(j < n && buf[j] != ' ' && buf[j] != '\t') j++;] *)
Fixpoint skip_arg (fuel : nat) (buf : list Z) (n j : nat) : M xworld nat :=
  match fuel with
  | O => mret j
  | S fuel' => if decide (j < n)%nat then c ← buf_get buf j; if is_blank c then mret j else skip_arg fuel' buf n (j + 1) else mret j
  end.
(** [cmd[argi] = ...]: [cmd] has the entries before [argi], which are all that
    [exec] looks at *)
Definition cmd_set (cmd : list carg) (a : carg) : M xworld (list carg) :=
  if decide (length cmd < Z.to_nat MAXARG)%nat then mret (cmd ++ [a]) else panic "cmd".
Fixpoint split_line (fuel : nat) (n j : nat) (buf : list Z) (cmd : list carg) : M xworld (list Z * list carg) :=
  match fuel with
  | O => mret (buf, cmd)
  | S fuel' =>
      if decide (j < n)%nat then
        j ← skip_blanks XBUF buf j;
        if decide (n ≤ j)%nat then mret (buf, cmd)
        else
          cmd ← cmd_set cmd (Buf j);
          j ← skip_arg XBUF buf n j;
          buf ← buf_set buf j 0;
          if decide (Z.to_nat MAXARG - 1 ≤ length cmd)%nat then mret (buf, cmd)
          else split_line fuel' n (j + 1) buf cmd
      else mret (buf, cmd)
  end.

(** The string of an entry, up to its NUL *)
Fixpoint cut0 (l : list Z) : list Z :=
  match l with
  | [] => []
  | b :: l' => if b =? 0 then [] else b :: cut0 l'
  end.
Definition arg_string (buf : list Z) (a : carg) : list Z :=
  match a with Argv s => s | Buf j => cut0 (drop j buf) end.

Section xargs.
Context (child : list (list Z) → list Z → list Z) (fork_ok : nat → bool) (exec_ok : nat → list (list Z) → bool) (fresh : Z → Z).

(** fork, exec and wait: the command runs with what is left of the input. *)
Definition run_cmd (argv : list (list Z)) : M xworld unit :=
  w ← get;
  let k := length (x_runs w) in
  let log (r : xrun) (inp : list Z) := modify (λ w, mk_xworld inp (x_runs w ++ [r])) in
  if negb (fork_ok k) then log (ForkFailed argv) (x_in w)
  else if negb (exec_ok k argv) then log (ExecFailed argv) (x_in w)
  else log (Ran argv) (child argv (x_in w)).

(** The body of [while(1)]: the value of [c] at its end if the loop goes on *)
Definition xargs_turn (base : list carg) (c : Z) (buf : list Z) : M xworld (option Z * list Z) :=
  inp ← gets x_in;
  r ← read_line (S (length inp)) (fresh c) 0 buf;
  let '(c, n, buf) := r in
  if (n =? 0)%nat && negb (c =? 10) then mret (None, buf)
  else
    buf ← buf_set buf n 0;
    r ← split_line XBUF n 0 buf base;
    let '(buf, cmd) := r in
    (if decide (length cmd < Z.to_nat MAXARG)%nat then mret tt else panic "cmd");;
    run_cmd (arg_string buf <$> cmd);;
    if negb (c =? 10) then mret (None, buf) else mret (Some c, buf).

(** Whether [main] got to its [exit(0)] within [fuel] turns *)
Fixpoint xargs_loop (fuel : nat) (base : list carg) (c : Z) (buf : list Z) : M xworld bool :=
  match fuel with
  | O => mret false
  | S fuel' =>
      r ← xargs_turn base c buf;
      match r with
      | (None, _) => mret true
      | (Some c, buf) => xargs_loop fuel' base c buf
      end
  end.
Definition xargs (fuel : nat) (argv : list (list Z)) (c : Z) (buf : list Z) : M xworld bool :=
  xargs_loop fuel (Argv <$> take (Z.to_nat MAXARG - 2) (drop 1 argv)) c buf.
End xargs.

(** ** Lines and words *)
Definition is_nl (b : Z) : bool := b =? 10.
(** The lines of the input, the last of which may lack its newline *)
Fixpoint lines (l : list Z) : list (list Z) :=
  match l with
  | [] => []
  | b :: l' => if is_nl b then [] :: lines l' else match lines l' with [] => [[b]] | e :: es => (b :: e) :: es end
  end.
Definition words : list Z → list (list Z) := elems is_blank.

Lemma lines_first l : l ≠ [] → lines l = (first_elem is_nl l).1 :: lines (drop 1 (first_elem is_nl l).2).
Proof.
  induction l as [|b l IH]; [done|]. intros _. cbn [lines first_elem]. destruct (is_nl b) eqn:E; [done|]. destruct l as [|c l]; [done|]. rewrite IH //. by destruct (first_elem is_nl (c :: l)).
Qed.

(** ** Reading a line *)
Lemma wp_buf_set buf j c w Q : (j < XBUF)%nat → Q (<[j := c]> buf) w → wp (buf_set buf j c) w Q.
Proof. intros Hj HQ. rewrite /buf_set decide_True //. by apply wp_mret. Qed.
Lemma wp_buf_get buf j c w Q : buf !! j = Some c → Q c w → wp (buf_get buf j) w Q.
Proof. intros Hj HQ. rewrite /buf_get Hj. by apply wp_mret. Qed.

Definition line_read (line rest : list Z) (c : Z) (n : nat) (buf : list Z) (runs : list xrun) (r : Z * nat * list Z) (w : xworld) : Prop :=
  let '(c', n', buf') := r in
  w = mk_xworld (drop 1 rest) runs ∧ c' = (if decide (rest = []) then List.last line c else 10) ∧
  length buf' = XBUF ∧ n' = (n + length (take (XBUF - 1 - n) line))%nat ∧ take n' buf' = take n buf ++ take (XBUF - 1 - n) line.
Lemma read_line_spec fuel c n buf inp runs : (length inp < fuel)%nat → length buf = XBUF → (n < XBUF)%nat →
  wp (read_line fuel c n buf) (mk_xworld inp runs) (line_read (first_elem is_nl inp).1 (first_elem is_nl inp).2 c n buf runs).
Proof.
  revert c n buf inp. induction fuel as [|fuel IH]; intros c n buf inp Hf Hb Hn; [lia|]. cbn [read_line]. apply wp_bind, wp_bind, wp_gets. cbn [x_in]. destruct inp as [|b inp].
  - apply wp_mret, wp_mret. split; [done|]. split; [done|]. split; [done|]. cbn [fst]. rewrite take_nil. cbn [length]. split; [lia|]. by rewrite app_nil_r.
  - apply wp_bind, wp_modify, wp_mret. cbn [x_runs first_elem length] in *. change (b =? 10) with (is_nl b). destruct (is_nl b) eqn:Eb.
    + apply wp_mret. split; [done|]. split; [by apply Z.eqb_eq in Eb|]. split; [done|]. cbn [fst]. rewrite take_nil. cbn [length]. split; [lia|]. by rewrite app_nil_r.
    + assert (∀ n1 buf1, length buf1 = XBUF → (n1 < XBUF)%nat → wp (read_line fuel b n1 buf1) (mk_xworld inp runs) (line_read (first_elem is_nl inp).1 (first_elem is_nl inp).2 b n1 buf1 runs)) as Hrec by (intros; apply IH; [lia|done|done]).
      destruct (first_elem is_nl inp) as [line rest]. cbn [fst snd] in *. assert (List.last (b :: line) c = List.last line b) as El by (clear; revert b c; induction line as [|d line IHl]; intros b c; [done|]; cbn; cbn in IHl; destruct line; [done|]; by rewrite (IHl d b)).
      destruct (decide (n < XBUF - 1)%nat) as [Hlt|Hge].
      * apply wp_bind, wp_buf_set; [lia|]. eapply wp_mono; [apply Hrec; [by rewrite length_insert|lia]|]. intros [[c' n'] buf'] w (-> & -> & Hlen & -> & Ht).
        rewrite /line_read. replace (XBUF - 1 - n)%nat with (S (XBUF - 1 - (n + 1)))%nat by lia. cbn [take length]. split; [done|]. split; [by rewrite El|]. split; [done|]. split; [lia|].
        rewrite Ht. rewrite Nat.add_1_r (take_S_r _ _ b); [|rewrite list_lookup_insert_eq //; lia]. rewrite take_insert_ge; [|lia]. by rewrite -app_assoc.
      * eapply wp_mono; [by apply Hrec|]. intros [[c' n'] buf'] w (-> & -> & Hlen & -> & Ht). rewrite /line_read. split; [done|]. split; [by rewrite El|]. split; [done|].
        replace (XBUF - 1 - n)%nat with 0%nat in * by lia. cbn [take length] in *. by split.
Qed.

(** ** Cutting the line into words *)
Section words.
Context (n : nat).
Definition text (j : nat) (buf : list Z) : list Z := drop j (take n buf).
Lemma text_cons j buf c : (j < n)%nat → buf !! j = Some c → text j buf = c :: text (j + 1) buf.
Proof. intros Hj Hc. rewrite /text Nat.add_1_r. apply drop_S. by rewrite lookup_take_lt. Qed.
Lemma text_end j buf : (n ≤ j)%nat → text j buf = [].
Proof. intros Hj. apply drop_ge. rewrite length_take. lia. Qed.

Lemma skip_blanks_spec fuel j buf w : length buf = XBUF → (n < XBUF)%nat → buf !! n = Some 0 → (j ≤ n)%nat → (n - j < fuel)%nat →
  wp (skip_blanks fuel buf j) w (λ j' w', w' = w ∧ (j ≤ j' ≤ n)%nat ∧ text j' buf = strip is_blank (text j buf)).
Proof.
  intros Hb Hn H0. revert j. induction fuel as [|fuel IH]; intros j Hj Hf; [lia|]. cbn [skip_blanks]. destruct (lookup_lt_is_Some_2 buf j) as [c Hc]; [lia|]. apply wp_bind. eapply wp_buf_get; [exact Hc|].
  destruct (decide (j = n)) as [->|Hne].
  - assert (c = 0) as -> by congruence. apply wp_mret. split; [done|]. split; [lia|]. by rewrite text_end.
  - rewrite (text_cons j buf c); [|lia|done]. cbn [strip]. destruct (is_blank c) eqn:Eb.
    + eapply wp_mono; [apply (IH (j + 1)%nat); lia|]. intros j' w' (-> & Hj' & E). split; [done|]. split; [lia|done].
    + apply wp_mret. split; [done|]. split; [lia|]. apply text_cons; [lia|done].
Qed.
Lemma skip_arg_spec fuel j buf w : length buf = XBUF → (n < XBUF)%nat → (j ≤ n)%nat → (n - j < fuel)%nat →
  wp (skip_arg fuel buf n j) w (λ j' w', w' = w ∧ (j ≤ j' ≤ n)%nat ∧ first_elem is_blank (text j buf) = (take (j' - j) (text j buf), text j' buf)).
Proof.
  intros Hb Hn. revert j. induction fuel as [|fuel IH]; intros j Hj Hf; [lia|]. cbn [skip_arg]. destruct (decide (j < n)%nat) as [Hlt|Hge].
  - destruct (lookup_lt_is_Some_2 buf j) as [c Hc]; [lia|]. apply wp_bind. eapply wp_buf_get; [exact Hc|]. rewrite (text_cons j buf c); [|lia|done]. cbn [first_elem]. destruct (is_blank c) eqn:Eb.
    + apply wp_mret. split; [done|]. split; [lia|]. rewrite Nat.sub_diag. cbn [take]. f_equal. symmetry. apply text_cons; [lia|done].
    + eapply wp_mono; [apply (IH (j + 1)%nat); lia|]. intros j' w' (-> & Hj' & E). split; [done|]. split; [lia|]. rewrite E. replace (j' - j)%nat with (S (j' - (j + 1))) by lia. done.
  - apply wp_mret. split; [done|]. split; [lia|]. rewrite text_end; [|lia]. by rewrite take_nil.
Qed.

Lemma cut0_spec l k : (∀ i c, (i < k)%nat → l !! i = Some c → c ≠ 0) → l !! k = Some 0 → cut0 l = take k l.
Proof.
  revert k. induction l as [|b l IH]; intros k Hnz H0; [by rewrite lookup_nil in H0|]. cbn [cut0]. destruct k as [|k].
  - injection H0 as ->. done.
  - rewrite (proj2 (Z.eqb_neq b 0)); [|apply (Hnz 0%nat); [lia|done]]. cbn [take]. f_equal. apply IH; [|done]. intros i c Hi Hc. apply (Hnz (S i)); [lia|done].
Qed.
Lemma text_same j buf buf' : (∀ i, (j ≤ i < n)%nat → buf' !! i = buf !! i) → text j buf' = text j buf.
Proof.
  intros Hs. apply list_eq. intros i. rewrite /text !lookup_drop. destruct (decide (j + i < n)%nat); [|by rewrite !lookup_take_ge; [|lia..]]. rewrite !lookup_take_lt //. apply Hs. lia.
Qed.
(** The word from [j] to [j'] is the string at [j]. *)
Lemma arg_string_word j j' buf buf' : (j ≤ j' ≤ n)%nat → (∀ i c, (j ≤ i < n)%nat → buf !! i = Some c → c ≠ 0) → (∀ i, (i < j')%nat → buf' !! i = buf !! i) → buf' !! j' = Some 0 →
  arg_string buf' (Buf j) = take (j' - j) (text j buf).
Proof.
  intros Hj Hnz Hs H0. cbn [arg_string]. rewrite (cut0_spec _ (j' - j)).
  - apply list_eq. intros i. destruct (decide (i < j' - j)%nat); [|by rewrite !lookup_take_ge; [|lia..]]. rewrite !lookup_take_lt // /text !lookup_drop lookup_take_lt; [|lia]. apply Hs. lia.
  - intros i c Hi. rewrite lookup_drop Hs; [|lia]. intros Hc. apply (Hnz (j + i)%nat); [lia|done].
  - rewrite lookup_drop. by replace (j + (j' - j))%nat with j' by lia.
Qed.

(** The words [cmd] gets, with room for [k] more *)
Definition split_post (k j : nat) (buf : list Z) (cmd : list carg) (w : xworld) (r : list Z * list carg) (w' : xworld) : Prop :=
  w' = w ∧ length r.1 = XBUF ∧ (∀ i, (i < j)%nat → r.1 !! i = buf !! i) ∧ ∃ new, r.2 = cmd ++ new ∧ arg_string r.1 <$> new = take k (words (text j buf)).
Lemma split_line_spec fuel j buf cmd w : length buf = XBUF → (n < XBUF)%nat → buf !! n = Some 0 → (∀ i c, (j ≤ i < n)%nat → buf !! i = Some c → c ≠ 0) → (n - j < fuel)%nat → (length cmd < Z.to_nat MAXARG - 1)%nat →
  wp (split_line fuel n j buf cmd) w (split_post (Z.to_nat MAXARG - 1 - length cmd) j buf cmd w).
Proof.
  intros Hb Hn. revert j buf cmd Hb. induction fuel as [|fuel IH]; intros j buf cmd Hb H0 Hnz Hf Hc; [lia|]. cbn [split_line].
  assert (∀ k, words (text j buf) = [] → split_post k j buf cmd w (buf, cmd) w) as Hnone.
  { intros k E. split; [done|]. split; [done|]. split; [done|]. exists []. rewrite app_nil_r E take_nil. done. }
  destruct (decide (j < n)%nat) as [Hlt|Hge]; [|apply wp_mret, Hnone; rewrite text_end; [done|lia]].
  apply wp_bind. eapply wp_mono; [apply skip_blanks_spec; try done; lia|]. intros j1 w' (-> & Hj1 & E1). pose proof (elems_strip is_blank (text j buf)) as Ew. rewrite -E1 in Ew. fold words in Ew.
  destruct (decide (n ≤ j1)%nat) as [Hend|Hmore]; [apply wp_mret, Hnone; rewrite -Ew text_end //|].
  apply wp_bind. rewrite /cmd_set decide_True; [|lia]. apply wp_mret, wp_bind. eapply wp_mono; [apply skip_arg_spec; try done; lia|]. intros j2 w' (-> & Hj2 & E2).
  destruct (lookup_lt_is_Some_2 buf j1) as [b Hbj]; [lia|]. pose proof (text_cons j1 buf b ltac:(lia) Hbj) as Et.
  assert (is_blank b = false) as Hnb by (apply (strip_head is_blank (text j buf) b (text (j1 + 1) buf)); by rewrite -E1).
  destruct (elems_cons is_blank b (text (j1 + 1) buf) Hnb) as [Ecw Hne]. rewrite -Et E2 in Ecw, Hne. cbn [fst snd] in Ecw, Hne. fold words in Ecw.
  assert (j1 < j2)%nat as Hlt2. { destruct (decide (j1 = j2)) as [<-|]; [|lia]. by rewrite Nat.sub_diag in Hne. }
  apply wp_bind, wp_buf_set; [lia|]. set (buf1 := <[j2 := 0]> buf). assert (buf1 !! j2 = Some 0) as Hz by (apply list_lookup_insert_eq; lia).
  assert (∀ i, i ≠ j2 → buf1 !! i = buf !! i) as Hsame by (intros; by apply list_lookup_insert_ne).
  assert (words (text j2 buf) = words (text (j2 + 1) buf1)) as Ewr.
  { rewrite (text_same (j2 + 1) buf buf1); [|intros; apply Hsame; lia]. destruct (decide (j2 < n)%nat) as [Hl2|]; [|by rewrite !text_end; [|lia..]]. destruct (lookup_lt_is_Some_2 buf j2) as [d Hd]; [lia|].
    rewrite (text_cons j2 buf d) //. apply elems_sep. pose proof (first_elem_rest is_blank (text j1 buf)) as Hr. rewrite E2 (text_cons j2 buf d) // in Hr. destruct Hr as [Hr|(e & r & Hr & He)]; [discriminate Hr|]. by injection Hr as -> _. }
  assert (∀ buf', (∀ i, (i < j2 + 1)%nat → buf' !! i = buf1 !! i) → arg_string buf' (Buf j1) = take (j2 - j1) (text j1 buf)) as Hstr.
  { intros buf' Hs. apply arg_string_word; [lia|intros i c Hi; apply Hnz; lia|intros i Hi; rewrite Hs; [apply Hsame; lia|lia]|rewrite Hs; [done|lia]]. }
  destruct (decide (Z.to_nat MAXARG - 1 ≤ length (cmd ++ [Buf j1]))%nat) as [Hfull|Hroom]; rewrite length_app in Hfull || rewrite length_app in Hroom; cbn [length] in *.
  - apply wp_mret. split; [done|]. split; [by rewrite length_insert|]. split; [intros i Hi; apply Hsame; lia|]. exists [Buf j1]. split; [done|]. cbn [snd fmap list_fmap fst]. rewrite Hstr // -Ew Ecw.
    by replace (Z.to_nat MAXARG - 1 - length cmd)%nat with 1%nat by lia.
  - eapply wp_mono; [apply (IH (j2 + 1)%nat buf1 (cmd ++ [Buf j1]))|].
    + by rewrite length_insert.
    + destruct (decide (n = j2)) as [->|]; [done|]. by rewrite Hsame.
    + intros i c Hi. rewrite Hsame; [|lia]. apply Hnz. lia.
    + lia.
    + rewrite length_app. cbn [length]. lia.
    + intros [buf' cmd'] w' (-> & Hb' & Hs & new & Ec & En). cbn [fst snd] in *. split; [done|]. split; [done|]. split; [intros i Hi; rewrite Hs; [apply Hsame; lia|lia]|]. exists (Buf j1 :: new). split; [cbn; by rewrite Ec -app_assoc|].
      cbn [fmap list_fmap fst]. rewrite Hstr // -Ew Ecw En -Ewr length_app. cbn [length]. by replace (Z.to_nat MAXARG - 1 - length cmd)%nat with (S (Z.to_nat MAXARG - 1 - (length cmd + 1))) by lia.
Qed.
End words.

(** ** The program *)
Lemma in_drop (b : Z) k l : b ∈ drop k l → b ∈ l.
Proof. intros [i Hi]%list_elem_of_lookup. rewrite lookup_drop in Hi. by eapply list_elem_of_lookup_2. Qed.
Lemma last_in (l : list Z) d : l ≠ [] → List.last l d ∈ l.
Proof. induction l as [|b l IH]; [done|]. intros _. destruct l as [|e l]; [cbn; set_solver|]. apply elem_of_cons. right. by apply IH. Qed.
Section run.
Context (child : list (list Z) → list Z → list Z) (fork_ok : nat → bool) (exec_ok : nat → list (list Z) → bool) (fresh : Z → Z) (args : list (list Z)).
Hypothesis Hchild : ∀ argv inp, child argv inp = inp.
Hypothesis Hargs : (length args ≤ Z.to_nat MAXARG - 2)%nat.
Let base := Argv <$> args.
(** The command for a line: the arguments of the program and the words of the
    first 511 bytes of the line, at most 31 in all *)
Definition command (line : list Z) : list (list Z) := args ++ take (Z.to_nat MAXARG - 1 - length args) (words (take (XBUF - 1) line)).

Lemma arg_string_base buf : arg_string buf <$> base = args.
Proof. rewrite /base -list_fmap_compose. apply list_fmap_id. Qed.

(** What comes of the k-th command, and of one command a line *)
Definition attempt (k : nat) (argv : list (list Z)) : xrun :=
  if negb (fork_ok k) then ForkFailed argv else if negb (exec_ok k argv) then ExecFailed argv else Ran argv.
Fixpoint attempts (k : nat) (ls : list (list Z)) : list xrun :=
  match ls with [] => [] | line :: ls' => attempt k (command line) :: attempts (S k) ls' end.
Lemma wp_run_cmd argv w (Q : unit → xworld → Prop) :
  Q tt (mk_xworld (x_in w) (x_runs w ++ [attempt (length (x_runs w)) argv])) → wp (run_cmd child fork_ok exec_ok argv) w Q.
Proof using Hchild. intros HQ. apply wp_bind, wp_get. cbv zeta. rewrite /attempt in HQ. destruct (negb (fork_ok _)); [by apply wp_modify|]. destruct (negb (exec_ok _ _)); apply wp_modify; [done|]. by rewrite Hchild. Qed.
Lemma attempts_snoc runs line ls : (runs ++ [attempt (length runs) (command line)]) ++ attempts (length (runs ++ [attempt (length runs) (command line)])) ls = runs ++ attempts (length runs) (line :: ls).
Proof using Type. rewrite -app_assoc length_app Nat.add_1_r. done. Qed.

(** A turn that has something to read, or does not notice that it has not *)
Lemma xargs_turn_spec c buf inp runs (line := (first_elem is_nl inp).1) (rest := (first_elem is_nl inp).2) : length buf = XBUF → 0 ∉ inp →
  (inp = [] → fresh c = 10) →
  wp (xargs_turn child fork_ok exec_ok fresh base c buf) (mk_xworld inp runs)
     (λ r w, length r.2 = XBUF ∧ w = mk_xworld (drop 1 rest) (runs ++ [attempt (length runs) (command line)]) ∧ r.1 = if decide (rest = [] ∧ inp ≠ []) then None else Some 10).
Proof using Hargs Hchild.
  intros Hb H0 Hc. apply wp_bind, wp_gets. cbn [x_in]. assert (0 < XBUF)%nat as HX by (unfold XBUF; lia). apply wp_bind. eapply wp_mono; [apply read_line_spec; [lia|done|lia]|].
  fold line rest. intros [[c' n] buf1] w (-> & Ec & Hb1 & En & Et). rewrite Nat.sub_0_r in En, Et. cbn [take app] in Et.
  assert (c' = 10 ∨ n ≠ 0%nat) as Hgo. { destruct (decide (rest = [])) as [Er|]; [|by left]. destruct inp as [|b inp]; [left; rewrite Ec; by apply Hc|]. right. assert (line ≠ []) as Hl by (intros El; pose proof (first_elem_app is_nl (b :: inp)) as Ha; fold line rest in Ha; rewrite El Er in Ha; discriminate Ha). destruct line; [done|]. rewrite En. replace (XBUF - 1)%nat with (S (XBUF - 2)) by (unfold XBUF; lia). cbn. lia. }
  assert (((n =? 0)%nat && negb (c' =? 10)) = false) as ->. { destruct Hgo as [-> |Hn]; [by rewrite andb_false_r|]. by rewrite (proj2 (Nat.eqb_neq n 0) Hn). }
  assert (n < XBUF)%nat as HnX by (rewrite En length_take; lia). apply wp_bind, wp_buf_set; [done|]. set (buf2 := <[n := 0]> buf1). assert (take n buf2 = take (XBUF - 1) line) as Et2 by (rewrite /buf2 take_insert_ge; [done|lia]).
  apply wp_bind. eapply wp_mono; [apply (split_line_spec n XBUF 0 buf2 base)|].
  - by rewrite length_insert.
  - done.
  - apply list_lookup_insert_eq. lia.
  - intros i d Hi Hd ->. apply H0. rewrite (first_elem_app is_nl inp). apply elem_of_app. left. fold line. assert (take n buf2 !! i = Some 0) as Hi0 by (rewrite lookup_take_lt; [done|lia]). rewrite Et2 in Hi0. apply list_elem_of_lookup_2, elem_of_take in Hi0 as (k & Hk & _). by eapply list_elem_of_lookup_2.
  - lia.
  - rewrite /base length_fmap. unfold MAXARG in *. lia.
  - intros [buf3 cmd] w (-> & Hb3 & _ & new & Ecmd & Enew). cbn [fst snd] in *. rewrite /base length_fmap in Enew. rewrite /text drop_0 Et2 in Enew.
    assert (length cmd < Z.to_nat MAXARG)%nat as Hlen. { rewrite Ecmd length_app /base length_fmap -(length_fmap (arg_string buf3) new) Enew length_take. unfold MAXARG in *. lia. }
    apply wp_bind. rewrite decide_True //. apply wp_mret, wp_bind. rewrite Ecmd fmap_app arg_string_base Enew. fold (command line). apply wp_run_cmd. cbn [x_in x_runs].
    destruct (decide (rest = [] ∧ inp ≠ [])) as [[Er Hi]|Hn].
    + rewrite Er in Ec. destruct (decide ([] = [])) as [_|]; [|done]. rewrite (proj2 (Z.eqb_neq c' 10)); [by apply wp_mret|]. assert (line ≠ []) as Hl by (intros El; pose proof (first_elem_app is_nl inp) as Ha; fold line rest in Ha; by rewrite El Er in Ha).
      pose proof (first_elem_sep is_nl inp) as Hsep. fold line in Hsep. rewrite Forall_forall in Hsep. specialize (Hsep _ (last_in line (fresh c) Hl)). rewrite -Ec in Hsep. by apply Z.eqb_neq in Hsep.
    + assert (c' = 10) as ->. { rewrite Ec. destruct (decide (rest = [])) as [Er|]; [|done]. destruct (decide (inp = [])) as [Ei|]; [|tauto]. subst line. rewrite Ei. by apply Hc. }
      by apply wp_mret.
Qed.

(** At the end of the input, noticed *)
Lemma xargs_turn_eof c buf runs : length buf = XBUF → fresh c ≠ 10 → wp (xargs_turn child fork_ok exec_ok fresh base c buf) (mk_xworld [] runs) (λ r w, w = mk_xworld [] runs ∧ r.1 = None).
Proof using Hargs.
  intros Hb Hc. assert (0 < XBUF)%nat as HX by (unfold XBUF; lia). apply wp_bind, wp_gets, wp_bind. eapply wp_mono; [apply read_line_spec; [cbn; lia|done|lia]|]. intros [[c' n] buf1] w (-> & Ec & _ & En & _).
  cbn [first_elem fst snd] in Ec, En. rewrite take_nil in En. cbn in En. destruct (decide ([] = [])) as [_|]; [|done]. cbn in Ec. rewrite En Ec (proj2 (Z.eqb_neq _ _) Hc). by apply wp_mret.
Qed.

Lemma xargs_loop_spec fuel c buf inp runs : (∀ c, fresh c ≠ 10) → length buf = XBUF → 0 ∉ inp → (length (lines inp) < fuel)%nat →
  wp (xargs_loop child fork_ok exec_ok fresh fuel base c buf) (mk_xworld inp runs) (λ r w, r = true ∧ w = mk_xworld [] (runs ++ attempts (length runs) (lines inp))).
Proof using Hargs Hchild.
  intros Hfresh. revert c buf inp runs. induction fuel as [|fuel IH]; intros c buf inp runs Hb H0 Hf; [lia|]. cbn [xargs_loop]. apply wp_bind. destruct (decide (inp = [])) as [->|Hi].
  - eapply wp_mono; [by apply xargs_turn_eof|]. intros [r1 r2] w [-> E]. cbn in E. subst r1. apply wp_mret. split; [done|]. by rewrite app_nil_r.
  - eapply wp_mono; [apply xargs_turn_spec; [done|done|tauto]|]. intros [r1 buf1] w (Hb1 & -> & Er1). cbn [fst snd] in *. subst r1. pose proof (lines_first inp Hi) as El. destruct (decide _) as [[Er _]|Hr].
    + apply wp_mret. split; [done|]. rewrite El Er. done.
    + set (rest := (first_elem is_nl inp).2) in *. eapply wp_mono; [apply IH; [done| |rewrite El in Hf; cbn in Hf; lia]|].
      * intros Hin. apply H0. rewrite (first_elem_app is_nl inp). apply elem_of_app. right. fold rest. by eapply in_drop.
      * intros r w [-> ->]. split; [done|]. by rewrite El attempts_snoc.
Qed.

(** The input ends with a newline, or it has ended and [c] still has one. *)
Definition newline_last (c : Z) (inp : list Z) : Prop := (inp = [] ∧ c = 10) ∨ ∃ l, inp = l ++ [10].
Lemma newline_rest c inp : newline_last c inp → inp ≠ [] → (first_elem is_nl inp).2 ≠ [] ∧ newline_last 10 (drop 1 (first_elem is_nl inp).2).
Proof using Type.
  intros [[-> _]|[l ->]] Hn; [done|]. clear Hn. induction l as [|b l [IH1 IH2]]; cbn [app first_elem].
  - split; [discriminate|by left].
  - destruct (is_nl b); [split; [discriminate|]; right; exists l; reflexivity|]. by destruct (first_elem is_nl (l ++ [10])).
Qed.
(** The lines of the first [fuel] turns, when the end is not noticed *)
Definition turns (fuel : nat) (inp : list Z) : list (list Z) := take fuel (lines inp) ++ replicate (fuel - length (lines inp)) [].
Lemma turns_S fuel inp : turns (S fuel) inp = (first_elem is_nl inp).1 :: turns fuel (drop 1 (first_elem is_nl inp).2).
Proof using Type.
  destruct (decide (inp = [])) as [->|Hi]; [rewrite /turns; cbn; by rewrite take_nil Nat.sub_0_r|]. rewrite /turns (lines_first inp Hi). done.
Qed.
Lemma xargs_loop_forever fuel c buf inp runs : (∀ c, fresh c = c) → length buf = XBUF → 0 ∉ inp → newline_last c inp →
  wp (xargs_loop child fork_ok exec_ok fresh fuel base c buf) (mk_xworld inp runs) (λ r w, r = false ∧ x_runs w = runs ++ attempts (length runs) (turns fuel inp)).
Proof using Hargs Hchild.
  intros Hid. revert c buf inp runs. induction fuel as [|fuel IH]; intros c buf inp runs Hb H0 Hnl; cbn [xargs_loop].
  { apply wp_mret. split; [done|]. by rewrite /turns app_nil_r. }
  apply wp_bind. eapply wp_mono; [apply xargs_turn_spec; [done|done|]|].
  { intros ->. rewrite Hid. destruct Hnl as [[_ ->]|[l E]]; [done|]. destruct l; discriminate E. }
  intros [r1 buf1] w (Hb1 & -> & Er1). cbn [fst snd] in *. subst r1.
  assert (newline_last 10 (drop 1 (first_elem is_nl inp).2) ∧ ¬ ((first_elem is_nl inp).2 = [] ∧ inp ≠ [])) as [Hnl' Hgo].
  { destruct (decide (inp = [])) as [->|Hi]; [split; [by left|tauto]|]. destruct (newline_rest c inp Hnl Hi) as [Hr Hnl']. tauto. }
  rewrite decide_False //. eapply wp_mono; [apply IH; [done| |done]|].
  - intros Hin. apply H0. rewrite (first_elem_app is_nl inp). apply elem_of_app. right. by eapply in_drop.
  - intros r w [-> ->]. split; [done|]. by rewrite turns_S attempts_snoc.
Qed.
End run.

(** C21. xargs reads its standard input line by line and runs one command a line:
    its own arguments followed by the words of the line, in order, at most 31
    together and from the first 511 bytes of the line.  Only a newline ends a
    line; a last line without one counts, and the program ends after it.  A fork
    or an exec that fails costs its own line only.  No index leaves [buf] or
    [cmd].  This assumes that the commands end and leave the standard input alone,
    that no byte of the input is NUL, and that [c], which is declared without a
    value in the loop, does not happen to be a newline when a turn starts. *)
Theorem xargs_correct child fork_ok exec_ok fresh fuel argv c buf inp :
  (∀ argv inp, child argv inp = inp) → (∀ c, fresh c ≠ 10) → length buf = XBUF → 0 ∉ inp → (length (lines inp) < fuel)%nat →
  wp (xargs child fork_ok exec_ok fresh fuel argv c buf) (mk_xworld inp [])
     (λ r w, r = true ∧ w = mk_xworld [] (attempts fork_ok exec_ok (take (Z.to_nat MAXARG - 2) (drop 1 argv)) 0 (lines inp))).
Proof. intros Hch Hfr Hb H0 Hf. apply (xargs_loop_spec child fork_ok exec_ok fresh); try done. rewrite length_take. lia. Qed.

(** C24. If [c] keeps its place on the stack between two turns, its value at the end
    of the input is the newline of the last line: on every input that ends with
    a newline xargs does not notice the end.  After any number of turns it has
    not ended; the turns so far ran the commands of the lines and then, again and
    again, the command for an empty line, which is its own arguments alone.  The
    commands are assumed to end and to leave the standard input alone, and no
    byte of the input to be NUL. *)
Theorem xargs_never_ends child fork_ok exec_ok fresh fuel argv c buf l :
  let args := take (Z.to_nat MAXARG - 2) (drop 1 argv) in
  let ls := lines (l ++ [10]) in
  (∀ argv inp, child argv inp = inp) → (∀ c, fresh c = c) → length buf = XBUF → 0 ∉ l →
  command args [] = args ∧
  wp (xargs child fork_ok exec_ok fresh fuel argv c buf) (mk_xworld (l ++ [10]) [])
     (λ r w, r = false ∧ x_runs w = attempts fork_ok exec_ok args 0 (take fuel ls ++ replicate (fuel - length ls) [])).
Proof.
  intros args ls Hch Hfr Hb H0. split; [rewrite /command; cbn; by rewrite !take_nil app_nil_r|].
  apply (xargs_loop_forever child fork_ok exec_ok fresh); try done; [rewrite length_take; lia| |right; by exists l]. intros [?|?]%elem_of_app; [done|]. set_solver.
Qed.

(** [(echo a b; echo c) | xargs e x], where the second fork fails: one command a
    line, or commands without end *)
Definition demo_lines : list Z := [97; 32; 98; 10; 99].
Definition demo_xargv : list (list Z) := [[120]; [101]; [120]].
Definition demo_fork (k : nat) : bool := negb (k =? 1)%nat.
Lemma xargs_correct_witness :
  wp (xargs (λ _ i, i) demo_fork (λ _ _, true) (λ _, 0) 5 demo_xargv 0 (replicate XBUF 0)) (mk_xworld (demo_lines ++ [10]) [])
     (λ r w, r = true ∧ x_runs w = [Ran [[101]; [120]; [97]; [98]]; ForkFailed [[101]; [120]; [99]]]).
Proof.
  eapply wp_mono; [apply (xargs_correct (λ _ i, i) demo_fork (λ _ _, true) (λ _, 0) 5 demo_xargv 0 (replicate XBUF 0) (demo_lines ++ [10]))|].
  - done.
  - intros _. lia.
  - apply length_replicate.
  - cbn. set_solver by lia.
  - cbn. lia.
  - intros r w [-> ->]. split; [done|]. by vm_compute.
Defined.
Lemma xargs_never_ends_witness :
  wp (xargs (λ _ i, i) demo_fork (λ _ _, true) (λ c, c) 4 demo_xargv 0 (replicate XBUF 0)) (mk_xworld (demo_lines ++ [10]) [])
     (λ r w, r = false ∧ x_runs w = [Ran [[101]; [120]; [97]; [98]]; ForkFailed [[101]; [120]; [99]]; Ran [[101]; [120]]; Ran [[101]; [120]]]).
Proof.
  eapply wp_mono; [apply (xargs_never_ends (λ _ i, i) demo_fork (λ _ _, true) (λ c, c) 4 demo_xargv 0 (replicate XBUF 0) demo_lines)|].
  - done.
  - done.
  - apply length_replicate.
  - rewrite /demo_lines. set_solver by lia.
  - intros r w [-> ->]. split; [done|]. by vm_compute.
Defined.
