(* ===== verification/Find.v ===== *)
(** * user/find.c

    The file system is what the calls of the kernel show of it: [look] gives,
    for a path that exists, the type that [fstat] reports and, for a directory,
    the entries that successive calls of [read] return.  Nothing is written
    while find runs.  [free] is the number of descriptors the process still has:
    a call of find holds one while it looks at its directory, and [stat] (ulib.c)
    opens one for a moment.

    The output is the bytes printed on descriptor 1 and the messages printed on
    descriptor 2. *)
From S2P Require Import Prelude Riscv CString Kalloc Vm Cache Log Fs Split Xargs.

Record dirent := mk_dirent { de_inum : Z; de_name : list Z }.
Record ent := mk_ent { e_type : Z; e_entries : list dirent }.
Inductive message := CannotOpen (path : list Z) | NotDir (path : list Z) | TooLong | CannotStat (path : list Z).
Definition output : Type := list Z * list message.
Definition BUFSIZE : Z := 512.
Definition SLASH_CH : Z := 47.
Definition out_app (o1 o2 : output) : output := (o1.1 ++ o2.1, o1.2 ++ o2.2).

(** A tree of directories, whose entries have names *)
Inductive tree := TFile | TDir (f : forest)
with forest := Fnil | Fcons (nm : list Z) (t : tree) (f : forest).
Fixpoint height (t : tree) : nat :=
  match t with TFile => 0 | TDir f => S (fheight f) end
with fheight (f : forest) : nat :=
  match f with Fnil => 0 | Fcons _ t f' => Nat.max (height t) (fheight f') end.
Fixpoint fnames (f : forest) : list (list Z) :=
  match f with Fnil => [] | Fcons nm _ f' => nm :: fnames f' end.

Section find.
(** [past] is what follows [de] in memory: [strcmp] runs on into it when a name
    has all its 14 bytes. *)
Context (look : list Z → option ent) (past filename : list Z).

(** [stat] of ulib.c: the type, if the file can be opened *)
Definition stat_type (free : nat) (path : list Z) : option Z :=
  match free, look path with
  | S _, Some e => Some (e_type e)
  | _, _ => None
  end.
(** [strcmp(de.name, s) == 0] *)
Definition name_is (de : dirent) (s : list Z) : bool := bool_decide (cut0 (de_name de ++ past) = s).

(** The loop over the entries of the directory [path]; [rec] is the recursive
    call. *)
Fixpoint find_loop (rec : nat → list Z → option output) (free : nat) (path : list Z) (es : list dirent) : option output :=
  match es with
  | [] => Some ([], [])
  | de :: es' =>
      if de_inum de =? 0 then find_loop rec free path es'
      else
        let buf := path ++ [SLASH_CH] ++ cut0 (de_name de) in
        match stat_type free buf with
        | None => o ← find_loop rec free path es'; Some (out_app ([], [CannotStat buf]) o)
        | Some type =>
            if name_is de [46] || name_is de [46; 46] then find_loop rec free path es'
            else
              let o1 := if name_is de filename then (buf ++ [10], []) else ([], []) in
              o2 ← (if type =? T_DIR then rec free buf else Some ([], []));
              o ← find_loop rec free path es';
              Some (out_app o1 (out_app o2 o))
        end
  end.
(** [None] is a recursion deeper than [fuel]. *)
Fixpoint find (fuel : nat) (free : nat) (path : list Z) : option output :=
  match fuel with
  | O => None
  | S fuel' =>
      match free, look path with
      | S free', Some e =>
          if negb (e_type e =? T_DIR) then Some ([], [NotDir path])
          else if Z.of_nat (length path) + 1 + DIRSIZ + 1 >? BUFSIZE then Some ([], [TooLong])
          else find_loop (find fuel') free' path (e_entries e)
      | _, _ => Some ([], [CannotOpen path])
      end
  end.

(** ** What find should print *)
(** The paths below [path] whose last element is [filename], directories before
    what is in them *)
Fixpoint found (path : list Z) (t : tree) : list (list Z) :=
  match t with
  | TFile => []
  | TDir f => ffound path f
  end
with ffound (path : list Z) (f : forest) : list (list Z) :=
  match f with
  | Fnil => []
  | Fcons nm t f' =>
      let p := path ++ [SLASH_CH] ++ nm in
      (if bool_decide (nm = filename) then [p] else []) ++ found p t ++ ffound path f'
  end.

(** An entry of a directory that find looks at *)
Definition shown (de : dirent) : bool :=
  negb (de_inum de =? 0) && negb (bool_decide (cut0 (de_name de) = [46])) && negb (bool_decide (cut0 (de_name de) = [46; 46])).
Definition entry_shown (path : list Z) (de : dirent) : Prop :=
  length (de_name de) = 14%nat ∧ (de_inum de ≠ 0 → look (path ++ [SLASH_CH] ++ cut0 (de_name de)) ≠ None).
(** [look] shows the tree [t] at [path]. *)
Fixpoint shows (path : list Z) (t : tree) : Prop :=
  match t with
  | TFile => ∃ e, look path = Some e ∧ e_type e ≠ T_DIR
  | TDir f => ∃ es, look path = Some (mk_ent T_DIR es) ∧ Forall (entry_shown path) es ∧ (λ de, cut0 (de_name de)) <$> List.filter shown es = fnames f ∧
      Z.of_nat (length path) + 1 + DIRSIZ + 1 ≤ BUFSIZE ∧ fshows path f
  end
with fshows (path : list Z) (f : forest) : Prop :=
  match f with
  | Fnil => True
  | Fcons nm t f' => shows (path ++ [SLASH_CH] ++ nm) t ∧ fshows path f'
  end.

(** ** The proof *)
Lemma cut0_app_short l l' : (length (cut0 l) < length l)%nat → cut0 (l ++ l') = cut0 l.
Proof. induction l as [|b l IH]; cbn [cut0 app length]; [lia|]. destruct (b =? 0); [done|]. cbn [length]. intros H. rewrite IH; [done|lia]. Qed.
Lemma cut0_app_full l l' : (length (cut0 l) = length l)%nat → cut0 (l ++ l') = l ++ cut0 l' ∧ cut0 l = l.
Proof. induction l as [|b l IH]; cbn [cut0 app length]; [done|]. destruct (b =? 0); [intros H; discriminate H|]. cbn [length]. intros H. destruct IH as [-> ->]; [lia|done]. Qed.
Lemma length_cut0 l : (length (cut0 l) ≤ length l)%nat.
Proof. induction l as [|b l IH]; cbn [cut0 length]; [done|]. destruct (b =? 0); cbn [length]; lia. Qed.
Lemma name_is_short de s : length (de_name de) = 14%nat → (length s < 14)%nat → name_is de s = bool_decide (cut0 (de_name de) = s).
Proof.
  intros Hl Hs. rewrite /name_is. pose proof (length_cut0 (de_name de)). destruct (decide (length (cut0 (de_name de)) < 14)%nat).
  - rewrite cut0_app_short; [done|lia].
  - destruct (cut0_app_full (de_name de) past) as [-> ->]; [lia|]. rewrite !bool_decide_eq_false_2 //; intros E; apply (f_equal length) in E; rewrite ?length_app in E; lia.
Qed.

Hypothesis Hfn : (length filename < 14)%nat.
(** The output for a list of paths *)
Definition printed (l : list (list Z)) : output := (concat ((λ p, p ++ [10]) <$> l), []).
Lemma find_printed_app l1 l2 : out_app (printed l1) (printed l2) = printed (l1 ++ l2).
Proof using Type. rewrite /out_app /printed. cbn [fst snd]. by rewrite fmap_app concat_app. Qed.

Lemma find_loop_spec rec free path es f : Forall (entry_shown path) es → (λ de, cut0 (de_name de)) <$> List.filter shown es = fnames f → fshows path f →
  (∀ p t, shows p (TDir t) → (fheight t < fheight f)%nat → rec (S free) p = Some (printed (ffound p t))) →
  find_loop rec (S free) path es = Some (printed (ffound path f)).
Proof using Hfn.
  intros Hes. revert f. induction Hes as [|de es [Hlen Hlook] Hes IH]; intros f Hn Hf Hrec.
  { destruct f; [done|discriminate Hn]. }
  cbn [find_loop]. cbn [List.filter] in Hn. destruct (Z.eqb_spec (de_inum de) 0) as [Hz|Hnz].
  { rewrite /shown Hz in Hn. by apply IH. }
  set (buf := path ++ [SLASH_CH] ++ cut0 (de_name de)) in *. rewrite !name_is_short //; [|cbn; lia..]. cbn [stat_type]. destruct (look buf) as [e|] eqn:El; [|by destruct (Hlook Hnz)].
  rewrite /shown (proj2 (Z.eqb_neq _ _) Hnz) in Hn. cbn [negb andb] in Hn.
  destruct (bool_decide (cut0 (de_name de) = [46])); cbn [negb andb orb] in *; [by apply IH|].
  destruct (bool_decide (cut0 (de_name de) = [46; 46])); cbn [negb andb orb] in *; [by apply IH|].
  destruct f as [|nm t f']; [discriminate Hn|]. cbn [fnames fmap list_fmap] in Hn. injection Hn as Hnm Hn. cbn [fshows] in Hf. destruct Hf as [Ht Hf]. cbn [fheight] in Hrec.
  assert (find_loop rec (S free) path es = Some (printed (ffound path f'))) as -> by (apply IH; [done|done|]; intros p t' Hp Hlt; apply Hrec; [done|lia]).
  cbn [ffound]. rewrite -Hnm. fold buf. rewrite -Hnm in Ht. fold buf in Ht. rewrite -!find_printed_app.
  assert ((if e_type e =? T_DIR then rec (S free) buf else Some ([], [])) = Some (printed (found buf t))) as ->.
  { destruct t as [|g]; cbn [shows] in Ht.
    - destruct Ht as (e' & E & Ht). assert (e' = e) as -> by congruence. by rewrite (proj2 (Z.eqb_neq _ _) Ht).
    - pose proof Ht as (es' & E & _). rewrite El in E. injection E as ->. rewrite Z.eqb_refl. cbn [found]. apply Hrec; [done|]. cbn [height]. lia. }
  cbn [mbind option_bind]. assert (printed [buf] = (buf ++ [10], [])) as Ep by (rewrite /printed; cbn; by rewrite app_nil_r). destruct (bool_decide (cut0 (de_name de) = filename)); [by rewrite Ep|done].
Qed.
Lemma find_spec fuel free path f : shows path (TDir f) → (fheight f < fuel)%nat → (fheight f + 1 < free)%nat → find fuel free path = Some (printed (ffound path f)).
Proof using Hfn.
  revert free path f. induction fuel as [|fuel IH]; intros free path f Hs Hfuel Hfree; [lia|]. cbn [find]. destruct free as [|[|free]]; [lia|lia|]. cbn [shows] in Hs. destruct Hs as (es & -> & Hes & Hn & Hlen & Hf). cbn [e_type e_entries]. rewrite Z.eqb_refl. cbn [negb].
  rewrite Z.gtb_ltb (proj2 (Z.ltb_ge _ _)); [|done]. apply find_loop_spec; try done. intros p t Hp Hlt. apply IH; [done|lia|lia].
Qed.

(** C22. find prints the path of every file and directory below the given
    directory that has the given name, each on a line, a directory before what is
    in it, skipping unused entries and [.] and [..], with no error message: for a
    tree of any shape whose paths fit in the buffer and whose depth leaves a
    descriptor free, and a name that is shorter than a directory entry allows. *)
Theorem find_correct fuel free path f : shows path (TDir f) → (fheight f < fuel)%nat → (fheight f + 1 < free)%nat →
  find fuel free path = Some (concat ((λ p, p ++ [10]) <$> ffound path f), []).
Proof using Hfn. apply find_spec. Qed.
End find.

(** [.] with the entries [.], [..], an unused one, [b] and the directory [a],
    which has a [b] *)
Definition demo_look (path : list Z) : option ent :=
  let de i nm := mk_dirent i (nm ++ replicate (14 - length nm) 0) in
  if bool_decide (path = [46]) then Some (mk_ent T_DIR [de 1 [46]; de 1 [46; 46]; de 0 [99]; de 2 [98]; de 3 [97]])
  else if bool_decide (path = [46; 47; 97]) then Some (mk_ent T_DIR [de 3 [46]; de 1 [46; 46]; de 4 [98]])
  else if bool_decide (path ∈ [[46; 47; 98]; [46; 47; 97; 47; 98]]) then Some (mk_ent T_FILE [])
  else if bool_decide (path ∈ [[46; 47; 46]; [46; 47; 46; 46]; [46; 47; 97; 47; 46]; [46; 47; 97; 47; 46; 46]]) then Some (mk_ent T_DIR [])
  else None.
Definition demo_forest : forest := Fcons [98] TFile (Fcons [97] (TDir (Fcons [98] TFile Fnil)) Fnil).
Lemma demo_shows : shows demo_look [46] (TDir demo_forest).
Proof.
  eexists. split; [reflexivity|]. split; [repeat (apply Forall_cons_2; [split; [reflexivity|intros Hn; first [by destruct Hn|vm_compute; discriminate]]|]); apply Forall_nil_2|]. split; [reflexivity|]. split; [by vm_compute|]. split; [eexists; split; [reflexivity|discriminate]|]. split; [|done].
  eexists. split; [reflexivity|]. split; [repeat (apply Forall_cons_2; [split; [reflexivity|intros Hn; first [by destruct Hn|vm_compute; discriminate]]|]); apply Forall_nil_2|]. split; [reflexivity|]. split; [by vm_compute|]. split; [eexists; split; [reflexivity|discriminate]|done].
Qed.
(** [find . b] prints [./b] and [./a/b]. *)
Lemma find_correct_witness : find demo_look [] [98] 10 13 [46] = Some ([46; 47; 98; 10; 46; 47; 97; 47; 98; 10], []).
Proof. apply (find_correct demo_look [] [98] ltac:(cbn; lia) 10 13 [46] demo_forest demo_shows); cbn; lia. Defined.
