(* ===== verification/UserProgs.v ===== *)
(** * Small user programs: cat.c, wc.c, echo.c, sleep.c and kill.c

    A file that is read is the list of the pieces that successive calls of
    [read] return, of any sizes, and whether the last call fails.  What a program
    does is the list of the calls it makes that have an effect. *)
From S2P Require Import Prelude Riscv CString Kern Console Printf PrintfInv UPrintf Grep Split Ulib.

(** The calls, with what is passed to the kernel *)
Inductive effect := EWrite (fd : Z) (bs : list Z) | ESleep (n : Z) | EKill (pid : Z) | EExit (status : Z).
(** The pieces [read] returns, and whether it fails at the end rather than
    return 0 *)
Record stream := mk_stream { s_pieces : list (list Z); s_fails : bool }.
Definition s_bytes (f : stream) : list Z := concat (s_pieces f).

(** ** cat.c *)
Definition cat_write_error : list Z := [99; 97; 116; 58; 32; 119; 114; 105; 116; 101; 32; 101; 114; 114; 111; 114; 10].
Definition cat_read_error : list Z := [99; 97; 116; 58; 32; 114; 101; 97; 100; 32; 101; 114; 114; 111; 114; 10].
Definition cat_cannot_open (name : list Z) : list Z := [99; 97; 116; 58; 32; 99; 97; 110; 110; 111; 116; 32; 111; 112; 101; 110; 32] ++ name ++ [10].
Section cat.
(** The result of [write(1, buf, n)], and the files *)
Context (written : list Z → Z) (open : list Z → option stream).
Fixpoint cat_loop (pieces : list (list Z)) (fails : bool) : list effect * bool :=
  match pieces with
  | [] => if fails then ([EWrite 2 cat_read_error; EExit 1], false) else ([], true)
  | p :: ps =>
      if negb (written p =? Z.of_nat (length p)) then ([EWrite 1 p; EWrite 2 cat_write_error; EExit 1], false)
      else let '(es, ok) := cat_loop ps fails in (EWrite 1 p :: es, ok)
  end.
(** Whether [cat] returned, rather than exit *)
Definition cat (f : stream) : list effect * bool := cat_loop (s_pieces f) (s_fails f).
Fixpoint cat_files (argv : list (list Z)) : list effect :=
  match argv with
  | [] => [EExit 0]
  | a :: argv' =>
      match open a with
      | None => [EWrite 2 (cat_cannot_open a); EExit 1]
      | Some f => let '(es, ok) := cat f in es ++ (if ok : bool then cat_files argv' else [])
      end
  end.
Definition cat_main (argv : list (list Z)) (stdin : stream) : list effect :=
  match argv with
  | _ :: (_ :: _) as args => cat_files args
  | _ => let '(es, ok) := cat stdin in es ++ (if ok : bool then [EExit 0] else [])
  end.
End cat.

(** ** wc.c *)
Definition wc_blanks : list Z := [32; 13; 9; 10; 11].
Definition is_space (c : Z) : bool := match strchr wc_blanks c with Some _ => true | None => false end.
Record counts := mk_counts { n_l : Z; n_w : Z; n_c : Z; n_inword : bool }.
Definition wc_byte (s : counts) (b : Z) : counts :=
  let c := s32 (n_c s + 1) in
  let l := if b =? 10 then s32 (n_l s + 1) else n_l s in
  if is_space b then mk_counts l (n_w s) c false
  else if negb (n_inword s) then mk_counts l (s32 (n_w s + 1)) c true
  else mk_counts l (n_w s) c (n_inword s).
(** [while((n = read(fd, buf, sizeof(buf))) > 0) for(i=0; i<n; i++)] *)
Fixpoint wc_loop (s : counts) (pieces : list (list Z)) : counts :=
  match pieces with
  | [] => s
  | p :: ps => wc_loop (fold_left wc_byte p s) ps
  end.
Definition wc_read_error : list Z := [119; 99; 58; 32; 114; 101; 97; 100; 32; 101; 114; 114; 111; 114; 10].
Definition wc_fmt : list Z := [37; 100; 32; 37; 100; 32; 37; 100; 32; 37; 115; 10].
(** [name] is the address of the name, [str] gives the strings *)
Definition wc (str : Z → list Z) (f : stream) (name : Z) : option (list Z) :=
  let s := wc_loop (mk_counts 0 0 0 false) (s_pieces f) in
  if s_fails f then Some wc_read_error else vprintf str wc_fmt [n_l s; n_w s; n_c s; name].

(** ** echo.c *)
Fixpoint echo_loop (args : list (list Z)) : list effect :=
  match args with
  | [] => []
  | a :: args' => EWrite 1 a :: EWrite 1 (match args' with [] => [10] | _ => [32] end) :: echo_loop args'
  end.
Definition echo_main (argv : list (list Z)) : list effect := echo_loop (drop 1 argv) ++ [EExit 0].

(** ** sleep.c and kill.c *)
Definition sleep_usage : list Z := [233; 156; 128; 232; 166; 129; 228; 184; 128; 228; 184; 170; 229; 143; 130; 230; 149; 176].
Definition kill_usage : list Z := [117; 115; 97; 103; 101; 58; 32; 107; 105; 108; 108; 32; 112; 105; 100; 46; 46; 46; 10].
Section args.
(** The memory of the process, with the strings of [argv] *)
Context (m : mem) (fuel : nat).
Definition sleep_main (argv : list Z) : option (list effect) :=
  match argv with
  | _ :: a :: _ => i ← atoi fuel m a; Some [ESleep i; EExit 0]
  | _ => Some [EWrite 2 sleep_usage; EExit 1]
  end.
Fixpoint ukill_loop (args : list Z) : option (list effect) :=
  match args with
  | [] => Some [EExit 0]
  | a :: args' => pid ← atoi fuel m a; es ← ukill_loop args'; Some (EKill pid :: es)
  end.
Definition ukill_main (argv : list Z) : option (list effect) :=
  match argv with
  | _ :: (_ :: _) as args => ukill_loop args
  | _ => Some [EWrite 2 kill_usage; EExit 1]
  end.
End args.

(** ** What they print *)
Definition out_bytes (fd : Z) (es : list effect) : list Z := concat ((λ e, match e with EWrite fd' bs => if fd' =? fd then bs else [] | _ => [] end) <$> es).
Lemma out_bytes_app fd es1 es2 : out_bytes fd (es1 ++ es2) = out_bytes fd es1 ++ out_bytes fd es2.
Proof. by rewrite /out_bytes fmap_app concat_app. Qed.

Section cat_spec.
Context (written : list Z → Z) (open : list Z → option stream).
Hypothesis Hw : ∀ bs, written bs = Z.of_nat (length bs).
Lemma cat_spec f : s_fails f = false → ∃ es, cat written f = (es, true) ∧ out_bytes 1 es = s_bytes f ∧ out_bytes 2 es = [].
Proof using Hw.
  rewrite /cat /s_bytes. intros ->. induction (s_pieces f) as [|p ps (es & E & E1 & E2)]; cbn [cat_loop]; [by exists []|]. rewrite Hw Z.eqb_refl E. cbn [negb]. exists (EWrite 1 p :: es). split; [done|].
  rewrite /out_bytes in E1, E2 |- *. cbn [fmap list_fmap concat Z.eqb Pos.eqb]. by rewrite E1 E2.
Qed.
(** cat prints the contents of its arguments one after the other, whatever
    pieces they come in, and exits with status 0. *)
Theorem cat_correct prog a argv fs stdin : mapM open (a :: argv) = Some fs → Forall (λ f, s_fails f = false) fs →
  ∃ es, cat_main written open (prog :: a :: argv) stdin = es ++ [EExit 0] ∧ out_bytes 1 es = concat (s_bytes <$> fs) ∧ out_bytes 2 es = [].
Proof using Hw.
  cbn [cat_main]. generalize (a :: argv). clear a argv. intros argv. revert fs. induction argv as [|a argv IH]; intros fs Hfs Hok; cbn [cat_files].
  - injection Hfs as <-. by exists [].
  - cbn in Hfs. destruct (open a) as [f|]; [|discriminate Hfs]. cbn in Hfs. destruct (mapM open argv) as [fs'|]; [|discriminate Hfs]. injection Hfs as <-. apply Forall_cons in Hok as [Hf Hok].
    destruct (cat_spec f Hf) as (es1 & -> & E1 & E1'). destruct (IH fs' eq_refl Hok) as (es2 & -> & E2 & E2'). exists (es1 ++ es2). rewrite app_assoc !out_bytes_app E1 E1' E2 E2'. done.
Qed.
End cat_spec.

Lemma wc_loop_concat s ps : wc_loop s ps = fold_left wc_byte (concat ps) s.
Proof. revert s. induction ps as [|p ps IH]; intros s; cbn [wc_loop concat]; [done|]. by rewrite IH fold_left_app. Qed.
(** The words that start in [l], inside a word or not *)
Definition words_from (inword : bool) (l : list Z) : Z :=
  Z.of_nat (length (elems is_space l)) - (if inword && negb (match l with [] => true | b :: _ => is_space b end) then 1 else 0).
Lemma elems_word b l : is_space b = false → length (elems is_space (b :: l)) = (match l with c :: _ => if is_space c then S (length (elems is_space l)) else length (elems is_space l) | [] => 1 end)%nat.
Proof.
  intros Hb. destruct l as [|c l]; [rewrite /elems; cbn [pieces]; by rewrite Hb|]. destruct (elems_cons is_space b (c :: l) Hb) as [-> _]. cbn [first_elem]. rewrite Hb. destruct (is_space c) eqn:Ec; [done|].
  destruct (elems_cons is_space c l Ec) as [-> _]. cbn [first_elem]. rewrite Ec. by destruct (first_elem is_space l).
Qed.
Lemma wc_fold l s : 0 ≤ n_l s → 0 ≤ n_w s → 0 ≤ n_c s → n_l s + Z.of_nat (length l) < 2 ^ 31 → n_w s + Z.of_nat (length l) < 2 ^ 31 → n_c s + Z.of_nat (length l) < 2 ^ 31 →
  let s' := fold_left wc_byte l s in
  n_l s' = n_l s + Z.of_nat (length (List.filter (λ b, b =? 10) l)) ∧ n_w s' = n_w s + words_from (n_inword s) l ∧ n_c s' = n_c s + Z.of_nat (length l).
Proof.
  revert s. induction l as [|b l IH]; intros [nl nw nc inw] Hl Hw Hc Hl' Hw' Hc'; cbn [fold_left n_l n_w n_c n_inword length List.filter] in *.
  { rewrite /words_from. change (elems is_space []) with (@nil (list Z)). cbn [length negb]. rewrite andb_false_r. split_and!; lia. }
  assert (wc_byte (mk_counts nl nw nc inw) b = mk_counts (if b =? 10 then nl + 1 else nl) (if is_space b then nw else if inw then nw else nw + 1) (nc + 1) (negb (is_space b))) as ->.
  { rewrite /wc_byte. cbn [n_l n_w n_c n_inword]. rewrite !s32_small; [|lia..]. destruct (is_space b), inw; done. }
  destruct (IH (mk_counts (if b =? 10 then nl + 1 else nl) (if is_space b then nw else if inw then nw else nw + 1) (nc + 1) (negb (is_space b)))) as (E1 & E2 & E3); cbn [n_l n_w n_c n_inword] in *; try (destruct (b =? 10), (is_space b), inw; lia).
  rewrite E1 E2 E3. split; [destruct (b =? 10); cbn [length]; lia|]. split; [|lia]. rewrite /words_from. destruct (is_space b) eqn:Eb; cbn [negb andb].
  - rewrite elems_sep // andb_false_r. lia.
  - rewrite elems_word // andb_true_r. destruct l as [|c l]; cbn [negb]; [change (elems is_space []) with (@nil (list Z)); cbn [length]; destruct inw; lia|]. destruct (is_space c), inw; cbn [negb]; lia.
Qed.
(** C23. wc counts newlines, words and bytes of its input, whatever pieces [read]
    returns it in: the words are the maximal runs of bytes other than blanks, also
    those that straddle two pieces.  It prints the three numbers and the name. *)
Theorem wc_correct str f name : s_fails f = false → Z.of_nat (length (s_bytes f)) < 2 ^ 31 →
  wc str f name = vprintf str wc_fmt [Z.of_nat (length (List.filter (λ b, b =? 10) (s_bytes f))); Z.of_nat (length (elems is_space (s_bytes f))); Z.of_nat (length (s_bytes f)); name].
Proof.
  intros Hf Hlen. unfold wc. rewrite Hf wc_loop_concat. fold (s_bytes f). pose proof (wc_fold (s_bytes f) (mk_counts 0 0 0 false)) as H. cbn [n_l n_w n_c n_inword] in H.
  destruct (H ltac:(lia) ltac:(lia) ltac:(lia) ltac:(lia) ltac:(lia) ltac:(lia)) as (E1 & E2 & E3). unfold words_from in E2. cbn [andb] in E2. rewrite Z.sub_0_r Z.add_0_l in E2. rewrite Z.add_0_l in E1. rewrite Z.add_0_l in E3.
  rewrite E1 E2 E3. reflexivity.
Qed.
(** [a b\nc\n], in pieces that cut the word [b] *)
Lemma wc_correct_witness : wc (λ _, [102]) (mk_stream [[97; 32; 98]; [98; 10; 99]; [10]] false) 1 = Some [50; 32; 51; 32; 55; 32; 102; 10].
Proof. rewrite (wc_correct (λ _, [102]) (mk_stream [[97; 32; 98]; [98; 10; 99]; [10]] false) 1); [by vm_compute|done|by vm_compute]. Defined.

(** echo prints its arguments separated by spaces, with a newline at the end. *)
Theorem echo_correct prog args : args ≠ [] →
  out_bytes 1 (echo_main (prog :: args)) = concat (removelast (concat ((λ a, [a; [32]]) <$> args))) ++ [10].
Proof.
  intros Hne. rewrite /echo_main out_bytes_app. change (drop 1 (prog :: args)) with args. rewrite app_nil_r. induction args as [|a args IH]; [done|]. destruct args as [|b args].
  - cbn. by rewrite !app_nil_r.
  - specialize (IH ltac:(done)). change (out_bytes 1 (echo_loop (a :: b :: args))) with (a ++ [32] ++ out_bytes 1 (echo_loop (b :: args))). rewrite IH.
    change (concat ((λ x, [x; [32]]) <$> a :: b :: args)) with (a :: [32] :: concat ((λ x, [x; [32]]) <$> b :: args)).
    destruct (concat ((λ x, [x; [32]]) <$> b :: args)) as [|x xs] eqn:E; [discriminate E|]. cbn [removelast]. destruct xs as [|y ys]; cbn [concat]; by rewrite -!app_assoc.
Qed.
(** sleep asks for the number of ticks that its argument spells. *)
Theorem sleep_correct n prog m fuel a ds rest : 0 ≤ n < 2 ^ 31 → uprintint n 10 true = Some ds → cstr_at m a ds → (length ds < fuel)%nat →
  sleep_main m fuel (prog :: a :: rest) = Some [ESleep n; EExit 0].
Proof.
  intros Hn Hp Ha Hf. destruct (atoi_digits n Hn) as (ds' & E & H). assert (ds' = ds) as -> by congruence. cbn [sleep_main]. by rewrite (H fuel m a Ha Hf).
Qed.
